(** * namespace-sandbox: a shallow embedding and its verified properties

    The development follows [src/namespace-sandbox/namespace-sandbox.c],
    [process-tools.h] and [process-tools.c].  C functions keep their names.  A C function that may
    call [exit] is a function from a world to an [outcome]; the world holds
    what the function can observe or change (files, [errno], what was
    written to stderr, the system calls issued).  What belongs to the C
    library or to the kernel ([getopt], [dirname], [hasmntopt], [stat],
    [mkdir], [open], [mount], [unshare]) is modelled by its documented
    behaviour and said so where it is defined.

    Contents: the file tree and CreateTarget; GetMountFlags; the options
    structure, AddMountSource, getopt, ParseOptionsFile and
    ParseCommandLine; the user mounts of SetupDirectories, CreateNamespaces
    and SetupUserNamespace; sample inputs; the mount-entry state machine and
    the argument files of the specification; option tokens and what the
    parser keeps; the rest of SetupDirectories with SetupDevices; the events
    of CreateNamespaces; SwitchToEuid, SwitchToEgid and Redirect; the mount
    flags of a command line and of its argument files in declaration order;
    then the theorems, in the same order. *)

From Stdlib Require Import ZArith String Ascii List Lia Bool.
From stdpp Require Import base option list strings gmap pretty.

Local Open Scope string_scope.
Local Open Scope list_scope.
Local Open Scope Z_scope.

(** ** Outcomes of C functions *)

Inductive outcome (W A : Type) : Type :=
| Returns (a : A) (w : W)      (* the function returns [a] *)
| Exits (status : Z) (w : W)   (* [exit(status)] was called *)
| Undefined                    (* an access outside an allocated object *)
| OutOfFuel.                   (* the recursion did not end within the fuel *)

Arguments Returns {W A} a w.
Arguments Exits {W A} status w.
Arguments Undefined {W A}.
Arguments OutOfFuel {W A}.

Definition prog (W A : Type) : Type := W -> outcome W A.

Definition pure {W A} (a : A) : prog W A := fun w => Returns a w.

Definition bind {W A B} (m : prog W A) (k : A -> prog W B) : prog W B :=
  fun w =>
    match m w with
    | Returns a w' => k a w'
    | Exits s w' => Exits s w'
    | Undefined => Undefined
    | OutOfFuel => OutOfFuel
    end.

Notation "'let*' x ':=' m 'in' k" := (bind m (fun x => k))
  (at level 10, x pattern, m at level 100, k at level 200).

Definition EXIT_FAILURE : Z := 1.
Definition EXIT_SUCCESS : Z := 0.

(** [errno] values of Linux ([asm-generic/errno-base.h]). *)
Definition ENOENT : Z := 2.
Definition EEXIST : Z := 17.
Definition ENOTDIR : Z := 20.
Definition EISDIR : Z := 21.
Definition EINVAL : Z := 22.

(** Mount flags of [sys/mount.h]. *)
Definition MS_RDONLY : Z := 1.
Definition MS_NOSUID : Z := 2.
Definition MS_NODEV : Z := 4.
Definition MS_NOEXEC : Z := 8.
Definition MS_REMOUNT : Z := 32.
Definition MS_BIND : Z := 4096.
Definition MS_REC : Z := 16384.

(** ** C strings *)

Definition slash : ascii := "/"%char.
Definition newline : ascii := "010"%char.
Definition nul : ascii := "000"%char.

Definition chars (s : string) : list ascii := list_ascii_of_string s.
Definition str (l : list ascii) : string := string_of_list_ascii l.

Definition is_slash (c : ascii) : bool := Ascii.eqb c slash.

(** [path[0] == '/'] *)
Definition starts_with_slash (s : string) : bool :=
  match s with
  | String c _ => is_slash c
  | EmptyString => false
  end.

(** The pieces of a path between its slashes: ["a/b"] gives [["a"; "b"]],
    ["/a"] gives [[""; "a"]], ["a/"] gives [["a"; ""]]. *)
Fixpoint split_slash (s : string) : list string :=
  match s with
  | EmptyString => [EmptyString]
  | String c s' =>
      if is_slash c then EmptyString :: split_slash s'
      else match split_slash s' with
           | x :: xs => String c x :: xs
           | [] => [String c EmptyString]
           end
  end.

(** ** dirname(3)

    The C library's [dirname], as glibc computes it: trailing slashes and the
    last component are dropped; a path without a directory part gives ["."];
    a directory part made of slashes only gives ["/"], or ["//"] when it is
    exactly two slashes. *)

Fixpoint drop_slashes (r : list ascii) : list ascii :=
  match r with
  | c :: r' => if is_slash c then drop_slashes r' else r
  | [] => []
  end.

Fixpoint drop_component (r : list ascii) : list ascii :=
  match r with
  | c :: r' => if is_slash c then r else drop_component r'
  | [] => []
  end.

Definition root_of (slashes : list ascii) : string :=
  if (length slashes =? 2)%nat then "//" else "/".

Definition dirname (p : string) : string :=
  let r := rev (chars p) in
  match drop_slashes r with
  | [] => match r with [] => "." | _ => root_of r end
  | r1 =>
      match drop_component r1 with
      | [] => "."
      | r2 =>
          match drop_slashes r2 with
          | [] => root_of r2
          | r3 => str (rev r3)
          end
      end
  end.

(** ** The file system seen by the sandbox builder

    Files are kept by their absolute name, a list of components from the
    root.  There are no symbolic links and no permission checks in this
    model; [stat], [mkdir] and [open] fail only for the reasons the path
    itself gives (a missing component, a component that is not a directory,
    a name already taken). *)

Inductive kind : Type := KDir | KReg | KOther.

Record node : Type := { n_kind : kind; n_mode : Z }.

Record mntent : Type := { mnt_dir : string; mnt_opts : string }.

Inductive syscall : Type :=
| SysMkdir (path : string) (mode : Z)
| SysOpenCreatExcl (path : string) (mode : Z)
| SysClose (path : string)
| SysMount (source target : string) (fstype : option string)
           (flags : Z) (data : option string).

Record world : Type := {
  w_files : gmap (list string) node;   (* the visible file tree *)
  w_cwd : list string;                 (* the current directory *)
  w_umask : Z;
  w_errno : Z;
  w_mtab : option (list mntent);       (* /proc/self/mounts, [None] if it cannot be opened *)
  w_garbage : Z;                       (* what an unset [struct stat] holds in [st_mode] *)
  w_debug : bool;                      (* global_debug *)
  w_stderr : list string;              (* lines written to stderr, oldest first *)
  w_calls : list syscall               (* state-changing system calls, oldest first *)
}.

Definition set_errno (e : Z) (w : world) : world :=
  {| w_files := w_files w; w_cwd := w_cwd w; w_umask := w_umask w;
     w_errno := e; w_mtab := w_mtab w; w_garbage := w_garbage w;
     w_debug := w_debug w; w_stderr := w_stderr w; w_calls := w_calls w |}.

Definition set_files (f : gmap (list string) node) (w : world) : world :=
  {| w_files := f; w_cwd := w_cwd w; w_umask := w_umask w;
     w_errno := w_errno w; w_mtab := w_mtab w; w_garbage := w_garbage w;
     w_debug := w_debug w; w_stderr := w_stderr w; w_calls := w_calls w |}.

Definition log_call (c : syscall) (w : world) : world :=
  {| w_files := w_files w; w_cwd := w_cwd w; w_umask := w_umask w;
     w_errno := w_errno w; w_mtab := w_mtab w; w_garbage := w_garbage w;
     w_debug := w_debug w; w_stderr := w_stderr w;
     w_calls := w_calls w ++ [c] |}.

Definition log_stderr (line : string) (w : world) : world :=
  {| w_files := w_files w; w_cwd := w_cwd w; w_umask := w_umask w;
     w_errno := w_errno w; w_mtab := w_mtab w; w_garbage := w_garbage w;
     w_debug := w_debug w; w_stderr := w_stderr w ++ [line];
     w_calls := w_calls w |}.

Definition is_dir (f : gmap (list string) node) (k : list string) : bool :=
  match f !! k with
  | Some n => match n_kind n with KDir => true | _ => false end
  | None => false
  end.

Definition stays (c : string) : bool := String.eqb c "" || String.eqb c ".".

(** Path resolution: from directory [cur], follow the components [cs]. *)
Fixpoint walk (f : gmap (list string) node) (cur : list string)
    (cs : list string) : Z + list string :=
  match cs with
  | [] => inr cur
  | c :: cs' =>
      match f !! cur with
      | None => inl ENOENT
      | Some n =>
          match n_kind n with
          | KDir =>
              if stays c then walk f cur cs'
              else if String.eqb c ".." then walk f (removelast cur) cs'
              else walk f (cur ++ [c]) cs'
          | _ => inl ENOTDIR
          end
      end
  end.

Definition start_dir (w : world) (p : string) : list string :=
  if starts_with_slash p then [] else w_cwd w.

Definition lookup_path (w : world) (p : string) : Z + node :=
  match p with
  | EmptyString => inl ENOENT
  | _ =>
      match walk (w_files w) (start_dir w p) (split_slash p) with
      | inl e => inl e
      | inr k =>
          match w_files w !! k with
          | Some n => inr n
          | None => inl ENOENT
          end
      end
  end.

(** [stat(path, &sb)]: [Some n] stands for the return value 0 with [sb]
    filled from [n], [None] for -1 with [errno] set. *)
Definition stat (p : string) : prog world (option node) :=
  fun w =>
    match lookup_path w p with
    | inr n => Returns (Some n) w
    | inl e => Returns None (set_errno e w)
    end.

Definition S_ISDIR (n : node) : bool :=
  match n_kind n with KDir => true | _ => false end.
Definition S_ISREG (n : node) : bool :=
  match n_kind n with KReg => true | _ => false end.

Definition is_empty_string (c : string) : bool := String.eqb c "".

Fixpoint drop_empty (l : list string) : list string :=
  match l with
  | c :: l' => if is_empty_string c then drop_empty l' else l
  | [] => []
  end.

(** The directory part and the last name of a path whose trailing slashes
    are ignored; [None] when the path has no name at all (["/"]). *)
Definition parent_and_name (p : string) : option (list string * string) :=
  match drop_empty (rev (split_slash p)) with
  | [] => None
  | name :: rparent => Some (rev rparent, name)
  end.

Definition ends_with_slash (p : string) : bool :=
  match rev (chars p) with
  | c :: _ => is_slash c
  | [] => false
  end.

Definition is_dot_name (c : string) : bool :=
  String.eqb c "." || String.eqb c "..".

Definition fail_with (e : Z) (w : world) : outcome world Z :=
  Returns (-1) (set_errno e w).

(** Where a new name would go: the key of the node to create, or the
    [errno] that [mkdir] and [open(O_CREAT | O_EXCL)] share. *)
Definition new_entry (w : world) (p : string) : Z + list string :=
  match p with
  | EmptyString => inl ENOENT
  | _ =>
      match parent_and_name p with
      | None => inl EEXIST
      | Some (parent, name) =>
          match walk (w_files w) (start_dir w p) parent with
          | inl e => inl e
          | inr k =>
              match w_files w !! k with
              | None => inl ENOENT
              | Some n =>
                  match n_kind n with
                  | KDir =>
                      if is_dot_name name then inl EEXIST
                      else match w_files w !! (k ++ [name]) with
                           | Some _ => inl EEXIST
                           | None => inr (k ++ [name])
                           end
                  | _ => inl ENOTDIR
                  end
              end
          end
      end
  end.

Definition create_node (k : list string) (kd : kind) (mode : Z) (w : world) : world :=
  set_files (<[k := {| n_kind := kd; n_mode := Z.ldiff mode (w_umask w) |}]> (w_files w)) w.

(** [mkdir(path, mode)] *)
Definition mkdir (p : string) (mode : Z) : prog world Z :=
  fun w0 =>
    let w := log_call (SysMkdir p mode) w0 in
    match new_entry w p with
    | inl e => fail_with e w
    | inr k => Returns 0 (create_node k KDir mode w)
    end.

(** [open(path, O_CREAT | O_WRONLY | O_EXCL, mode)]; the descriptor returned
    on success is not tracked, 3 stands for it. *)
Definition open_creat_excl (p : string) (mode : Z) : prog world Z :=
  fun w0 =>
    let w := log_call (SysOpenCreatExcl p mode) w0 in
    if ends_with_slash p then fail_with EISDIR w
    else match new_entry w p with
         | inl e => fail_with e w
         | inr k => Returns 3 (create_node k KReg mode w)
         end.

(** [close(fd)] of a descriptor just opened. *)
Definition close (p : string) : prog world Z :=
  fun w => Returns 0 (log_call (SysClose p) w).

(** [DIE], [CHECK_CALL] and [CHECK_CALL_MSG] of process-tools.h: the line
    written to stderr is the text of the expression or the message. *)
Definition DIE {A} (msg : string) : prog world A :=
  fun w => Exits EXIT_FAILURE (log_stderr msg w).

Definition CHECK_CALL (expr : string) (m : prog world Z) : prog world Z :=
  let* r := m in if r =? -1 then DIE expr else pure r.

Definition CHECK_CALL_MSG (m : prog world Z) (msg : string) : prog world Z :=
  let* r := m in if r =? -1 then DIE msg else pure r.

Definition PRINT_DEBUG (msg : string) : prog world unit :=
  fun w => Returns tt (if w_debug w then log_stderr msg w else w).

Definition CreateFile (path : string) : prog world unit :=
  let* handle := CHECK_CALL_MSG (open_creat_excl path 438 (* 0666 *))
                               ("cannot create " +:+ path) in
  let* _ := CHECK_CALL "close(handle)" (close path) in
  pure tt.

Definition ROOT_DIR : string := ".".

(** Recursively creates the file or directory [path] and its parents.
    [path = None] is the NULL pointer.  The fuel bounds the depth of the
    recursion on [dirname]. *)
Fixpoint CreateTarget (fuel : nat) (path : option string)
    (is_directory : bool) : prog world Z :=
  match fuel with
  | O => fun _ => OutOfFuel
  | S fuel' =>
      match path with
      | None => fun w => Returns (-1) (set_errno EINVAL w)
      | Some p0 =>
          let path := if (String.length p0 =? 0)%nat then ROOT_DIR else p0 in
          let* sb := stat path in
          match sb with
          | Some n =>
              if is_directory && S_ISDIR n then pure 0
              else if negb is_directory && S_ISREG n then pure 0
              else fun w =>
                     Returns (-1)
                       (set_errno (if is_directory then ENOTDIR else EEXIST) w)
          | None =>
              fun w =>
                if negb (w_errno w =? ENOENT) then Returns (-1) w
                else
                  (let* _ := CHECK_CALL "CreateTarget(dirname(strdupa(path)), true)"
                               (CreateTarget fuel' (Some (dirname path)) true) in
                   if is_directory then
                     let* _ := CHECK_CALL_MSG (mkdir path 493 (* 0755 *))
                                 ("cannot create " +:+ path) in
                     pure 0
                   else
                     let* _ := CreateFile path in
                     pure 0) w
          end
      end
  end.

Definition returned {W A} (o : outcome W A) : option A :=
  match o with Returns a _ => Some a | _ => None end.

Definition final {W A} (o : outcome W A) : option W :=
  match o with Returns _ w | Exits _ w => Some w | _ => None end.

Definition calls_of {A} (o : outcome world A) : list syscall :=
  match final o with Some w => w_calls w | None => [] end.


(** ** Inherited mount flags *)

Definition comma : ascii := ","%char.

(** The options of an entry, between its commas. *)
Fixpoint split_comma (s : string) : list string :=
  match s with
  | EmptyString => [EmptyString]
  | String c s' =>
      if Ascii.eqb c comma then EmptyString :: split_comma s'
      else match split_comma s' with
           | x :: xs => String c x :: xs
           | [] => [String c EmptyString]
           end
  end.

(** One option of [mnt_opts] selects [opt] when it is [opt] itself or
    [opt=value]. *)
Definition option_is (opt : string) (o : string) : bool :=
  String.eqb o opt || String.prefix (opt +:+ "=") o.

(** [hasmntopt(entry, opt) != NULL] *)
Definition hasmntopt (entry : mntent) (opt : string) : bool :=
  existsb (option_is opt) (split_comma (mnt_opts entry)).

(** The [getmntent] loop of GetMountFlags: it leaves the loop with the entry
    at hand as soon as [strcmp(entry->mnt_dir, path) == 0], or with NULL at
    the end of the table. *)
Fixpoint getmntent_loop (path : string) (mtab : list mntent) : option mntent :=
  match mtab with
  | [] => None
  | entry :: mtab' =>
      if String.eqb (mnt_dir entry) path then Some entry
      else getmntent_loop path mtab'
  end.

Definition flags_of_entry (entry : mntent) : Z :=
  let ret := 0 in
  let ret := if hasmntopt entry "nodev" then Z.lor ret MS_NODEV else ret in
  let ret := if hasmntopt entry "nosuid" then Z.lor ret MS_NOSUID else ret in
  let ret := if hasmntopt entry "noexec" then Z.lor ret MS_NOEXEC else ret in
  ret.

Definition GetMountFlags (path : string) : prog world Z :=
  fun w =>
    match w_mtab w with
    | None => DIE "Cannot open /proc/self/mounts" w
    | Some mtab =>
        match getmntent_loop path mtab with
        | Some entry =>
            let ret := flags_of_entry entry in
            (let* _ := PRINT_DEBUG ("inferred mount options for " +:+ path) in
             pure ret) w
        | None =>
            (let* _ := PRINT_DEBUG ("could not find mount path: " +:+ path) in
             pure 0) w
        end
    end.

(** The last entry of the table mounted on [path], which is what the
    specification's wording selects. *)
Definition last_entry_on (path : string) (mtab : list mntent) : option mntent :=
  getmntent_loop path (rev mtab).

(** ** Command line: the options structure *)

(** [struct Options].  A pointer that may be NULL is an [option]; the three
    mount arrays are lists of [mount_map_sizes] elements. *)
Record Options : Type := {
  stdout_path : option string;
  stderr_path : option string;
  args : option (list string);
  sandbox_root : option string;
  working_dir : option string;
  mount_sources : list (option string);
  mount_targets : list (option string);
  mount_rw : list bool;
  mount_map_sizes : Z;
  num_mounts : Z;
  create_dirs : list (option string);
  num_create_dirs : Z;
  uid : Z;
  gid : Z;
  create_netns : Z;
  host_name : option string
}.

Definition set_stdout_path (v : option string) (o : Options) : Options :=
  {| stdout_path := v; stderr_path := stderr_path o; args := args o;
     sandbox_root := sandbox_root o; working_dir := working_dir o;
     mount_sources := mount_sources o; mount_targets := mount_targets o;
     mount_rw := mount_rw o; mount_map_sizes := mount_map_sizes o;
     num_mounts := num_mounts o; create_dirs := create_dirs o;
     num_create_dirs := num_create_dirs o; uid := uid o; gid := gid o;
     create_netns := create_netns o; host_name := host_name o |}.

Definition set_stderr_path (v : option string) (o : Options) : Options :=
  {| stdout_path := stdout_path o; stderr_path := v; args := args o;
     sandbox_root := sandbox_root o; working_dir := working_dir o;
     mount_sources := mount_sources o; mount_targets := mount_targets o;
     mount_rw := mount_rw o; mount_map_sizes := mount_map_sizes o;
     num_mounts := num_mounts o; create_dirs := create_dirs o;
     num_create_dirs := num_create_dirs o; uid := uid o; gid := gid o;
     create_netns := create_netns o; host_name := host_name o |}.

Definition set_args (v : option (list string)) (o : Options) : Options :=
  {| stdout_path := stdout_path o; stderr_path := stderr_path o; args := v;
     sandbox_root := sandbox_root o; working_dir := working_dir o;
     mount_sources := mount_sources o; mount_targets := mount_targets o;
     mount_rw := mount_rw o; mount_map_sizes := mount_map_sizes o;
     num_mounts := num_mounts o; create_dirs := create_dirs o;
     num_create_dirs := num_create_dirs o; uid := uid o; gid := gid o;
     create_netns := create_netns o; host_name := host_name o |}.

Definition set_sandbox_root (v : option string) (o : Options) : Options :=
  {| stdout_path := stdout_path o; stderr_path := stderr_path o; args := args o;
     sandbox_root := v; working_dir := working_dir o;
     mount_sources := mount_sources o; mount_targets := mount_targets o;
     mount_rw := mount_rw o; mount_map_sizes := mount_map_sizes o;
     num_mounts := num_mounts o; create_dirs := create_dirs o;
     num_create_dirs := num_create_dirs o; uid := uid o; gid := gid o;
     create_netns := create_netns o; host_name := host_name o |}.

Definition set_working_dir (v : option string) (o : Options) : Options :=
  {| stdout_path := stdout_path o; stderr_path := stderr_path o; args := args o;
     sandbox_root := sandbox_root o; working_dir := v;
     mount_sources := mount_sources o; mount_targets := mount_targets o;
     mount_rw := mount_rw o; mount_map_sizes := mount_map_sizes o;
     num_mounts := num_mounts o; create_dirs := create_dirs o;
     num_create_dirs := num_create_dirs o; uid := uid o; gid := gid o;
     create_netns := create_netns o; host_name := host_name o |}.

(** The mount arrays change together, so one setter covers the five fields. *)
Definition set_mounts (srcs tgts : list (option string)) (rws : list bool)
    (sizes n : Z) (o : Options) : Options :=
  {| stdout_path := stdout_path o; stderr_path := stderr_path o; args := args o;
     sandbox_root := sandbox_root o; working_dir := working_dir o;
     mount_sources := srcs; mount_targets := tgts;
     mount_rw := rws; mount_map_sizes := sizes;
     num_mounts := n; create_dirs := create_dirs o;
     num_create_dirs := num_create_dirs o; uid := uid o; gid := gid o;
     create_netns := create_netns o; host_name := host_name o |}.

Definition set_create_dirs (dirs : list (option string)) (n : Z)
    (o : Options) : Options :=
  {| stdout_path := stdout_path o; stderr_path := stderr_path o; args := args o;
     sandbox_root := sandbox_root o; working_dir := working_dir o;
     mount_sources := mount_sources o; mount_targets := mount_targets o;
     mount_rw := mount_rw o; mount_map_sizes := mount_map_sizes o;
     num_mounts := num_mounts o; create_dirs := dirs;
     num_create_dirs := n; uid := uid o; gid := gid o;
     create_netns := create_netns o; host_name := host_name o |}.

Definition set_ids (u g : Z) (o : Options) : Options :=
  {| stdout_path := stdout_path o; stderr_path := stderr_path o; args := args o;
     sandbox_root := sandbox_root o; working_dir := working_dir o;
     mount_sources := mount_sources o; mount_targets := mount_targets o;
     mount_rw := mount_rw o; mount_map_sizes := mount_map_sizes o;
     num_mounts := num_mounts o; create_dirs := create_dirs o;
     num_create_dirs := num_create_dirs o; uid := u; gid := g;
     create_netns := create_netns o; host_name := host_name o |}.

Definition set_create_netns (v : Z) (o : Options) : Options :=
  {| stdout_path := stdout_path o; stderr_path := stderr_path o; args := args o;
     sandbox_root := sandbox_root o; working_dir := working_dir o;
     mount_sources := mount_sources o; mount_targets := mount_targets o;
     mount_rw := mount_rw o; mount_map_sizes := mount_map_sizes o;
     num_mounts := num_mounts o; create_dirs := create_dirs o;
     num_create_dirs := num_create_dirs o; uid := uid o; gid := gid o;
     create_netns := v; host_name := host_name o |}.

Definition set_host_name (v : option string) (o : Options) : Options :=
  {| stdout_path := stdout_path o; stderr_path := stderr_path o; args := args o;
     sandbox_root := sandbox_root o; working_dir := working_dir o;
     mount_sources := mount_sources o; mount_targets := mount_targets o;
     mount_rw := mount_rw o; mount_map_sizes := mount_map_sizes o;
     num_mounts := num_mounts o; create_dirs := create_dirs o;
     num_create_dirs := num_create_dirs o; uid := uid o; gid := gid o;
     create_netns := create_netns o; host_name := v |}.

(** An argument file as [fopen], [fgets] and [fclose] see it. *)
Record argfile : Type := {
  af_data : string;            (* the bytes of the file *)
  af_read_error : bool;        (* the stream fails instead of reaching end of file *)
  af_close_error : bool        (* [fclose] fails *)
}.

(** What the parser reads and writes besides its arguments. *)
Record pworld : Type := {
  p_opt : Options;                     (* [*opt] *)
  p_optind : Z;                        (* getopt's [optind] *)
  p_global_debug : bool;
  p_stderr : list string;
  p_argfiles : gmap string argfile;    (* the files [fopen] can open *)
  p_getuid : Z;
  p_getgid : Z;
  p_posixly_correct : bool;            (* getopt stops at the first operand *)
  p_clone_ok : bool                    (* [clone] with all namespace flags succeeds *)
}.

Definition set_opt (o : Options) (w : pworld) : pworld :=
  {| p_opt := o; p_optind := p_optind w; p_global_debug := p_global_debug w;
     p_stderr := p_stderr w; p_argfiles := p_argfiles w;
     p_getuid := p_getuid w; p_getgid := p_getgid w;
     p_posixly_correct := p_posixly_correct w; p_clone_ok := p_clone_ok w |}.

Definition set_optind (i : Z) (w : pworld) : pworld :=
  {| p_opt := p_opt w; p_optind := i; p_global_debug := p_global_debug w;
     p_stderr := p_stderr w; p_argfiles := p_argfiles w;
     p_getuid := p_getuid w; p_getgid := p_getgid w;
     p_posixly_correct := p_posixly_correct w; p_clone_ok := p_clone_ok w |}.

Definition set_global_debug (b : bool) (w : pworld) : pworld :=
  {| p_opt := p_opt w; p_optind := p_optind w; p_global_debug := b;
     p_stderr := p_stderr w; p_argfiles := p_argfiles w;
     p_getuid := p_getuid w; p_getgid := p_getgid w;
     p_posixly_correct := p_posixly_correct w; p_clone_ok := p_clone_ok w |}.

Definition perr (line : string) (w : pworld) : pworld :=
  {| p_opt := p_opt w; p_optind := p_optind w; p_global_debug := p_global_debug w;
     p_stderr := p_stderr w ++ [line]; p_argfiles := p_argfiles w;
     p_getuid := p_getuid w; p_getgid := p_getgid w;
     p_posixly_correct := p_posixly_correct w; p_clone_ok := p_clone_ok w |}.

(** Run [f] on the options structure. *)
Definition with_opt {A} (f : Options -> outcome Options A) : prog pworld A :=
  fun w =>
    match f (p_opt w) with
    | Returns a o => Returns a (set_opt o w)
    | Exits s o => Exits s (set_opt o w)
    | Undefined => Undefined
    | OutOfFuel => OutOfFuel
    end.

Definition update_opt (f : Options -> Options) : prog pworld unit :=
  fun w => Returns tt (set_opt (f (p_opt w)) w).

(** [Usage]: the message goes to stderr, then [exit(EXIT_FAILURE)]. *)
Definition Usage {A} (msg : string) : prog pworld A :=
  fun w => Exits EXIT_FAILURE (perr msg w).

Definition die {A} (msg : string) : prog pworld A :=
  fun w => Exits EXIT_FAILURE (perr msg w).

(** ** Arrays *)

(** [a[i]] for reading; [None] outside the array. *)
Definition array_get {A} (a : list A) (i : Z) : option A :=
  if i <? 0 then None else a !! Z.to_nat i.

(** [a[i] = x]; [None] outside the array. *)
Definition array_set {A} (a : list A) (i : Z) (x : A) : option (list A) :=
  if (0 <=? i) && (i <? Z.of_nat (length a)) then Some (<[Z.to_nat i := x]> a)
  else None.

Definition size_t_max : Z := 2 ^ 64.

(** ** AddMountSource *)

(** The first [if]: an unfinished mapping gets its source as target. *)
Definition finish_pending (o : Options) : option Options :=
  match array_get (mount_sources o) (num_mounts o) with
  | None => None
  | Some None => Some o
  | Some (Some src) =>
      match array_set (mount_targets o) (num_mounts o) (Some src) with
      | None => None
      | Some tgts =>
          match array_set (mount_rw o) (num_mounts o) false with
          | None => None
          | Some rws =>
              Some (set_mounts (mount_sources o) tgts rws (mount_map_sizes o)
                      (num_mounts o + 1) o)
          end
      end
  end.

(** The three [realloc]s and [memset]s that double the arrays; allocation is
    taken to succeed. *)
Definition grow_mounts (o : Options) : Options :=
  let n := Z.to_nat (mount_map_sizes o) in
  set_mounts (mount_sources o ++ replicate n None)
             (mount_targets o ++ replicate n None)
             (mount_rw o ++ replicate n false)
             (mount_map_sizes o * 2) (num_mounts o) o.

Definition AddMountSource (source : option string) : prog pworld unit :=
  fun w =>
    match finish_pending (p_opt w) with
    | None => Undefined
    | Some o1 =>
        match source with
        | None => Returns tt (set_opt o1 w)
        | Some src =>
            let o2 :=
              if num_mounts o1 >=? (mount_map_sizes o1 - 1) mod size_t_max
              then grow_mounts o1 else o1 in
            match array_set (mount_sources o2) (num_mounts o2) (Some src) with
            | None => Undefined
            | Some srcs =>
                Returns tt
                  (set_opt (set_mounts srcs (mount_targets o2) (mount_rw o2)
                              (mount_map_sizes o2) (num_mounts o2) o2) w)
            end
        end
    end.

(** ** getopt(3)

    The C library's [getopt], as glibc runs it on the option string of
    ParseCommandLine.  The [while] loop of ParseCommandLine calls it until it
    returns -1 and its [switch] never touches getopt's state, so the calls
    are taken together: [getopt_scan] gives what the successive calls
    return, the elements of [argv] they consumed and the operands they left.
    Unless [POSIXLY_CORRECT] is set, glibc skips operands and moves them
    behind the options; ["--"] ends the options. *)

Definition optstring : string := ":CDd:il:L:m:M:nrS:W:w:H:".

(** [strchr(optstring, c)], and whether a colon follows. *)
Fixpoint optspec (spec : list ascii) (c : ascii) : option bool :=
  match spec with
  | [] => None
  | x :: spec' =>
      if Ascii.eqb x c
      then Some (match spec' with y :: _ => Ascii.eqb y ":"%char | [] => false end)
      else optspec spec' c
  end.

Definition option_kind (c : ascii) : option bool :=
  if Ascii.eqb c ":"%char || Ascii.eqb c ";"%char then None
  else optspec (chars optstring) c.

Inductive getopt_ret : Type :=
| GOpt (c : ascii) (optarg : option string)   (* an option of [optstring] *)
| GUnknown (optopt : ascii)                   (* ['?'] *)
| GMissing (optopt : ascii).                  (* [':'] *)

(** The option characters of one element of [argv], after its dash; the
    boolean tells that the next element was taken as the argument. *)
Fixpoint scan_cluster (cl : string) (next : option string)
    : list getopt_ret * bool :=
  match cl with
  | EmptyString => ([], false)
  | String c cl' =>
      match option_kind c with
      | None =>
          let (ts, used) := scan_cluster cl' next in (GUnknown c :: ts, used)
      | Some false =>
          let (ts, used) := scan_cluster cl' next in (GOpt c None :: ts, used)
      | Some true =>
          match cl' with
          | String _ _ => ([GOpt c (Some cl')], false)
          | EmptyString =>
              match next with
              | Some a => ([GOpt c (Some a)], true)
              | None => ([GMissing c], false)
              end
          end
      end
  end.

Record scan_result : Type := {
  sr_tokens : list getopt_ret;
  sr_consumed : list string;
  sr_operands : list string
}.

Definition scan_add (ts : list getopt_ret) (used : list string)
    (r : scan_result) : scan_result :=
  {| sr_tokens := ts ++ sr_tokens r; sr_consumed := used ++ sr_consumed r;
     sr_operands := sr_operands r |}.

Fixpoint getopt_scan (posix : bool) (l : list string) : scan_result :=
  match l with
  | [] => {| sr_tokens := []; sr_consumed := []; sr_operands := [] |}
  | a :: l' =>
      if String.eqb a "--"
      then {| sr_tokens := []; sr_consumed := [a]; sr_operands := l' |}
      else
        match a with
        | String "-"%char (String c cl) =>
            let (ts, used) := scan_cluster (String c cl) (head l') in
            if used then
              match l' with
              | b :: l'' => scan_add ts [a; b] (getopt_scan posix l'')
              | [] => scan_add ts [a] (getopt_scan posix l')
              end
            else scan_add ts [a] (getopt_scan posix l')
        | _ =>
            if posix
            then {| sr_tokens := []; sr_consumed := []; sr_operands := l |}
            else
              let r := getopt_scan posix l' in
              {| sr_tokens := sr_tokens r; sr_consumed := sr_consumed r;
                 sr_operands := a :: sr_operands r |}
        end
  end.

(** Where scanning starts: [optind == 0] makes glibc start over at 1. *)
Definition getopt_start (optind : Z) : nat :=
  if optind =? 0 then 1%nat else Z.to_nat optind.

(** ** The [switch] of ParseCommandLine *)

Definition CheckNamespacesSupported : prog pworld Z :=
  fun w =>
    if p_clone_ok w then Returns EXIT_SUCCESS w
    else die "clone(CheckNamespacesSupportedChild, ...)" w.

Definition exit_with {A} (status : Z) : prog pworld A :=
  fun w => Exits status w.

(** [optarg] of an option that takes an argument. *)
Definition with_optarg (optarg : option string) (k : string -> prog pworld unit)
    : prog pworld unit :=
  match optarg with
  | Some a => k a
  | None => fun _ => Undefined
  end.

(** [strdup(optarg)] without its trailing slash: the character at
    [strlen - 1] is looked at, which is outside the string when it is
    empty. *)
Definition strip_trailing_slash (optarg : string) : option string :=
  match rev (chars optarg) with
  | [] => None
  | c :: r => Some (if is_slash c then str (rev r) else optarg)
  end.

(** [-m] and [-w]: complete the pending mapping. *)
Definition set_mount_target (flag : string) (rw : bool) (optarg : string)
    : prog pworld unit :=
  if negb (starts_with_slash optarg)
  then Usage ("The -" +:+ flag +:+ " option must be used with absolute paths only.")
  else fun w =>
    let o := p_opt w in
    match array_get (mount_sources o) (num_mounts o) with
    | None => Undefined
    | Some None =>
        Usage ("The -" +:+ flag +:+ " option must be preceded by an -M option.") w
    | Some (Some _) =>
        match array_set (mount_rw o) (num_mounts o) rw with
        | None => Undefined
        | Some rws =>
            match array_set (mount_targets o) (num_mounts o) (Some optarg) with
            | None => Undefined
            | Some tgts =>
                Returns tt
                  (set_opt (set_mounts (mount_sources o) tgts rws
                              (mount_map_sizes o) (num_mounts o + 1) o) w)
            end
        end
    end.

Definition handle_option (c : ascii) (optarg : option string) : prog pworld unit :=
  match c with
  | "C"%char => let* r := CheckNamespacesSupported in exit_with r
  | "S"%char =>
      with_optarg optarg (fun a w =>
        match sandbox_root (p_opt w) with
        | None =>
            match strip_trailing_slash a with
            | None => Undefined
            | Some root => Returns tt (set_opt (set_sandbox_root (Some root) (p_opt w)) w)
            end
        | Some _ => Usage "Multiple sandbox roots (-S) specified, expected one." w
        end)
  | "W"%char =>
      with_optarg optarg (fun a w =>
        match working_dir (p_opt w) with
        | None => Returns tt (set_opt (set_working_dir (Some a) (p_opt w)) w)
        | Some _ =>
            Usage "Multiple working directories (-W) specified, expected at most one." w
        end)
  | "d"%char =>
      with_optarg optarg (fun a =>
        if negb (starts_with_slash a)
        then Usage "The -d option must be used with absolute paths only."
        else fun w =>
          let o := p_opt w in
          match array_set (create_dirs o) (num_create_dirs o) (Some a) with
          | None => Undefined
          | Some dirs =>
              Returns tt (set_opt (set_create_dirs dirs (num_create_dirs o + 1) o) w)
          end)
  | "i"%char => fun w => Returns tt (set_opt (set_ids (p_getuid w) (p_getgid w) (p_opt w)) w)
  | "M"%char =>
      with_optarg optarg (fun a =>
        if negb (starts_with_slash a)
        then Usage "The -M option must be used with absolute paths only."
        else AddMountSource (Some a))
  | "m"%char => with_optarg optarg (set_mount_target "m" false)
  | "w"%char => with_optarg optarg (set_mount_target "w" true)
  | "n"%char => update_opt (set_create_netns 1)
  | "r"%char => update_opt (set_ids 0 0)
  | "H"%char => with_optarg optarg (fun a => update_opt (set_host_name (Some a)))
  | "D"%char => fun w => Returns tt (set_global_debug true w)
  | "l"%char =>
      with_optarg optarg (fun a w =>
        match stdout_path (p_opt w) with
        | None => Returns tt (set_opt (set_stdout_path (Some a) (p_opt w)) w)
        | Some _ => Usage "Cannot redirect stdout to more than one destination." w
        end)
  | "L"%char =>
      with_optarg optarg (fun a w =>
        match stderr_path (p_opt w) with
        | None => Returns tt (set_opt (set_stderr_path (Some a) (p_opt w)) w)
        | Some _ => Usage "Cannot redirect stderr to more than one destination." w
        end)
  | _ => pure tt
  end.

(** What the [switch] does with what getopt returned.  For ['?'] the
    message of the source ends with getopt's [optind] in parentheses; the
    scan does not keep that index, and the message stops before it. *)
Definition handle_getopt (r : getopt_ret) : prog pworld unit :=
  match r with
  | GOpt c optarg => handle_option c optarg
  | GUnknown optopt => Usage ("Unrecognized argument: -" +:+ String optopt "")
  | GMissing optopt => Usage ("Flag -" +:+ String optopt "" +:+ " requires an argument")
  end.

(** The [while ((c = getopt(...)) != -1) switch (c)] loop. *)
Fixpoint handle_options (rs : list getopt_ret) : prog pworld unit :=
  match rs with
  | [] => pure tt
  | r :: rs' => let* _ := handle_getopt r in handle_options rs'
  end.

(** ** ParseOptionsFile *)

(** [sizeof(argument)] *)
Definition ARGUMENT_SIZE : nat := Z.to_nat 8192.

(** [fgets(argument, n + 1, f)] on the bytes left in the file: at most [n]
    bytes, up to and with the first newline; gives the bytes read and the
    bytes left. *)
Fixpoint fgets (n : nat) (l : list ascii) : list ascii * list ascii :=
  match n, l with
  | O, _ => ([], l)
  | _, [] => ([], [])
  | S n', c :: l' =>
      if Ascii.eqb c newline then ([c], l')
      else let (a, r) := fgets n' l' in (c :: a, r)
  end.

(** The C string a buffer holds: its bytes before the first NUL. *)
Fixpoint cstring (l : list ascii) : list ascii :=
  match l with
  | [] => []
  | c :: l' => if Ascii.eqb c nul then [] else c :: cstring l'
  end.

(** [fgets] ran into the end of the data: it took fewer than [n] bytes and
    no newline ends them.  On a stream that fails where its data ends,
    [fgets] then gives NULL, whatever it had read. *)
Definition fgets_ran_out (n : nat) (buffer : list ascii) : bool :=
  (length buffer <? n)%nat
  && negb (match last buffer with
           | Some c => Ascii.eqb c newline
           | None => false
           end).

(** The [while (!done)] loop.  [sub_argv] is the vector built so far, kept
    as a list: its capacity is doubled as needed and plays no other part.
    The result is the final vector, or the message to die with. *)
Fixpoint read_arguments (fuel : nat) (file : argfile) (rest : list ascii)
    (sub_argv : list string) : option (string + list string) :=
  match fuel with
  | O => None
  | S fuel' =>
      match rest with
      | [] =>
          if af_read_error file
          then Some (inl "reading from argument file failed")
          else Some (inr sub_argv)
      | _ =>
          let (buffer, rest') := fgets (ARGUMENT_SIZE - 1) rest in
          if af_read_error file && fgets_ran_out (ARGUMENT_SIZE - 1) buffer
          then Some (inl "reading from argument file failed")
          else
            let argument := cstring buffer in
            let len := length argument in
            if (len =? 0)%nat then read_arguments fuel' file rest' sub_argv
            else if (len =? ARGUMENT_SIZE)%nat
            then Some (inl "argument from file is too long")
            else
              match last argument with
              | Some c =>
                  if Ascii.eqb c newline
                  then read_arguments fuel' file rest'
                         (sub_argv ++ [str (removelast argument)])
                  else Some (inr (sub_argv ++ [str argument]))
              | None => Some (inr (sub_argv ++ [str argument]))
              end
      end
  end.

(** ParseOptionsFile, with the call to ParseCommandLine it ends in as
    [parse]. *)
Definition ParseOptionsFile_with (parse : list string -> prog pworld unit)
    (filename : string) : prog pworld unit :=
  fun w =>
    match p_argfiles w !! filename with
    | None => die ("opening argument file " +:+ filename +:+ " failed") w
    | Some file =>
        match read_arguments (S (String.length (af_data file))) file
                (chars (af_data file)) [""] with
        | None => OutOfFuel
        | Some (inl msg) => die msg w
        | Some (inr sub_argv) =>
            if af_close_error file
            then die ("closing options file " +:+ filename +:+ " failed") w
            else parse sub_argv w
        end
    end.

(** ** ParseCommandLine *)

(** The loop over the operands that name argument files; [n] bounds the
    number of rounds by the number of elements left. *)
Fixpoint at_file_loop (parse_file : string -> prog pworld unit) (n : nat)
    (argv : list string) : prog pworld unit :=
  match n with
  | O => pure tt
  | S n' =>
      fun w =>
        let optind := p_optind w in
        if optind <? Z.of_nat (length argv) then
          match array_get argv optind with
          | Some (String "@"%char filename) =>
              let old_optind := optind in
              (let* _ := (fun w1 => Returns tt (set_optind 0 w1)) in
               let* _ := parse_file filename in
               let* _ := (fun w1 => Returns tt (set_optind (old_optind + 1) w1)) in
               at_file_loop parse_file n' argv) w
          | _ => Returns tt w
          end
        else Returns tt w
  end.

(** The last [if]: what is left of [argv] is the command. *)
Definition take_command (argv : list string) : prog pworld unit :=
  fun w =>
    if Z.of_nat (length argv) >? p_optind w then
      match args (p_opt w) with
      | None =>
          Returns tt
            (set_opt (set_args (Some (drop (Z.to_nat (p_optind w)) argv)) (p_opt w)) w)
      | Some _ => Usage "Merging commands not supported." w
      end
    else Returns tt w.

(** [argc] is the length of [argv].  The fuel bounds how deep argument files
    may name argument files. *)
Fixpoint ParseCommandLine (fuel : nat) (argv : list string) : prog pworld unit :=
  match fuel with
  | O => fun _ => OutOfFuel
  | S fuel' =>
      fun w =>
        let start := getopt_start (p_optind w) in
        let sr := getopt_scan (p_posixly_correct w) (drop start argv) in
        let argv' := take start argv ++ sr_consumed sr ++ sr_operands sr in
        (let* _ := handle_options (sr_tokens sr) in
         let* _ := (fun w1 =>
                      Returns tt
                        (set_optind (Z.of_nat (start + length (sr_consumed sr))) w1)) in
         let* _ := AddMountSource None in
         let* _ := at_file_loop (ParseOptionsFile_with (ParseCommandLine fuel'))
                     (length argv) argv' in
         take_command argv') w
  end.

Definition ParseOptionsFile (fuel : nat) (filename : string) : prog pworld unit :=
  ParseOptionsFile_with (ParseCommandLine fuel) filename.

(** ** main, up to the end of parsing *)

Definition kNobodyUid : Z := 65534.
Definition kNobodyGid : Z := 65534.

(** [memset(&opt, 0, sizeof(opt))] and the [calloc]s. *)
Definition init_options (argc : nat) : Options :=
  {| stdout_path := None; stderr_path := None; args := None;
     sandbox_root := None; working_dir := None;
     mount_sources := replicate argc None;
     mount_targets := replicate argc None;
     mount_rw := replicate argc false;
     mount_map_sizes := Z.of_nat argc;
     num_mounts := 0;
     create_dirs := replicate argc None;
     num_create_dirs := 0;
     uid := kNobodyUid; gid := kNobodyGid;
     create_netns := 0; host_name := None |}.

Definition main_parse (fuel : nat) (argv : list string) : prog pworld unit :=
  let* _ := (fun w => Returns tt (set_opt (init_options (length argv)) w)) in
  let* _ := ParseCommandLine fuel argv in
  fun w =>
    match args (p_opt w) with
    | None => Usage "No command specified." w
    | Some _ =>
        match sandbox_root (p_opt w) with
        | None => Usage "Sandbox root (-S) must be specified" w
        | Some _ => Returns tt w
        end
    end.

(** The process as it starts: [optind] is 1, nothing was written. *)
Definition start_pworld (files : gmap string argfile) : pworld :=
  {| p_opt := init_options 0; p_optind := 1; p_global_debug := false;
     p_stderr := []; p_argfiles := files; p_getuid := 1000; p_getgid := 1000;
     p_posixly_correct := false; p_clone_ok := true |}.

(** The mounts an options structure holds: its first [num_mounts] entries. *)
Record mount_entry : Type := { me_source : string; me_target : string; me_rw : bool }.

Fixpoint zip_mounts (srcs tgts : list (option string)) (rws : list bool)
    (n : nat) {struct n} : option (list mount_entry) :=
  match n with
  | O => Some []
  | S n' =>
      match srcs, tgts, rws with
      | Some s :: srcs', Some t :: tgts', rw :: rws' =>
          match zip_mounts srcs' tgts' rws' n' with
          | Some l => Some ({| me_source := s; me_target := t; me_rw := rw |} :: l)
          | None => None
          end
      | _, _, _ => None
      end
  end.

Definition mounts_of (o : Options) : option (list mount_entry) :=
  if num_mounts o <? 0 then None
  else zip_mounts (mount_sources o) (mount_targets o) (mount_rw o)
         (Z.to_nat (num_mounts o)).

(** ** SetupDirectories: the user mounts

    [mount(2)] is the kernel's: [kernel] tells, for a call and the world it
    is made in, whether it fails and what the file tree and
    /proc/self/mounts are afterwards. *)

Record mount_effect : Type := {
  me_errno : option Z;                        (* [Some e]: the call fails with [e] *)
  me_files : gmap (list string) node;
  me_mtab : option (list mntent)
}.

Definition kernel : Type := syscall -> world -> mount_effect.

Definition set_mounted (e : mount_effect) (w : world) : world :=
  {| w_files := me_files e; w_cwd := w_cwd w; w_umask := w_umask w;
     w_errno := w_errno w; w_mtab := me_mtab e; w_garbage := w_garbage w;
     w_debug := w_debug w; w_stderr := w_stderr w; w_calls := w_calls w |}.

Definition mount (k : kernel) (source target : string) (fstype : option string)
    (flags : Z) (data : option string) : prog world Z :=
  fun w0 =>
    let call := SysMount source target fstype flags data in
    let w := log_call call w0 in
    let e := k call w0 in
    match me_errno e with
    | Some err => Returns (-1) (set_errno err w)
    | None => Returns 0 (set_mounted e w)
    end.

Definition S_IFMT : Z := 61440.   (* 0170000 *)
Definition S_IFDIR : Z := 16384.  (* 0040000 *)

Definition mode_is_dir (st_mode : Z) : bool := Z.land st_mode S_IFMT =? S_IFDIR.

(** The body of the loop "Mount all mounts", first part: [stat] of the
    source, the debug line, the target created and the recursive bind
    mount, whose failures are fatal. *)
Definition bind_entry (k : kernel) (fuel : nat) (source target root : string)
    (rw : bool) : prog world unit :=
  let* sb := stat source in
  let* is_directory :=
    (fun w => Returns (match sb with
                       | Some n => S_ISDIR n
                       | None => mode_is_dir (w_garbage w)
                       end) w) in
  let* _ :=
    (if String.eqb source target then PRINT_DEBUG ("mount: " +:+ source)
     else PRINT_DEBUG ("mount: " +:+ source +:+ " -> <sandbox>" +:+ target
                         +:+ (if rw then " (rw)" else " (ro)"))) in
  let full_sandbox_path := root +:+ target in
  let* _ := CHECK_CALL "CreateTarget(full_sandbox_path, S_ISDIR(sb.st_mode))"
              (CreateTarget fuel (Some full_sandbox_path) is_directory) in
  let* _ := CHECK_CALL_MSG
              (mount k source full_sandbox_path None (Z.lor MS_REC MS_BIND) None)
              ("cannot mount '" +:+ source +:+ "' on '" +:+ full_sandbox_path +:+ "'") in
  pure tt.

Definition remount_flags (mnt_flags : Z) : Z :=
  Z.lor (Z.lor (Z.lor (Z.lor mnt_flags MS_REC) MS_BIND) MS_REMOUNT) MS_RDONLY.

Definition remount_warning (full_sandbox_path : string) : string :=
  "warning: remounting " +:+ full_sandbox_path +:+ " read only failed".

(** Second part: [if (!opt->mount_rw[i])], the read-only remount. *)
Definition remount_entry (k : kernel) (source full_sandbox_path : string)
    (rw : bool) : prog world unit :=
  if negb rw then
    let* mnt_flags := GetMountFlags full_sandbox_path in
    let* ret :=
      mount k source full_sandbox_path None (remount_flags mnt_flags) None in
    if ret =? -1 then
      fun w => Returns tt (log_stderr (remount_warning full_sandbox_path) w)
    else pure tt
  else pure tt.

(** The body of the loop for the index [i]. *)
Definition mount_one (k : kernel) (fuel : nat) (opt : Options) (i : Z)
    : prog world unit :=
  match array_get (mount_sources opt) i, array_get (mount_targets opt) i,
        array_get (mount_rw opt) i, sandbox_root opt with
  | Some (Some source), Some (Some target), Some rw, Some root =>
      let* _ := bind_entry k fuel source target root rw in
      remount_entry k source (root +:+ target) rw
  | _, _, _, _ => fun _ => Undefined
  end.

(** [for (int i = 0; i < opt->num_mounts; i++)], with [n] rounds left. *)
Fixpoint mount_loop (k : kernel) (fuel : nat) (opt : Options) (n : nat) (i : Z)
    : prog world unit :=
  match n with
  | O => pure tt
  | S n' =>
      if i <? num_mounts opt then
        let* _ := mount_one k fuel opt i in
        mount_loop k fuel opt n' (i + 1)
      else pure tt
  end.

Definition SetupDirectories_mounts (k : kernel) (fuel : nat) (opt : Options)
    : prog world unit :=
  mount_loop k fuel opt (Z.to_nat (num_mounts opt)) 0.

(** ** CreateNamespaces *)

Definition CLONE_NEWNS : Z := 131072.        (* 0x00020000 *)
Definition CLONE_NEWUTS : Z := 67108864.     (* 0x04000000 *)
Definition CLONE_NEWIPC : Z := 134217728.    (* 0x08000000 *)
Definition CLONE_NEWUSER : Z := 268435456.   (* 0x10000000 *)
Definition CLONE_NEWNET : Z := 1073741824.   (* 0x40000000 *)

Inductive nevent : Type :=
| EvUnshare (flags : Z)
| EvUsleep (usec : Z)
| EvStderr (msg : string).

(** The kernel answers the n-th [unshare] of the process with [None]
    (success) or with the [errno] it fails with. *)
Record nworld : Type := {
  n_unshare : nat -> option Z;
  n_calls : nat;               (* [unshare] calls made so far *)
  n_errno : Z;
  n_debug : bool;
  n_events : list nevent       (* oldest first *)
}.

Definition nlog (e : nevent) (w : nworld) : nworld :=
  {| n_unshare := n_unshare w; n_calls := n_calls w; n_errno := n_errno w;
     n_debug := n_debug w; n_events := n_events w ++ [e] |}.

Definition unshare (flags : Z) : prog nworld Z :=
  fun w =>
    let w1 := nlog (EvUnshare flags) w in
    match n_unshare w (n_calls w) with
    | None =>
        Returns 0
          {| n_unshare := n_unshare w1; n_calls := S (n_calls w1);
             n_errno := n_errno w1; n_debug := n_debug w1;
             n_events := n_events w1 |}
    | Some e =>
        Returns (-1)
          {| n_unshare := n_unshare w1; n_calls := S (n_calls w1);
             n_errno := e; n_debug := n_debug w1; n_events := n_events w1 |}
    end.

Definition usleep (usec : Z) : prog nworld unit :=
  fun w => Returns tt (nlog (EvUsleep usec) w).

(** An [int] after an arithmetic operation. *)
Definition wrap_int (x : Z) : Z := (x + 2 ^ 31) mod 2 ^ 32 - 2 ^ 31.

Definition max_tries : Z := 100.

Definition unshare_flags (create_netns : Z) : Z :=
  Z.lor (Z.lor (Z.lor (Z.lor CLONE_NEWUSER CLONE_NEWNS) CLONE_NEWUTS) CLONE_NEWIPC)
        (if create_netns =? 0 then 0 else CLONE_NEWNET).

(** The [while (tries++ < max_tries)] loop, from the values [delay] and
    [tries] have when its condition is evaluated. *)
Fixpoint unshare_loop (fuel : nat) (create_netns delay tries : Z)
    : prog nworld unit :=
  match fuel with
  | O => fun _ => OutOfFuel
  | S fuel' =>
      if tries <? max_tries then
        let tries := wrap_int (tries + 1) in
        let* r := unshare (unshare_flags create_netns) in
        if r =? 0 then
          fun w => Returns tt (if n_debug w
                               then nlog (EvStderr "unshare succeeded") w else w)
        else
          fun w =>
            if negb (n_errno w =? EINVAL)
            then Exits EXIT_FAILURE (nlog (EvStderr "unshare") w)
            else
              (let* _ := usleep delay in
               let delay := if delay <? 250000 then wrap_int (delay * 2) else delay in
               unshare_loop fuel' create_netns delay tries) w
      else
        fun w =>
          Exits EXIT_FAILURE
            (nlog (EvStderr "unshare failed with EINVAL even after tries, giving up.") w)
  end.

Definition CreateNamespaces (create_netns : Z) : prog nworld unit :=
  unshare_loop 101 create_netns 1 0.

Definition sleeps (l : list nevent) : list Z :=
  omap (fun e => match e with EvUsleep d => Some d | _ => None end) l.

Definition attempts (l : list nevent) : nat :=
  length (List.filter (fun e => match e with EvUnshare _ => true | _ => false end) l).

(** ** SetupUserNamespace *)

Inductive ucall : Type :=
| CFopen (filename : string)
| CVfprintf (filename text : string)
| CFclose (filename : string)
| CSetresuid (ruid euid suid : Z)
| CSetresgid (rgid egid sgid : Z).

Inductive uevent : Type :=
| UCall (c : ucall)
| UPerror (msg : string).

(** [u_fails c] is the [errno] the call [c] fails with, if it fails. *)
Record uworld : Type := {
  u_fails : ucall -> option Z;
  u_errno : Z;
  u_events : list uevent     (* oldest first *)
}.

Definition ulog (e : uevent) (w : uworld) : uworld :=
  {| u_fails := u_fails w; u_errno := u_errno w; u_events := u_events w ++ [e] |}.

(** A library call: 0 when it succeeds, -1 with [errno] set when it fails. *)
Definition ucall_run (c : ucall) : prog uworld Z :=
  fun w =>
    let w1 := ulog (UCall c) w in
    match u_fails w c with
    | None => Returns 0 w1
    | Some e =>
        Returns (-1)
          {| u_fails := u_fails w1; u_errno := e; u_events := u_events w1 |}
    end.

(** WriteFile, called with the text its format and arguments expand to.
    [vfprintf] gives the number of bytes on success. *)
Definition WriteFile (filename text : string) : prog uworld Z :=
  let* stream := ucall_run (CFopen filename) in
  if stream =? -1 then pure (-1)
  else
    let* r := ucall_run (CVfprintf filename text) in
    let r := if r =? 0 then Z.of_nat (String.length text) else r in
    if r >=? 0 then ucall_run (CFclose filename) else pure r.

Definition to_int (x : Z) : Z := wrap_int x.

(** The conversion [%d] of an [int]. *)
Definition percent_d (x : Z) : string := pretty (to_int x).

(** ["%d %d 1\n"] *)
Definition format_id_map (inner outer : Z) : string :=
  percent_d inner +:+ " " +:+ percent_d outer +:+ " 1" +:+ String newline "".

Definition ucheck (expr : string) (m : prog uworld Z) : prog uworld Z :=
  let* r := m in
  if r =? -1 then fun w => Exits EXIT_FAILURE (ulog (UPerror expr) w) else pure r.

Definition SetupUserNamespace (uid gid new_uid new_gid : Z) : prog uworld unit :=
  let* r := WriteFile "/proc/self/setgroups" "deny" in
  let* _ :=
    (fun w =>
       if (r <? 0) && negb (u_errno w =? ENOENT)
       then Exits EXIT_FAILURE
              (ulog (UPerror "WriteFile(/proc/self/setgroups, deny)") w)
       else Returns tt w) in
  let* _ := ucheck "WriteFile(/proc/self/uid_map)"
              (WriteFile "/proc/self/uid_map" (format_id_map new_uid uid)) in
  let* _ := ucheck "WriteFile(/proc/self/gid_map)"
              (WriteFile "/proc/self/gid_map" (format_id_map new_gid gid)) in
  let* _ := ucheck "setresuid(new_uid, new_uid, new_uid)"
              (ucall_run (CSetresuid new_uid new_uid new_uid)) in
  let* _ := ucheck "setresgid(new_gid, new_gid, new_gid)"
              (ucall_run (CSetresgid new_gid new_gid new_gid)) in
  pure tt.

(** The [errno] WriteFile fails with, if it fails: that of the first of
    [fopen], [vfprintf] and [fclose] that fails. *)
Definition write_fails (fails : ucall -> option Z) (filename text : string)
    : option Z :=
  match fails (CFopen filename) with
  | Some e => Some e
  | None =>
      match fails (CVfprintf filename text) with
      | Some e => Some e
      | None => fails (CFclose filename)
      end
  end.

(** The library calls WriteFile makes, up to the first that fails. *)
Definition write_calls (fails : ucall -> option Z) (filename text : string)
    : list uevent :=
  UCall (CFopen filename) ::
  match fails (CFopen filename) with
  | Some _ => []
  | None =>
      UCall (CVfprintf filename text) ::
      match fails (CVfprintf filename text) with
      | Some _ => []
      | None => [UCall (CFclose filename)]
      end
  end.

(** The write to /proc/self/setgroups worked or failed with ENOENT. *)
Definition setgroups_tolerated (fails : ucall -> option Z) : Prop :=
  write_fails fails "/proc/self/setgroups" "deny" = None
  \/ write_fails fails "/proc/self/setgroups" "deny" = Some ENOENT.

Definition fresh_uworld (fails : ucall -> option Z) : uworld :=
  {| u_fails := fails; u_errno := 0; u_events := [] |}.

(** An old kernel: /proc/self/setgroups does not exist, all else works. *)
Definition no_setgroups_file : ucall -> option Z :=
  fun c =>
    match c with
    | CFopen f => if String.eqb f "/proc/self/setgroups" then Some ENOENT else None
    | _ => None
    end.

(** The run ends in [exit(EXIT_FAILURE)], or returns, after adding the
    events [evs]. *)
Definition exits_after (o : outcome uworld unit) (w : uworld) (evs : list uevent)
    : Prop :=
  exists w', o = Exits EXIT_FAILURE w' /\ u_events w' = u_events w ++ evs.

Definition returns_after (o : outcome uworld unit) (w : uworld) (evs : list uevent)
    : Prop :=
  exists w', o = Returns tt w' /\ u_events w' = u_events w ++ evs.

(** The delay after [k] rounds of the back-off, from [delay]. *)
Definition next_delay (delay : Z) : Z :=
  if delay <? 250000 then wrap_int (delay * 2) else delay.

Fixpoint delay_after (k : nat) (delay : Z) : Z :=
  match k with
  | O => delay
  | S k' => delay_after k' (next_delay delay)
  end.

(** ** Sample inputs *)

(** A small tree to try the functions on: [/], [/usr], [/sbx], [/sbx/etc]
    are directories, [/sbx/etc/passwd] is a regular file; the current
    directory is [/sbx]. *)
Definition dnode : node := {| n_kind := KDir; n_mode := 493 |}.
Definition fnode : node := {| n_kind := KReg; n_mode := 420 |}.

Definition sample_files : gmap (list string) node :=
  <[ ["sbx"; "etc"; "passwd"] := fnode ]>
  (<[ ["sbx"; "etc"] := dnode ]>
     (<[ ["sbx"] := dnode ]> (<[ ["usr"] := dnode ]> (<[ [] := dnode ]> ∅)))).

Definition sample_world : world :=
  {| w_files := sample_files; w_cwd := ["sbx"]; w_umask := 18 (* 022 *);
     w_errno := 0; w_mtab := Some []; w_garbage := 0; w_debug := false;
     w_stderr := []; w_calls := [] |}.


Definition with_mtab (mtab : option (list mntent)) (w : world) : world :=
  {| w_files := w_files w; w_cwd := w_cwd w; w_umask := w_umask w;
     w_errno := w_errno w; w_mtab := mtab; w_garbage := w_garbage w;
     w_debug := w_debug w; w_stderr := w_stderr w; w_calls := w_calls w |}.

(** Two mounts on the same mount point: a tmpfs with [nodev], covered by a
    later bind mount without it. *)
Definition stacked_mtab : list mntent :=
  [ {| mnt_dir := "/"; mnt_opts := "rw,relatime" |};
    {| mnt_dir := "/sbx/mnt"; mnt_opts := "rw,nosuid,nodev" |};
    {| mnt_dir := "/sbx/mnt"; mnt_opts := "rw,noexec" |} ].

Definition stacked_world : world := with_mtab (Some stacked_mtab) sample_world.

(** A kernel whose [unshare] always fails with EINVAL, and one that fails
    that way [k] times before it succeeds. *)
Definition fresh_nworld (answers : nat -> option Z) : nworld :=
  {| n_unshare := answers; n_calls := 0; n_errno := 0; n_debug := false;
     n_events := [] |}.

Definition always_einval : nat -> option Z := fun _ => Some EINVAL.

Definition einval_times (k : nat) : nat -> option Z :=
  fun i => if (i <? k)%nat then Some EINVAL else None.

(** The path CreateTarget works on: ["."] for the empty string. *)
Definition target_path (p0 : string) : string :=
  if (String.length p0 =? 0)%nat then ROOT_DIR else p0.

(** [is_directory] and the kind found agree. *)
Definition kind_matches (is_directory : bool) (n : node) : bool :=
  (is_directory && S_ISDIR n) || (negb is_directory && S_ISREG n).

(** The root and the current directory are in the file tree. *)
Definition anchored (w : world) : Prop :=
  is_Some (w_files w !! []) /\ is_Some (w_files w !! w_cwd w).

(** A kernel that lets every mount through and lists it at the end of
    /proc/self/mounts with the options [nosuid,nodev], and one that also
    refuses every remount with EPERM. *)
Definition mounted (call : syscall) (w : world) : option (list mntent) :=
  match call, w_mtab w with
  | SysMount _ target _ _ _, Some mtab =>
      Some (mtab ++ [{| mnt_dir := target; mnt_opts := "rw,nosuid,nodev" |}])
  | _, m => m
  end.

Definition lenient_kernel : kernel :=
  fun call w =>
    {| me_errno := None; me_files := w_files w; me_mtab := mounted call w |}.

Definition is_remount (call : syscall) : bool :=
  match call with
  | SysMount _ _ _ flags _ => Z.testbit flags 5
  | _ => false
  end.

Definition strict_kernel : kernel :=
  fun call w =>
    if is_remount call
    then {| me_errno := Some 1; me_files := w_files w; me_mtab := w_mtab w |}
    else {| me_errno := None; me_files := w_files w; me_mtab := mounted call w |}.

(** [-S /sbx -M /usr -M /usr -w /opt]: /usr read-only on /sbx/usr and
    writable on /sbx/opt. *)
Definition sample_options : Options :=
  {| stdout_path := None; stderr_path := None; args := Some ["/bin/true"];
     sandbox_root := Some "/sbx"; working_dir := None;
     mount_sources := [Some "/usr"; Some "/usr"; None];
     mount_targets := [Some "/usr"; Some "/opt"; None];
     mount_rw := [false; true; false];
     mount_map_sizes := 3; num_mounts := 2;
     create_dirs := []; num_create_dirs := 0;
     uid := 65534; gid := 65534; create_netns := 0; host_name := None |}.

(** The world after the first entry of [sample_options] was bind-mounted,
    and its mount table. *)
Definition after_bind : world :=
  default sample_world
    (final (bind_entry strict_kernel 20 "/usr" "/usr" "/sbx" false sample_world)).

Definition after_bind_mtab : list mntent := default [] (w_mtab after_bind).

(** The sample world when /proc/self/mounts cannot be opened. *)
Definition closed_proc_world : world := with_mtab None sample_world.

(** ** The mount-entry state machine of the specification

    Section 4.9 of the specification, in its words: two states, the three
    flags, the entries emitted at each transition and at the end of the
    parse.  [None] is the usage error. *)

Inductive sm_state : Type :=
| Empty
| SourcePending (s : string).

Inductive mount_flag : Type :=
| FlagM (s : string)     (* -M S *)
| Flag_m (t : string)    (* -m T *)
| Flag_w (t : string).   (* -w T *)

Definition emit (s t : string) (rw : bool) : mount_entry :=
  {| me_source := s; me_target := t; me_rw := rw |}.

Definition sm_step (st : sm_state) (f : mount_flag)
    : option (sm_state * list mount_entry) :=
  match st, f with
  | Empty, FlagM s => Some (SourcePending s, [])
  | SourcePending s, FlagM s' => Some (SourcePending s', [emit s s false])
  | SourcePending s, Flag_m t => Some (Empty, [emit s t false])
  | SourcePending s, Flag_w t => Some (Empty, [emit s t true])
  | Empty, Flag_m _ => None
  | Empty, Flag_w _ => None
  end.

Definition sm_end (st : sm_state) : list mount_entry :=
  match st with
  | Empty => []
  | SourcePending s => [emit s s false]
  end.

(** The transitions for a sequence of flags: the state reached and the
    entries emitted, in the order emitted. *)
Fixpoint sm_steps (st : sm_state) (flags : list mount_flag)
    : option (sm_state * list mount_entry) :=
  match flags with
  | [] => Some (st, [])
  | f :: flags' =>
      match sm_step st f with
      | None => None
      | Some (st', out) =>
          match sm_steps st' flags' with
          | Some (st'', l) => Some (st'', out ++ l)
          | None => None
          end
      end
  end.

(** The argument of a flag, and the flag as getopt returns it. *)
Definition flag_arg (f : mount_flag) : string :=
  match f with FlagM a | Flag_m a | Flag_w a => a end.

Definition flag_token (f : mount_flag) : getopt_ret :=
  match f with
  | FlagM s => GOpt "M" (Some s)
  | Flag_m t => GOpt "m" (Some t)
  | Flag_w t => GOpt "w" (Some t)
  end.

(** The argument of a flag is an absolute path. *)
Definition absolute_flag (f : mount_flag) : Prop :=
  starts_with_slash (flag_arg f) = true.

Definition pending_of (st : sm_state) : option string :=
  match st with
  | Empty => None
  | SourcePending s => Some s
  end.

(** How the options structure holds a state of the machine and the entries
    emitted so far: the entries are the first [num_mounts] elements of the
    arrays, the pending source is [mount_sources[num_mounts]], the elements
    behind it are NULL.  [a] is the size the arrays were allocated with. *)
Definition mounts_repr (a : Z) (o : Options) (st : sm_state)
    (entries : list mount_entry) : Prop :=
  0 <= a
  /\ mount_map_sizes o = Z.of_nat (length (mount_sources o))
  /\ length (mount_targets o) = length (mount_sources o)
  /\ length (mount_rw o) = length (mount_sources o)
  /\ 0 <= num_mounts o < mount_map_sizes o
  /\ mount_map_sizes o <= a + 2 * num_mounts o + 2
  /\ mounts_of o = Some entries
  /\ mount_sources o !! Z.to_nat (num_mounts o) = Some (pending_of st)
  /\ (forall i, (Z.to_nat (num_mounts o) < i < length (mount_sources o))%nat ->
                mount_sources o !! i = Some None)
  /\ (st <> Empty -> num_mounts o + 1 < mount_map_sizes o).

(** The pending mapping of [o] completed with target [t] and mode [rw]. *)
Definition completed (t : string) (rw : bool) (o : Options) : Options :=
  set_mounts (mount_sources o)
    (<[Z.to_nat (num_mounts o) := Some t]> (mount_targets o))
    (<[Z.to_nat (num_mounts o) := rw]> (mount_rw o))
    (mount_map_sizes o) (num_mounts o + 1) o.

(** The parser's world when main calls ParseCommandLine on a command line
    of seven elements. *)
Definition sample_pworld : pworld :=
  set_opt (init_options 7) (start_pworld ∅).

(** ** Argument files, as the specification describes them *)

Definition nl : string := String newline "".

(** The text of a file with the lines [ls], each ended by a newline, and
    then [tail], a last line without a newline, if any. *)
Fixpoint file_text (ls : list string) (tail : option string) : string :=
  match ls with
  | [] => match tail with Some t => t | None => "" end
  | l :: ls' => l +:+ nl +:+ file_text ls' tail
  end.

(** A line ParseOptionsFile takes whole: not empty, without newline or NUL,
    and short enough for the buffer with its newline. *)
Definition clean_line (l : string) : Prop :=
  l <> ""
  /\ Forall (fun c => c <> newline /\ c <> nul) (chars l)
  /\ (String.length l < ARGUMENT_SIZE - 1)%nat.

Definition lines_of (ls : list string) (tail : option string) : list string :=
  ls ++ match tail with Some t => [t] | None => [] end.

(** The vector of the specification: every element [@FILE] replaced by the
    lines of FILE. *)
Definition substitute_argfiles (lines : string -> option (list string))
    (argv : list string) : list string :=
  flat_map (fun a =>
              match a with
              | String "@"%char filename =>
                  match lines filename with
                  | Some ls => ls
                  | None => [a]
                  end
              | _ => [a]
              end) argv.

Definition plain_file (data : string) : argfile :=
  {| af_data := data; af_read_error := false; af_close_error := false |}.

(** Sample files: [cmd] holds a command, [outer] names [inner], [gap] has an
    empty line. *)
Definition sample_argfiles : gmap string argfile :=
  <[ "cmd" := plain_file (file_text ["--"; "echo"] None) ]>
  (<[ "outer" := plain_file (file_text ["-D"; "@inner"] None) ]>
   (<[ "inner" := plain_file (file_text ["-n"; "-H"] (Some "box")) ]>
    (<[ "gap" := plain_file (file_text ["-D"; ""; "-n"] None) ]> ∅))).

Definition sample_lines (filename : string) : option (list string) :=
  if String.eqb filename "cmd" then Some ["--"; "echo"] else None.

Definition argfile_pworld (argc : nat) : pworld :=
  set_opt (init_options argc) (start_pworld sample_argfiles).

(** ** Option tokens and what the switch leaves alone *)

(** The token is the option [c]. *)
Definition is_opt (c : ascii) (r : getopt_ret) : bool :=
  match r with
  | GOpt c' _ => Ascii.eqb c' c
  | _ => false
  end.

Definition count_opt (c : ascii) (ts : list getopt_ret) : nat :=
  length (List.filter (is_opt c) ts).

(** The token came with an argument. *)
Definition has_optarg (r : getopt_ret) : bool :=
  match r with
  | GOpt _ (Some _) => true
  | _ => false
  end.

(** A token as getopt returns it: an argument exactly when the option
    string asks for one. *)
Definition token_wf (r : getopt_ret) : Prop :=
  match r with
  | GOpt c (Some _) => option_kind c = Some true
  | GOpt c None => option_kind c = Some false
  | _ => True
  end.

(** [-S] with the empty string as its argument. *)
Definition empty_root (r : getopt_ret) : bool :=
  match r with
  | GOpt c (Some EmptyString) => Ascii.eqb c "S"
  | _ => false
  end.

(** [a[0] == '@'] *)
Definition is_argfile (a : string) : bool :=
  match a with
  | String "@"%char _ => true
  | _ => false
  end.

(** The options the [switch] has a case for. *)
Definition known_options : list ascii := chars "CSWdiMmwnrHDlL".

(** The fields of the options structure outside the mount arrays, and the
    mount arrays. *)
Definition rest_of (o : Options) :=
  (stdout_path o, stderr_path o, args o, sandbox_root o, working_dir o,
   create_dirs o, num_create_dirs o, uid o, gid o, create_netns o, host_name o).

Definition mounts_part (o : Options) :=
  (mount_sources o, mount_targets o, mount_rw o, mount_map_sizes o, num_mounts o).

(** What the parser never writes. *)
Definition surroundings (w : pworld) :=
  (p_argfiles w, p_getuid w, p_getgid w, p_posixly_correct w, p_clone_ok w).

(** The mount arrays hold some state of the mount-entry machine. *)
Definition mounts_ok (a : Z) (o : Options) : Prop :=
  exists st entries, mounts_repr a o st entries.

(** The tokens of [-d D1 -d D2 ...]. *)
Definition dir_tokens (ds : list string) : list getopt_ret :=
  map (fun d => GOpt "d" (Some d)) ds.

(** The identity the options [ts] leave, from [ids]: [-i] takes the
    caller's, [-r] takes root's, the last one counts. *)
Definition ids_after (getuid getgid : Z) (ts : list getopt_ret) (ids : Z * Z)
    : Z * Z :=
  fold_left (fun ids r =>
               if is_opt "i" r then (getuid, getgid)
               else if is_opt "r" r then (0, 0)
               else ids) ts ids.

(** 1 for a pointer that is set, 0 for NULL. *)
Definition is_set {A} (x : option A) : nat :=
  match x with
  | Some _ => 1%nat
  | None => 0%nat
  end.

(** The tokens that came with an argument. *)
Definition args_count (ts : list getopt_ret) : nat :=
  length (List.filter has_optarg ts).

(** A pointer that was set still points to the same thing. *)
Definition kept {A} (x y : option A) : Prop :=
  forall v, x = Some v -> y = Some v.

Definition keeps_set_fields (o o' : Options) : Prop :=
  kept (args o) (args o')
  /\ kept (sandbox_root o) (sandbox_root o')
  /\ kept (working_dir o) (working_dir o')
  /\ kept (stdout_path o) (stdout_path o')
  /\ kept (stderr_path o) (stderr_path o').

(** Neither [-i] nor [-r]. *)
Definition no_identity_option (r : getopt_ret) : bool :=
  negb (is_opt "i" r || is_opt "r" r).

(** The lines [-dD1], [-dD2], ... of an argument file. *)
Definition dir_lines (ds : list string) : list string :=
  map (fun d => "-d" +:+ d) ds.

(** Sample argument files: [dirs] asks for three directories, [loop] names
    itself. *)
Definition dirs_file : argfile :=
  plain_file (file_text (dir_lines ["/a"; "/b"; "/c"]) None).

Definition loop_file : argfile := plain_file (file_text ["@loop"] None).

Definition edge_pworld : pworld :=
  start_pworld (<["dirs" := dirs_file]> (<["loop" := loop_file]> ∅)).

(** A line that fits the buffer of ParseOptionsFile with its newline and
    has no newline or NUL inside; it may be empty. *)
Definition line_ok (l : string) : Prop :=
  Forall (fun c => c <> newline /\ c <> nul) (chars l)
  /\ (String.length l < ARGUMENT_SIZE - 1)%nat.

(** A stored path is NULL or absolute. *)
Definition abs_or_null (x : option string) : Prop :=
  match x with
  | Some s => starts_with_slash s = true
  | None => True
  end.

Definition all_absolute (o : Options) : Prop :=
  Forall abs_or_null (mount_sources o)
  /\ Forall abs_or_null (mount_targets o)
  /\ Forall abs_or_null (create_dirs o).

(** ** What the builder leaves in place *)

(** From [w] to [w'] the file tree only gained nodes; the current
    directory, the umask and the mount table are the same. *)
Definition grows (w w' : world) : Prop :=
  w_files w ⊆ w_files w'
  /\ w_cwd w' = w_cwd w
  /\ w_umask w' = w_umask w
  /\ w_mtab w' = w_mtab w.

(** However [m] ends, by returning or by [exit], the worlds before and
    after are related by [R]. *)
Definition always {A} (R : world -> world -> Prop) (m : prog world A) : Prop :=
  forall w w', final (m w) = Some w' -> R w w'.

(** ** SetupDirectories: the directories to create and the home directory *)

(** [s + 1] for a pointer to a string: the string without its first byte.
    Behind the NUL of the empty string there is nothing to point to. *)
Definition plus_one (s : string) : option string :=
  match s with
  | String _ s' => Some s'
  | EmptyString => None
  end.

(** [for (int i = 0; i < opt->num_create_dirs; i++)], with [n] rounds
    left. *)
Fixpoint create_dirs_loop (fuel : nat) (opt : Options) (n : nat) (i : Z)
    : prog world unit :=
  match n with
  | O => pure tt
  | S n' =>
      if i <? num_create_dirs opt then
        match array_get (create_dirs opt) i with
        | Some (Some dir) =>
            match plus_one dir with
            | Some path =>
                let* _ := PRINT_DEBUG ("createdir: " +:+ dir) in
                let* _ := CHECK_CALL "CreateTarget(opt->create_dirs[i] + 1, true)"
                            (CreateTarget fuel (Some path) true) in
                create_dirs_loop fuel opt n' (i + 1)
            | None => fun _ => Undefined
            end
        | _ => fun _ => Undefined
        end
      else pure tt
  end.

Definition SetupDirectories_create_dirs (fuel : nat) (opt : Options)
    : prog world unit :=
  create_dirs_loop fuel opt (Z.to_nat (num_create_dirs opt)) 0.

(** An entry of the password file, as [fgetpwent] returns it. *)
Record passwd : Type := { pw_uid : Z; pw_dir : string }.

(** The builder's world with what SetupDirectories reads and writes
    besides: the entries of [etc/passwd] in the sandbox, [None] when
    [fopen] fails, the environment, and the symbolic links made, each
    with its target and its name, oldest first. *)
Record hworld : Type := {
  h_world : world;
  h_passwd : option (list passwd);
  h_env : gmap string string;
  h_links : list (string * string)
}.

Definition with_world (w : world) (h : hworld) : hworld :=
  {| h_world := w; h_passwd := h_passwd h; h_env := h_env h;
     h_links := h_links h |}.

Definition lift {A} (m : prog world A) : prog hworld A :=
  fun h =>
    match m (h_world h) with
    | Returns a w => Returns a (with_world w h)
    | Exits s w => Exits s (with_world w h)
    | Undefined => Undefined
    | OutOfFuel => OutOfFuel
    end.

Definition getenv (name : string) : prog hworld (option string) :=
  fun h => Returns (h_env h !! name) h.

(** [setenv(name, value, 1)]; allocation is taken to succeed. *)
Definition setenv (name value : string) : prog hworld Z :=
  fun h =>
    Returns 0 {| h_world := h_world h; h_passwd := h_passwd h;
                 h_env := <[name := value]> (h_env h); h_links := h_links h |}.

(** [do { entry = fgetpwent(passwd); } while (entry != NULL &&
    entry->pw_uid != uid);] *)
Fixpoint fgetpwent_loop (uid : Z) (entries : list passwd) : option passwd :=
  match entries with
  | [] => None
  | entry :: entries' =>
      if negb (pw_uid entry =? uid) then fgetpwent_loop uid entries'
      else Some entry
  end.

(** The home directory: from the password file of the sandbox, else from
    [$HOME]. *)
Definition find_home (uid : Z) : prog hworld (option string) :=
  fun h =>
    match h_passwd h with
    | Some entries =>
        match fgetpwent_loop uid entries with
        | None => getenv "HOME" h
        | Some entry => Returns (Some (pw_dir entry)) h
        end
    | None =>
        (let* _ := lift (PRINT_DEBUG
                           "/etc/passwd not found/readable in sandbox! Falling back to $HOME") in
         getenv "HOME") h
    end.

(** The end of SetupDirectories: "Make sure the home directory exists,
    too". *)
Definition SetupDirectories_home (fuel : nat) (uid : Z) : prog hworld unit :=
  let* homedir := find_home uid in
  match homedir with
  | None => pure tt
  | Some home =>
      if negb (starts_with_slash home)
      then lift (DIE ("Home directory must be an absolute path, but is " +:+ home))
      else
        let* _ := lift (PRINT_DEBUG ("createdir: " +:+ home)) in
        match plus_one home with
        | None => fun _ => Undefined
        | Some path =>
            let* _ := lift (CHECK_CALL "CreateTarget(homedir + 1, true)"
                              (CreateTarget fuel (Some path) true)) in
            let* r := setenv "HOME" home in
            if r =? -1 then lift (DIE "setenv(HOME, homedir, 1)") else pure tt
        end
  end.

(** The directory [dir], taken from the current directory, is there. *)
Definition directory_made (dir : string) (w : world) : Prop :=
  exists path n,
    plus_one dir = Some path
    /\ lookup_path w (target_path path) = inr n
    /\ n_kind n = KDir.

(** A sandbox with a password file, and the options [-d /tmp -d /var/run]. *)
Definition sample_hworld : hworld :=
  {| h_world := sample_world;
     h_passwd := Some [ {| pw_uid := 0; pw_dir := "/root" |};
                        {| pw_uid := 65534; pw_dir := "/home/nobody" |};
                        {| pw_uid := 65534; pw_dir := "/nonexistent" |} ];
     h_env := <["HOME" := "/home/caller"]> ∅;
     h_links := [] |}.

Definition dirs_options : Options :=
  set_create_dirs [Some "/tmp"; Some "/var/run"; None] 2 sample_options.

(** The home directory [home] is set up in [h]: an absolute path, the
    value of [$HOME], and a directory when taken from the current
    directory without its first character. *)
Definition home_made (home : string) (h : hworld) : Prop :=
  starts_with_slash home = true
  /\ h_env h !! "HOME" = Some home
  /\ directory_made home (h_world h).

(** ** The mounts of the loop "Mount all mounts" *)

Definition is_mount (c : syscall) : bool :=
  match c with
  | SysMount _ _ _ _ _ => true
  | _ => false
  end.

(** The [mount] calls among the system calls made. *)
Definition mount_calls (l : list syscall) : list syscall := List.filter is_mount l.

(** The [mount] calls of one entry: the recursive bind mount and, for a
    read-only entry, the remount with some inherited flags among
    MS_NODEV, MS_NOSUID and MS_NOEXEC. *)
Definition entry_mounts (root : string) (e : mount_entry) (calls : list syscall)
    : Prop :=
  exists inherited,
    Z.land inherited (Z.lor (Z.lor MS_NODEV MS_NOSUID) MS_NOEXEC) = inherited
    /\ calls
       = SysMount (me_source e) (root +:+ me_target e) None (Z.lor MS_REC MS_BIND) None
         :: (if me_rw e then []
             else [SysMount (me_source e) (root +:+ me_target e) None
                     (remount_flags inherited) None]).

(** ** CreateNamespaces: the events of a run *)

(** [k] rounds that fail with EINVAL, from the delay [delay]: each is one
    [unshare] and one sleep, the delay doubling as the loop does. *)
Fixpoint einval_rounds (flags delay : Z) (k : nat) : list nevent :=
  match k with
  | O => []
  | S k' =>
      EvUnshare flags :: EvUsleep delay :: einval_rounds flags (next_delay delay) k'
  end.

Definition sum_of (l : list Z) : Z := fold_right Z.add 0 l.

(** ** process-tools.c

    SwitchToEuid, SwitchToEgid and Redirect work on the ids and the
    descriptors of the process.  The kernel may refuse a call: [pr_fails]
    gives the [errno] it does so with.  A call it lets through does what
    its manual page says: [setreuid] and [setregid] set both ids, [open]
    with O_CREAT and O_TRUNC leaves the file empty and returns the lowest
    descriptor that is free, [dup2] makes the new descriptor a copy of
    the old one, [close] frees the descriptor. *)

Record ofile : Type := { of_path : string; of_flags : Z }.

Inductive pcall : Type :=
| PSetreuid (ruid euid : Z)
| PSetregid (rgid egid : Z)
| POpen (path : string) (flags mode : Z)
| PDup2 (oldfd newfd : Z)
| PClose (fd : Z).

Record process : Type := {
  pr_ruid : Z;
  pr_euid : Z;
  pr_rgid : Z;
  pr_egid : Z;
  pr_fds : Z -> option ofile;        (* the open descriptors *)
  pr_nofile : Z;                     (* RLIMIT_NOFILE *)
  pr_files : gmap string string;     (* the contents of the files *)
  pr_fails : pcall -> option Z;
  pr_errno : Z;
  pr_stderr : list string;           (* what [perror] wrote, oldest first *)
  pr_calls : list pcall              (* the system calls made, oldest first *)
}.

Definition EBADF : Z := 9.
Definition EMFILE : Z := 24.

Definition O_WRONLY : Z := 1.
Definition O_CREAT : Z := 64.      (* 0100 *)
Definition O_TRUNC : Z := 512.     (* 01000 *)
Definition O_APPEND : Z := 1024.   (* 02000 *)

Definition STDOUT_FILENO : Z := 1.
Definition STDERR_FILENO : Z := 2.

Definition pr_called (c : pcall) (p : process) : process :=
  {| pr_ruid := pr_ruid p; pr_euid := pr_euid p; pr_rgid := pr_rgid p;
     pr_egid := pr_egid p; pr_fds := pr_fds p; pr_nofile := pr_nofile p;
     pr_files := pr_files p; pr_fails := pr_fails p; pr_errno := pr_errno p;
     pr_stderr := pr_stderr p; pr_calls := pr_calls p ++ [c] |}.

Definition pr_set_errno (e : Z) (p : process) : process :=
  {| pr_ruid := pr_ruid p; pr_euid := pr_euid p; pr_rgid := pr_rgid p;
     pr_egid := pr_egid p; pr_fds := pr_fds p; pr_nofile := pr_nofile p;
     pr_files := pr_files p; pr_fails := pr_fails p; pr_errno := e;
     pr_stderr := pr_stderr p; pr_calls := pr_calls p |}.

Definition pr_set_uids (ruid euid : Z) (p : process) : process :=
  {| pr_ruid := ruid; pr_euid := euid; pr_rgid := pr_rgid p;
     pr_egid := pr_egid p; pr_fds := pr_fds p; pr_nofile := pr_nofile p;
     pr_files := pr_files p; pr_fails := pr_fails p; pr_errno := pr_errno p;
     pr_stderr := pr_stderr p; pr_calls := pr_calls p |}.

Definition pr_set_gids (rgid egid : Z) (p : process) : process :=
  {| pr_ruid := pr_ruid p; pr_euid := pr_euid p; pr_rgid := rgid;
     pr_egid := egid; pr_fds := pr_fds p; pr_nofile := pr_nofile p;
     pr_files := pr_files p; pr_fails := pr_fails p; pr_errno := pr_errno p;
     pr_stderr := pr_stderr p; pr_calls := pr_calls p |}.

Definition pr_set_fds (fds : Z -> option ofile) (p : process) : process :=
  {| pr_ruid := pr_ruid p; pr_euid := pr_euid p; pr_rgid := pr_rgid p;
     pr_egid := pr_egid p; pr_fds := fds; pr_nofile := pr_nofile p;
     pr_files := pr_files p; pr_fails := pr_fails p; pr_errno := pr_errno p;
     pr_stderr := pr_stderr p; pr_calls := pr_calls p |}.

Definition pr_set_files (files : gmap string string) (p : process) : process :=
  {| pr_ruid := pr_ruid p; pr_euid := pr_euid p; pr_rgid := pr_rgid p;
     pr_egid := pr_egid p; pr_fds := pr_fds p; pr_nofile := pr_nofile p;
     pr_files := files; pr_fails := pr_fails p; pr_errno := pr_errno p;
     pr_stderr := pr_stderr p; pr_calls := pr_calls p |}.

Definition pr_perror (line : string) (p : process) : process :=
  {| pr_ruid := pr_ruid p; pr_euid := pr_euid p; pr_rgid := pr_rgid p;
     pr_egid := pr_egid p; pr_fds := pr_fds p; pr_nofile := pr_nofile p;
     pr_files := pr_files p; pr_fails := pr_fails p; pr_errno := pr_errno p;
     pr_stderr := pr_stderr p ++ [line]; pr_calls := pr_calls p |}.

(** A system call: refused by the kernel, or run by [effect]. *)
Definition syscall_run (c : pcall) (effect : process -> outcome process Z)
    : prog process Z :=
  fun p0 =>
    let p := pr_called c p0 in
    match pr_fails p0 c with
    | Some e => Returns (-1) (pr_set_errno e p)
    | None => effect p
    end.

(** A [uid_t] or [gid_t] given where an [int] was. *)
Definition to_id (x : Z) : Z := x mod 2 ^ 32.

Definition getuid : prog process Z := fun p => Returns (pr_ruid p) p.
Definition geteuid : prog process Z := fun p => Returns (pr_euid p) p.
Definition getgid : prog process Z := fun p => Returns (pr_rgid p) p.
Definition getegid : prog process Z := fun p => Returns (pr_egid p) p.

Definition setreuid (ruid euid : Z) : prog process Z :=
  syscall_run (PSetreuid (to_id ruid) (to_id euid))
    (fun p => Returns 0 (pr_set_uids (to_id ruid) (to_id euid) p)).

Definition setregid (rgid egid : Z) : prog process Z :=
  syscall_run (PSetregid (to_id rgid) (to_id egid))
    (fun p => Returns 0 (pr_set_gids (to_id rgid) (to_id egid) p)).

(** CHECK_CALL of process-tools.h, for these calls. *)
Definition PCHECK_CALL (expr : string) (m : prog process Z) : prog process Z :=
  let* r := m in
  if r =? -1 then fun p => Exits EXIT_FAILURE (pr_perror expr p) else pure r.

Definition SwitchToEuid : prog process Z :=
  let* uid := (let* r := getuid in pure (to_int r)) in
  let* euid := (let* r := geteuid in pure (to_int r)) in
  let* _ :=
    (if negb (uid =? euid)
     then let* _ := PCHECK_CALL "setreuid(euid, euid)" (setreuid euid euid) in pure tt
     else pure tt) in
  pure euid.

Definition SwitchToEgid : prog process Z :=
  let* gid := (let* r := getgid in pure (to_int r)) in
  let* egid := (let* r := getegid in pure (to_int r)) in
  let* _ :=
    (if negb (gid =? egid)
     then let* _ := PCHECK_CALL "setregid(egid, egid)" (setregid egid egid) in pure tt
     else pure tt) in
  pure egid.

(** The lowest free descriptor among [i], [i + 1], ..., [i + n - 1]. *)
Fixpoint lowest_free (fds : Z -> option ofile) (n : nat) (i : Z) : option Z :=
  match n with
  | O => None
  | S n' =>
      match fds i with
      | None => Some i
      | Some _ => lowest_free fds n' (i + 1)
      end
  end.

Definition fd_update (fd : Z) (v : option ofile) (fds : Z -> option ofile)
    : Z -> option ofile :=
  fun j => if j =? fd then v else fds j.

(** [open(path, flags, mode)] where [flags] has O_CREAT and O_TRUNC. *)
Definition open (path : string) (flags mode : Z) : prog process Z :=
  syscall_run (POpen path flags mode)
    (fun p =>
       match lowest_free (pr_fds p) (Z.to_nat (pr_nofile p)) 0 with
       | None => Returns (-1) (pr_set_errno EMFILE p)
       | Some fd =>
           Returns fd
             (pr_set_fds
                (fd_update fd (Some {| of_path := path; of_flags := flags |})
                   (pr_fds p))
                (pr_set_files (<[path := ""]> (pr_files p)) p))
       end).

Definition dup2 (oldfd newfd : Z) : prog process Z :=
  syscall_run (PDup2 oldfd newfd)
    (fun p =>
       match pr_fds p oldfd with
       | None => Returns (-1) (pr_set_errno EBADF p)
       | Some f =>
           if (newfd <? 0) || (pr_nofile p <=? newfd)
           then Returns (-1) (pr_set_errno EBADF p)
           else if oldfd =? newfd then Returns newfd p
           else Returns newfd (pr_set_fds (fd_update newfd (Some f) (pr_fds p)) p)
       end).

Definition close_fd (fd : Z) : prog process Z :=
  syscall_run (PClose fd)
    (fun p =>
       match pr_fds p fd with
       | None => Returns (-1) (pr_set_errno EBADF p)
       | Some _ => Returns 0 (pr_set_fds (fd_update fd None (pr_fds p)) p)
       end).

Definition redirect_flags : Z :=
  Z.lor (Z.lor (Z.lor O_WRONLY O_CREAT) O_TRUNC) O_APPEND.

(** [target_path = None] is the NULL pointer. *)
Definition Redirect (target_path : option string) (fd : Z) (name : string)
    : prog process unit :=
  match target_path with
  | Some path =>
      if negb (String.eqb path "-") then
        let flags := redirect_flags in
        let* fd_out := PCHECK_CALL "fd_out = open(target_path, flags, 0666)"
                         (open path flags 438 (* 0666 *)) in
        let* _ := PCHECK_CALL "dup2(fd_out, fd)" (dup2 fd_out fd) in
        let* _ := PCHECK_CALL "close(fd_out)" (close_fd fd_out) in
        pure tt
      else pure tt
  | None => pure tt
  end.

Definition RedirectStdout (stdout_path : option string) : prog process unit :=
  Redirect stdout_path STDOUT_FILENO "stdout".

Definition RedirectStderr (stderr_path : option string) : prog process unit :=
  Redirect stderr_path STDERR_FILENO "stderr".

(** The kernel refuses none of the calls of Redirect on [path] and [fd]. *)
Definition redirect_allowed (path : string) (fd : Z) (p : process) : Prop :=
  pr_fails p (POpen path redirect_flags 438) = None
  /\ (forall fd_out, pr_fails p (PDup2 fd_out fd) = None)
  /\ (forall fd_out, pr_fails p (PClose fd_out) = None).

(** A process started from a terminal by a set-uid program: descriptors 0
    to 2 are the terminal, the real uid is the caller's. *)
Definition tty : ofile := {| of_path := "/dev/pts/0"; of_flags := 2 |}.

Definition sample_process : process :=
  {| pr_ruid := 1000; pr_euid := 0; pr_rgid := 1000; pr_egid := 1000;
     pr_fds := fun fd => if (0 <=? fd) && (fd <=? 2) then Some tty else None;
     pr_nofile := 1024;
     pr_files := <["out.log" := "old"]> ∅;
     pr_fails := fun _ => None; pr_errno := 0; pr_stderr := []; pr_calls := [] |}.

(** The same process started with its standard output closed. *)
Definition closed_stdout_process : process :=
  pr_set_fds (fd_update 1 None (pr_fds sample_process)) sample_process.

(** ** SetupDevices and SetupDirectories as a whole *)

Definition set_cwd (k : list string) (w : world) : world :=
  {| w_files := w_files w; w_cwd := k; w_umask := w_umask w;
     w_errno := w_errno w; w_mtab := w_mtab w; w_garbage := w_garbage w;
     w_debug := w_debug w; w_stderr := w_stderr w; w_calls := w_calls w |}.

(** [chdir(path)] *)
Definition chdir (p : string) : prog world Z :=
  fun w =>
    match p with
    | EmptyString => fail_with ENOENT w
    | _ =>
        match walk (w_files w) (start_dir w p) (split_slash p) with
        | inl e => fail_with e w
        | inr k =>
            match w_files w !! k with
            | None => fail_with ENOENT w
            | Some n =>
                match n_kind n with
                | KDir => Returns 0 (set_cwd k w)
                | _ => fail_with ENOTDIR w
                end
            end
        end
    end.

(** [symlink(target, linkpath)]: the link is a node that is neither a
    directory nor a regular file; no later call of SetupDirectories goes
    through it. *)
Definition symlink (target linkpath : string) : prog hworld Z :=
  fun h =>
    let w := h_world h in
    match new_entry w linkpath with
    | inl e => Returns (-1) (with_world (set_errno e w) h)
    | inr k =>
        Returns 0
          {| h_world := set_files (<[k := {| n_kind := KOther; n_mode := 511 |}]>
                                     (w_files w)) w;
             h_passwd := h_passwd h; h_env := h_env h;
             h_links := h_links h ++ [(target, linkpath)] |}
    end.

Definition devs : list string :=
  ["/dev/null"; "/dev/random"; "/dev/urandom"; "/dev/zero"].

(** [for (int i = 0; devs[i] != NULL; i++)] *)
Fixpoint devices_loop (k : kernel) (l : list string) : prog world unit :=
  match l with
  | [] => pure tt
  | dev :: l' =>
      match plus_one dev with
      | None => fun _ => Undefined
      | Some path =>
          let* _ := CreateFile path in
          let* _ := CHECK_CALL "mount(devs[i], devs[i] + 1, NULL, MS_BIND, NULL)"
                      (mount k dev path None MS_BIND None) in
          devices_loop k l'
      end
  end.

Definition SetupDevices (k : kernel) (fuel : nat) : prog hworld unit :=
  let* _ := lift (CHECK_CALL "mkdir(dev, 0755)" (mkdir "dev" 493)) in
  let* _ := lift (devices_loop k devs) in
  let* _ := lift (CreateTarget fuel (Some "dev/pts") true) in
  let* _ := lift (CHECK_CALL "mount(devpts, dev/pts, devpts, MS_NOSUID | MS_NOEXEC, ptmxmode=0666)"
                    (mount k "devpts" "dev/pts" (Some "devpts")
                       (Z.lor MS_NOSUID MS_NOEXEC) (Some "ptmxmode=0666"))) in
  let* r := symlink "pts/ptmx" "dev/ptmx" in
  let* _ := (if r =? -1 then lift (DIE "symlink(pts/ptmx, dev/ptmx)") else pure tt) in
  let* _ := lift (CreateTarget fuel (Some "dev/shm") true) in
  let* _ := lift (CHECK_CALL "mount(tmpfs, dev/shm, tmpfs, MS_NOSUID | MS_NODEV, NULL)"
                    (mount k "tmpfs" "dev/shm" (Some "tmpfs")
                       (Z.lor MS_NOSUID MS_NODEV) None)) in
  let* r := symlink "/proc/self/fd" "dev/fd" in
  let* _ := (if r =? -1 then lift (DIE "symlink(/proc/self/fd, dev/fd)") else pure tt) in
  pure tt.

(** SetupDirectories; [opt->sandbox_root] is not NULL when main calls it. *)
Definition SetupDirectories (k : kernel) (fuel : nat) (opt : Options) (uid : Z)
    : prog hworld unit :=
  match sandbox_root opt with
  | None => fun _ => Undefined
  | Some root =>
      let* _ := lift (CHECK_CALL "mount(opt->sandbox_root, opt->sandbox_root, NULL, MS_BIND | MS_NOSUID, NULL)"
                        (mount k root root None (Z.lor MS_BIND MS_NOSUID) None)) in
      let* _ := lift (CHECK_CALL "chdir(opt->sandbox_root)" (chdir root)) in
      let* _ := SetupDevices k fuel in
      let* _ := lift (CHECK_CALL "mkdir(proc, 0755)" (mkdir "proc" 493)) in
      let* _ := lift (CHECK_CALL "mount(/proc, proc, NULL, MS_REC | MS_BIND, NULL)"
                        (mount k "/proc" "proc" None (Z.lor MS_REC MS_BIND) None)) in
      let* _ := lift (SetupDirectories_create_dirs fuel opt) in
      let* _ := lift (SetupDirectories_mounts k fuel opt) in
      SetupDirectories_home fuel uid
  end.

(** The mounts SetupDirectories makes before those of the command line. *)
Definition system_mounts (root : string) : list syscall :=
  [ SysMount root root None (Z.lor MS_BIND MS_NOSUID) None;
    SysMount "/dev/null" "dev/null" None MS_BIND None;
    SysMount "/dev/random" "dev/random" None MS_BIND None;
    SysMount "/dev/urandom" "dev/urandom" None MS_BIND None;
    SysMount "/dev/zero" "dev/zero" None MS_BIND None;
    SysMount "devpts" "dev/pts" (Some "devpts") (Z.lor MS_NOSUID MS_NOEXEC)
      (Some "ptmxmode=0666");
    SysMount "tmpfs" "dev/shm" (Some "tmpfs") (Z.lor MS_NOSUID MS_NODEV) None;
    SysMount "/proc" "proc" None (Z.lor MS_REC MS_BIND) None ].

(** An empty sandbox root [/sbx] beside [/usr], entered or not. *)
Definition bare_files : gmap (list string) node :=
  <[ ["sbx"] := dnode ]> (<[ ["usr"] := dnode ]> (<[ [] := dnode ]> ∅)).

Definition bare_hworld : hworld :=
  {| h_world := set_cwd [] (set_files bare_files sample_world);
     h_passwd := None;
     h_env := <["HOME" := "/home/caller"]> ∅;
     h_links := [] |}.

(** The sample sandbox with a file [dev] in its root. *)
Definition dev_taken_hworld : hworld :=
  with_world (set_files (<[ ["sbx"; "dev"] := fnode ]> sample_files) sample_world)
    sample_hworld.

(** When [m] returns, the [mount] calls it has made are [ms], in this
    order; [calls] reads the system calls made off the world. *)
Definition adds_mounts {W A} (calls : W -> list syscall) (ms : list syscall)
    (m : prog W A) : Prop :=
  forall w a w',
    m w = Returns a w' ->
    mount_calls (calls w') = mount_calls (calls w) ++ ms.

Definition h_calls (h : hworld) : list syscall := w_calls (h_world h).

(** ** What SetupDirectories needs of the options *)

(** The options hold [num_mounts] complete mount entries, [num_create_dirs]
    directories and a sandbox root: no element that the loops of
    SetupDirectories read is NULL or outside its array. *)
Definition filled (dirs : list (option string)) (n : Z) : Prop :=
  0 <= n
  /\ forall i, 0 <= i < n -> exists d, array_get dirs i = Some (Some d).

Definition arrays_usable (o : Options) : Prop :=
  is_Some (mounts_of o) /\ filled (create_dirs o) (num_create_dirs o).

Definition usable (o : Options) : Prop :=
  arrays_usable o /\ all_absolute o /\ is_Some (sandbox_root o).

(** [m] never goes outside an allocated object. *)
Definition defined {W A} (m : prog W A) : Prop := forall w, m w <> Undefined.

(** ** Mount flags in declaration order *)

(** The mount flag a token of getopt stands for, if it is one of -M, -m
    and -w with its argument. *)
Definition flag_of (r : getopt_ret) : option mount_flag :=
  match r with
  | GOpt c (Some x) =>
      if Ascii.eqb c "M" then Some (FlagM x)
      else if Ascii.eqb c "m" then Some (Flag_m x)
      else if Ascii.eqb c "w" then Some (Flag_w x)
      else None
  | _ => None
  end.

(** The mount flags among the tokens of a vector, in its order, and its
    other tokens. *)
Definition flags_of (ts : list getopt_ret) : list mount_flag := omap flag_of ts.

Definition is_mount_token (r : getopt_ret) : bool :=
  match flag_of r with
  | Some _ => true
  | None => false
  end.

Definition other_tokens (ts : list getopt_ret) : list getopt_ret :=
  List.filter (fun r => negb (is_mount_token r)) ts.

(** The world [ws] with the mount arrays of [om] in its options. *)
Definition with_mounts_of (om : Options) (ws : pworld) : pworld :=
  set_opt (set_mounts (mount_sources om) (mount_targets om) (mount_rw om)
             (mount_map_sizes om) (num_mounts om) (p_opt ws)) ws.

(** The argument files the loop at the end of ParseCommandLine reads: the
    operands from the first on, as long as they start with [@]. *)
Fixpoint leading_argfiles (operands : list string) : list string :=
  match operands with
  | String "@"%char filename :: operands' => filename :: leading_argfiles operands'
  | _ => []
  end.

(** The vector ParseOptionsFile hands to ParseCommandLine for a file, when
    it gets that far. *)
Definition file_argv (files : gmap string argfile) (filename : string)
    : option (list string) :=
  match files !! filename with
  | Some file =>
      match read_arguments (S (String.length (af_data file))) file
              (chars (af_data file)) [""] with
      | Some (inr sub_argv) => Some sub_argv
      | _ => None
      end
  | None => None
  end.

(** The mount flags in declaration order, one list for every call of
    ParseCommandLine: the flags of the vector itself, then, file by file,
    what the argument files it names declare, each read the same way. *)
Fixpoint declared_flags (fuel : nat) (files : gmap string argfile) (posix : bool)
    (optind : Z) (argv : list string) : list (list mount_flag) :=
  match fuel with
  | O => []
  | S fuel' =>
      let sr := getopt_scan posix (drop (getopt_start optind) argv) in
      flags_of (sr_tokens sr)
      :: flat_map (fun filename =>
                     match file_argv files filename with
                     | Some sub_argv => declared_flags fuel' files posix 0 sub_argv
                     | None => []
                     end)
           (leading_argfiles (sr_operands sr))
  end.

(** What the argument files among the operands declare. *)
Definition files_declared (fuel : nat) (files : gmap string argfile) (posix : bool)
    (operands : list string) : list (list mount_flag) :=
  flat_map (fun filename =>
              match file_argv files filename with
              | Some sub_argv => declared_flags fuel files posix 0 sub_argv
              | None => []
              end) (leading_argfiles operands).

(** The number of flags declared, and one for the end of every parse: no
    more entries than that are emitted. *)
Definition declared_size (runs : list (list mount_flag)) : nat :=
  (length (concat runs) + length runs)%nat.

(** The machine of the specification over these calls: each takes its
    flags through the transitions and ends its parse; the first starts in
    [st], every other one in Empty, where the one before it ended. *)
Fixpoint sm_parses (st : sm_state) (runs : list (list mount_flag))
    : option (list mount_entry) :=
  match runs with
  | [] => Some []
  | flags :: runs' =>
      match sm_steps st flags with
      | None => None
      | Some (st', out) =>
          match sm_parses Empty runs' with
          | Some l => Some (out ++ sm_end st' ++ l)
          | None => None
          end
      end
  end.

(** What is shown of a call of ParseCommandLine that comes back: its
    entries are those the machine emits for what was declared. *)
Definition follows (a : Z) (k : nat) : Prop :=
  forall (argv : list string) (w w' : pworld) (st : sm_state)
         (es : list mount_entry),
    ParseCommandLine k argv w = Returns tt w' ->
    mounts_repr a (p_opt w) st es ->
    a + 2 * (num_mounts (p_opt w)
             + Z.of_nat (declared_size
                           (declared_flags k (p_argfiles w) (p_posixly_correct w)
                              (p_optind w) argv))) + 4 < size_t_max ->
    exists out,
      sm_parses st (declared_flags k (p_argfiles w) (p_posixly_correct w)
                      (p_optind w) argv) = Some out
      /\ mounts_repr a (p_opt w') Empty (es ++ out)
      /\ surroundings w' = surroundings w.

(** A command line with mounts between other options and a command, and
    one that takes more mounts from an argument file than the arrays main
    allocates can hold; each with the parser's world when main calls
    ParseCommandLine. *)
Definition mounts_command_line : list string :=
  ["sandbox"; "-S"; "/sbx"; "-M"; "/usr"; "-M/lib"; "-w/opt/lib"; "-H"; "box";
   "-M"; "/etc"; "--"; "/bin/true"; "-x"].

Definition mounts_pworld : pworld :=
  set_opt (init_options (length mounts_command_line)) (start_pworld ∅).

Definition mounts_file : argfile :=
  plain_file
    (file_text ["-S/sbx"; "-M/a"; "-M/b"; "-w/c"; "-M/d"; "--"; "/bin/true"] None).

Definition mounts_file_line : list string := ["sandbox"; "-M/usr"; "@mounts"].

Definition mounts_file_pworld : pworld :=
  set_opt (init_options (length mounts_file_line))
    (start_pworld (<["mounts" := mounts_file]> ∅)).

(** * Verified properties *)

(** ** The model at work *)

Example dirname_examples :
  map dirname ["/usr/lib"; "/usr/"; "usr"; "/"; "."; ".."; ""; "a/b/"; "//a"; "a//b"; "///"; "//"]
  = ["/usr"; "/"; "."; "/"; "."; "."; "."; "a"; "//"; "a"; "/"; "//"].
Proof. reflexivity. Qed.

Example CreateTarget_sample_new_dir :
  calls_of (CreateTarget 10 (Some "var/cache/x") true sample_world)
  = [SysMkdir "var" 493; SysMkdir "var/cache" 493; SysMkdir "var/cache/x" 493].
Proof. vm_compute. reflexivity. Qed.

Example CreateTarget_sample_new_file :
  calls_of (CreateTarget 10 (Some "/sbx/usr/bin/tool") false sample_world)
  = [SysMkdir "/sbx/usr" 493; SysMkdir "/sbx/usr/bin" 493;
     SysOpenCreatExcl "/sbx/usr/bin/tool" 438; SysClose "/sbx/usr/bin/tool"].
Proof. vm_compute. reflexivity. Qed.

Example CreateTarget_sample_dot_component :
  CreateTarget 10 (Some "a/./b") true sample_world
  = Exits 1 (log_stderr "cannot create a/."
               (set_errno EEXIST (log_call (SysMkdir "a/." 493)
                  (create_node ["sbx"; "a"] KDir 493
                     (log_call (SysMkdir "a" 493) (set_errno ENOENT sample_world)))))).
Proof. vm_compute. reflexivity. Qed.

(** ** Inherited mount flags *)

Lemma getmntent_loop_skip (path : string) (before : list mntent) (rest : list mntent) :
  Forall (fun e => mnt_dir e <> path) before ->
  getmntent_loop path (before ++ rest) = getmntent_loop path rest.
Proof.
  induction 1 as [|e before Hne _ IH]; simpl; [reflexivity|].
  destruct (String.eqb_spec (mnt_dir e) path) as [Heq|_]; [contradiction|exact IH].
Qed.

Lemma getmntent_loop_first (path : string) (before after : list mntent) (entry : mntent) :
  Forall (fun e => mnt_dir e <> path) before ->
  mnt_dir entry = path ->
  getmntent_loop path (before ++ entry :: after) = Some entry.
Proof.
  intros Hb He. rewrite getmntent_loop_skip by exact Hb. simpl.
  rewrite He, String.eqb_refl. reflexivity.
Qed.

Lemma getmntent_loop_none (path : string) (mtab : list mntent) :
  Forall (fun e => mnt_dir e <> path) mtab ->
  getmntent_loop path mtab = None.
Proof.
  intros H. rewrite <- (app_nil_r mtab). rewrite getmntent_loop_skip by exact H.
  reflexivity.
Qed.

(** The three bits of the mask, read back. *)
Lemma flags_of_entry_bits (entry : mntent) :
  Z.testbit (flags_of_entry entry) 2 = hasmntopt entry "nodev"
  /\ Z.testbit (flags_of_entry entry) 1 = hasmntopt entry "nosuid"
  /\ Z.testbit (flags_of_entry entry) 3 = hasmntopt entry "noexec"
  /\ Z.land (flags_of_entry entry) (Z.lor (Z.lor MS_NODEV MS_NOSUID) MS_NOEXEC)
     = flags_of_entry entry.
Proof.
  unfold flags_of_entry.
  destruct (hasmntopt entry "nodev"), (hasmntopt entry "nosuid"),
    (hasmntopt entry "noexec"); repeat split; reflexivity.
Qed.

Lemma GetMountFlags_returns (path : string) (w : world) (mtab : list mntent) :
  w_mtab w = Some mtab ->
  exists w',
    GetMountFlags path w
    = Returns (match getmntent_loop path mtab with
               | Some entry => flags_of_entry entry
               | None => 0
               end) w'
    /\ w_files w' = w_files w /\ w_calls w' = w_calls w /\ w_mtab w' = w_mtab w
    /\ w_errno w' = w_errno w.
Proof.
  intros Hm. unfold GetMountFlags. rewrite Hm.
  destruct (getmntent_loop path mtab) as [entry|];
    unfold bind, PRINT_DEBUG, pure; destruct (w_debug w);
    eexists; (split; [reflexivity|]); repeat split; simpl; congruence.
Qed.

(** C1, as the code has it: scanning /proc/self/mounts in order, the FIRST
    entry whose mount point equals the target path decides.  The mask
    returned has MS_NODEV, MS_NOSUID, MS_NOEXEC exactly when [hasmntopt]
    finds nodev, nosuid, noexec in that entry's options, and no other bit;
    without such an entry the function returns zero. *)
Theorem GetMountFlags_first_entry (path : string) (w : world) (mtab : list mntent) :
  w_mtab w = Some mtab ->
  exists flags w',
    GetMountFlags path w = Returns flags w'
    /\ w_files w' = w_files w
    /\ (forall before entry after,
          mtab = before ++ entry :: after ->
          Forall (fun e => mnt_dir e <> path) before ->
          mnt_dir entry = path ->
          (Z.land flags MS_NODEV = MS_NODEV <-> hasmntopt entry "nodev" = true)
          /\ (Z.land flags MS_NOSUID = MS_NOSUID <-> hasmntopt entry "nosuid" = true)
          /\ (Z.land flags MS_NOEXEC = MS_NOEXEC <-> hasmntopt entry "noexec" = true)
          /\ Z.land flags (Z.lor (Z.lor MS_NODEV MS_NOSUID) MS_NOEXEC) = flags)
    /\ (Forall (fun e => mnt_dir e <> path) mtab -> flags = 0).
Proof.
  intros Hm.
  destruct (GetMountFlags_returns path w mtab Hm) as (w' & Hrun & Hf & _).
  eexists; exists w'. split; [exact Hrun|]. split; [exact Hf|]. split.
  - intros before entry after -> Hb He.
    rewrite (getmntent_loop_first path before after entry Hb He).
    unfold flags_of_entry.
    destruct (hasmntopt entry "nodev"), (hasmntopt entry "nosuid"),
      (hasmntopt entry "noexec"); vm_compute; intuition congruence.
  - intros Hall. rewrite (getmntent_loop_none path mtab Hall). reflexivity.
Qed.

Lemma GetMountFlags_first_entry_witness :
  exists flags w',
    GetMountFlags "/sbx/mnt" stacked_world = Returns flags w'
    /\ w_files w' = w_files stacked_world
    /\ (forall before entry after,
          stacked_mtab = before ++ entry :: after ->
          Forall (fun e => mnt_dir e <> "/sbx/mnt") before ->
          mnt_dir entry = "/sbx/mnt" ->
          (Z.land flags MS_NODEV = MS_NODEV <-> hasmntopt entry "nodev" = true)
          /\ (Z.land flags MS_NOSUID = MS_NOSUID <-> hasmntopt entry "nosuid" = true)
          /\ (Z.land flags MS_NOEXEC = MS_NOEXEC <-> hasmntopt entry "noexec" = true)
          /\ Z.land flags (Z.lor (Z.lor MS_NODEV MS_NOSUID) MS_NOEXEC) = flags)
    /\ (Forall (fun e => mnt_dir e <> "/sbx/mnt") stacked_mtab -> flags = 0).
Proof.
  apply (GetMountFlags_first_entry "/sbx/mnt" stacked_world stacked_mtab).
  reflexivity.
Defined.

(** C1 as stated fails: with two entries on /sbx/mnt, the first with
    nosuid,nodev and the last with noexec, the function returns
    MS_NOSUID | MS_NODEV (the first entry's flags), where the last entry
    would give MS_NOEXEC. *)
Lemma GetMountFlags_last_entry_counterexample :
  returned (GetMountFlags "/sbx/mnt" stacked_world) = Some (Z.lor MS_NOSUID MS_NODEV)
  /\ last_entry_on "/sbx/mnt" stacked_mtab
     = Some {| mnt_dir := "/sbx/mnt"; mnt_opts := "rw,noexec" |}
  /\ (flags_of_entry <$> last_entry_on "/sbx/mnt" stacked_mtab) = Some MS_NOEXEC
  /\ returned (GetMountFlags "/sbx/mnt" stacked_world)
     <> (flags_of_entry <$> last_entry_on "/sbx/mnt" stacked_mtab).
Proof. vm_compute. repeat split; congruence. Qed.

(** ** CreateNamespaces *)

Lemma wrap_int_small (x : Z) : -2147483648 <= x < 2147483648 -> wrap_int x = x.
Proof.
  intros H. unfold wrap_int.
  change (2 ^ 31) with 2147483648. change (2 ^ 32) with 4294967296.
  rewrite Z.mod_small by lia. lia.
Qed.

Lemma sleeps_app (a b : list nevent) : sleeps (a ++ b) = sleeps a ++ sleeps b.
Proof. unfold sleeps. apply omap_app. Qed.

Lemma attempts_app (a b : list nevent) :
  attempts (a ++ b) = (attempts a + attempts b)%nat.
Proof. unfold attempts. rewrite List.filter_app, length_app. reflexivity. Qed.

Lemma unshare_loop_S (fuel : nat) (create_netns delay tries : Z) :
  unshare_loop (S fuel) create_netns delay tries
  = if tries <? max_tries then
      let tries := wrap_int (tries + 1) in
      let* r := unshare (unshare_flags create_netns) in
      if r =? 0 then
        fun w => Returns tt (if n_debug w
                             then nlog (EvStderr "unshare succeeded") w else w)
      else
        fun w =>
          if negb (n_errno w =? EINVAL)
          then Exits EXIT_FAILURE (nlog (EvStderr "unshare") w)
          else
            (let* _ := usleep delay in
             let delay := if delay <? 250000 then wrap_int (delay * 2) else delay in
             unshare_loop fuel create_netns delay tries) w
    else
      fun w =>
        Exits EXIT_FAILURE
          (nlog (EvStderr "unshare failed with EINVAL even after tries, giving up.") w).
Proof. reflexivity. Qed.

(** What one run of the loop adds to the events: the loop always ends, by a
    return or by [exit]; it makes no more attempts than are left of the
    hundred; every delay it sleeps is between 1 and 262144. *)
Lemma unshare_loop_ends (fuel : nat) :
  forall (create_netns delay tries : Z) (w : nworld),
    0 <= tries <= 100 ->
    (Z.to_nat (100 - tries) < fuel)%nat ->
    (exists k, 0 <= k <= 18 /\ delay = 2 ^ k) ->
    exists w' evs,
      final (unshare_loop fuel create_netns delay tries w) = Some w'
      /\ n_events w' = n_events w ++ evs
      /\ Forall (fun d => 1 <= d <= 262144) (sleeps evs)
      /\ (attempts evs <= Z.to_nat (100 - tries))%nat.
Proof.
  induction fuel as [|fuel IH]; intros cn delay tries w Ht Hf Hd; [lia|].
  simpl. unfold max_tries.
  destruct (Z.ltb_spec tries 100) as [Hlt|Hge].
  - rewrite (wrap_int_small (tries + 1)) by lia.
    unfold bind at 1. unfold unshare.
    destruct (n_unshare w (n_calls w)) as [e|] eqn:Hans; simpl.
    + destruct (Z.eqb_spec e EINVAL) as [->|Hne]; simpl.
      * unfold bind at 1. unfold usleep.
        set (w1 := nlog _ _).
        set (delay' := if delay <? 250000 then wrap_int (delay * 2) else delay).
        destruct Hd as (k & Hk & ->).
        assert (Hb : 1 <= 2 ^ k <= 262144).
        { split; [apply (Z.pow_le_mono_r 2 0 k); lia|].
          change 262144 with (2 ^ 18). apply Z.pow_le_mono_r; lia. }
        assert (Hd' : exists k', 0 <= k' <= 18 /\ delay' = 2 ^ k').
        { subst delay'. destruct (Z.ltb_spec (2 ^ k) 250000) as [Hlow|_].
          - rewrite wrap_int_small by lia.
            exists (k + 1). split.
            + assert (k <> 18) by (intros ->; vm_compute in Hlow; discriminate). lia.
            + rewrite Z.pow_add_r by lia. lia.
          - exists k. split; [lia|reflexivity]. }
        destruct (IH cn delay' (tries + 1) w1) as (w' & evs & Hrun & Hev & Hsl & Hat);
          [lia|lia|exact Hd'|].
        exists w', ([EvUnshare (unshare_flags cn); EvUsleep (2 ^ k)] ++ evs).
        split; [exact Hrun|]. split.
        { rewrite Hev. subst w1. simpl. rewrite <- !app_assoc. reflexivity. }
        split.
        { rewrite sleeps_app. simpl. constructor; [lia|exact Hsl]. }
        { rewrite attempts_app.
          replace (Z.to_nat (100 - tries)) with (S (Z.to_nat (100 - (tries + 1)))) by lia.
          cbn. lia. }
      * eexists. exists [EvUnshare (unshare_flags cn); EvStderr "unshare"].
        split; [reflexivity|]. simpl. rewrite <- !app_assoc.
        split; [reflexivity|]. split; [constructor|]. cbn. lia.
    + eexists. exists (EvUnshare (unshare_flags cn) ::
                       if n_debug w then [EvStderr "unshare succeeded"] else []).
      split; [reflexivity|].
      destruct (n_debug w); simpl; rewrite <- ?app_assoc;
        (split; [reflexivity|]); (split; [constructor|]); cbn; lia.
  - eexists. eexists. split; [reflexivity|]. simpl.
    split; [reflexivity|]. split; [constructor|]. cbn. lia.
Qed.

(** CreateNamespaces always ends; it calls [unshare] at most 100 times and
    never sleeps longer than 262144 microseconds. *)
Lemma CreateNamespaces_bounds (create_netns : Z) (w : nworld) :
  exists w' evs,
    final (CreateNamespaces create_netns w) = Some w'
    /\ n_events w' = n_events w ++ evs
    /\ Forall (fun d => 1 <= d <= 262144) (sleeps evs)
    /\ (attempts evs <= 100)%nat.
Proof.
  unfold CreateNamespaces.
  destruct (unshare_loop_ends 101 create_netns 1 0 w) as (w' & evs & H1 & H2 & H3 & H4);
    [lia|simpl; lia|exists 0; split; [lia|reflexivity]|].
  exists w', evs. repeat split; try assumption.
Qed.

(** The first attempt decides when it does not fail with EINVAL: success
    returns at once, any other error is reported and exits. *)
Lemma CreateNamespaces_first_attempt (create_netns : Z) (w : nworld) :
  match n_unshare w (n_calls w) with
  | None =>
      exists w', CreateNamespaces create_netns w = Returns tt w'
                 /\ sleeps (n_events w') = sleeps (n_events w)
                 /\ attempts (n_events w') = S (attempts (n_events w))
  | Some e =>
      e <> EINVAL ->
      exists w', CreateNamespaces create_netns w = Exits EXIT_FAILURE w'
                 /\ n_events w'
                    = n_events w ++ [EvUnshare (unshare_flags create_netns);
                                     EvStderr "unshare"]
  end.
Proof.
  unfold CreateNamespaces. rewrite unshare_loop_S.
  change (0 <? max_tries) with true. cbv iota zeta.
  destruct (n_unshare w (n_calls w)) as [e|] eqn:Hans;
    unfold bind at 1, unshare; cbv beta; rewrite Hans; cbn -[unshare_loop].
  - intros Hne. destruct (Z.eqb_spec e EINVAL) as [->|_]; [contradiction|].
    cbn -[unshare_loop]. eexists. split; [reflexivity|]. simpl. rewrite <- app_assoc. reflexivity.
  - eexists. split; [reflexivity|].
    destruct (n_debug w); simpl; rewrite ?sleeps_app, ?attempts_app; simpl;
      rewrite ?app_nil_r; split; try reflexivity; cbn; lia.
Qed.

(** After [k] failures with EINVAL ([k] below 100) a success returns: the
    loop has made [k + 1] attempts. *)
Lemma CreateNamespaces_einval_times_returns :
  forall k, (k < 100)%nat ->
    exists w', CreateNamespaces 0 (fresh_nworld (einval_times k)) = Returns tt w'
               /\ attempts (n_events w') = S k.
Proof.
  intros k Hk.
  do 100 (destruct k as [|k]; [vm_compute; eexists; split; reflexivity|]).
  lia.
Qed.

(** A failure with EINVAL: one sleep, then the next round. *)
Lemma unshare_loop_einval (fuel : nat) (create_netns delay tries : Z) (w : nworld) :
  n_unshare w (n_calls w) = Some EINVAL ->
  0 <= tries < 100 ->
  unshare_loop (S fuel) create_netns delay tries w
  = unshare_loop fuel create_netns (next_delay delay) (tries + 1)
      {| n_unshare := n_unshare w; n_calls := S (n_calls w); n_errno := EINVAL;
         n_debug := n_debug w;
         n_events := n_events w
                     ++ [EvUnshare (unshare_flags create_netns); EvUsleep delay] |}.
Proof.
  intros Hans Ht. rewrite unshare_loop_S. unfold max_tries.
  destruct (Z.ltb_spec tries 100); [|lia]. cbv zeta.
  rewrite (wrap_int_small (tries + 1)) by lia.
  unfold bind at 1, unshare. rewrite Hans. cbn -[unshare_loop].
  unfold bind, usleep, nlog. cbn -[unshare_loop].
  rewrite <- app_assoc. reflexivity.
Qed.

(** [k] failures with EINVAL in a row: [k] sleeps, the i-th of them of the
    delay after [i] doublings. *)
Lemma unshare_loop_einval_run (create_netns : Z) (k : nat) :
  forall (fuel : nat) (delay tries : Z) (w : nworld),
    (forall i, (i < k)%nat -> n_unshare w (n_calls w + i)%nat = Some EINVAL) ->
    0 <= tries -> tries + Z.of_nat k <= 100 ->
    exists w',
      unshare_loop (k + fuel) create_netns delay tries w
      = unshare_loop fuel create_netns (delay_after k delay) (tries + Z.of_nat k) w'
      /\ n_unshare w' = n_unshare w
      /\ n_calls w' = (n_calls w + k)%nat
      /\ exists evs,
           n_events w' = n_events w ++ evs
           /\ sleeps evs = map (fun i => delay_after i delay) (seq 0 k).
Proof.
  induction k as [|k IH]; intros fuel delay tries w Hans Ht Hk.
  - exists w. rewrite Z.add_0_r, Nat.add_0_r. repeat split.
    exists []. rewrite app_nil_r. split; reflexivity.
  - change (S k + fuel)%nat with (S (k + fuel)).
    rewrite unshare_loop_einval;
      [|rewrite <- (Nat.add_0_r (n_calls w)); apply Hans; lia|lia].
    set (w1 := {| n_unshare := n_unshare w; n_calls := S (n_calls w) |}).
    destruct (IH fuel (next_delay delay) (tries + 1) w1)
      as (w' & Hrun & Hu & Hc & evs & Hev & Hsl).
    + intros i Hi. subst w1. cbn [n_unshare n_calls].
      replace (S (n_calls w) + i)%nat with (n_calls w + S i)%nat by lia.
      apply Hans. lia.
    + lia.
    + lia.
    + exists w'. rewrite Hrun.
      replace (tries + 1 + Z.of_nat k) with (tries + Z.of_nat (S k)) by lia.
      split; [reflexivity|]. split; [exact Hu|].
      split; [rewrite Hc; subst w1; cbn [n_calls]; lia|].
      exists ([EvUnshare (unshare_flags create_netns); EvUsleep delay] ++ evs).
      split.
      * rewrite Hev. subst w1. cbn [n_events]. rewrite <- app_assoc. reflexivity.
      * rewrite sleeps_app, Hsl. cbn [seq map]. rewrite <- seq_shift, map_map.
        reflexivity.
Qed.

(** Whenever the first 19 calls of [unshare] fail with EINVAL, the run
    sleeps 262144 microseconds after the 19th. *)
Lemma CreateNamespaces_nineteen_failures (create_netns : Z) (w : nworld) :
  (forall i, (i < 19)%nat -> n_unshare w (n_calls w + i)%nat = Some EINVAL) ->
  exists w' evs,
    final (CreateNamespaces create_netns w) = Some w'
    /\ n_events w' = n_events w ++ evs
    /\ sleeps evs !! 18%nat = Some 262144.
Proof.
  intros Hans. unfold CreateNamespaces.
  destruct (unshare_loop_einval_run create_netns 19 82 1 0 w Hans)
    as (w1 & Hrun & Hu & Hc & evs1 & Hev1 & Hsl1); [lia|lia|].
  change (19 + 82)%nat with 101%nat in Hrun. rewrite Hrun.
  destruct (unshare_loop_ends 82 create_netns (delay_after 19 1) (0 + Z.of_nat 19) w1)
    as (w' & evs & Hfin & Hev & _); [lia|simpl; lia|exists 18; split; [lia|reflexivity]|].
  exists w', (evs1 ++ evs). split; [exact Hfin|]. split.
  - rewrite Hev, Hev1, <- app_assoc. reflexivity.
  - rewrite sleeps_app, Hsl1. reflexivity.
Qed.

(** C2, the ceiling: the code sleeps 262144 microseconds from the 19th
    failed attempt on, more than the 250000 its comment and the
    specification promise.  With [unshare] failing with EINVAL every time,
    the run makes 100 attempts, sleeps after each of them and exits; the
    delays double from 1 to 262144 and stay there. *)
Theorem CreateNamespaces_sleeps_past_ceiling :
  exists w',
    CreateNamespaces 0 (fresh_nworld always_einval) = Exits EXIT_FAILURE w'
    /\ attempts (n_events w') = 100%nat
    /\ take 20 (sleeps (n_events w'))
       = [1; 2; 4; 8; 16; 32; 64; 128; 256; 512; 1024; 2048; 4096; 8192; 16384;
          32768; 65536; 131072; 262144; 262144]
    /\ sleeps (n_events w') !! 18%nat = Some 262144
    /\ 250000 < 262144.
Proof.
  eexists. split; [vm_compute; reflexivity|]. vm_compute. repeat split; reflexivity.
Qed.

(** ** The sandbox root (-S) *)

Lemma chars_app (a b : string) : chars (a +:+ b) = chars a ++ chars b.
Proof. induction a as [|c a IH]; simpl; [reflexivity|]. f_equal. exact IH. Qed.

Lemma str_chars (s : string) : str (chars s) = s.
Proof. apply string_of_list_ascii_of_string. Qed.

Lemma chars_str (l : list ascii) : chars (str l) = l.
Proof. apply list_ascii_of_string_of_list_ascii. Qed.

(** One trailing slash is taken off. *)
Lemma strip_trailing_slash_one (s : string) :
  strip_trailing_slash (s +:+ "/") = Some s.
Proof.
  unfold strip_trailing_slash. rewrite chars_app, rev_app_distr. simpl.
  rewrite rev_involutive. f_equal. apply str_chars.
Qed.

(** A value that does not end in a slash is stored as it is. *)
Lemma strip_trailing_slash_none (s : string) (c : ascii) :
  is_slash c = false ->
  strip_trailing_slash (s +:+ String c "") = Some (s +:+ String c "").
Proof.
  intros Hc. unfold strip_trailing_slash. rewrite chars_app, rev_app_distr. simpl.
  rewrite Hc. reflexivity.
Qed.

(** A second -S is a usage error, whatever its value. *)
Lemma second_sandbox_root_is_usage_error (optarg root : string) (w : pworld) :
  sandbox_root (p_opt w) = Some root ->
  handle_option "S" (Some optarg) w
  = Exits EXIT_FAILURE
      (perr "Multiple sandbox roots (-S) specified, expected one." w).
Proof. intros H. simpl. rewrite H. reflexivity. Qed.

(** C9, where the code falls short of it: only one slash is taken off, so a
    value that ends in two slashes is stored with a slash at its end.  For
    [-S /tmp//] the stored sandbox root is ["/tmp/"]. *)
Theorem sandbox_root_keeps_trailing_slash :
  exists w',
    main_parse 1 ["sandbox"; "-S"; "/tmp//"; "--"; "/bin/true"]
      (start_pworld ∅) = Returns tt w'
    /\ sandbox_root (p_opt w') = Some "/tmp/"
    /\ ends_with_slash "/tmp/" = true
    /\ strip_trailing_slash "/tmp//" = Some "/tmp/".
Proof. vm_compute. eexists. repeat split; reflexivity. Qed.

(** The first -S stores its value less one trailing slash. *)
Lemma first_sandbox_root_is_stored (optarg root : string) (w : pworld) :
  sandbox_root (p_opt w) = None ->
  strip_trailing_slash optarg = Some root ->
  handle_option "S" (Some optarg) w
  = Returns tt (set_opt (set_sandbox_root (Some root) (p_opt w)) w).
Proof. intros Hnone Hstrip. simpl. rewrite Hnone, Hstrip. reflexivity. Qed.

Lemma append_assoc (a b c : string) : (a +:+ b) +:+ c = a +:+ (b +:+ c).
Proof.
  induction a as [|x a IH]; [reflexivity|].
  change (String x ((a +:+ b) +:+ c) = String x (a +:+ (b +:+ c))).
  rewrite IH. reflexivity.
Qed.

(** Of two trailing slashes one is left. *)
Lemma strip_trailing_slash_two (s : string) :
  strip_trailing_slash (s +:+ "//") = Some (s +:+ "/")
  /\ ends_with_slash (s +:+ "/") = true.
Proof.
  split.
  - change "//" with ("/" +:+ "/"). rewrite <- append_assoc.
    apply strip_trailing_slash_one.
  - unfold ends_with_slash. rewrite chars_app, rev_app_distr. reflexivity.
Qed.

(** An empty value makes the code look at the character before the string:
    the behaviour is undefined. *)
Lemma empty_sandbox_root_is_undefined (w : pworld) :
  sandbox_root (p_opt w) = None ->
  handle_option "S" (Some "") w = Undefined.
Proof. intros Hnone. simpl. rewrite Hnone. reflexivity. Qed.

(** ** Mount-entry assembly *)

Lemma zip_mounts_snoc (n : nat) :
  forall srcs tgts rws l s t rw,
    zip_mounts srcs tgts rws n = Some l ->
    srcs !! n = Some (Some s) ->
    (n < length tgts)%nat -> (n < length rws)%nat ->
    zip_mounts srcs (<[n := Some t]> tgts) (<[n := rw]> rws) (S n)
    = Some (l ++ [emit s t rw]).
Proof.
  induction n as [|n IH]; intros srcs tgts rws l s t rw Hz Hs Ht Hr.
  - destruct srcs as [|[s0|] srcs]; try discriminate.
    destruct tgts as [|t0 tgts]; [simpl in Ht; lia|].
    destruct rws as [|r0 rws]; [simpl in Hr; lia|].
    simpl in *. injection Hz as <-. injection Hs as ->. reflexivity.
  - destruct srcs as [|[s0|] srcs]; try discriminate.
    destruct tgts as [|[t0|] tgts]; try discriminate.
    destruct rws as [|r0 rws]; try discriminate.
    simpl in Hz.
    destruct (zip_mounts srcs tgts rws n) as [l0|] eqn:Hz0; [|discriminate].
    injection Hz as <-.
    simpl in Hs, Ht, Hr.
    specialize (IH srcs tgts rws l0 s t rw Hz0 Hs ltac:(lia) ltac:(lia)).
    change (zip_mounts (Some s0 :: srcs) (Some t0 :: <[n := Some t]> tgts)
              (r0 :: <[n := rw]> rws) (S (S n))
            = Some ((emit s0 t0 r0 :: l0) ++ [emit s t rw])).
    simpl in IH |- *. rewrite IH. reflexivity.
Qed.

Lemma zip_mounts_insert_source (n : nat) :
  forall srcs tgts rws x,
    zip_mounts (<[n := x]> srcs) tgts rws n = zip_mounts srcs tgts rws n.
Proof.
  induction n as [|n IH]; intros srcs tgts rws x; [reflexivity|].
  destruct srcs as [|s srcs]; [reflexivity|]. simpl.
  destruct s; [|reflexivity].
  destruct tgts as [|[t0|] tgts]; try reflexivity.
  destruct rws as [|r0 rws]; try reflexivity.
  rewrite IH. reflexivity.
Qed.

Lemma zip_mounts_app (n : nat) :
  forall srcs tgts rws l a b c,
    zip_mounts srcs tgts rws n = Some l ->
    zip_mounts (srcs ++ a) (tgts ++ b) (rws ++ c) n = Some l.
Proof.
  induction n as [|n IH]; intros srcs tgts rws l a b c Hz; [exact Hz|].
  destruct srcs as [|[s0|] srcs]; try discriminate.
  destruct tgts as [|[t0|] tgts]; try discriminate.
  destruct rws as [|r0 rws]; try discriminate.
  simpl in Hz |- *.
  destruct (zip_mounts srcs tgts rws n) as [l0|] eqn:Hz0; [|discriminate].
  rewrite (IH _ _ _ _ a b c Hz0). exact Hz.
Qed.

Lemma array_get_nat {A} (l : list A) (i : Z) :
  0 <= i -> array_get l i = l !! Z.to_nat i.
Proof. intros H. unfold array_get. destruct (Z.ltb_spec i 0); [lia|reflexivity]. Qed.

Lemma array_set_nat {A} (l : list A) (i : Z) (x : A) :
  0 <= i < Z.of_nat (length l) ->
  array_set l i x = Some (<[Z.to_nat i := x]> l).
Proof.
  intros H. unfold array_set.
  destruct (Z.leb_spec 0 i); [|lia]. destruct (Z.ltb_spec i (Z.of_nat (length l))); [|lia].
  reflexivity.
Qed.

Section MountArrays.

(** The size the arrays were allocated with. *)
Variable a : Z.

(** Completing the pending mapping emits its entry and leaves no source
    pending. *)
Lemma completed_repr (o : Options) (s t : string) (rw : bool)
    (entries : list mount_entry) :
  mounts_repr a o (SourcePending s) entries ->
  mounts_repr a (completed t rw o) Empty (entries ++ [emit s t rw]).
Proof.
  intros (Ha & Hsz & Hlt & Hlr & Hn & Hb & Hm & Hp & Hnull & Hroom).
  specialize (Hroom ltac:(discriminate)).
  unfold mounts_repr, completed. simpl.
  rewrite !length_insert.
  repeat split; try assumption; try lia.
  - unfold mounts_of in *. simpl.
    destruct (Z.ltb_spec (num_mounts o) 0); [lia|].
    destruct (Z.ltb_spec (num_mounts o + 1) 0); [lia|].
    replace (Z.to_nat (num_mounts o + 1)) with (S (Z.to_nat (num_mounts o))) by lia.
    apply zip_mounts_snoc; try assumption; lia.
  - replace (Z.to_nat (num_mounts o + 1)) with (S (Z.to_nat (num_mounts o))) by lia.
    apply Hnull. lia.
  - intros i Hi. apply Hnull. lia.
  - intros H. contradiction.
Qed.

Lemma finish_pending_completed (o : Options) (s : string)
    (entries : list mount_entry) :
  mounts_repr a o (SourcePending s) entries ->
  finish_pending o = Some (completed s false o).
Proof.
  intros (Ha & Hsz & Hlt & Hlr & Hn & Hb & Hm & Hp & Hnull & Hroom).
  unfold finish_pending.
  rewrite array_get_nat by lia. rewrite Hp. simpl.
  rewrite !array_set_nat by lia. reflexivity.
Qed.

Lemma finish_pending_empty (o : Options) (entries : list mount_entry) :
  mounts_repr a o Empty entries -> finish_pending o = Some o.
Proof.
  intros (Ha & Hsz & Hlt & Hlr & Hn & Hb & Hm & Hp & Hnull & Hroom).
  unfold finish_pending. rewrite array_get_nat by lia. rewrite Hp. reflexivity.
Qed.

(** The first half of AddMountSource, in the machine's terms. *)
Lemma finish_pending_repr (o : Options) (st : sm_state)
    (entries : list mount_entry) :
  mounts_repr a o st entries ->
  exists o',
    finish_pending o = Some o'
    /\ mounts_repr a o' Empty (entries ++ sm_end st)
    /\ num_mounts o <= num_mounts o' <= num_mounts o + 1.
Proof.
  intros H. destruct st as [|s].
  - exists o. split; [exact (finish_pending_empty o entries H)|].
    simpl. rewrite app_nil_r. split; [exact H|lia].
  - exists (completed s false o).
    split; [exact (finish_pending_completed o s entries H)|].
    split; [exact (completed_repr o s s false entries H)|].
    simpl. lia.
Qed.

(** End of parse: AddMountSource(NULL, opt). *)
Lemma AddMountSource_NULL_repr (w : pworld) (st : sm_state)
    (entries : list mount_entry) :
  mounts_repr a (p_opt w) st entries ->
  exists o',
    AddMountSource None w = Returns tt (set_opt o' w)
    /\ mounts_repr a o' Empty (entries ++ sm_end st).
Proof.
  intros H. destruct (finish_pending_repr _ st entries H) as (o' & Hf & Hr & _).
  exists o'. unfold AddMountSource. rewrite Hf. split; [reflexivity|exact Hr].
Qed.

Lemma lookup_replicate_None {A} (l : list (option A)) (n i : nat) :
  (length l <= i < length l + n)%nat ->
  (l ++ replicate n None) !! i = Some None.
Proof.
  intros H. rewrite lookup_app_r by lia.
  apply lookup_replicate. split; [reflexivity|lia].
Qed.

(** Doubling the arrays changes neither the entries nor the state. *)
Lemma grow_mounts_repr (o : Options) (entries : list mount_entry) :
  mounts_repr a o Empty entries ->
  num_mounts o >= mount_map_sizes o - 1 ->
  mounts_repr a (grow_mounts o) Empty entries
  /\ num_mounts o + 1 < mount_map_sizes (grow_mounts o).
Proof.
  intros (Ha & Hsz & Hlt & Hlr & Hn & Hb & Hm & Hp & Hnull & Hroom) Hfull.
  unfold mounts_repr, grow_mounts. simpl.
  rewrite !length_app, !length_replicate.
  split; [|lia].
  repeat split; try lia.
  - unfold mounts_of in *. simpl.
    destruct (Z.ltb_spec (num_mounts o) 0); [lia|].
    apply zip_mounts_app. exact Hm.
  - rewrite lookup_app_l by lia. exact Hp.
  - intros i Hi.
    destruct (Nat.lt_ge_cases i (length (mount_sources o))) as [Hin|Hout].
    + rewrite lookup_app_l by lia. apply Hnull. lia.
    + apply lookup_replicate_None. lia.
Qed.

(** Storing a source where none is pending. *)
Lemma store_source_repr (o : Options) (s : string)
    (entries : list mount_entry) :
  mounts_repr a o Empty entries ->
  num_mounts o + 1 < mount_map_sizes o ->
  mounts_repr a
    (set_mounts (<[Z.to_nat (num_mounts o) := Some s]> (mount_sources o))
       (mount_targets o) (mount_rw o) (mount_map_sizes o) (num_mounts o) o)
    (SourcePending s) entries.
Proof.
  intros (Ha & Hsz & Hlt & Hlr & Hn & Hb & Hm & Hp & Hnull & Hroom) Hfree.
  unfold mounts_repr. simpl. rewrite !length_insert.
  repeat split; try assumption; try lia.
  - unfold mounts_of in *. simpl.
    destruct (Z.ltb_spec (num_mounts o) 0); [lia|].
    rewrite zip_mounts_insert_source. exact Hm.
  - apply list_lookup_insert_eq. lia.
  - intros i Hi. rewrite list_lookup_insert_ne by lia. apply Hnull. lia.
Qed.

(** -M: AddMountSource(optarg, opt). *)
Lemma AddMountSource_source_repr (w : pworld) (st : sm_state) (s : string)
    (entries : list mount_entry) :
  mounts_repr a (p_opt w) st entries ->
  a + 2 * num_mounts (p_opt w) + 4 < size_t_max ->
  exists o',
    AddMountSource (Some s) w = Returns tt (set_opt o' w)
    /\ mounts_repr a o' (SourcePending s) (entries ++ sm_end st)
    /\ num_mounts (p_opt w) <= num_mounts o' <= num_mounts (p_opt w) + 1.
Proof.
  intros H Hbound.
  destruct (finish_pending_repr _ st entries H) as (o1 & Hf & Hr & Hnum).
  unfold AddMountSource. rewrite Hf.
  assert (Hsmall : (mount_map_sizes o1 - 1) mod size_t_max = mount_map_sizes o1 - 1).
  { destruct Hr as (Ha & Hsz & Hlt & Hlr & Hn & Hb & _).
    apply Z.mod_small. lia. }
  rewrite Hsmall.
  destruct (Z.geb_spec (num_mounts o1) (mount_map_sizes o1 - 1)) as [Hfull|Hroom].
  - destruct (grow_mounts_repr o1 _ Hr ltac:(lia)) as (Hg & Hfree).
    pose proof (store_source_repr (grow_mounts o1) s _ Hg) as Hs.
    change (num_mounts (grow_mounts o1)) with (num_mounts o1) in *.
    specialize (Hs Hfree).
    rewrite array_set_nat.
    + eexists. split; [reflexivity|]. split; [exact Hs|]. simpl. lia.
    + destruct Hg as (_ & Hsz & _ & _ & Hn & _).
      change (num_mounts (grow_mounts o1)) with (num_mounts o1) in Hn. lia.
  - pose proof (store_source_repr o1 s _ Hr ltac:(lia)) as Hs.
    rewrite array_set_nat.
    + eexists. split; [reflexivity|]. split; [exact Hs|]. simpl. lia.
    + destruct Hr as (_ & Hsz & _ & _ & Hn & _). lia.
Qed.

(** -m and -w. *)
Lemma set_mount_target_repr (w : pworld) (flag s t : string) (rw : bool)
    (entries : list mount_entry) :
  mounts_repr a (p_opt w) (SourcePending s) entries ->
  starts_with_slash t = true ->
  set_mount_target flag rw t w = Returns tt (set_opt (completed t rw (p_opt w)) w).
Proof.
  intros (Ha & Hsz & Hlt & Hlr & Hn & Hb & Hm & Hp & Hnull & Hroom) Habs.
  unfold set_mount_target. rewrite Habs. simpl.
  rewrite array_get_nat by lia. rewrite Hp. simpl.
  rewrite !array_set_nat by lia. reflexivity.
Qed.

Lemma set_mount_target_empty (w : pworld) (flag t : string) (rw : bool)
    (entries : list mount_entry) :
  mounts_repr a (p_opt w) Empty entries ->
  starts_with_slash t = true ->
  set_mount_target flag rw t w
  = Exits EXIT_FAILURE
      (perr ("The -" +:+ flag +:+ " option must be preceded by an -M option.") w).
Proof.
  intros (Ha & Hsz & Hlt & Hlr & Hn & Hb & Hm & Hp & Hnull & Hroom) Habs.
  unfold set_mount_target. rewrite Habs. simpl.
  rewrite array_get_nat by lia. rewrite Hp. reflexivity.
Qed.

(** One flag: the [switch] case does what the machine's transition says. *)
Lemma handle_flag_step (w : pworld) (st : sm_state)
    (entries : list mount_entry) (f : mount_flag) :
  mounts_repr a (p_opt w) st entries ->
  absolute_flag f ->
  a + 2 * num_mounts (p_opt w) + 4 < size_t_max ->
  match sm_step st f with
  | Some (st', out) =>
      exists o',
        handle_getopt (flag_token f) w = Returns tt (set_opt o' w)
        /\ mounts_repr a o' st' (entries ++ out)
        /\ num_mounts o' <= num_mounts (p_opt w) + 1
  | None =>
      exists flag,
        handle_getopt (flag_token f) w
        = Exits EXIT_FAILURE
            (perr ("The -" +:+ flag +:+ " option must be preceded by an -M option.") w)
  end.
Proof.
  intros Hr Habs Hbound. unfold absolute_flag in Habs.
  destruct f as [s|t|t]; simpl in Habs.
  - (* -M *)
    destruct (AddMountSource_source_repr w st s entries Hr Hbound)
      as (o' & Hrun & Hr' & Hn).
    assert (Hcase : handle_getopt (flag_token (FlagM s)) w = Returns tt (set_opt o' w)).
    { simpl. rewrite Habs. exact Hrun. }
    destruct st as [|s0]; simpl sm_step; cbv iota; exists o';
      (split; [exact Hcase|]); (split; [|lia]).
    + simpl in Hr'. rewrite !app_nil_r in *. exact Hr'.
    + exact Hr'.
  - (* -m *)
    destruct st as [|s0]; simpl sm_step; cbv iota.
    + exists "m". exact (set_mount_target_empty w "m" t false entries Hr Habs).
    + exists (completed t false (p_opt w)).
      split; [exact (set_mount_target_repr w "m" s0 t false entries Hr Habs)|].
      split; [exact (completed_repr _ s0 t false entries Hr)|]. simpl. lia.
  - (* -w *)
    destruct st as [|s0]; simpl sm_step; cbv iota.
    + exists "w". exact (set_mount_target_empty w "w" t true entries Hr Habs).
    + exists (completed t true (p_opt w)).
      split; [exact (set_mount_target_repr w "w" s0 t true entries Hr Habs)|].
      split; [exact (completed_repr _ s0 t true entries Hr)|]. simpl. lia.
Qed.

End MountArrays.

Lemma init_options_repr (argc : nat) :
  (1 <= argc)%nat ->
  mounts_repr (Z.of_nat argc) (init_options argc) Empty [].
Proof.
  intros H. unfold mounts_repr, init_options. simpl.
  rewrite !length_replicate.
  repeat split; try lia.
  - apply lookup_replicate. split; [reflexivity|lia].
  - intros i Hi. apply lookup_replicate. split; [reflexivity|lia].
  - intros Hne. contradiction.
Qed.

Lemma ParseCommandLine_S (fuel : nat) (argv : list string) (w : pworld) :
  ParseCommandLine (S fuel) argv w
  = let start := getopt_start (p_optind w) in
    let sr := getopt_scan (p_posixly_correct w) (drop start argv) in
    let argv' := take start argv ++ sr_consumed sr ++ sr_operands sr in
    (let* _ := handle_options (sr_tokens sr) in
     let* _ := (fun w1 =>
                  Returns tt
                    (set_optind (Z.of_nat (start + length (sr_consumed sr))) w1)) in
     let* _ := AddMountSource None in
     let* _ := at_file_loop (ParseOptionsFile_with (ParseCommandLine fuel))
                 (length argv) argv' in
     take_command argv') w.
Proof. reflexivity. Qed.

(** With [optind] at the end of [argv] there is no argument file to read. *)
Lemma at_file_loop_done (parse_file : string -> prog pworld unit) (n : nat)
    (argv : list string) (w : pworld) :
  Z.of_nat (length argv) <= p_optind w ->
  at_file_loop parse_file n argv w = Returns tt w.
Proof.
  intros H. destruct n as [|n]; [reflexivity|]. simpl.
  destruct (Z.ltb_spec (p_optind w) (Z.of_nat (length argv))); [lia|reflexivity].
Qed.

Lemma take_command_none (argv : list string) (w : pworld) :
  Z.of_nat (length argv) <= p_optind w ->
  take_command argv w = Returns tt w.
Proof.
  intros H. unfold take_command.
  destruct (Z.gtb_spec (Z.of_nat (length argv)) (p_optind w)); [lia|reflexivity].
Qed.

(** The same through main: [-m] with nothing pending ends in the usage
    error. *)
Example target_without_source_is_usage_error :
  main_parse 1 ["sandbox"; "-S"; "/sbx"; "-m"; "/b"; "--"; "/bin/true"]
    (start_pworld ∅)
  = Exits EXIT_FAILURE
      (perr "The -m option must be preceded by an -M option."
         (set_opt (set_sandbox_root (Some "/sbx") (init_options 7)) (start_pworld ∅))).
Proof. reflexivity. Qed.

(** ** CreateTarget *)

Lemma CreateTarget_S (fuel : nat) (p0 : string) (is_directory : bool) :
  CreateTarget (S fuel) (Some p0) is_directory
  = let path := if (String.length p0 =? 0)%nat then ROOT_DIR else p0 in
    let* sb := stat path in
    match sb with
    | Some n =>
        if is_directory && S_ISDIR n then pure 0
        else if negb is_directory && S_ISREG n then pure 0
        else fun w =>
               Returns (-1)
                 (set_errno (if is_directory then ENOTDIR else EEXIST) w)
    | None =>
        fun w =>
          if negb (w_errno w =? ENOENT) then Returns (-1) w
          else
            (let* _ := CHECK_CALL "CreateTarget(dirname(strdupa(path)), true)"
                         (CreateTarget fuel (Some (dirname path)) true) in
             if is_directory then
               let* _ := CHECK_CALL_MSG (mkdir path 493)
                           ("cannot create " +:+ path) in
               pure 0
             else
               let* _ := CreateFile path in
               pure 0) w
    end.
Proof. reflexivity. Qed.

(** C10: CreateTarget with a NULL path returns -1 with [errno] set to
    EINVAL; no system call is made, the file tree and the current directory
    are as before. *)
Theorem CreateTarget_NULL (fuel : nat) (is_directory : bool) (w : world) :
  exists w',
    CreateTarget (S fuel) None is_directory w = Returns (-1) w'
    /\ w_errno w' = EINVAL
    /\ w_files w' = w_files w
    /\ w_cwd w' = w_cwd w
    /\ w_calls w' = w_calls w
    /\ w_mtab w' = w_mtab w.
Proof. exists (set_errno EINVAL w). repeat split; reflexivity. Qed.

(** *** Path resolution *)

Lemma walk_app (f : gmap (list string) node) (a b : list string) :
  forall cur,
    walk f cur (a ++ b)
    = match walk f cur a with
      | inl e => inl e
      | inr k => walk f k b
      end.
Proof.
  induction a as [|c a IH]; intros cur; [reflexivity|].
  simpl. destruct (f !! cur) as [n|]; [|reflexivity].
  destruct (n_kind n); try reflexivity.
  destruct (stays c); [apply IH|].
  destruct (String.eqb c ".."); apply IH.
Qed.

(** A name that did not exist is not on the way to any path that resolved:
    creating it leaves the resolution of that path as it was. *)
Lemma walk_insert_fresh (f : gmap (list string) node) (key : list string) (n : node)
    (cs : list string) :
  f !! key = None ->
  forall cur k,
    walk f cur cs = inr k ->
    walk (<[key := n]> f) cur cs = inr k.
Proof.
  intros Hfresh. induction cs as [|c cs IH]; intros cur k Hw; [exact Hw|].
  simpl in Hw |- *.
  destruct (f !! cur) as [m|] eqn:Hcur; [|discriminate].
  assert (Hne : key <> cur) by congruence.
  rewrite lookup_insert_ne by exact Hne. rewrite Hcur.
  destruct (n_kind m); try discriminate.
  destruct (stays c); [apply IH; exact Hw|].
  destruct (String.eqb c ".."); apply IH; exact Hw.
Qed.

(** Trailing slashes resolve to the directory itself. *)
Lemma walk_empty_components (f : gmap (list string) node) (k : list string)
    (n : node) (es : list string) :
  f !! k = Some n -> n_kind n = KDir ->
  Forall (fun c => c = "") es ->
  walk f k es = inr k.
Proof.
  intros Hk Hd. induction 1 as [|c es -> _ IH]; [reflexivity|].
  simpl. rewrite Hk, Hd. exact IH.
Qed.

Lemma drop_empty_split (l : list string) :
  exists es, l = es ++ drop_empty l /\ Forall (fun c => c = "") es.
Proof.
  induction l as [|c l (es & Hl & Hes)]; [exists []; split; [reflexivity|constructor]|].
  simpl. unfold is_empty_string. destruct (String.eqb_spec c "") as [->|Hne].
  - exists ("" :: es). split; [simpl; f_equal; exact Hl|constructor; [reflexivity|exact Hes]].
  - exists []. split; [reflexivity|constructor].
Qed.

Lemma drop_empty_head (l : list string) (c : string) (l' : list string) :
  drop_empty l = c :: l' -> c <> "".
Proof.
  induction l as [|x l IH]; [discriminate|].
  simpl. unfold is_empty_string. destruct (String.eqb_spec x "") as [->|Hne].
  - exact IH.
  - intros H. injection H as -> _. exact Hne.
Qed.

(** The components of a path, by its directory part and last name. *)
Lemma parent_and_name_split (p : string) (parent : list string) (name : string) :
  parent_and_name p = Some (parent, name) ->
  name <> ""
  /\ exists es, split_slash p = parent ++ [name] ++ es /\ Forall (fun c => c = "") es.
Proof.
  unfold parent_and_name. intros H.
  destruct (drop_empty (rev (split_slash p))) as [|c rparent] eqn:Hd; [discriminate|].
  injection H as <- <-.
  split; [exact (drop_empty_head _ _ _ Hd)|].
  destruct (drop_empty_split (rev (split_slash p))) as (es & Hl & Hes).
  rewrite Hd in Hl. exists (rev es). split.
  - rewrite <- (rev_involutive (split_slash p)), Hl.
    rewrite rev_app_distr. simpl. rewrite <- app_assoc. reflexivity.
  - apply Forall_rev. exact Hes.
Qed.

Lemma split_slash_nonempty (p : string) : split_slash p <> [].
Proof.
  destruct p as [|c p]; simpl; [discriminate|].
  destruct (is_slash c); [discriminate|].
  destruct (split_slash p); discriminate.
Qed.

(** A path that does not end in a slash has a last component that is not
    empty. *)
Lemma split_slash_last (p : string) :
  p <> "" -> ends_with_slash p = false -> last (split_slash p) <> Some "".
Proof.
  unfold ends_with_slash.
  induction p as [|c p IH]; intros Hne He; [contradiction|].
  simpl in He |- *.
  destruct p as [|c' p'].
  - simpl in *. destruct (is_slash c); [discriminate|]. simpl. discriminate.
  - assert (Hp : match rev (chars (String c' p')) with
                 | c0 :: _ => is_slash c0 | [] => false end = false).
    { simpl in He |- *. destruct (rev (chars p') ++ [c']) eqn:Hr.
      - destruct (rev (chars p')); discriminate.
      - simpl in He. exact He. }
    specialize (IH ltac:(discriminate) Hp).
    destruct (is_slash c).
    + rewrite last_cons. destruct (last (split_slash (String c' p'))) eqn:Hl.
      * exact IH.
      * exfalso. apply last_None in Hl. exact (split_slash_nonempty _ Hl).
    + destruct (split_slash (String c' p')) as [|x xs] eqn:Hs;
        [exfalso; exact (split_slash_nonempty _ Hs)|].
      rewrite last_cons. destruct xs as [|y ys].
      * simpl. discriminate.
      * rewrite last_cons in IH.
        destruct (last (y :: ys)) as [z|] eqn:Hl; [exact IH|].
        apply last_None in Hl. discriminate.
Qed.

Lemma new_entry_inv (w : world) (p : string) (k : list string) :
  new_entry w p = inr k ->
  p <> ""
  /\ exists parent name kp nd,
       parent_and_name p = Some (parent, name)
       /\ walk (w_files w) (start_dir w p) parent = inr kp
       /\ w_files w !! kp = Some nd /\ n_kind nd = KDir
       /\ is_dot_name name = false
       /\ w_files w !! (kp ++ [name]) = None
       /\ k = kp ++ [name].
Proof.
  unfold new_entry. intros H.
  destruct p as [|c p]; [discriminate|]. split; [discriminate|].
  destruct (parent_and_name (String c p)) as [[parent name]|]; [|discriminate].
  destruct (walk (w_files w) (start_dir w (String c p)) parent) as [e|kp] eqn:Hw;
    [discriminate|].
  destruct (w_files w !! kp) as [nd|] eqn:Hkp; [|discriminate].
  destruct (n_kind nd) eqn:Hkind; try discriminate.
  destruct (is_dot_name name) eqn:Hdot; [discriminate|].
  destruct (w_files w !! (kp ++ [name])) eqn:Hnew; [discriminate|].
  injection H as <-.
  exists parent, name, kp, nd. repeat split; assumption.
Qed.

Lemma app_singleton_ne {A} (k : list A) (x : A) : k ++ [x] <> k.
Proof.
  intros H. apply (f_equal length) in H. rewrite length_app in H. simpl in H. lia.
Qed.

(** After a name was created, the path used to create it resolves to the
    new node: always for a directory, and for another node when the path
    does not end in a slash. *)
Lemma created_resolves (w : world) (p : string) (k : list string) (n : node) :
  new_entry w p = inr k ->
  n_kind n = KDir \/ ends_with_slash p = false ->
  lookup_path (set_files (<[k := n]> (w_files w)) w) p = inr n.
Proof.
  intros Hnew Hcase.
  destruct (new_entry_inv w p k Hnew)
    as (Hne & parent & name & kp & nd & Hpn & Hwalk & Hkp & Hkind & Hdot & Hfresh & ->).
  destruct (parent_and_name_split p parent name Hpn) as (Hname & es & Hsplit & Hes).
  unfold lookup_path. destruct p as [|c p]; [contradiction|].
  change (start_dir (set_files _ w) (String c p)) with (start_dir w (String c p)).
  simpl w_files. rewrite Hsplit, walk_app.
  rewrite (walk_insert_fresh _ _ n parent Hfresh _ _ Hwalk).
  simpl. rewrite lookup_insert_ne by apply app_singleton_ne. rewrite Hkp, Hkind.
  assert (Hstay : stays name = false).
  { unfold stays. unfold is_dot_name in Hdot.
    apply orb_false_iff in Hdot as [Hd _]. rewrite Hd.
    destruct (String.eqb_spec name ""); [contradiction|reflexivity]. }
  assert (Hdd : String.eqb name ".." = false).
  { unfold is_dot_name in Hdot. apply orb_false_iff in Hdot as [_ Hd]. exact Hd. }
  rewrite Hstay, Hdd.
  assert (Hend : walk (<[kp ++ [name] := n]> (w_files w)) (kp ++ [name]) es
                 = inr (kp ++ [name])).
  { destruct Hcase as [Hdir|Hslash].
    - apply (walk_empty_components _ _ n); [apply lookup_insert_eq|exact Hdir|exact Hes].
    - destruct es as [|e es]; [reflexivity|]. exfalso.
      apply (split_slash_last (String c p) Hne Hslash).
      rewrite Hsplit. rewrite !last_app.
      destruct (last (e :: es)) as [z|] eqn:Hl.
      + f_equal. rewrite Forall_forall in Hes. apply Hes.
        apply last_Some_elem_of. exact Hl.
      + apply last_None in Hl. discriminate. }
  rewrite Hend. rewrite lookup_insert_eq. reflexivity.
Qed.

Lemma mkdir_returns (p : string) (mode : Z) (w w' : world) (r : Z) :
  mkdir p mode w = Returns r w' ->
  r <> -1 ->
  r = 0
  /\ w_calls w' = w_calls w ++ [SysMkdir p mode]
  /\ w_cwd w' = w_cwd w /\ w_errno w' = w_errno w /\ w_umask w' = w_umask w
  /\ lookup_path w' p = inr {| n_kind := KDir; n_mode := Z.ldiff mode (w_umask w) |}.
Proof.
  unfold mkdir. intros H Hr.
  destruct (new_entry (log_call (SysMkdir p mode) w) p) as [e|k] eqn:Hnew.
  - unfold fail_with in H. injection H as <- _. contradiction.
  - injection H as <- <-. repeat split; try reflexivity.
    unfold create_node. apply created_resolves; [exact Hnew|left; reflexivity].
Qed.

Lemma open_creat_excl_returns (p : string) (mode : Z) (w w' : world) (r : Z) :
  open_creat_excl p mode w = Returns r w' ->
  r <> -1 ->
  w_calls w' = w_calls w ++ [SysOpenCreatExcl p mode]
  /\ w_cwd w' = w_cwd w /\ w_errno w' = w_errno w /\ w_umask w' = w_umask w
  /\ lookup_path w' p = inr {| n_kind := KReg; n_mode := Z.ldiff mode (w_umask w) |}.
Proof.
  unfold open_creat_excl. intros H Hr.
  destruct (ends_with_slash p) eqn:Hslash.
  - unfold fail_with in H. injection H as <- _. contradiction.
  - destruct (new_entry (log_call (SysOpenCreatExcl p mode) w) p) as [e|k] eqn:Hnew.
    + unfold fail_with in H. injection H as <- _. contradiction.
    + injection H as <- <-. repeat split; try reflexivity.
      unfold create_node. apply created_resolves; [exact Hnew|right; exact Hslash].
Qed.

(** Resolution looks at the file tree and the current directory only. *)
Lemma lookup_path_ext (w1 w2 : world) (p : string) :
  w_files w1 = w_files w2 -> w_cwd w1 = w_cwd w2 ->
  lookup_path w1 p = lookup_path w2 p.
Proof.
  intros Hf Hc. unfold lookup_path, start_dir. rewrite Hf, Hc. reflexivity.
Qed.

(** *** The four cases of CreateTarget *)

Lemma bind_returns {W A B} (m : prog W A) (k : A -> prog W B) (w w' : W) (b : B) :
  bind m k w = Returns b w' ->
  exists a w1, m w = Returns a w1 /\ k a w1 = Returns b w'.
Proof.
  unfold bind. destruct (m w) as [a w1| | |]; try discriminate.
  intros H. exists a, w1. split; [reflexivity|exact H].
Qed.

Lemma CHECK_CALL_returns (expr : string) (m : prog world Z) (w w' : world) (r : Z) :
  CHECK_CALL expr m w = Returns r w' -> m w = Returns r w' /\ r <> -1.
Proof.
  unfold CHECK_CALL. intros H.
  apply bind_returns in H as (a & w1 & Hm & Hk).
  destruct (Z.eqb_spec a (-1)) as [->|Hne]; [discriminate|].
  injection Hk as <- <-. split; assumption.
Qed.

Lemma CHECK_CALL_MSG_returns (msg : string) (m : prog world Z) (w w' : world) (r : Z) :
  CHECK_CALL_MSG m msg w = Returns r w' -> m w = Returns r w' /\ r <> -1.
Proof.
  unfold CHECK_CALL_MSG. intros H.
  apply bind_returns in H as (a & w1 & Hm & Hk).
  destruct (Z.eqb_spec a (-1)) as [->|Hne]; [discriminate|].
  injection Hk as <- <-. split; assumption.
Qed.

Lemma kind_matches_cases (d : bool) (n : node) :
  kind_matches d n = true ->
  n_kind n = if d then KDir else KReg.
Proof.
  unfold kind_matches, S_ISDIR, S_ISREG.
  destruct d, (n_kind n); simpl; intros H; try reflexivity; discriminate.
Qed.

(** The path exists and has the kind asked for: success, nothing changes. *)
Lemma CreateTarget_exists_match (fuel : nat) (p0 : string) (d : bool) (w : world)
    (n : node) :
  lookup_path w (target_path p0) = inr n ->
  kind_matches d n = true ->
  CreateTarget (S fuel) (Some p0) d w = Returns 0 w.
Proof.
  intros Hl Hk. rewrite CreateTarget_S. fold (target_path p0). cbv zeta.
  unfold bind, stat. rewrite Hl.
  unfold kind_matches in Hk.
  destruct (d && S_ISDIR n); [reflexivity|].
  simpl in Hk. rewrite Hk. reflexivity.
Qed.

(** The path exists with another kind: -1, with ENOTDIR when a directory
    was asked for and EEXIST when a file was. *)
Lemma CreateTarget_exists_mismatch (fuel : nat) (p0 : string) (d : bool) (w : world)
    (n : node) :
  lookup_path w (target_path p0) = inr n ->
  kind_matches d n = false ->
  CreateTarget (S fuel) (Some p0) d w
  = Returns (-1) (set_errno (if d then ENOTDIR else EEXIST) w).
Proof.
  intros Hl Hk. rewrite CreateTarget_S. fold (target_path p0). cbv zeta.
  unfold bind, stat. rewrite Hl.
  unfold kind_matches in Hk. apply orb_false_iff in Hk as [H1 H2].
  rewrite H1, H2. reflexivity.
Qed.

(** [stat] fails for another reason than a missing name: -1, [errno] is
    [stat]'s. *)
Lemma CreateTarget_stat_error (fuel : nat) (p0 : string) (d : bool) (w : world)
    (e : Z) :
  lookup_path w (target_path p0) = inl e ->
  e <> ENOENT ->
  CreateTarget (S fuel) (Some p0) d w = Returns (-1) (set_errno e w).
Proof.
  intros Hl He. rewrite CreateTarget_S. fold (target_path p0). cbv zeta.
  unfold bind, stat. rewrite Hl. simpl.
  destruct (Z.eqb_spec e ENOENT); [contradiction|reflexivity].
Qed.

(** The path does not exist: the parent is created, then the node. *)
Lemma CreateTarget_missing (fuel : nat) (p0 : string) (d : bool) (w : world) :
  lookup_path w (target_path p0) = inl ENOENT ->
  CreateTarget (S fuel) (Some p0) d w
  = (let* _ := CHECK_CALL "CreateTarget(dirname(strdupa(path)), true)"
                 (CreateTarget fuel (Some (dirname (target_path p0))) true) in
     if d then
       let* _ := CHECK_CALL_MSG (mkdir (target_path p0) 493)
                   ("cannot create " +:+ target_path p0) in
       pure 0
     else
       let* _ := CreateFile (target_path p0) in
       pure 0) (set_errno ENOENT w).
Proof.
  intros Hl. rewrite CreateTarget_S. fold (target_path p0). cbv zeta.
  unfold bind at 1. unfold stat. rewrite Hl. reflexivity.
Qed.

(** What a successful creation leaves: the parent was made by a recursive
    call that returned, then one [mkdir] with mode 0755, or one [open] with
    mode 0666 and its [close], made the node, which the path now names. *)
Lemma CreateTarget_missing_returns (fuel : nat) (p0 : string) (d : bool)
    (w w' : world) (r : Z) :
  lookup_path w (target_path p0) = inl ENOENT ->
  CreateTarget (S fuel) (Some p0) d w = Returns r w' ->
  r = 0
  /\ exists r1 w1,
       CreateTarget fuel (Some (dirname (target_path p0))) true (set_errno ENOENT w)
       = Returns r1 w1
       /\ r1 <> -1
       /\ w_calls w'
          = w_calls w1
            ++ (if d then [SysMkdir (target_path p0) 493]
                else [SysOpenCreatExcl (target_path p0) 438;
                      SysClose (target_path p0)])
       /\ lookup_path w' (target_path p0)
          = inr {| n_kind := if d then KDir else KReg;
                   n_mode := Z.ldiff (if d then 493 else 438) (w_umask w1) |}
       /\ w_errno w' = w_errno w1.
Proof.
  intros Hl H. rewrite (CreateTarget_missing fuel p0 d w Hl) in H.
  apply bind_returns in H as (r1 & w1 & Hparent & H).
  apply CHECK_CALL_returns in Hparent as (Hparent & Hr1).
  destruct d.
  - apply bind_returns in H as (r2 & w2 & Hmk & H).
    injection H as <- <-.
    apply CHECK_CALL_MSG_returns in Hmk as (Hmk & Hr2).
    destruct (mkdir_returns _ _ _ _ _ Hmk Hr2) as (_ & Hc & _ & He & _ & Hres).
    split; [reflexivity|]. exists r1, w1. repeat split; assumption.
  - apply bind_returns in H as ([] & w2 & Hcf & H).
    injection H as <- <-.
    unfold CreateFile in Hcf.
    apply bind_returns in Hcf as (fd & w3 & Hopen & Hcf).
    apply CHECK_CALL_MSG_returns in Hopen as (Hopen & Hfd).
    apply bind_returns in Hcf as (rc & w4 & Hclose & Hcf).
    injection Hcf as <-.
    apply CHECK_CALL_returns in Hclose as (Hclose & _).
    unfold close in Hclose. injection Hclose as _ <-.
    destruct (open_creat_excl_returns _ _ _ _ _ Hopen Hfd) as (Hc & _ & He & _ & Hres).
    split; [reflexivity|]. exists r1, w1. split; [exact Hparent|]. split; [exact Hr1|].
    split; [|split].
    + simpl. rewrite Hc. rewrite <- app_assoc. reflexivity.
    + rewrite <- Hres. apply lookup_path_ext; reflexivity.
    + exact He.
Qed.

(** A call that asks for a directory makes [mkdir] calls with mode 0755 and
    no other call. *)
Lemma CreateTarget_directory_calls (fuel : nat) :
  forall (p : option string) (w w' : world) (r : Z),
    CreateTarget fuel p true w = Returns r w' ->
    exists dirs, w_calls w' = w_calls w ++ map (fun q => SysMkdir q 493) dirs.
Proof.
  induction fuel as [|fuel IH]; intros p w w' r H; [discriminate|].
  destruct p as [p0|].
  - destruct (lookup_path w (target_path p0)) as [e|n] eqn:Hl.
    + destruct (Z.eq_dec e ENOENT) as [->|He].
      * destruct (CreateTarget_missing_returns fuel p0 true w w' r Hl H)
          as (_ & r1 & w1 & Hparent & _ & Hcalls & _).
        destruct (IH _ _ _ _ Hparent) as (dirs & Hd).
        exists (dirs ++ [target_path p0]).
        rewrite Hcalls, Hd, map_app, <- app_assoc. reflexivity.
      * rewrite (CreateTarget_stat_error fuel p0 true w e Hl He) in H.
        injection H as _ <-. exists []. simpl. rewrite app_nil_r. reflexivity.
    + destruct (kind_matches true n) eqn:Hk.
      * rewrite (CreateTarget_exists_match fuel p0 true w n Hl Hk) in H.
        injection H as _ <-. exists []. simpl. rewrite app_nil_r. reflexivity.
      * rewrite (CreateTarget_exists_mismatch fuel p0 true w n Hl Hk) in H.
        injection H as _ <-. exists []. simpl. rewrite app_nil_r. reflexivity.
  - simpl in H. injection H as _ <-. exists []. simpl. rewrite app_nil_r. reflexivity.
Qed.

(** *** The recursion ends *)

Lemma drop_slashes_length (r : list ascii) :
  (length (drop_slashes r) <= length r)%nat.
Proof.
  induction r as [|c r IH]; simpl; [lia|]. destruct (is_slash c); simpl; lia.
Qed.

Lemma drop_slashes_head (r : list ascii) (c : ascii) (r' : list ascii) :
  drop_slashes r = c :: r' -> is_slash c = false.
Proof.
  induction r as [|x r IH]; simpl; [discriminate|].
  destruct (is_slash x) eqn:Hx; [exact IH|].
  intros H. injection H as <- _. exact Hx.
Qed.

Lemma drop_component_length (r : list ascii) :
  (length (drop_component r) <= length r)%nat.
Proof.
  induction r as [|c r IH]; simpl; [lia|]. destruct (is_slash c); simpl; lia.
Qed.

Lemma length_str (l : list ascii) : String.length (str l) = length l.
Proof. induction l as [|c l IH]; simpl; [reflexivity|]. f_equal. exact IH. Qed.

Lemma length_chars (s : string) : length (chars s) = String.length s.
Proof. induction s as [|c s IH]; simpl; [reflexivity|]. f_equal. exact IH. Qed.

(** [dirname] gives ["."], ["/"], ["//"] or a string shorter than its
    argument. *)
Lemma dirname_shorter (p : string) :
  dirname p = "." \/ dirname p = "/" \/ dirname p = "//"
  \/ (0 < String.length (dirname p) < String.length p)%nat.
Proof.
  unfold dirname. rewrite <- (length_chars p), <- (length_rev (chars p)).
  set (r := rev (chars p)).
  pose proof (drop_slashes_length r) as H1.
  destruct (drop_slashes r) as [|c1 r1] eqn:Hr1.
  - destruct r; [left; reflexivity|].
    unfold root_of. destruct (_ =? _)%nat; auto.
  - pose proof (drop_slashes_head _ _ _ Hr1) as Hc1.
    simpl drop_component. rewrite Hc1.
    pose proof (drop_component_length r1) as H2.
    destruct (drop_component r1) as [|c2 r2] eqn:Hr2; [left; reflexivity|].
    pose proof (drop_slashes_length (c2 :: r2)) as H3.
    destruct (drop_slashes (c2 :: r2)) as [|c3 r3] eqn:Hr3.
    + unfold root_of. destruct (_ =? _)%nat; auto.
    + right. right. right. rewrite length_str, length_rev.
      simpl in *. lia.
Qed.

Lemma lookup_path_dot (w : world) :
  is_Some (w_files w !! w_cwd w) -> lookup_path w "." <> inl ENOENT.
Proof.
  intros [n Hn]. unfold lookup_path, start_dir. simpl. rewrite Hn.
  destruct (n_kind n); simpl; try discriminate. rewrite Hn. discriminate.
Qed.

Lemma lookup_path_root (w : world) :
  is_Some (w_files w !! []) ->
  lookup_path w "/" <> inl ENOENT /\ lookup_path w "//" <> inl ENOENT.
Proof.
  intros [n Hn]. unfold lookup_path, start_dir. simpl. rewrite Hn.
  destruct (n_kind n); simpl; try (split; discriminate). rewrite Hn.
  split; discriminate.
Qed.

Lemma mkdir_ends (p : string) (mode : Z) (w : world) :
  exists r w', mkdir p mode w = Returns r w'.
Proof.
  unfold mkdir, fail_with. destruct (new_entry _ p); eexists; eexists; reflexivity.
Qed.

Lemma open_creat_excl_ends (p : string) (mode : Z) (w : world) :
  exists r w', open_creat_excl p mode w = Returns r w'.
Proof.
  unfold open_creat_excl, fail_with.
  destruct (ends_with_slash p); [eexists; eexists; reflexivity|].
  destruct (new_entry _ p); eexists; eexists; reflexivity.
Qed.

Lemma target_path_nonempty (q : string) :
  (0 < String.length q)%nat -> target_path q = q.
Proof. unfold target_path. destruct q; simpl; [lia|reflexivity]. Qed.

(** With the root and the current directory in place, CreateTarget ends, by
    a return or by [exit], within a recursion depth of the length of the
    path plus one. *)
Lemma CreateTarget_ends (fuel : nat) :
  forall (p0 : string) (d : bool) (w : world),
    anchored w ->
    (String.length (target_path p0) < fuel)%nat ->
    is_Some (final (CreateTarget fuel (Some p0) d w)).
Proof.
  induction fuel as [|fuel IH]; intros p0 d w Ha Hlen; [lia|].
  destruct (lookup_path w (target_path p0)) as [e|n] eqn:Hl.
  - destruct (Z.eq_dec e ENOENT) as [->|He].
    + rewrite (CreateTarget_missing fuel p0 d w Hl).
      assert (Hparent : is_Some (final (CreateTarget fuel
                                   (Some (dirname (target_path p0))) true
                                   (set_errno ENOENT w)))).
      { assert (Hpos : (0 < String.length (target_path p0))%nat).
        { unfold target_path. destruct (String.length p0) eqn:Hp; simpl; lia. }
        assert (Ha' : anchored (set_errno ENOENT w)) by exact Ha.
        destruct Ha' as [Hroot Hcwd].
        destruct fuel as [|fuel']; [lia|].
        assert (Hspecial : forall q,
                   target_path q = q ->
                   lookup_path (set_errno ENOENT w) q <> inl ENOENT ->
                   is_Some (final (CreateTarget (S fuel') (Some q) true
                                     (set_errno ENOENT w)))).
        { intros q Hq Hne. rewrite <- Hq in Hne.
          destruct (lookup_path (set_errno ENOENT w) (target_path q)) as [e|n] eqn:Hlq.
          - rewrite (CreateTarget_stat_error fuel' q true _ e Hlq) by congruence.
            eexists; reflexivity.
          - destruct (kind_matches true n) eqn:Hk.
            + rewrite (CreateTarget_exists_match fuel' q true _ n Hlq Hk).
              eexists; reflexivity.
            + rewrite (CreateTarget_exists_mismatch fuel' q true _ n Hlq Hk).
              eexists; reflexivity. }
        destruct (dirname_shorter (target_path p0)) as [Hd|[Hd|[Hd|Hd]]].
        - rewrite Hd. apply Hspecial; [reflexivity|].
          apply lookup_path_dot. exact Hcwd.
        - rewrite Hd. apply Hspecial; [reflexivity|].
          apply lookup_path_root. exact Hroot.
        - rewrite Hd. apply Hspecial; [reflexivity|].
          apply lookup_path_root. exact Hroot.
        - apply IH; [split; assumption|].
          rewrite target_path_nonempty by lia. lia. }
      unfold bind at 1. unfold CHECK_CALL at 1. unfold bind at 1.
      destruct (CreateTarget fuel (Some (dirname (target_path p0))) true
                  (set_errno ENOENT w)) as [r1 w1|s w1| |];
        try (destruct Hparent; discriminate); [|eexists; reflexivity].
      destruct (r1 =? -1); [eexists; reflexivity|].
      unfold pure at 1. destruct d.
      * unfold bind, CHECK_CALL_MSG, bind.
        destruct (mkdir_ends (target_path p0) 493 w1) as (r & w2 & ->).
        destruct (r =? -1); eexists; reflexivity.
      * unfold CreateFile, bind, CHECK_CALL_MSG, CHECK_CALL, bind.
        destruct (open_creat_excl_ends (target_path p0) 438 w1) as (r & w2 & ->).
        destruct (r =? -1); eexists; reflexivity.
    + rewrite (CreateTarget_stat_error fuel p0 d w e Hl He). eexists; reflexivity.
  - destruct (kind_matches d n) eqn:Hk.
    + rewrite (CreateTarget_exists_match fuel p0 d w n Hl Hk). eexists; reflexivity.
    + rewrite (CreateTarget_exists_mismatch fuel p0 d w n Hl Hk). eexists; reflexivity.
Qed.

(** C8, as the code has it: CreateTarget is idempotent.  When a call
    returns, with 0 or with -1, the same call made again returns the same
    value and leaves the world (the file tree, [errno], the system calls
    made) exactly as the first call left it; so the second call succeeds
    when the first did, and changes nothing.  With the root and the current
    directory in place and a recursion budget above the length of the path,
    the first call does end, by a return or by [exit]. *)
Theorem CreateTarget_idempotent (fuel : nat) (p : option string) (d : bool)
    (w : world) :
  (forall r w',
     CreateTarget fuel p d w = Returns r w' ->
     CreateTarget fuel p d w' = Returns r w')
  /\ (forall p0,
        p = Some p0 -> anchored w ->
        (String.length (target_path p0) < fuel)%nat ->
        is_Some (final (CreateTarget fuel p d w))).
Proof.
  split; [|intros p0 -> Ha Hf; exact (CreateTarget_ends fuel p0 d w Ha Hf)].
  intros r w' H. destruct fuel as [|fuel]; [discriminate|].
  destruct p as [p0|]; [|simpl in H |- *; injection H as <- <-; reflexivity].
  destruct (lookup_path w (target_path p0)) as [e|n] eqn:Hl.
  - destruct (Z.eq_dec e ENOENT) as [->|He].
    + destruct (CreateTarget_missing_returns fuel p0 d w w' r Hl H)
        as (-> & r1 & w1 & _ & _ & _ & Hres & _).
      apply (CreateTarget_exists_match fuel p0 d w' _ Hres).
      unfold kind_matches, S_ISDIR, S_ISREG. destruct d; reflexivity.
    + rewrite (CreateTarget_stat_error fuel p0 d w e Hl He) in H.
      injection H as <- <-.
      apply (CreateTarget_stat_error fuel p0 d (set_errno e w) e); [|exact He].
      rewrite <- Hl. apply lookup_path_ext; reflexivity.
  - destruct (kind_matches d n) eqn:Hk.
    + rewrite (CreateTarget_exists_match fuel p0 d w n Hl Hk) in H.
      injection H as <- <-.
      exact (CreateTarget_exists_match fuel p0 d w n Hl Hk).
    + rewrite (CreateTarget_exists_mismatch fuel p0 d w n Hl Hk) in H.
      injection H as <- <-.
      apply (CreateTarget_exists_mismatch fuel p0 d
               (set_errno (if d then ENOTDIR else EEXIST) w) n); [|exact Hk].
      rewrite <- Hl. apply lookup_path_ext; reflexivity.
Qed.

Lemma CreateTarget_idempotent_witness :
  exists w',
    CreateTarget 10 (Some "var/cache/x") true sample_world = Returns 0 w'
    /\ CreateTarget 10 (Some "var/cache/x") true w' = Returns 0 w'.
Proof.
  eexists. split.
  - vm_compute. reflexivity.
  - apply (CreateTarget_idempotent 10 (Some "var/cache/x") true sample_world).
    vm_compute. reflexivity.
Defined.

(** C8 as stated fails: the two calls need not succeed.  Asking for a
    directory where a regular file is, both calls return -1 with ENOTDIR. *)
Lemma CreateTarget_twice_counterexample :
  CreateTarget 10 (Some "etc/passwd") true sample_world
  = Returns (-1) (set_errno ENOTDIR sample_world)
  /\ CreateTarget 10 (Some "etc/passwd") true (set_errno ENOTDIR sample_world)
     = Returns (-1) (set_errno ENOTDIR sample_world)
  /\ lookup_path sample_world "etc/passwd" = inr fnode.
Proof. vm_compute. repeat split; reflexivity. Qed.

(** CreateTarget leaves the umask and the current directory alone. *)
Lemma CreateTarget_keeps (fuel : nat) :
  forall (p : option string) (d : bool) (w w' : world) (r : Z),
    CreateTarget fuel p d w = Returns r w' ->
    w_umask w' = w_umask w /\ w_cwd w' = w_cwd w.
Proof.
  induction fuel as [|fuel IH]; intros p d w w' r H; [discriminate|].
  destruct p as [p0|]; [|simpl in H; injection H as _ <-; split; reflexivity].
  destruct (lookup_path w (target_path p0)) as [e|n] eqn:Hl.
  - destruct (Z.eq_dec e ENOENT) as [->|He].
    + rewrite (CreateTarget_missing fuel p0 d w Hl) in H.
      apply bind_returns in H as (r1 & w1 & Hparent & H).
      apply CHECK_CALL_returns in Hparent as (Hparent & Hr1).
      destruct (IH _ _ _ _ _ Hparent) as (Hu1 & Hc1). simpl in Hu1, Hc1.
      destruct d.
      * apply bind_returns in H as (r2 & w2 & Hmk & H). injection H as _ <-.
        apply CHECK_CALL_MSG_returns in Hmk as (Hmk & Hr2).
        destruct (mkdir_returns _ _ _ _ _ Hmk Hr2) as (_ & _ & Hc & _ & Hu & _).
        split; congruence.
      * apply bind_returns in H as ([] & w2 & Hcf & H). injection H as _ <-.
        unfold CreateFile in Hcf.
        apply bind_returns in Hcf as (fd & w3 & Hopen & Hcf).
        apply CHECK_CALL_MSG_returns in Hopen as (Hopen & Hfd).
        apply bind_returns in Hcf as (rc & w4 & Hclose & Hcf). injection Hcf as <-.
        apply CHECK_CALL_returns in Hclose as (Hclose & _).
        unfold close in Hclose. injection Hclose as _ <-.
        destruct (open_creat_excl_returns _ _ _ _ _ Hopen Hfd) as (_ & Hc & _ & Hu & _).
        simpl. split; congruence.
    + rewrite (CreateTarget_stat_error fuel p0 d w e Hl He) in H.
      injection H as _ <-. split; reflexivity.
  - destruct (kind_matches d n) eqn:Hk.
    + rewrite (CreateTarget_exists_match fuel p0 d w n Hl Hk) in H.
      injection H as _ <-. split; reflexivity.
    + rewrite (CreateTarget_exists_mismatch fuel p0 d w n Hl Hk) in H.
      injection H as _ <-. split; reflexivity.
Qed.

(** C5, as the code has it.  For [CreateTarget(path, is_directory)]:
    - an empty path is treated as ["."]; with the current directory in
      place this succeeds when a directory is asked for, and fails with
      EEXIST when a file is asked for;
    - a path that exists with the kind asked for gives 0 and changes
      nothing;
    - a path that exists with another kind gives -1, with ENOTDIR when a
      directory was asked for and EEXIST when a file was, and changes
      nothing else;
    - for a path that does not exist ([stat] fails with ENOENT) the parent
      [dirname(path)] is created by a recursive call asking for a directory,
      whose failure is fatal, then the node by [mkdir] with mode 0755 or by
      [open(O_CREAT | O_WRONLY | O_EXCL)] with mode 0666 and [close], whose
      failure is fatal too; when the call returns it returns 0, every call
      it made before the last is a [mkdir] with mode 0755, and the path
      names a directory or a regular file with that mode less the umask. *)
Theorem CreateTarget_cases (fuel : nat) (p0 : string) (d : bool) (w : world) :
  CreateTarget (S fuel) (Some "") d w = CreateTarget (S fuel) (Some ".") d w
  /\ (forall n, lookup_path w "." = inr n -> n_kind n = KDir ->
        CreateTarget (S fuel) (Some "") true w = Returns 0 w
        /\ CreateTarget (S fuel) (Some "") false w
           = Returns (-1) (set_errno EEXIST w))
  /\ (forall n, lookup_path w (target_path p0) = inr n ->
        kind_matches d n = true ->
        CreateTarget (S fuel) (Some p0) d w = Returns 0 w)
  /\ (forall n, lookup_path w (target_path p0) = inr n ->
        kind_matches d n = false ->
        exists w',
          CreateTarget (S fuel) (Some p0) d w = Returns (-1) w'
          /\ w_errno w' = (if d then ENOTDIR else EEXIST)
          /\ w_files w' = w_files w /\ w_calls w' = w_calls w)
  /\ (lookup_path w (target_path p0) = inl ENOENT ->
        CreateTarget (S fuel) (Some p0) d w
        = (let* _ := CHECK_CALL "CreateTarget(dirname(strdupa(path)), true)"
                       (CreateTarget fuel (Some (dirname (target_path p0))) true) in
           if d then
             let* _ := CHECK_CALL_MSG (mkdir (target_path p0) 493)
                         ("cannot create " +:+ target_path p0) in
             pure 0
           else
             let* _ := CreateFile (target_path p0) in
             pure 0) (set_errno ENOENT w)
        /\ forall r w',
             CreateTarget (S fuel) (Some p0) d w = Returns r w' ->
             r = 0
             /\ (exists dirs,
                   w_calls w'
                   = w_calls w ++ map (fun q => SysMkdir q 493) dirs
                     ++ (if d then [SysMkdir (target_path p0) 493]
                         else [SysOpenCreatExcl (target_path p0) 438;
                               SysClose (target_path p0)]))
             /\ lookup_path w' (target_path p0)
                = inr {| n_kind := if d then KDir else KReg;
                         n_mode := Z.ldiff (if d then 493 else 438) (w_umask w) |}).
Proof.
  split; [reflexivity|]. split; [|split; [|split]].
  - intros n Hl Hk. split.
    + apply (CreateTarget_exists_match fuel "" true w n Hl).
      unfold kind_matches, S_ISDIR. rewrite Hk. reflexivity.
    + apply (CreateTarget_exists_mismatch fuel "" false w n Hl).
      unfold kind_matches, S_ISDIR, S_ISREG. rewrite Hk. reflexivity.
  - intros n Hl Hk. exact (CreateTarget_exists_match fuel p0 d w n Hl Hk).
  - intros n Hl Hk. eexists.
    split; [exact (CreateTarget_exists_mismatch fuel p0 d w n Hl Hk)|].
    repeat split; reflexivity.
  - intros Hl. split; [exact (CreateTarget_missing fuel p0 d w Hl)|].
    intros r w' H.
    destruct (CreateTarget_missing_returns fuel p0 d w w' r Hl H)
      as (-> & r1 & w1 & Hparent & _ & Hcalls & Hres & _).
    destruct (CreateTarget_directory_calls _ _ _ _ _ Hparent) as (dirs & Hd).
    destruct (CreateTarget_keeps _ _ _ _ _ _ Hparent) as (Hu & _).
    split; [reflexivity|]. split.
    + exists dirs. rewrite Hcalls, Hd. simpl. rewrite <- app_assoc. reflexivity.
    + rewrite Hres, Hu. reflexivity.
Qed.

Lemma CreateTarget_cases_witness :
  (CreateTarget 10 (Some "") true sample_world = Returns 0 sample_world
   /\ CreateTarget 10 (Some "") false sample_world
      = Returns (-1) (set_errno EEXIST sample_world))
  /\ CreateTarget 10 (Some "etc/passwd") false sample_world = Returns 0 sample_world
  /\ (exists w',
        CreateTarget 10 (Some "etc") false sample_world = Returns (-1) w'
        /\ w_errno w' = EEXIST
        /\ w_files w' = w_files sample_world /\ w_calls w' = w_calls sample_world)
  /\ (forall r w',
        CreateTarget 10 (Some "var/cache/x") true sample_world = Returns r w' ->
        r = 0
        /\ (exists dirs,
              w_calls w'
              = w_calls sample_world ++ map (fun q => SysMkdir q 493) dirs
                ++ [SysMkdir "var/cache/x" 493])
        /\ lookup_path w' "var/cache/x"
           = inr {| n_kind := KDir; n_mode := Z.ldiff 493 18 |}).
Proof.
  split; [|split; [|split]].
  - destruct (CreateTarget_cases 9 "" true sample_world) as (_ & H & _).
    apply (H dnode); reflexivity.
  - destruct (CreateTarget_cases 9 "etc/passwd" false sample_world) as (_ & _ & H & _).
    apply (H fnode); reflexivity.
  - destruct (CreateTarget_cases 9 "etc" false sample_world) as (_ & _ & _ & H & _).
    apply (H dnode); reflexivity.
  - destruct (CreateTarget_cases 9 "var/cache/x" true sample_world) as (_ & _ & _ & _ & H).
    apply H. reflexivity.
Defined.

(** C5 as stated fails for the empty path when a file is asked for: the
    path is taken as ["."], which is a directory, and the call returns -1
    with EEXIST instead of succeeding. *)
Lemma CreateTarget_empty_path_counterexample :
  CreateTarget 10 (Some "") false sample_world
  = Returns (-1) (set_errno EEXIST sample_world)
  /\ w_errno (set_errno EEXIST sample_world) = EEXIST
  /\ lookup_path sample_world "." = inr dnode.
Proof. vm_compute. repeat split; reflexivity. Qed.

Lemma new_entry_ext (w1 w2 : world) (p : string) :
  w_files w1 = w_files w2 -> w_cwd w1 = w_cwd w2 ->
  new_entry w1 p = new_entry w2 p.
Proof.
  intros Hf Hc. unfold new_entry, start_dir. rewrite Hf, Hc. reflexivity.
Qed.

Lemma dirname_nonempty (p : string) : (0 < String.length (dirname p))%nat.
Proof.
  destruct (dirname_shorter p) as [-> | [-> | [-> | H]]]; simpl; lia.
Qed.

(** A new name in a directory that exists: one [mkdir], or one [open] and
    its [close], and the call returns 0. *)
Lemma CreateTarget_in_existing_directory (fuel : nat) (p0 : string) (d : bool)
    (w : world) (parent : node) (k : list string) :
  lookup_path w (target_path p0) = inl ENOENT ->
  lookup_path w (dirname (target_path p0)) = inr parent ->
  n_kind parent = KDir ->
  new_entry w (target_path p0) = inr k ->
  (d = false -> ends_with_slash (target_path p0) = false) ->
  exists w',
    CreateTarget (S (S fuel)) (Some p0) d w = Returns 0 w'
    /\ w_calls w'
       = w_calls w
         ++ (if d then [SysMkdir (target_path p0) 493]
             else [SysOpenCreatExcl (target_path p0) 438; SysClose (target_path p0)])
    /\ w_files w'
       = <[k := {| n_kind := if d then KDir else KReg;
                   n_mode := Z.ldiff (if d then 493 else 438) (w_umask w) |}]>
           (w_files w).
Proof.
  intros Hmiss Hparent Hdir Hnew Hslash.
  rewrite (CreateTarget_missing (S fuel) p0 d w Hmiss).
  unfold bind at 1. unfold CHECK_CALL at 1. unfold bind at 1.
  rewrite (CreateTarget_exists_match fuel (dirname (target_path p0)) true
             (set_errno ENOENT w) parent).
  - cbn [Z.eqb pure].
    assert (Hnew' : forall c, new_entry (log_call c (set_errno ENOENT w)) (target_path p0)
                              = inr k).
    { intros c. rewrite <- Hnew. apply new_entry_ext; reflexivity. }
    destruct d.
    + unfold bind, CHECK_CALL_MSG, bind, mkdir. rewrite Hnew'.
      cbn [Z.eqb pure]. eexists. split; [reflexivity|]. split; reflexivity.
    + unfold CreateFile, bind, CHECK_CALL_MSG, CHECK_CALL, bind, open_creat_excl, close.
      rewrite (Hslash eq_refl), Hnew'.
      cbn [Z.eqb Pos.eqb pure]. eexists. split; [reflexivity|].
      split; [|reflexivity]. simpl. rewrite <- app_assoc. reflexivity.
  - rewrite target_path_nonempty by apply dirname_nonempty.
    rewrite <- Hparent. apply lookup_path_ext; reflexivity.
  - unfold kind_matches, S_ISDIR. rewrite Hdir. reflexivity.
Qed.

(** ** SetupUserNamespace *)

Lemma percent_d_int (x : Z) :
  -2147483648 <= x < 2147483648 -> percent_d x = pretty x.
Proof. intros H. unfold percent_d, to_int. rewrite wrap_int_small by exact H. reflexivity. Qed.

Lemma wrap_int_large (x : Z) :
  2147483648 <= x < 4294967296 -> wrap_int x = x - 4294967296.
Proof.
  intros H. unfold wrap_int.
  change (2 ^ 31) with 2147483648. change (2 ^ 32) with 4294967296.
  Z.div_mod_to_equations. lia.
Qed.

(** WriteFile in one step: its calls, its result, and [errno]. *)
Lemma WriteFile_run (filename text : string) (w : uworld) :
  WriteFile filename text w
  = Returns (match write_fails (u_fails w) filename text with
             | Some _ => -1
             | None => 0
             end)
      {| u_fails := u_fails w;
         u_errno := match write_fails (u_fails w) filename text with
                    | Some e => e
                    | None => u_errno w
                    end;
         u_events := u_events w ++ write_calls (u_fails w) filename text |}.
Proof.
  unfold WriteFile, write_fails, write_calls, bind, ucall_run, pure. simpl.
  destruct (u_fails w (CFopen filename)) as [e1|]; simpl; [reflexivity|].
  destruct (u_fails w (CVfprintf filename text)) as [e2|]; simpl.
  - rewrite <- app_assoc. reflexivity.
  - assert (Hlen : (Z.of_nat (String.length text) >=? 0) = true).
    { destruct (Z.geb_spec (Z.of_nat (String.length text)) 0); [reflexivity|lia]. }
    rewrite Hlen. cbn.
    destruct (u_fails w (CFclose filename)) as [e3|]; unfold ulog; cbn;
      rewrite <- ?app_assoc; reflexivity.
Qed.

Ltac write_step :=
  unfold bind at 1; rewrite WriteFile_run; cbn [u_fails u_errno u_events].

Ltac close_run :=
  eexists; split; [reflexivity|]; cbn [u_events ulog];
  rewrite <- ?app_assoc; reflexivity.

(** The part of SetupUserNamespace after the write to setgroups was
    tolerated: it does not depend on how that write went. *)
Lemma SetupUserNamespace_tolerated (uid gid new_uid new_gid : Z) (w : uworld) :
  setgroups_tolerated (u_fails w) ->
  SetupUserNamespace uid gid new_uid new_gid w
  = (let* _ := ucheck "WriteFile(/proc/self/uid_map)"
                 (WriteFile "/proc/self/uid_map" (format_id_map new_uid uid)) in
     let* _ := ucheck "WriteFile(/proc/self/gid_map)"
                 (WriteFile "/proc/self/gid_map" (format_id_map new_gid gid)) in
     let* _ := ucheck "setresuid(new_uid, new_uid, new_uid)"
                 (ucall_run (CSetresuid new_uid new_uid new_uid)) in
     let* _ := ucheck "setresgid(new_gid, new_gid, new_gid)"
                 (ucall_run (CSetresgid new_gid new_gid new_gid)) in
     pure tt)
      {| u_fails := u_fails w;
         u_errno := match write_fails (u_fails w) "/proc/self/setgroups" "deny" with
                    | Some e => e
                    | None => u_errno w
                    end;
         u_events := u_events w
                     ++ write_calls (u_fails w) "/proc/self/setgroups" "deny" |}.
Proof.
  intros Htol. unfold SetupUserNamespace. write_step.
  unfold bind at 1.
  destruct Htol as [-> | ->]; reflexivity.
Qed.

(** SetupUserNamespace, step by step.  It first writes "deny" to
    /proc/self/setgroups; a failure of that write with another [errno] than
    ENOENT is reported and fatal, a failure with ENOENT is passed over
    without a message.  It then writes "<inner> <outer> 1\n" to
    /proc/self/uid_map and to /proc/self/gid_map, each failure being fatal,
    and calls [setresuid] and [setresgid] with the inner id in all three
    places, each failure being fatal.  Nothing is called after a fatal
    failure, and nothing else is called.  The text written is that of the
    format ["%d %d 1\n"]; for ids in the range of [int] it is the decimal
    ids. *)
Theorem SetupUserNamespace_steps (uid gid new_uid new_gid : Z) (w : uworld) :
  let k := u_fails w in
  let run := SetupUserNamespace uid gid new_uid new_gid w in
  let deny := write_calls k "/proc/self/setgroups" "deny" in
  let umap := write_calls k "/proc/self/uid_map" (format_id_map new_uid uid) in
  let gmap := write_calls k "/proc/self/gid_map" (format_id_map new_gid gid) in
  let uid_ok := write_fails k "/proc/self/uid_map" (format_id_map new_uid uid) = None in
  let gid_ok := write_fails k "/proc/self/gid_map" (format_id_map new_gid gid) = None in
  let setresuid := CSetresuid new_uid new_uid new_uid in
  let setresgid := CSetresgid new_gid new_gid new_gid in
  (forall e, write_fails k "/proc/self/setgroups" "deny" = Some e -> e <> ENOENT ->
     exits_after run w
       (deny ++ [UPerror "WriteFile(/proc/self/setgroups, deny)"]))
  /\ (setgroups_tolerated k ->
      forall e, write_fails k "/proc/self/uid_map" (format_id_map new_uid uid) = Some e ->
        exits_after run w (deny ++ umap ++ [UPerror "WriteFile(/proc/self/uid_map)"]))
  /\ (setgroups_tolerated k -> uid_ok ->
      forall e, write_fails k "/proc/self/gid_map" (format_id_map new_gid gid) = Some e ->
        exits_after run w
          (deny ++ umap ++ gmap ++ [UPerror "WriteFile(/proc/self/gid_map)"]))
  /\ (setgroups_tolerated k -> uid_ok -> gid_ok ->
      forall e, k setresuid = Some e ->
        exits_after run w
          (deny ++ umap ++ gmap
           ++ [UCall setresuid; UPerror "setresuid(new_uid, new_uid, new_uid)"]))
  /\ (setgroups_tolerated k -> uid_ok -> gid_ok -> k setresuid = None ->
      forall e, k setresgid = Some e ->
        exits_after run w
          (deny ++ umap ++ gmap
           ++ [UCall setresuid; UCall setresgid;
               UPerror "setresgid(new_gid, new_gid, new_gid)"]))
  /\ (setgroups_tolerated k -> uid_ok -> gid_ok ->
      k setresuid = None -> k setresgid = None ->
      returns_after run w (deny ++ umap ++ gmap ++ [UCall setresuid; UCall setresgid]))
  /\ (-2147483648 <= new_uid < 2147483648 -> -2147483648 <= uid < 2147483648 ->
      format_id_map new_uid uid
      = pretty new_uid +:+ " " +:+ pretty uid +:+ " 1" +:+ String newline "").
Proof.
  intros k run deny umap gmap uid_ok gid_ok setresuid setresgid.
  subst run uid_ok gid_ok.
  split; [|split; [|split; [|split; [|split; [|split]]]]].
  - intros e He Hne. unfold SetupUserNamespace. write_step. fold k. rewrite He.
    unfold bind at 1. cbn [Z.ltb Z.compare andb u_errno].
    destruct (Z.eqb_spec e ENOENT); [contradiction|]. cbn [negb].
    close_run.
  - intros Htol e He. rewrite (SetupUserNamespace_tolerated _ _ _ _ _ Htol).
    unfold bind at 1, ucheck at 1. write_step. fold k. rewrite He.
    cbn [Z.eqb Pos.eqb]. close_run.
  - intros Htol Hu e He. rewrite (SetupUserNamespace_tolerated _ _ _ _ _ Htol).
    unfold bind at 1, ucheck at 1. write_step. fold k. rewrite Hu.
    cbn [Z.eqb pure].
    unfold bind at 1, ucheck at 1. write_step. fold k. rewrite He.
    cbn [Z.eqb Pos.eqb]. close_run.
  - intros Htol Hu Hg e He. rewrite (SetupUserNamespace_tolerated _ _ _ _ _ Htol).
    unfold bind at 1, ucheck at 1. write_step. fold k. rewrite Hu.
    cbn [Z.eqb pure].
    unfold bind at 1, ucheck at 1. write_step. fold k. rewrite Hg.
    cbn [Z.eqb pure].
    unfold bind at 1, ucheck at 1, bind at 1, ucall_run at 1.
    cbn [u_fails u_errno u_events]. fold k. fold setresuid. rewrite He.
    cbn [Z.eqb Pos.eqb]. close_run.
  - intros Htol Hu Hg Hsu e He. rewrite (SetupUserNamespace_tolerated _ _ _ _ _ Htol).
    unfold bind at 1, ucheck at 1. write_step. fold k. rewrite Hu.
    cbn [Z.eqb pure].
    unfold bind at 1, ucheck at 1. write_step. fold k. rewrite Hg.
    cbn [Z.eqb pure].
    unfold bind at 1, ucheck at 1, bind at 1, ucall_run at 1.
    cbn [u_fails u_errno u_events]. fold k. fold setresuid. rewrite Hsu.
    cbn [Z.eqb pure].
    unfold bind at 1, ucheck at 1, bind at 1, ucall_run at 1.
    cbn [u_fails u_errno u_events ulog]. fold k. fold setresgid. rewrite He.
    cbn [Z.eqb Pos.eqb]. close_run.
  - intros Htol Hu Hg Hsu Hsg. rewrite (SetupUserNamespace_tolerated _ _ _ _ _ Htol).
    unfold bind at 1, ucheck at 1. write_step. fold k. rewrite Hu.
    cbn [Z.eqb pure].
    unfold bind at 1, ucheck at 1. write_step. fold k. rewrite Hg.
    cbn [Z.eqb pure].
    unfold bind at 1, ucheck at 1, bind at 1, ucall_run at 1.
    cbn [u_fails u_errno u_events]. fold k. fold setresuid. rewrite Hsu.
    cbn [Z.eqb pure].
    unfold bind at 1, ucheck at 1, bind at 1, ucall_run at 1.
    cbn [u_fails u_errno u_events ulog]. fold k. fold setresgid. rewrite Hsg.
    cbn [Z.eqb pure]. close_run.
  - intros H1 H2. unfold format_id_map. rewrite !percent_d_int by assumption.
    reflexivity.
Qed.

Lemma SetupUserNamespace_steps_witness :
  returns_after
    (SetupUserNamespace 1000 1000 65534 65534 (fresh_uworld no_setgroups_file))
    (fresh_uworld no_setgroups_file)
    [UCall (CFopen "/proc/self/setgroups");
     UCall (CFopen "/proc/self/uid_map");
     UCall (CVfprintf "/proc/self/uid_map" ("65534 1000 1" +:+ String newline ""));
     UCall (CFclose "/proc/self/uid_map");
     UCall (CFopen "/proc/self/gid_map");
     UCall (CVfprintf "/proc/self/gid_map" ("65534 1000 1" +:+ String newline ""));
     UCall (CFclose "/proc/self/gid_map");
     UCall (CSetresuid 65534 65534 65534);
     UCall (CSetresgid 65534 65534 65534)].
Proof.
  destruct (SetupUserNamespace_steps 1000 1000 65534 65534
              (fresh_uworld no_setgroups_file)) as (_ & _ & _ & _ & _ & H & _).
  apply H.
  - right. reflexivity.
  - reflexivity.
  - reflexivity.
  - reflexivity.
  - reflexivity.
Defined.

(** A failure of the setgroups write with EACCES is fatal: nothing is
    written to uid_map. *)
Example SetupUserNamespace_setgroups_denied :
  exits_after
    (SetupUserNamespace 1000 1000 65534 65534
       (fresh_uworld (fun c => match c with
                               | CFclose "/proc/self/setgroups" => Some 13
                               | _ => None
                               end)))
    (fresh_uworld (fun _ => None))
    [UCall (CFopen "/proc/self/setgroups");
     UCall (CVfprintf "/proc/self/setgroups" "deny");
     UCall (CFclose "/proc/self/setgroups");
     UPerror "WriteFile(/proc/self/setgroups, deny)"].
Proof. eexists. split; reflexivity. Qed.

(** The text of a number that is not negative does not start with a minus
    sign: followed by a blank, it is not the text of a negative number
    followed by the same. *)
Lemma pretty_nonneg_line (x y : Z) (rest : string) :
  0 <= x -> y < 0 -> pretty x +:+ String " " rest <> pretty y +:+ String " " rest.
Proof.
  intros Hx Hy E.
  destruct y as [|q|q]; try lia.
  assert (Hd : forall s', pretty x <> "-" +:+ s').
  { intros s'. destruct x as [|p|p]; try lia; [discriminate|].
    unfold pretty, pretty_Z, pretty, pretty_positive, pretty, pretty_N.
    destruct (decide (N.pos p = 0%N)); [discriminate|].
    apply pretty_N_go_ne_dash. discriminate. }
  change (pretty (Z.neg q)) with ("-" +:+ pretty q) in E.
  destruct (pretty x) as [|c s] eqn:Ep.
  - cbn in E. discriminate.
  - cbn in E. injection E as -> _. apply (Hd s). reflexivity.
Qed.

(** C4: the ids are [uid_t] values and the format is ["%d %d 1\n"]: an
    outer uid of 2^31 or more does not reach /proc/self/uid_map as the
    specification's "<inner_uid> <outer_uid> 1\n".  Whatever the library calls
    answer, once the write to setgroups was tolerated the text handed to
    [vfprintf] for uid_map is "<inner_uid> <outer_uid - 2^32> 1\n", with a
    minus sign; a failure of that write is fatal, and when nothing fails the
    function returns having written that text. *)
Theorem SetupUserNamespace_writes_negative_id (uid gid new_uid new_gid : Z)
    (w : uworld) :
  2 ^ 31 <= uid < 2 ^ 32 ->
  0 <= new_uid < 2 ^ 31 ->
  setgroups_tolerated (u_fails w) ->
  let k := u_fails w in
  let run := SetupUserNamespace uid gid new_uid new_gid w in
  let claimed := pretty new_uid +:+ " " +:+ pretty uid +:+ " 1" +:+ String newline "" in
  let written :=
    pretty new_uid +:+ " " +:+ pretty (uid - 2 ^ 32) +:+ " 1" +:+ String newline "" in
  let deny := write_calls k "/proc/self/setgroups" "deny" in
  let umap := write_calls k "/proc/self/uid_map" written in
  let gmap := write_calls k "/proc/self/gid_map" (format_id_map new_gid gid) in
  written <> claimed
  /\ (exists digits, pretty (uid - 2 ^ 32) = "-" +:+ digits)
  /\ (k (CFopen "/proc/self/uid_map") = None ->
      In (UCall (CVfprintf "/proc/self/uid_map" written)) umap)
  /\ (forall e, write_fails k "/proc/self/uid_map" written = Some e ->
        exits_after run w (deny ++ umap ++ [UPerror "WriteFile(/proc/self/uid_map)"]))
  /\ (write_fails k "/proc/self/uid_map" written = None ->
      write_fails k "/proc/self/gid_map" (format_id_map new_gid gid) = None ->
      k (CSetresuid new_uid new_uid new_uid) = None ->
      k (CSetresgid new_gid new_gid new_gid) = None ->
      returns_after run w
        (deny ++ umap ++ gmap
         ++ [UCall (CSetresuid new_uid new_uid new_uid);
             UCall (CSetresgid new_gid new_gid new_gid)])).
Proof.
  change (2 ^ 31) with 2147483648. change (2 ^ 32) with 4294967296.
  intros Hu Hn Htol k run claimed written deny umap gmap.
  assert (Hfmt : format_id_map new_uid uid = written).
  { unfold format_id_map, percent_d, to_int.
    rewrite (wrap_int_small new_uid) by lia. rewrite (wrap_int_large uid) by lia.
    reflexivity. }
  destruct (SetupUserNamespace_steps uid gid new_uid new_gid w)
    as (_ & Huid & _ & _ & _ & Hall & _).
  rewrite Hfmt in Huid, Hall.
  split; [|split; [|split; [|split]]].
  - subst written claimed. intros E.
    apply (inj (String.app (pretty new_uid))) in E.
    apply (inj (String.app " ")) in E.
    symmetry in E. revert E. apply pretty_nonneg_line; lia.
  - destruct (uid - 4294967296) as [|p|p] eqn:E; try lia. eexists. reflexivity.
  - intros Hopen. subst umap. unfold write_calls. fold k. rewrite Hopen.
    right. left. reflexivity.
  - intros e He. exact (Huid Htol e He).
  - intros H1 H2 H3 H4. exact (Hall Htol H1 H2 H3 H4).
Qed.

Lemma SetupUserNamespace_writes_negative_id_witness :
  returns_after
    (SetupUserNamespace 4294967294 1000 65534 65534 (fresh_uworld (fun _ => None)))
    (fresh_uworld (fun _ => None))
    [UCall (CFopen "/proc/self/setgroups");
     UCall (CVfprintf "/proc/self/setgroups" "deny");
     UCall (CFclose "/proc/self/setgroups");
     UCall (CFopen "/proc/self/uid_map");
     UCall (CVfprintf "/proc/self/uid_map" ("65534 -2 1" +:+ String newline ""));
     UCall (CFclose "/proc/self/uid_map");
     UCall (CFopen "/proc/self/gid_map");
     UCall (CVfprintf "/proc/self/gid_map" ("65534 1000 1" +:+ String newline ""));
     UCall (CFclose "/proc/self/gid_map");
     UCall (CSetresuid 65534 65534 65534);
     UCall (CSetresgid 65534 65534 65534)].
Proof.
  destruct (SetupUserNamespace_writes_negative_id 4294967294 1000 65534 65534
              (fresh_uworld (fun _ => None))) as (_ & _ & _ & _ & H).
  - vm_compute. split; [congruence|reflexivity].
  - vm_compute. split; [congruence|reflexivity].
  - left. reflexivity.
  - apply H; reflexivity.
Defined.

(** ** SetupDirectories: the read-only remount *)

Lemma mount_run (k : kernel) (source target : string) (fstype : option string)
    (flags : Z) (data : option string) (w : world) :
  let call := SysMount source target fstype flags data in
  mount k source target fstype flags data w
  = match me_errno (k call w) with
    | Some err => Returns (-1) (set_errno err (log_call call w))
    | None => Returns 0 (set_mounted (k call w) (log_call call w))
    end.
Proof. reflexivity. Qed.

(** When the first part of the loop body returns, the last system call made
    is the recursive bind mount, and it succeeded. *)
Lemma bind_entry_returns (k : kernel) (fuel : nat) (source target root : string)
    (rw : bool) (w w2 : world) :
  bind_entry k fuel source target root rw w = Returns tt w2 ->
  last (w_calls w2)
  = Some (SysMount source (root +:+ target) None (Z.lor MS_REC MS_BIND) None).
Proof.
  unfold bind_entry. intros H.
  apply bind_returns in H as (sb & w0 & _ & H).
  apply bind_returns in H as (isdir & w0' & _ & H).
  apply bind_returns in H as (u & w0'' & _ & H).
  apply bind_returns in H as (r1 & w1 & _ & H).
  apply bind_returns in H as (r2 & w2' & Hm & H).
  injection H as <-.
  apply CHECK_CALL_MSG_returns in Hm as (Hm & Hr2).
  rewrite mount_run in Hm. cbv zeta in Hm.
  destruct (me_errno _) as [err|].
  - injection Hm as <- _. contradiction.
  - injection Hm as _ <-. simpl. apply last_snoc.
Qed.

(** C6: for a mount entry, once the recursive bind mount has succeeded
    (the first part of the loop body returned, its last system call being
    that mount).  When the entry is read-only and /proc/self/mounts can be
    opened, exactly one more [mount] is issued, the remount of the same
    source and target with the flags
    [GetMountFlags(target) | MS_REC | MS_BIND | MS_REMOUNT | MS_RDONLY];
    whether it fails or not the body returns, a failure only adds the
    warning to stderr, and the loop goes on with the next entry.  When the
    entry is read-only and /proc/self/mounts cannot be opened, GetMountFlags
    ends the program with "Cannot open /proc/self/mounts" and no remount is
    issued.  When the entry is read-write nothing more is done and the loop
    goes on with the next entry. *)
Theorem read_only_remount (k : kernel) (fuel : nat) (opt : Options) (i : Z)
    (source target root : string) (rw : bool) (w w2 : world) :
  array_get (mount_sources opt) i = Some (Some source) ->
  array_get (mount_targets opt) i = Some (Some target) ->
  array_get (mount_rw opt) i = Some rw ->
  sandbox_root opt = Some root ->
  bind_entry k fuel source target root rw w = Returns tt w2 ->
  let full := root +:+ target in
  last (w_calls w2) = Some (SysMount source full None (Z.lor MS_REC MS_BIND) None)
  /\ (rw = false ->
      forall mtab, w_mtab w2 = Some mtab ->
        let inherited := match getmntent_loop full mtab with
                         | Some entry => flags_of_entry entry
                         | None => 0
                         end in
        let remount :=
          SysMount source full None
            (Z.lor (Z.lor (Z.lor (Z.lor inherited MS_REC) MS_BIND) MS_REMOUNT) MS_RDONLY)
            None in
        exists w3 w',
          GetMountFlags full w2 = Returns inherited w3
          /\ mount_one k fuel opt i w = Returns tt w'
          /\ w_calls w' = w_calls w2 ++ [remount]
          /\ w_stderr w'
             = w_stderr w3
               ++ match me_errno (k remount w3) with
                  | Some _ => [remount_warning full]
                  | None => []
                  end
          /\ (forall n, i < num_mounts opt ->
                mount_loop k fuel opt (S n) i w = mount_loop k fuel opt n (i + 1) w'))
  /\ (rw = false ->
      w_mtab w2 = None ->
      let w' := log_stderr "Cannot open /proc/self/mounts" w2 in
      mount_one k fuel opt i w = Exits EXIT_FAILURE w'
      /\ w_calls w' = w_calls w2
      /\ (forall n, i < num_mounts opt ->
            mount_loop k fuel opt (S n) i w = Exits EXIT_FAILURE w'))
  /\ (rw = true ->
      mount_one k fuel opt i w = Returns tt w2
      /\ (forall n, i < num_mounts opt ->
            mount_loop k fuel opt (S n) i w = mount_loop k fuel opt n (i + 1) w2)).
Proof.
  intros Hs Ht Hrw Hroot Hbind full.
  split; [exact (bind_entry_returns k fuel source target root rw w w2 Hbind)|].
  assert (Hone : mount_one k fuel opt i w = remount_entry k source full rw w2).
  { unfold mount_one. rewrite Hs, Ht, Hrw, Hroot. unfold bind. rewrite Hbind.
    reflexivity. }
  assert (Hloop : forall n, i < num_mounts opt ->
             mount_loop k fuel opt (S n) i w
             = (let* _ := mount_one k fuel opt i in
                mount_loop k fuel opt n (i + 1)) w).
  { intros n Hi. simpl. destruct (Z.ltb_spec i (num_mounts opt)); [reflexivity|lia]. }
  split; [|split].
  - intros -> mtab Hmtab inherited remount.
    destruct (GetMountFlags_returns full w2 mtab Hmtab)
      as (w3 & Hflags & _ & Hcalls & _ & _).
    fold inherited in Hflags.
    assert (Hrun : exists w',
               remount_entry k source full false w2 = Returns tt w'
               /\ w_calls w' = w_calls w2 ++ [remount]
               /\ w_stderr w'
                  = w_stderr w3
                    ++ match me_errno (k remount w3) with
                       | Some _ => [remount_warning full]
                       | None => []
                       end).
    { unfold remount_entry. cbn [negb]. unfold bind at 1. rewrite Hflags.
      unfold bind at 1. rewrite mount_run. cbv zeta.
      unfold remount_flags. fold remount.
      destruct (me_errno (k remount w3)) as [err|].
      - eexists. split; [reflexivity|]. simpl. rewrite Hcalls.
        split; reflexivity.
      - eexists. split; [reflexivity|]. simpl. rewrite Hcalls, app_nil_r.
        split; reflexivity. }
    destruct Hrun as (w' & Hrun & Hc & He).
    exists w3, w'. rewrite Hone.
    repeat split; try assumption.
    intros n Hi. rewrite (Hloop n Hi). unfold bind. rewrite Hone, Hrun. reflexivity.
  - intros -> Hmtab w'.
    assert (Hrun : remount_entry k source full false w2 = Exits EXIT_FAILURE w').
    { unfold remount_entry. cbn [negb]. unfold bind at 1, GetMountFlags.
      rewrite Hmtab. reflexivity. }
    rewrite Hone. split; [exact Hrun|]. split; [reflexivity|].
    intros n Hi. rewrite (Hloop n Hi). unfold bind. rewrite Hone, Hrun. reflexivity.
  - intros ->. rewrite Hone. split; [reflexivity|].
    intros n Hi. rewrite (Hloop n Hi). unfold bind. rewrite Hone. reflexivity.
Qed.

Lemma read_only_remount_witness :
  last (w_calls after_bind) = Some (SysMount "/usr" "/sbx/usr" None 20480 None)
  /\ exists w',
       mount_one strict_kernel 20 sample_options 0 sample_world = Returns tt w'
       /\ w_calls w' = w_calls after_bind ++ [SysMount "/usr" "/sbx/usr" None 20519 None]
       /\ w_stderr w' = [remount_warning "/sbx/usr"]
       /\ mount_loop strict_kernel 20 sample_options 2 0 sample_world
          = mount_loop strict_kernel 20 sample_options 1 1 w'.
Proof.
  destruct (read_only_remount strict_kernel 20 sample_options 0 "/usr" "/usr" "/sbx"
              false sample_world after_bind)
    as (Hlast & Hro & _ & _); try reflexivity.
  split; [exact Hlast|].
  destruct (Hro eq_refl after_bind_mtab eq_refl)
    as (w3 & w' & Hflags & Hrun & Hcalls & Herr & Hloop).
  exists w'. split; [exact Hrun|].
  split; [exact Hcalls|].
  split.
  - rewrite Herr. vm_compute in Hflags. injection Hflags as <-. reflexivity.
  - apply Hloop. reflexivity.
Defined.

(** C6, as the specification words it, fails where /proc/self/mounts cannot
    be opened: the first entry of the sample is read-only and its bind mount
    succeeds, yet no remount follows; the program ends in GetMountFlags,
    although the kernel would have let the remount through. *)
Lemma remount_without_mounts_table_counterexample :
  array_get (mount_rw sample_options) 0 = Some false
  /\ (exists w2,
        bind_entry lenient_kernel 20 "/usr" "/usr" "/sbx" false closed_proc_world
        = Returns tt w2
        /\ w_calls w2
           = [SysMkdir "/sbx/usr" 493;
              SysMount "/usr" "/sbx/usr" None (Z.lor MS_REC MS_BIND) None])
  /\ (exists w',
        mount_one lenient_kernel 20 sample_options 0 closed_proc_world
        = Exits EXIT_FAILURE w'
        /\ w_calls w'
           = [SysMkdir "/sbx/usr" 493;
              SysMount "/usr" "/sbx/usr" None (Z.lor MS_REC MS_BIND) None]
        /\ w_stderr w' = ["Cannot open /proc/self/mounts"]
        /\ SetupDirectories_mounts lenient_kernel 20 sample_options closed_proc_world
           = Exits EXIT_FAILURE w').
Proof.
  split; [reflexivity|]. split.
  - eexists. split; [vm_compute; reflexivity|reflexivity].
  - eexists. split; [vm_compute; reflexivity|]. repeat split; vm_compute; reflexivity.
Qed.

(** The whole loop on the sample: the read-only entry is remounted once,
    the refusal of the remount leaves a warning and the second entry is
    still mounted; the writable entry is not remounted. *)
Example SetupDirectories_mounts_sample :
  exists w',
    SetupDirectories_mounts strict_kernel 20 sample_options sample_world
    = Returns tt w'
    /\ w_calls w'
       = [SysMkdir "/sbx/usr" 493;
          SysMount "/usr" "/sbx/usr" None (Z.lor MS_REC MS_BIND) None;
          SysMount "/usr" "/sbx/usr" None
            (Z.lor (Z.lor (Z.lor (Z.lor (Z.lor MS_NODEV MS_NOSUID) MS_REC) MS_BIND)
                      MS_REMOUNT) MS_RDONLY) None;
          SysMkdir "/sbx/opt" 493;
          SysMount "/usr" "/sbx/opt" None (Z.lor MS_REC MS_BIND) None]
    /\ w_stderr w' = [remount_warning "/sbx/usr"].
Proof. eexists. split; [vm_compute; reflexivity|]. split; reflexivity. Qed.

(** ** Argument files *)

Lemma fgets_line (a : list ascii) :
  forall (n : nat) (rest : list ascii),
    Forall (fun c => c <> newline) a ->
    (length a < n)%nat ->
    fgets n (a ++ newline :: rest) = (a ++ [newline], rest).
Proof.
  induction a as [|c a IH]; intros n rest Ha Hn.
  - destruct n as [|n]; [simpl in Hn; lia|]. simpl. reflexivity.
  - destruct n as [|n]; [simpl in Hn; lia|].
    inversion Ha as [|? ? Hc Ha']; subst.
    simpl. destruct (Ascii.eqb_spec c newline) as [->|_]; [contradiction|].
    rewrite IH by (simpl in Hn; try assumption; lia). reflexivity.
Qed.

Lemma fgets_tail (a : list ascii) :
  forall (n : nat),
    Forall (fun c => c <> newline) a ->
    (length a <= n)%nat ->
    fgets n a = (a, []).
Proof.
  induction a as [|c a IH]; intros n Ha Hn.
  - destruct n; reflexivity.
  - destruct n as [|n]; [simpl in Hn; lia|].
    inversion Ha as [|? ? Hc Ha']; subst.
    simpl. destruct (Ascii.eqb_spec c newline) as [->|_]; [contradiction|].
    rewrite IH by (simpl in Hn; try assumption; lia). reflexivity.
Qed.

Lemma cstring_clean (l : list ascii) :
  Forall (fun c => c <> nul) l -> cstring l = l.
Proof.
  induction 1 as [|c l Hc _ IH]; [reflexivity|].
  simpl. destruct (Ascii.eqb_spec c nul) as [->|_]; [contradiction|].
  rewrite IH. reflexivity.
Qed.

Lemma read_arguments_eof (fuel : nat) (file : argfile) (sub_argv : list string) :
  read_arguments (S fuel) file [] sub_argv
  = if af_read_error file
    then Some (inl "reading from argument file failed")
    else Some (inr sub_argv).
Proof. reflexivity. Qed.

(** A read that fails where the data ends is fatal. *)
Lemma read_arguments_fails (fuel : nat) (file : argfile) (rest : list ascii)
    (sub_argv : list string) :
  rest <> [] ->
  af_read_error file
  && fgets_ran_out (ARGUMENT_SIZE - 1) (fst (fgets (ARGUMENT_SIZE - 1) rest)) = true ->
  read_arguments (S fuel) file rest sub_argv
  = Some (inl "reading from argument file failed").
Proof.
  intros H E. destruct rest; [contradiction|].
  cbn [read_arguments]. destruct (fgets (ARGUMENT_SIZE - 1) (a :: rest)) as [buffer rest'].
  cbn [fst] in E. rewrite E. reflexivity.
Qed.

Lemma read_arguments_more (fuel : nat) (file : argfile) (rest : list ascii)
    (sub_argv : list string) :
  rest <> [] ->
  af_read_error file
  && fgets_ran_out (ARGUMENT_SIZE - 1) (fst (fgets (ARGUMENT_SIZE - 1) rest)) = false ->
  read_arguments (S fuel) file rest sub_argv
  = let (buffer, rest') := fgets (ARGUMENT_SIZE - 1) rest in
    let argument := cstring buffer in
    let len := length argument in
    if (len =? 0)%nat then read_arguments fuel file rest' sub_argv
    else if (len =? ARGUMENT_SIZE)%nat
    then Some (inl "argument from file is too long")
    else
      match last argument with
      | Some c =>
          if Ascii.eqb c newline
          then read_arguments fuel file rest'
                 (sub_argv ++ [str (removelast argument)])
          else Some (inr (sub_argv ++ [str argument]))
      | None => Some (inr (sub_argv ++ [str argument]))
      end.
Proof.
  intros H E. destruct rest; [contradiction|].
  cbn [read_arguments]. destruct (fgets (ARGUMENT_SIZE - 1) (a :: rest)) as [buffer rest'].
  cbn [fst] in E. rewrite E. reflexivity.
Qed.

Lemma clean_line_chars (l : string) :
  clean_line l ->
  chars l <> []
  /\ Forall (fun c => c <> newline) (chars l)
  /\ Forall (fun c => c <> nul) (chars l)
  /\ (length (chars l) < ARGUMENT_SIZE - 1)%nat.
Proof.
  intros (Hne & Hc & Hlen). repeat split.
  - destruct l; [contradiction|discriminate].
  - eapply Forall_impl; [exact Hc|]. intros c [H _]. exact H.
  - eapply Forall_impl; [exact Hc|]. intros c [_ H]. exact H.
  - rewrite length_chars. exact Hlen.
Qed.

(** The reading loop on a file of clean lines: the vector grows by exactly
    the lines of the file, in their order. *)
Lemma read_arguments_lines (file : argfile) (tail : option string)
    (ls : list string) :
  forall (fuel : nat) (sub_argv : list string),
    Forall clean_line ls ->
    (forall t, tail = Some t -> clean_line t) ->
    af_read_error file = false ->
    (String.length (file_text ls tail) < fuel)%nat ->
    read_arguments fuel file (chars (file_text ls tail)) sub_argv
    = Some (inr (sub_argv ++ lines_of ls tail)).
Proof.
  induction ls as [|l ls IH]; intros fuel sub_argv Hls Htail Herr Hfuel.
  - destruct fuel as [|fuel]; [lia|].
    unfold lines_of. simpl file_text.
    destruct tail as [t|].
    + destruct (clean_line_chars t (Htail t eq_refl)) as (Hne & Hnl & Hnul & Hlen).
      rewrite read_arguments_more by (try exact Hne; rewrite Herr; reflexivity).
      rewrite fgets_tail by (try assumption; lia).
      cbv zeta. rewrite cstring_clean by assumption.
      assert (Hpos : (length (chars t) =? 0)%nat = false).
      { destruct (chars t); [contradiction|reflexivity]. }
      assert (Hsize : (length (chars t) =? ARGUMENT_SIZE)%nat = false).
      { apply Nat.eqb_neq. lia. }
      rewrite Hpos, Hsize.
      destruct (last (chars t)) as [c|] eqn:Hlast.
      * assert (Hc : c <> newline).
        { rewrite Forall_forall in Hnl. apply Hnl.
          apply last_Some_elem_of. exact Hlast. }
        destruct (Ascii.eqb_spec c newline); [contradiction|].
        rewrite str_chars. reflexivity.
      * rewrite str_chars. reflexivity.
    + change (chars "") with (@nil ascii). rewrite read_arguments_eof.
      rewrite Herr, app_nil_r. reflexivity.
  - inversion Hls as [|? ? Hl Hls']; subst.
    destruct (clean_line_chars l Hl) as (Hne & Hnl & Hnul & Hlen).
    destruct fuel as [|fuel]; [lia|].
    simpl file_text. unfold nl. rewrite !chars_app.
    change (chars (String newline "")) with [newline].
    change ([newline] ++ chars (file_text ls tail))
      with (newline :: chars (file_text ls tail)).
    rewrite read_arguments_more
      by (try (rewrite Herr; reflexivity); destruct (chars l); discriminate).
    rewrite fgets_line by assumption.
    cbv zeta. rewrite cstring_clean
      by (apply Forall_app; split; [assumption|constructor; [discriminate|constructor]]).
    rewrite length_app. simpl length.
    assert (Hpos : (length (chars l) + 1 =? 0)%nat = false)
      by (apply Nat.eqb_neq; lia).
    assert (Hsize : (length (chars l) + 1 =? ARGUMENT_SIZE)%nat = false)
      by (apply Nat.eqb_neq; lia).
    rewrite Hpos, Hsize. rewrite last_snoc.
    rewrite Ascii.eqb_refl. rewrite removelast_last, str_chars.
    rewrite IH; try assumption.
    + unfold lines_of. rewrite <- !app_assoc. reflexivity.
    + simpl file_text in Hfuel. unfold nl in Hfuel.
      rewrite <- !length_chars in *. rewrite !chars_app, !length_app in Hfuel.
      simpl in Hfuel. lia.
Qed.

(** ParseOptionsFile on a file of clean lines: ParseCommandLine is called
    on the placeholder [argv[0]] followed by the lines. *)
Lemma ParseOptionsFile_lines (fuel : nat) (filename : string) (file : argfile)
    (ls : list string) (tail : option string) (w : pworld) :
  p_argfiles w !! filename = Some file ->
  af_data file = file_text ls tail ->
  Forall clean_line ls ->
  (forall t, tail = Some t -> clean_line t) ->
  af_read_error file = false ->
  af_close_error file = false ->
  ParseOptionsFile fuel filename w
  = ParseCommandLine fuel ("" :: lines_of ls tail) w.
Proof.
  intros Hfile Hdata Hls Htail Hread Hclose.
  unfold ParseOptionsFile, ParseOptionsFile_with. rewrite Hfile, Hdata.
  rewrite (read_arguments_lines file tail ls _ [""] Hls Htail Hread) by lia.
  rewrite Hclose. reflexivity.
Qed.

(** C7, as the code has it.  For an operand [@FILE] at [argv[optind]],
    where FILE holds lines that are not empty, have no NUL byte and fit the
    buffer: ParseCommandLine is run, on the same options structure, on a
    fresh vector made of a placeholder [argv[0]] followed by the lines of
    FILE in their order (a last line without newline included), with
    [optind] reset to 0 before; when it returns, [optind] is set to its
    saved value plus one and the loop goes on with the next operand.  The
    nested ParseCommandLine expands the [@file] operands of its own vector
    the same way. *)
Theorem argument_file_expansion (fuel n : nat) (argv : list string) (w : pworld)
    (filename : string) (file : argfile) (ls : list string) (tail : option string) :
  array_get argv (p_optind w) = Some (String "@"%char filename) ->
  p_argfiles w !! filename = Some file ->
  af_data file = file_text ls tail ->
  Forall clean_line ls ->
  (forall t, tail = Some t -> clean_line t) ->
  af_read_error file = false ->
  af_close_error file = false ->
  at_file_loop (ParseOptionsFile fuel) (S n) argv w
  = (let* _ := ParseCommandLine fuel ("" :: lines_of ls tail) in
     let* _ := (fun w1 => Returns tt (set_optind (p_optind w + 1) w1)) in
     at_file_loop (ParseOptionsFile fuel) n argv) (set_optind 0 w).
Proof.
  intros Hat Hfile Hdata Hls Htail Hread Hclose.
  assert (Hin : p_optind w < Z.of_nat (length argv)).
  { unfold array_get in Hat.
    destruct (Z.ltb_spec (p_optind w) 0); [discriminate|].
    apply lookup_lt_Some in Hat. lia. }
  cbn [at_file_loop].
  destruct (Z.ltb_spec (p_optind w) (Z.of_nat (length argv))); [|lia].
  rewrite Hat.
  unfold bind at 1. unfold bind at 1.
  rewrite (ParseOptionsFile_lines fuel filename file ls tail (set_optind 0 w)
             Hfile Hdata Hls Htail Hread Hclose).
  reflexivity.
Qed.

Ltac solve_clean_line :=
  split; [discriminate|];
  split; [simpl; repeat (apply List.Forall_cons; [split; discriminate|]); apply List.Forall_nil|];
  apply Nat.ltb_lt; vm_compute; reflexivity.

Lemma argument_file_expansion_witness :
  let argv := ["sandbox"; "-S"; "/sbx"; "@outer"; "hi"] in
  let w := set_optind 3 (argfile_pworld 6) in
  at_file_loop (ParseOptionsFile 2) 5 argv w
  = (let* _ := ParseCommandLine 2 [""; "-D"; "@inner"] in
     let* _ := (fun w1 => Returns tt (set_optind 4 w1)) in
     at_file_loop (ParseOptionsFile 2) 4 argv) (set_optind 0 w).
Proof.
  intros argv w.
  apply (argument_file_expansion 2 4 argv w "outer"
           (plain_file (file_text ["-D"; "@inner"] None)) ["-D"; "@inner"] None).
  - reflexivity.
  - vm_compute. reflexivity.
  - reflexivity.
  - repeat (apply List.Forall_cons; [solve_clean_line|]). apply List.Forall_nil.
  - intros t Ht. discriminate.
  - reflexivity.
  - reflexivity.
Defined.

(** One file inside another: [outer] holds [-D] and [@inner], [inner] holds
    [-n], [-H] and [box].  All three options take effect, the command is the
    operand after [@outer], and [optind] ends behind it. *)
Example nested_argument_files :
  exists w',
    ParseCommandLine 3 ["sandbox"; "-S"; "/sbx"; "@outer"; "hi"] (argfile_pworld 5)
    = Returns tt w'
    /\ p_global_debug w' = true
    /\ create_netns (p_opt w') = 1
    /\ host_name (p_opt w') = Some "box"
    /\ args (p_opt w') = Some ["hi"]
    /\ p_optind w' = 4.
Proof. eexists. split; [vm_compute; reflexivity|]. repeat split; reflexivity. Qed.

(** An empty line is not skipped: it is read as an empty argument, which
    getopt leaves as an operand, here the command. *)
Example empty_line_is_an_argument :
  read_arguments 20 (plain_file "") (chars (file_text ["-D"; ""; "-n"] None)) [""]
  = Some (inr [""; "-D"; ""; "-n"])
  /\ exists w',
       ParseCommandLine 3 ["sandbox"; "-S"; "/sbx"; "@gap"] (argfile_pworld 4)
       = Returns tt w'
       /\ args (p_opt w') = Some [""].
Proof.
  split; [vm_compute; reflexivity|].
  eexists. split; [vm_compute; reflexivity|]. reflexivity.
Qed.

(** C7 as stated fails: parsing with [@cmd], where the file [cmd] holds the
    lines [--] and [echo], is not parsing the vector with those lines in
    the place of [@cmd].  The file sets the command to [echo]; the operand
    [hi] after [@cmd] is then a second command and the usage error "Merging
    commands not supported." ends the run, where the substituted vector
    [-S /sbx -- echo hi] parses to the command [echo hi]. *)
Lemma argument_file_substitution_counterexample :
  let argv := ["sandbox"; "-S"; "/sbx"; "@cmd"; "hi"] in
  read_arguments 20 (plain_file "") (chars (file_text ["--"; "echo"] None)) [""]
  = Some (inr [""; "--"; "echo"])
  /\ substitute_argfiles sample_lines argv
     = ["sandbox"; "-S"; "/sbx"; "--"; "echo"; "hi"]
  /\ (exists w',
        ParseCommandLine 3 argv (argfile_pworld 5) = Exits EXIT_FAILURE w'
        /\ p_stderr w' = ["Merging commands not supported."])
  /\ (exists w',
        ParseCommandLine 3 (substitute_argfiles sample_lines argv) (argfile_pworld 5)
        = Returns tt w'
        /\ args (p_opt w') = Some ["echo"; "hi"]).
Proof.
  cbv zeta. split; [vm_compute; reflexivity|]. split; [reflexivity|]. split.
  - eexists. split; [vm_compute; reflexivity|]. reflexivity.
  - eexists. split; [vm_compute; reflexivity|]. reflexivity.
Qed.

(** ** The switch of ParseCommandLine, case by case *)

Lemma handle_option_cases (c : ascii) (optarg : option string) :
  In c known_options
  \/ (handle_option c optarg = pure tt
      /\ forallb (fun k => negb (Ascii.eqb c k)) known_options = true).
Proof.
  destruct c as [[] [] [] [] [] [] [] []];
    try (right; split; reflexivity); left; cbn; tauto.
Qed.

Lemma mounts_repr_ext (a : Z) (o o' : Options) (st : sm_state)
    (entries : list mount_entry) :
  mounts_part o' = mounts_part o ->
  mounts_repr a o st entries -> mounts_repr a o' st entries.
Proof.
  unfold mounts_part. intros H. injection H as H1 H2 H3 H4 H5.
  unfold mounts_repr, mounts_of. rewrite H1, H2, H3, H4, H5. exact (fun x => x).
Qed.

Lemma finish_pending_rest (o o1 : Options) :
  finish_pending o = Some o1 -> rest_of o1 = rest_of o.
Proof.
  unfold finish_pending. intros H.
  destruct (array_get (mount_sources o) (num_mounts o)) as [[src|]|]; try discriminate.
  - destruct (array_set (mount_targets o) (num_mounts o) (Some src)); try discriminate.
    destruct (array_set (mount_rw o) (num_mounts o) false); try discriminate.
    inversion H. reflexivity.
  - inversion H. reflexivity.
Qed.

Lemma AddMountSource_rest (source : option string) (w w' : pworld) :
  AddMountSource source w = Returns tt w' ->
  exists o', w' = set_opt o' w /\ rest_of o' = rest_of (p_opt w).
Proof.
  unfold AddMountSource. intros H.
  destruct (finish_pending (p_opt w)) as [o1|] eqn:F; try discriminate.
  apply finish_pending_rest in F.
  destruct source as [src|].
  - match type of H with
    | context [array_set ?a ?i ?x] => destruct (array_set a i x) eqn:E
    end; try discriminate.
    inversion H. eexists. split; [reflexivity|].
    rewrite <- F.
    destruct (num_mounts o1 >=? (mount_map_sizes o1 - 1) mod size_t_max); reflexivity.
  - inversion H. eexists. split; [reflexivity|]. exact F.
Qed.

Lemma set_mount_target_rest (flag : string) (rw : bool) (optarg : string)
    (w w' : pworld) :
  set_mount_target flag rw optarg w = Returns tt w' ->
  exists o', w' = set_opt o' w /\ rest_of o' = rest_of (p_opt w).
Proof.
  unfold set_mount_target. intros H.
  destruct (negb (starts_with_slash optarg)); [discriminate|].
  destruct (array_get (mount_sources (p_opt w)) (num_mounts (p_opt w))) as [[s|]|];
    try discriminate.
  destruct (array_set (mount_rw (p_opt w)) (num_mounts (p_opt w)) rw); try discriminate.
  destruct (array_set (mount_targets (p_opt w)) (num_mounts (p_opt w)) (Some optarg));
    try discriminate.
  inversion H. eexists. split; reflexivity.
Qed.

Ltac split_forallb H :=
  cbn in H;
  repeat (let H1 := fresh "N" in
          apply andb_prop in H; destruct H as [H1 H];
          apply negb_true_iff in H1).

(** What a pass through the [switch] that comes back has done. *)
Lemma handle_getopt_returns (r : getopt_ret) (w w' : pworld) :
  handle_getopt r w = Returns tt w' ->
  surroundings w' = surroundings w
  /\ p_optind w' = p_optind w
  /\ p_stderr w' = p_stderr w
  /\ args (p_opt w') = args (p_opt w)
  /\ length (create_dirs (p_opt w')) = length (create_dirs (p_opt w))
  /\ (if is_opt "S" r
      then sandbox_root (p_opt w) = None /\ sandbox_root (p_opt w') <> None
      else sandbox_root (p_opt w') = sandbox_root (p_opt w))
  /\ (if is_opt "W" r
      then working_dir (p_opt w) = None /\ working_dir (p_opt w') <> None
      else working_dir (p_opt w') = working_dir (p_opt w))
  /\ (if is_opt "l" r
      then stdout_path (p_opt w) = None /\ stdout_path (p_opt w') <> None
      else stdout_path (p_opt w') = stdout_path (p_opt w))
  /\ (if is_opt "L" r
      then stderr_path (p_opt w) = None /\ stderr_path (p_opt w') <> None
      else stderr_path (p_opt w') = stderr_path (p_opt w))
  /\ (uid (p_opt w'), gid (p_opt w'))
     = (if is_opt "i" r then (p_getuid w, p_getgid w)
        else if is_opt "r" r then (0, 0)
        else (uid (p_opt w), gid (p_opt w))).
Proof.
  intros H. destruct r as [c optarg| |]; try discriminate.
  cbn [handle_getopt] in H.
  destruct (handle_option_cases c optarg) as [Hin|[Hpure Hnot]].
  - cbn in Hin. decompose [or] Hin; try contradiction; subst c.
    + (* C *)
      cbn in H. unfold bind, CheckNamespacesSupported, die, exit_with in H.
      destruct (p_clone_ok w); discriminate.
    + (* S *)
      destruct optarg as [a|]; cbn in H; try discriminate.
      destruct (sandbox_root (p_opt w)) eqn:E; try discriminate.
      destruct (strip_trailing_slash a); try discriminate.
      inversion H. cbn. repeat split; congruence.
    + (* W *)
      destruct optarg as [a|]; cbn in H; try discriminate.
      destruct (working_dir (p_opt w)) eqn:E; try discriminate.
      inversion H. cbn. repeat split; congruence.
    + (* d *)
      destruct optarg as [a|]; cbn in H; try discriminate.
      destruct (negb (starts_with_slash a)); try discriminate.
      unfold array_set in H.
      destruct ((0 <=? num_create_dirs (p_opt w))
                && (num_create_dirs (p_opt w)
                    <? Z.of_nat (length (create_dirs (p_opt w))))); try discriminate.
      inversion H. cbn. rewrite length_insert. repeat split; congruence.
    + (* i *)
      cbn in H. inversion H. cbn. repeat split; congruence.
    + (* M *)
      destruct optarg as [a|]; cbn in H; try discriminate.
      destruct (negb (starts_with_slash a)); try discriminate.
      apply AddMountSource_rest in H. destruct H as (o' & -> & R).
      unfold rest_of in R. injection R as R1 R2 R3 R4 R5 R6 R7 R8 R9 R10 R11.
      cbn. repeat split; congruence.
    + (* m *)
      destruct optarg as [a|]; cbn in H; try discriminate.
      apply set_mount_target_rest in H. destruct H as (o' & -> & R).
      unfold rest_of in R. injection R as R1 R2 R3 R4 R5 R6 R7 R8 R9 R10 R11.
      cbn. repeat split; congruence.
    + (* w *)
      destruct optarg as [a|]; cbn in H; try discriminate.
      apply set_mount_target_rest in H. destruct H as (o' & -> & R).
      unfold rest_of in R. injection R as R1 R2 R3 R4 R5 R6 R7 R8 R9 R10 R11.
      cbn. repeat split; congruence.
    + (* n *)
      cbn in H. inversion H. cbn. repeat split; congruence.
    + (* r *)
      cbn in H. inversion H. cbn. repeat split; congruence.
    + (* H *)
      destruct optarg as [a|]; cbn in H; try discriminate.
      inversion H. cbn. repeat split; congruence.
    + (* D *)
      cbn in H. inversion H. cbn. repeat split; congruence.
    + (* l *)
      destruct optarg as [a|]; cbn in H; try discriminate.
      destruct (stdout_path (p_opt w)) eqn:E; try discriminate.
      inversion H. cbn. repeat split; congruence.
    + (* L *)
      destruct optarg as [a|]; cbn in H; try discriminate.
      destruct (stderr_path (p_opt w)) eqn:E; try discriminate.
      inversion H. cbn. repeat split; congruence.
  - rewrite Hpure in H. inversion H. subst w'.
    split_forallb Hnot.
    unfold is_opt.
    rewrite ?N, ?N0, ?N1, ?N2, ?N3, ?N4, ?N5, ?N6, ?N7, ?N8, ?N9, ?N10, ?N11, ?N12.
    repeat split; reflexivity.
Qed.

(** ** The option loop as a whole *)

Lemma handle_options_cons (r : getopt_ret) (ts : list getopt_ret) (w w' : pworld) :
  handle_options (r :: ts) w = Returns tt w' ->
  exists w1, handle_getopt r w = Returns tt w1 /\ handle_options ts w1 = Returns tt w'.
Proof.
  cbn [handle_options]. intros H. apply bind_returns in H.
  destruct H as ([] & w1 & H1 & H2). eauto.
Qed.

Lemma handle_options_app (ts1 ts2 : list getopt_ret) :
  forall w w',
    handle_options (ts1 ++ ts2) w = Returns tt w' ->
    exists w1, handle_options ts1 w = Returns tt w1
               /\ handle_options ts2 w1 = Returns tt w'.
Proof.
  induction ts1 as [|r ts1 IH]; intros w w' H.
  - exists w. split; [reflexivity|exact H].
  - rewrite <- app_comm_cons in H. apply handle_options_cons in H.
    destruct H as (w1 & H1 & H2). apply IH in H2. destruct H2 as (w2 & H2 & H3).
    exists w2. split; [|exact H3].
    cbn [handle_options]. unfold bind. rewrite H1. exact H2.
Qed.

Lemma count_opt_cons (c : ascii) (r : getopt_ret) (ts : list getopt_ret) :
  count_opt c (r :: ts) = ((if is_opt c r then 1 else 0) + count_opt c ts)%nat.
Proof. unfold count_opt. cbn. destruct (is_opt c r); reflexivity. Qed.

(** The loop leaves alone what every pass leaves alone, and counts the
    options that may be given once. *)
Lemma handle_options_returns (ts : list getopt_ret) :
  forall w w',
    handle_options ts w = Returns tt w' ->
    surroundings w' = surroundings w
    /\ p_optind w' = p_optind w
    /\ p_stderr w' = p_stderr w
    /\ args (p_opt w') = args (p_opt w)
    /\ length (create_dirs (p_opt w')) = length (create_dirs (p_opt w))
    /\ (is_set (sandbox_root (p_opt w)) + count_opt "S" ts
        = is_set (sandbox_root (p_opt w')))%nat
    /\ (is_set (working_dir (p_opt w)) + count_opt "W" ts
        = is_set (working_dir (p_opt w')))%nat
    /\ (is_set (stdout_path (p_opt w)) + count_opt "l" ts
        = is_set (stdout_path (p_opt w')))%nat
    /\ (is_set (stderr_path (p_opt w)) + count_opt "L" ts
        = is_set (stderr_path (p_opt w')))%nat
    /\ keeps_set_fields (p_opt w) (p_opt w')
    /\ (uid (p_opt w'), gid (p_opt w'))
       = ids_after (p_getuid w) (p_getgid w) ts (uid (p_opt w), gid (p_opt w)).
Proof.
  induction ts as [|r ts IH]; intros w w' H.
  - inversion H. subst w'. unfold count_opt, keeps_set_fields, kept. cbn.
    rewrite !Nat.add_0_r. repeat split; auto.
  - apply handle_options_cons in H. destruct H as (w1 & H1 & H2).
    apply handle_getopt_returns in H1.
    destruct H1 as (A1 & A2 & A3 & A4 & A5 & A6 & A7 & A8 & A9 & A10).
    apply IH in H2.
    destruct H2 as (B1 & B2 & B3 & B4 & B5 & B6 & B7 & B8 & B9 & B10 & B11).
    assert (G : p_getuid w1 = p_getuid w /\ p_getgid w1 = p_getgid w).
    { unfold surroundings in A1. injection A1 as ? ? ? ? ?. auto. }
    destruct G as [G1 G2].
    rewrite !count_opt_cons.
    split; [congruence|]. split; [congruence|]. split; [congruence|].
    split; [congruence|]. split; [congruence|].
    split.
    { destruct (is_opt "S" r).
      - destruct A6 as [A6 A6']. rewrite A6 in *.
        destruct (sandbox_root (p_opt w1)); [|contradiction]. exact B6.
      - rewrite <- A6. exact B6. }
    split.
    { destruct (is_opt "W" r).
      - destruct A7 as [A7 A7']. rewrite A7 in *.
        destruct (working_dir (p_opt w1)); [|contradiction]. exact B7.
      - rewrite <- A7. exact B7. }
    split.
    { destruct (is_opt "l" r).
      - destruct A8 as [A8 A8']. rewrite A8 in *.
        destruct (stdout_path (p_opt w1)); [|contradiction]. exact B8.
      - rewrite <- A8. exact B8. }
    split.
    { destruct (is_opt "L" r).
      - destruct A9 as [A9 A9']. rewrite A9 in *.
        destruct (stderr_path (p_opt w1)); [|contradiction]. exact B9.
      - rewrite <- A9. exact B9. }
    split.
    { destruct B10 as (K1 & K2 & K3 & K4 & K5).
      unfold keeps_set_fields, kept in *.
      split; [intros v Hv; apply K1; congruence|].
      split; [intros v Hv; apply K2;
              destruct (is_opt "S" r); [destruct A6; congruence|congruence]|].
      split; [intros v Hv; apply K3;
              destruct (is_opt "W" r); [destruct A7; congruence|congruence]|].
      split; [intros v Hv; apply K4;
              destruct (is_opt "l" r); [destruct A8; congruence|congruence]|].
      intros v Hv; apply K5;
        destruct (is_opt "L" r); [destruct A9; congruence|congruence]. }
    rewrite B11, G1, G2, A10. unfold ids_after. cbn [fold_left].
    destruct (is_opt "i" r); [reflexivity|]. destruct (is_opt "r" r); reflexivity.
Qed.

Lemma is_set_le {A} (x : option A) : (is_set x <= 1)%nat.
Proof. destruct x; cbn; lia. Qed.

(** X1: When the option loop of ParseCommandLine comes back, each of -S,
    -W, -l and -L was given at most once, and not at all when its field was
    already set: a second occurrence never gets through. *)
Theorem single_valued_options_given_once (ts : list getopt_ret) (w w' : pworld) :
  handle_options ts w = Returns tt w' ->
  ((is_set (sandbox_root (p_opt w)) + count_opt "S" ts
    = is_set (sandbox_root (p_opt w')))%nat
   /\ (count_opt "S" ts <= 1)%nat)
  /\ ((is_set (working_dir (p_opt w)) + count_opt "W" ts
       = is_set (working_dir (p_opt w')))%nat
      /\ (count_opt "W" ts <= 1)%nat)
  /\ ((is_set (stdout_path (p_opt w)) + count_opt "l" ts
       = is_set (stdout_path (p_opt w')))%nat
      /\ (count_opt "l" ts <= 1)%nat)
  /\ ((is_set (stderr_path (p_opt w)) + count_opt "L" ts
       = is_set (stderr_path (p_opt w')))%nat
      /\ (count_opt "L" ts <= 1)%nat).
Proof.
  intros H. apply handle_options_returns in H.
  destruct H as (_ & _ & _ & _ & _ & B6 & B7 & B8 & B9 & _).
  pose proof (is_set_le (sandbox_root (p_opt w'))).
  pose proof (is_set_le (working_dir (p_opt w'))).
  pose proof (is_set_le (stdout_path (p_opt w'))).
  pose proof (is_set_le (stderr_path (p_opt w'))).
  repeat split; try assumption; lia.
Qed.

Lemma single_valued_options_given_once_witness :
  exists w',
    handle_options [GOpt "S" (Some "/sbx"); GOpt "D" None; GOpt "l" (Some "out")]
      sample_pworld = Returns tt w'
    /\ (count_opt "S" [GOpt "S" (Some "/sbx"); GOpt "D" None; GOpt "l" (Some "out")]
        <= 1)%nat
    /\ is_set (sandbox_root (p_opt w')) = 1%nat.
Proof.
  eexists. split; [reflexivity|].
  pose proof (single_valued_options_given_once
                [GOpt "S" (Some "/sbx"); GOpt "D" None; GOpt "l" (Some "out")]
                sample_pworld _ eq_refl) as H.
  split; [apply H|reflexivity].
Defined.

Lemma ids_after_app (u g : Z) (ts1 ts2 : list getopt_ret) (ids : Z * Z) :
  ids_after u g (ts1 ++ ts2) ids = ids_after u g ts2 (ids_after u g ts1 ids).
Proof. unfold ids_after. apply fold_left_app. Qed.

Lemma ids_after_none (u g : Z) (ts : list getopt_ret) :
  forall ids, forallb no_identity_option ts = true -> ids_after u g ts ids = ids.
Proof.
  induction ts as [|r ts IH]; intros ids H; [reflexivity|].
  cbn in H. apply andb_prop in H. destruct H as [H1 H2].
  unfold no_identity_option in H1. apply negb_true_iff, orb_false_elim in H1.
  destruct H1 as [H1 H1'].
  unfold ids_after in *. cbn [fold_left]. rewrite H1, H1'. apply IH, H2.
Qed.

(** X2: The identity in the sandbox is decided by the last of the options
    -i and -r: after -i it is the caller's uid and gid, after -r it is 0
    and 0; without either option the fields are left as they were. *)
Theorem identity_options_last_wins (ts : list getopt_ret) (w w' : pworld) :
  handle_options ts w = Returns tt w' ->
  (forall ts1 r ts2,
     ts = ts1 ++ r :: ts2 ->
     forallb no_identity_option ts2 = true ->
     (is_opt "i" r = true ->
      uid (p_opt w') = p_getuid w /\ gid (p_opt w') = p_getgid w)
     /\ (is_opt "r" r = true ->
         uid (p_opt w') = 0 /\ gid (p_opt w') = 0))
  /\ (forallb no_identity_option ts = true ->
      uid (p_opt w') = uid (p_opt w) /\ gid (p_opt w') = gid (p_opt w)).
Proof.
  intros H. apply handle_options_returns in H.
  destruct H as (_ & _ & _ & _ & _ & _ & _ & _ & _ & _ & B).
  split.
  - intros ts1 r ts2 -> Hno.
    rewrite ids_after_app in B.
    change (r :: ts2) with ([r] ++ ts2) in B.
    rewrite ids_after_app, (ids_after_none _ _ ts2 _ Hno) in B.
    unfold ids_after at 1 in B. cbn [fold_left] in B.
    split; intros Hr.
    + rewrite Hr in B. injection B as B1 B2. auto.
    + rewrite Hr in B. destruct (is_opt "i" r) eqn:Hi.
      * destruct r as [c o| |]; try discriminate.
        cbn in Hr, Hi. apply Ascii.eqb_eq in Hr, Hi. congruence.
      * injection B as B1 B2. auto.
  - intros Hno. rewrite (ids_after_none _ _ ts _ Hno) in B.
    injection B as B1 B2. auto.
Qed.

Lemma identity_options_last_wins_witness :
  exists w',
    handle_options [GOpt "i" None; GOpt "n" None; GOpt "r" None; GOpt "D" None]
      sample_pworld = Returns tt w'
    /\ uid (p_opt w') = 0 /\ gid (p_opt w') = 0.
Proof.
  eexists. split; [reflexivity|].
  apply (proj1 (identity_options_last_wins
                  [GOpt "i" None; GOpt "n" None; GOpt "r" None; GOpt "D" None]
                  sample_pworld _ eq_refl)
           [GOpt "i" None; GOpt "n" None] (GOpt "r" None) [GOpt "D" None]);
    reflexivity.
Defined.

(** ** ParseCommandLine across argument files *)

Lemma kept_refl {A} (x : option A) : kept x x.
Proof. intros v H. exact H. Qed.

Lemma keeps_set_fields_refl (o : Options) : keeps_set_fields o o.
Proof. unfold keeps_set_fields. repeat split; apply kept_refl. Qed.

Lemma keeps_set_fields_trans (o1 o2 o3 : Options) :
  keeps_set_fields o1 o2 -> keeps_set_fields o2 o3 -> keeps_set_fields o1 o3.
Proof.
  unfold keeps_set_fields, kept.
  intros (A1 & A2 & A3 & A4 & A5) (B1 & B2 & B3 & B4 & B5).
  repeat split; auto.
Qed.

Lemma keeps_set_fields_rest (o o' : Options) :
  rest_of o' = rest_of o -> keeps_set_fields o o'.
Proof.
  unfold rest_of. intros R. injection R as R1 R2 R3 R4 R5 R6 R7 R8 R9 R10 R11.
  unfold keeps_set_fields, kept. repeat split; congruence.
Qed.

Lemma take_command_keeps (argv : list string) (w w' : pworld) :
  take_command argv w = Returns tt w' ->
  keeps_set_fields (p_opt w) (p_opt w').
Proof.
  unfold take_command. intros H.
  destruct (Z.of_nat (length argv) >? p_optind w).
  - destruct (args (p_opt w)) eqn:E; [discriminate|].
    inversion H. unfold keeps_set_fields, kept. cbn.
    repeat split; auto. intros v Hv. congruence.
  - inversion H. apply keeps_set_fields_refl.
Qed.

Lemma at_file_loop_keeps (parse_file : string -> prog pworld unit)
    (argv : list string) :
  (forall f w w', parse_file f w = Returns tt w' ->
                  keeps_set_fields (p_opt w) (p_opt w')) ->
  forall n w w',
    at_file_loop parse_file n argv w = Returns tt w' ->
    keeps_set_fields (p_opt w) (p_opt w').
Proof.
  intros Hpf. induction n as [|n IH]; intros w w' H.
  - inversion H. apply keeps_set_fields_refl.
  - cbn [at_file_loop] in H.
    destruct (p_optind w <? Z.of_nat (length argv));
      [|inversion H; apply keeps_set_fields_refl].
    destruct (array_get argv (p_optind w)) as [[|c filename]|];
      try (inversion H; apply keeps_set_fields_refl).
    destruct (Ascii.eqb_spec c "@"%char) as [->|Hc].
    + apply bind_returns in H. destruct H as ([] & w1 & H1 & H).
      apply bind_returns in H. destruct H as ([] & w2 & H2 & H).
      apply bind_returns in H. destruct H as ([] & w3 & H3 & H).
      inversion H1. subst w1. inversion H3. subst w3.
      apply Hpf in H2. apply IH in H.
      eapply keeps_set_fields_trans; [exact H2|exact H].
    + destruct c as [[] [] [] [] [] [] [] []];
        try (inversion H; apply keeps_set_fields_refl).
      contradiction Hc. reflexivity.
Qed.

Lemma ParseOptionsFile_with_returns (parse : list string -> prog pworld unit)
    (filename : string) (w w' : pworld) :
  ParseOptionsFile_with parse filename w = Returns tt w' ->
  exists sub_argv, parse sub_argv w = Returns tt w'.
Proof.
  unfold ParseOptionsFile_with. intros H.
  destruct (p_argfiles w !! filename) as [file|]; [|discriminate].
  destruct (read_arguments _ file _ _) as [[msg|sub_argv]|]; try discriminate.
  destruct (af_close_error file); [discriminate|]. eauto.
Qed.

Lemma ParseCommandLine_keeps (fuel : nat) :
  forall argv w w',
    ParseCommandLine fuel argv w = Returns tt w' ->
    keeps_set_fields (p_opt w) (p_opt w').
Proof.
  induction fuel as [|fuel IH]; intros argv w w' H; [discriminate|].
  rewrite ParseCommandLine_S in H. cbv zeta in H.
  apply bind_returns in H. destruct H as ([] & w1 & H1 & H).
  apply bind_returns in H. destruct H as ([] & w2 & H2 & H).
  apply bind_returns in H. destruct H as ([] & w3 & H3 & H).
  apply bind_returns in H. destruct H as ([] & w4 & H4 & H).
  apply handle_options_returns in H1.
  destruct H1 as (_ & _ & _ & _ & _ & _ & _ & _ & _ & K1 & _).
  inversion H2. subst w2.
  apply AddMountSource_rest in H3. destruct H3 as (o' & -> & R).
  apply keeps_set_fields_rest in R. cbn in R.
  apply at_file_loop_keeps in H4.
  2:{ intros f v v' Hf. apply ParseOptionsFile_with_returns in Hf.
      destruct Hf as (sub_argv & Hf). eapply IH, Hf. }
  apply take_command_keeps in H.
  eapply keeps_set_fields_trans; [exact K1|].
  eapply keeps_set_fields_trans; [exact R|].
  eapply keeps_set_fields_trans; [exact H4|exact H].
Qed.

(** X3: ParseCommandLine, argument files included, never replaces what is
    set: a command, a sandbox root, a working directory and the two
    redirections that were set before the call are the same after it. *)
Theorem ParseCommandLine_never_replaces (fuel : nat) (argv : list string)
    (w w' : pworld) :
  ParseCommandLine fuel argv w = Returns tt w' ->
  keeps_set_fields (p_opt w) (p_opt w')
  /\ (forall c, args (p_opt w) = Some c -> args (p_opt w') = Some c)
  /\ (forall root, sandbox_root (p_opt w) = Some root ->
        sandbox_root (p_opt w') = Some root).
Proof.
  intros H. apply ParseCommandLine_keeps in H.
  split; [exact H|]. destruct H as (K1 & K2 & _). split; [exact K1|exact K2].
Qed.

Lemma ParseCommandLine_never_replaces_witness :
  let w := set_optind 0
             (set_opt (set_sandbox_root (Some "/sbx") (init_options 5))
                (start_pworld sample_argfiles)) in
  exists w',
    ParseCommandLine 3 [""; "-D"; "@inner"] w = Returns tt w'
    /\ sandbox_root (p_opt w') = Some "/sbx".
Proof.
  intros w.
  assert (E : exists w', ParseCommandLine 3 [""; "-D"; "@inner"] w = Returns tt w')
    by (eexists; vm_compute; reflexivity).
  destruct E as [w' E]. exists w'. split; [exact E|].
  apply (proj2 (proj2 (ParseCommandLine_never_replaces 3 [""; "-D"; "@inner"] w w' E))).
  reflexivity.
Defined.

(** X24: The loop over argument files takes the operands from [optind] on
    for as long as they start with [@], one file each, and stops at the
    first that does not: an [@FILE] behind another operand is not read. *)
Theorem at_file_loop_takes_leading_files (parse_file : string -> prog pworld unit)
    (n : nat) (argv : list string) (w w' : pworld) :
  at_file_loop parse_file n argv w = Returns tt w' ->
  0 <= p_optind w ->
  Z.of_nat (length argv) - p_optind w <= Z.of_nat n ->
  p_optind w <= p_optind w'
  /\ (forall i, p_optind w <= i < p_optind w' -> is_argfile <$> array_get argv i = Some true)
  /\ is_argfile <$> array_get argv (p_optind w') <> Some true.
Proof.
  revert w. induction n as [|n IH]; intros w H H0 Hn.
  - inversion H. subst w'. split; [lia|]. split; [intros i Hi; lia|].
    unfold array_get. destruct (p_optind w <? 0); [discriminate|].
    rewrite lookup_ge_None_2 by lia. discriminate.
  - cbn [at_file_loop] in H.
    destruct (Z.ltb_spec (p_optind w) (Z.of_nat (length argv))) as [Hlt|Hge].
    2:{ inversion H. subst w'. split; [lia|]. split; [intros i Hi; lia|].
        unfold array_get. destruct (p_optind w <? 0); [discriminate|].
        rewrite lookup_ge_None_2 by lia. discriminate. }
    destruct (array_get argv (p_optind w)) as [a|] eqn:Ea.
    2:{ inversion H. subst w'. split; [lia|]. split; [intros i Hi; lia|].
        rewrite Ea. discriminate. }
    destruct (is_argfile a) eqn:Hfile.
    + destruct a as [|c filename]; [discriminate|].
      assert (c = "@"%char)
        by (destruct c as [[] [] [] [] [] [] [] []]; try discriminate; reflexivity).
      subst c.
      apply bind_returns in H. destruct H as ([] & w1 & H1 & H).
      apply bind_returns in H. destruct H as ([] & w2 & H2 & H).
      apply bind_returns in H. destruct H as ([] & w3 & H3 & H).
      inversion H3. subst w3.
      apply IH in H; [|cbn; lia|cbn; lia]. cbn [p_optind set_optind] in H.
      destruct H as (A1 & A2 & A3).
      split; [lia|]. split; [|exact A3].
      intros i Hi. destruct (Z.eq_dec i (p_optind w)) as [->|];
        [rewrite Ea; reflexivity|apply A2; lia].
    + assert (w' = w).
      { destruct a as [|c filename]; [inversion H; reflexivity|].
        destruct c as [[] [] [] [] [] [] [] []];
          try (inversion H; reflexivity). discriminate Hfile. }
      subst w'. split; [lia|]. split; [intros i Hi; lia|].
      rewrite Ea. cbn. rewrite Hfile. discriminate.
Qed.

Lemma at_file_loop_takes_leading_files_witness :
  exists w',
    at_file_loop (ParseOptionsFile 2) 5
      ["sandbox"; "-S"; "/sbx"; "@inner"; "hi"; "@outer"]
      (set_optind 3 (argfile_pworld 6)) = Returns tt w'
    /\ p_optind w' = 4.
Proof.
  assert (E : exists w',
             at_file_loop (ParseOptionsFile 2) 5
               ["sandbox"; "-S"; "/sbx"; "@inner"; "hi"; "@outer"]
               (set_optind 3 (argfile_pworld 6)) = Returns tt w')
    by (eexists; vm_compute; reflexivity).
  destruct E as [w' E]. exists w'. split; [exact E|].
  destruct (at_file_loop_takes_leading_files _ _ _ _ _ E
              ltac:(cbn; lia) ltac:(cbn; lia)) as (H1 & H2 & H3).
  cbn [p_optind set_optind argfile_pworld set_opt start_pworld] in H1, H2.
  destruct (Z.eq_dec (p_optind w') 4) as [H4|H4]; [exact H4|].
  exfalso.
  destruct (Z.le_gt_cases (p_optind w') 3) as [Hle|Hgt].
  - assert (p_optind w' = 3) by lia. apply H3. rewrite H. reflexivity.
  - assert (H5 : is_argfile <$> array_get ["sandbox"; "-S"; "/sbx"; "@inner"; "hi"; "@outer"] 4
                 = Some true) by (apply H2; lia).
    discriminate H5.
Defined.

(** ** The arrays of the options structure stay in bounds *)

Lemma strip_trailing_slash_some (a : string) :
  a <> "" -> exists root, strip_trailing_slash a = Some root.
Proof.
  intros Ha. unfold strip_trailing_slash.
  destruct (rev (chars a)) as [|c r] eqn:E; [|eauto].
  exfalso. apply Ha. apply (f_equal (@length ascii)) in E.
  rewrite length_rev, length_chars in E. destruct a; [reflexivity|discriminate].
Qed.

Lemma args_count_cons (r : getopt_ret) (ts : list getopt_ret) :
  args_count (r :: ts) = ((if has_optarg r then 1 else 0) + args_count ts)%nat.
Proof. unfold args_count. cbn. destruct (has_optarg r); reflexivity. Qed.

Lemma args_count_app (ts1 ts2 : list getopt_ret) :
  args_count (ts1 ++ ts2) = (args_count ts1 + args_count ts2)%nat.
Proof. unfold args_count. rewrite List.filter_app, length_app. reflexivity. Qed.

Lemma scan_cluster_tokens (cl : string) (next : option string) :
  Forall token_wf (fst (scan_cluster cl next))
  /\ (args_count (fst (scan_cluster cl next)) <= 1)%nat.
Proof.
  induction cl as [|c cl IH]; cbn [scan_cluster].
  - split; [constructor|cbn; lia].
  - destruct (option_kind c) as [[|]|] eqn:K.
    + destruct cl as [|c' cl'].
      * destruct next; cbn; (split; [repeat constructor; try exact K|]);
          unfold args_count; cbn; lia.
      * cbn. split; [repeat constructor; exact K|unfold args_count; cbn; lia].
    + destruct (scan_cluster cl next) as [ts used]. destruct IH as [IH1 IH2].
      cbn [fst] in *. split; [constructor; [exact K|exact IH1]|].
      rewrite args_count_cons. cbn. exact IH2.
    + destruct (scan_cluster cl next) as [ts used]. destruct IH as [IH1 IH2].
      cbn [fst] in *. split; [constructor; [exact I|exact IH1]|].
      rewrite args_count_cons. cbn. exact IH2.
Qed.

(** getopt gives well-formed tokens, at most one argument per element of
    the vector, and only moves the elements around. *)
Lemma getopt_scan_tokens (posix : bool) (n : nat) :
  forall l, (length l <= n)%nat ->
    Forall token_wf (sr_tokens (getopt_scan posix l))
    /\ (args_count (sr_tokens (getopt_scan posix l)) <= length l)%nat
    /\ (forall x, In x (sr_consumed (getopt_scan posix l))
                  \/ In x (sr_operands (getopt_scan posix l)) -> In x l).
Proof.
  induction n as [|n IH]; intros l Hl.
  - destruct l; [|cbn in Hl; lia]. cbn.
    split; [constructor|]. split; [unfold args_count; cbn; lia|]. intros x [[]|[]].
  - destruct l as [|a l']; [cbn; split; [constructor|];
                            split; [unfold args_count; cbn; lia|]; intros x [[]|[]]|].
    cbn [length] in Hl.
    assert (IH1 := IH l' ltac:(lia)).
    cbn [getopt_scan].
    destruct (String.eqb a "--").
    { cbn. split; [constructor|]. split; [unfold args_count; cbn; lia|].
      intros x [[<-|[]]|Hx]; auto. }
    assert (Hoperand :
      Forall token_wf
        (sr_tokens
           (if posix
            then {| sr_tokens := []; sr_consumed := []; sr_operands := a :: l' |}
            else {| sr_tokens := sr_tokens (getopt_scan posix l');
                    sr_consumed := sr_consumed (getopt_scan posix l');
                    sr_operands := a :: sr_operands (getopt_scan posix l') |}))
      /\ (args_count
            (sr_tokens
               (if posix
                then {| sr_tokens := []; sr_consumed := []; sr_operands := a :: l' |}
                else {| sr_tokens := sr_tokens (getopt_scan posix l');
                        sr_consumed := sr_consumed (getopt_scan posix l');
                        sr_operands := a :: sr_operands (getopt_scan posix l') |}))
          <= length (a :: l'))%nat
      /\ (forall x,
            In x (sr_consumed
                    (if posix
                     then {| sr_tokens := []; sr_consumed := [];
                             sr_operands := a :: l' |}
                     else {| sr_tokens := sr_tokens (getopt_scan posix l');
                             sr_consumed := sr_consumed (getopt_scan posix l');
                             sr_operands := a :: sr_operands (getopt_scan posix l') |}))
            \/ In x (sr_operands
                       (if posix
                        then {| sr_tokens := []; sr_consumed := [];
                                sr_operands := a :: l' |}
                        else {| sr_tokens := sr_tokens (getopt_scan posix l');
                                sr_consumed := sr_consumed (getopt_scan posix l');
                                sr_operands := a :: sr_operands (getopt_scan posix l') |}))
            -> In x (a :: l'))).
    { destruct posix.
      - cbn. split; [constructor|]. split; [unfold args_count; cbn; lia|].
        intros x [[]|Hx]; exact Hx.
      - destruct IH1 as (I1 & I2 & I3). cbn [sr_tokens sr_consumed sr_operands length].
        split; [exact I1|]. split; [lia|].
        intros x [Hx|[<-|Hx]]; [right; apply I3; auto|left; reflexivity|
                                 right; apply I3; auto]. }
    destruct a as [|c0 a0]; [exact Hoperand|].
    destruct (Ascii.eqb_spec c0 "-"%char) as [->|Hc0].
    2:{ destruct c0 as [[] [] [] [] [] [] [] []]; try exact Hoperand.
        contradiction Hc0. reflexivity. }
    destruct a0 as [|c cl]; [exact Hoperand|].
    pose proof (scan_cluster_tokens (String c cl) (head l')) as [S1 S2].
    destruct (scan_cluster (String c cl) (head l')) as [ts used].
    cbn [fst] in S1, S2.
    destruct used.
    + destruct l' as [|b l''].
      * unfold scan_add. cbn [sr_tokens sr_consumed sr_operands getopt_scan length].
        rewrite app_nil_r. split; [exact S1|]. split; [lia|].
        intros x [[<-|[]]|[]]. left. reflexivity.
      * cbn [length] in Hl.
        destruct (IH l'' ltac:(lia)) as (I1 & I2 & I3).
        unfold scan_add. cbn [sr_tokens sr_consumed sr_operands length].
        split; [apply Forall_app; split; assumption|].
        split; [rewrite args_count_app; lia|].
        intros x [[<-|[<-|Hx]]|Hx]; cbn; auto.
    + destruct IH1 as (I1 & I2 & I3).
      unfold scan_add. cbn [sr_tokens sr_consumed sr_operands length].
      split; [apply Forall_app; split; assumption|].
      split; [rewrite args_count_app; lia|].
      intros x [[<-|Hx]|Hx]; cbn; auto.
Qed.

Lemma mounts_ok_ext (a : Z) (o o' : Options) :
  mounts_part o' = mounts_part o -> mounts_ok a o -> mounts_ok a o'.
Proof.
  intros E (st & es & H). exists st, es. eapply mounts_repr_ext; eassumption.
Qed.

Lemma token_wf_d (r : getopt_ret) :
  token_wf r -> is_opt "d" r = true -> has_optarg r = true.
Proof.
  destruct r as [c [a|]| |]; cbn; try discriminate; [reflexivity|].
  intros K E. apply Ascii.eqb_eq in E. subst c. vm_compute in K. discriminate.
Qed.

Ltac plain_case Hok :=
  right; eexists; split; [reflexivity|];
  split; [eapply mounts_ok_ext; [|exact Hok]; reflexivity|];
  cbn; split; lia.

(** One pass through the [switch] stays inside the arrays. *)
Lemma handle_getopt_safe (a : Z) (r : getopt_ret) (w : pworld) :
  token_wf r -> empty_root r = false ->
  mounts_ok a (p_opt w) ->
  a + 2 * num_mounts (p_opt w) + 4 < size_t_max ->
  (is_opt "d" r = true ->
   0 <= num_create_dirs (p_opt w) < Z.of_nat (length (create_dirs (p_opt w)))) ->
  (exists s w', handle_getopt r w = Exits s w')
  \/ (exists w',
        handle_getopt r w = Returns tt w'
        /\ mounts_ok a (p_opt w')
        /\ num_mounts (p_opt w')
           <= num_mounts (p_opt w) + (if has_optarg r then 1 else 0)
        /\ num_create_dirs (p_opt w')
           = num_create_dirs (p_opt w) + (if is_opt "d" r then 1 else 0)).
Proof.
  intros Hwf Hroot Hok Hbound Hd.
  destruct r as [c optarg| |]; [|left; eexists _, _; reflexivity..].
  cbn [handle_getopt].
  destruct (handle_option_cases c optarg) as [Hin|[Hpure Hnot]].
  - cbn in Hin. decompose [or] Hin; try contradiction; subst c.
    + (* C *)
      left. cbn. unfold bind, CheckNamespacesSupported, die, exit_with.
      destruct (p_clone_ok w); eexists _, _; reflexivity.
    + (* S *)
      destruct optarg as [x|]; [|vm_compute in Hwf; discriminate].
      destruct x as [|c0 x]; [cbn in Hroot; discriminate|].
      cbn [handle_option with_optarg].
      destruct (sandbox_root (p_opt w)) eqn:E; [left; eexists _, _; reflexivity|].
      destruct (strip_trailing_slash_some (String c0 x)) as [root Hs]; [discriminate|].
      rewrite Hs. plain_case Hok.
    + (* W *)
      destruct optarg as [x|]; [|vm_compute in Hwf; discriminate].
      cbn [handle_option with_optarg].
      destruct (working_dir (p_opt w)) eqn:E; [left; eexists _, _; reflexivity|].
      plain_case Hok.
    + (* d *)
      destruct optarg as [x|]; [|vm_compute in Hwf; discriminate].
      cbn [handle_option with_optarg].
      destruct (negb (starts_with_slash x)); [left; eexists _, _; reflexivity|].
      rewrite array_set_nat by (apply Hd; reflexivity).
      plain_case Hok.
    + (* i *)
      cbn [handle_option]. destruct optarg; plain_case Hok.
    + (* M *)
      destruct optarg as [x|]; [|vm_compute in Hwf; discriminate].
      cbn [handle_option with_optarg].
      destruct (negb (starts_with_slash x)); [left; eexists _, _; reflexivity|].
      destruct Hok as (st & es & Hr).
      destruct (AddMountSource_source_repr a w st x es Hr Hbound)
        as (o' & E & Hr' & Hn).
      right. eexists. split; [exact E|].
      split; [eexists _, _; exact Hr'|].
      apply AddMountSource_rest in E. destruct E as (o'' & E1 & R).
      assert (o'' = o') by (apply (f_equal p_opt) in E1; cbn in E1; congruence).
      subst o''. unfold rest_of in R.
      injection R as R1 R2 R3 R4 R5 R6 R7 R8 R9 R10 R11.
      cbn. split; lia.
    + (* m *)
      destruct optarg as [x|]; [|vm_compute in Hwf; discriminate].
      cbn [handle_option with_optarg].
      destruct (starts_with_slash x) eqn:Hx;
        [|left; unfold set_mount_target; rewrite Hx; eexists _, _; reflexivity].
      destruct Hok as ([|s] & es & Hr).
      * left. rewrite (set_mount_target_empty a w "m" x false es Hr Hx).
        eexists _, _; reflexivity.
      * right. rewrite (set_mount_target_repr a w "m" s x false es Hr Hx).
        eexists. split; [reflexivity|].
        split; [eexists _, _; apply (completed_repr a _ s x false es Hr)|].
        cbn. split; lia.
    + (* w *)
      destruct optarg as [x|]; [|vm_compute in Hwf; discriminate].
      cbn [handle_option with_optarg].
      destruct (starts_with_slash x) eqn:Hx;
        [|left; unfold set_mount_target; rewrite Hx; eexists _, _; reflexivity].
      destruct Hok as ([|s] & es & Hr).
      * left. rewrite (set_mount_target_empty a w "w" x true es Hr Hx).
        eexists _, _; reflexivity.
      * right. rewrite (set_mount_target_repr a w "w" s x true es Hr Hx).
        eexists. split; [reflexivity|].
        split; [eexists _, _; apply (completed_repr a _ s x true es Hr)|].
        cbn. split; lia.
    + (* n *)
      cbn [handle_option]. destruct optarg; plain_case Hok.
    + (* r *)
      cbn [handle_option]. destruct optarg; plain_case Hok.
    + (* H *)
      destruct optarg as [x|]; [|vm_compute in Hwf; discriminate].
      plain_case Hok.
    + (* D *)
      cbn [handle_option]. destruct optarg; plain_case Hok.
    + (* l *)
      destruct optarg as [x|]; [|vm_compute in Hwf; discriminate].
      cbn [handle_option with_optarg].
      destruct (stdout_path (p_opt w)) eqn:E; [left; eexists _, _; reflexivity|].
      plain_case Hok.
    + (* L *)
      destruct optarg as [x|]; [|vm_compute in Hwf; discriminate].
      cbn [handle_option with_optarg].
      destruct (stderr_path (p_opt w)) eqn:E; [left; eexists _, _; reflexivity|].
      plain_case Hok.
  - rewrite Hpure. right. exists w. split; [reflexivity|]. split; [exact Hok|].
    split_forallb Hnot. unfold is_opt. rewrite N2.
    destruct (has_optarg (GOpt c optarg)); split; lia.
Qed.

Lemma mounts_ok_num (a : Z) (o : Options) : mounts_ok a o -> 0 <= num_mounts o.
Proof. intros (st & es & H). unfold mounts_repr in H. lia. Qed.

Lemma handle_options_safe (a N : Z) (ts : list getopt_ret) :
  forall w,
    Forall token_wf ts -> existsb empty_root ts = false ->
    mounts_ok a (p_opt w) ->
    a + 2 * N + 4 < size_t_max ->
    num_mounts (p_opt w) + Z.of_nat (args_count ts) <= N ->
    0 <= num_create_dirs (p_opt w) ->
    num_create_dirs (p_opt w) + Z.of_nat (args_count ts)
    <= Z.of_nat (length (create_dirs (p_opt w))) ->
    (exists s w', handle_options ts w = Exits s w')
    \/ (exists w', handle_options ts w = Returns tt w' /\ mounts_ok a (p_opt w')).
Proof.
  induction ts as [|r ts IH]; intros w Hwf Hroot Hok HN Hm Hd0 Hd.
  - right. exists w. split; [reflexivity|exact Hok].
  - apply Forall_cons in Hwf. destruct Hwf as [Hwf1 Hwf].
    cbn [existsb] in Hroot. apply orb_false_elim in Hroot.
    destruct Hroot as [Hroot1 Hroot].
    rewrite args_count_cons in Hm, Hd.
    pose proof (mounts_ok_num _ _ Hok) as Hnum.
    destruct (handle_getopt_safe a r w Hwf1 Hroot1 Hok) as
      [(s & w' & E)|(w' & E & Hok' & Hm' & Hd')].
    + lia.
    + intros Hisd. apply (token_wf_d r Hwf1) in Hisd. rewrite Hisd in Hd. lia.
    + left. exists s, w'. cbn [handle_options]. unfold bind. rewrite E. reflexivity.
    + pose proof (handle_getopt_returns r w w' E) as (_ & _ & _ & _ & Hlen & _).
      assert (Hdle : (if is_opt "d" r then 1 else 0)
                     <= Z.of_nat (if has_optarg r then 1 else 0)).
      { destruct (is_opt "d" r) eqn:Hisd.
        - rewrite (token_wf_d r Hwf1 Hisd). cbn. lia.
        - destruct (has_optarg r); cbn; lia. }
      destruct (IH w' Hwf Hroot Hok' HN) as [(s & w'' & E')|(w'' & E' & Hok'')].
      * destruct (has_optarg r); lia.
      * destruct (is_opt "d" r); lia.
      * rewrite Hlen. destruct (has_optarg r); lia.
      * left. exists s, w''. cbn [handle_options]. unfold bind. rewrite E. exact E'.
      * right. exists w''. split; [|exact Hok''].
        cbn [handle_options]. unfold bind. rewrite E. exact E'.
Qed.

(** The loop over argument files does nothing at an operand that is not
    one. *)
Lemma at_file_loop_stop (parse_file : string -> prog pworld unit) (n : nat)
    (argv : list string) (w : pworld) :
  (forall x, array_get argv (p_optind w) = Some x -> is_argfile x = false) ->
  at_file_loop parse_file n argv w = Returns tt w.
Proof.
  intros H. destruct n as [|n]; [reflexivity|]. cbn [at_file_loop].
  destruct (p_optind w <? Z.of_nat (length argv)); [|reflexivity].
  destruct (array_get argv (p_optind w)) as [x|]; [|reflexivity].
  specialize (H x eq_refl). destruct x as [|c x]; [reflexivity|].
  destruct c as [[] [] [] [] [] [] [] []]; try reflexivity. discriminate H.
Qed.

Lemma init_options_ok (argc : nat) :
  (1 <= argc)%nat -> mounts_ok (Z.of_nat argc) (init_options argc).
Proof. intros H. exists Empty, []. apply init_options_repr, H. Qed.

Lemma bind_Returns {W A B} (m : prog W A) (k : A -> prog W B) (w w1 : W) (a : A) :
  m w = Returns a w1 -> bind m k w = k a w1.
Proof. unfold bind. intros ->. reflexivity. Qed.

Lemma bind_Exits {W A B} (m : prog W A) (k : A -> prog W B) (w w1 : W) (s : Z) :
  m w = Exits s w1 -> bind m k w = Exits s w1.
Proof. unfold bind. intros ->. reflexivity. Qed.

(** X4: Without argument files, parsing never reads or writes outside the
    arrays main allocated: for a command line of at least the program name
    whose elements do not start with [@] and whose -S argument is not the
    empty string, main's parse returns with complete mount entries, a
    command and a sandbox root, or exits. *)
Theorem main_parse_stays_in_bounds (fuel : nat) (argv : list string) (w : pworld) :
  argv <> [] ->
  Z.of_nat (length argv) < 2 ^ 60 ->
  p_optind w = 1 ->
  forallb (fun a => negb (is_argfile a)) argv = true ->
  existsb empty_root
    (sr_tokens (getopt_scan (p_posixly_correct w) (drop 1 argv))) = false ->
  (exists w',
     main_parse (S fuel) argv w = Returns tt w'
     /\ is_Some (mounts_of (p_opt w'))
     /\ is_Some (args (p_opt w'))
     /\ is_Some (sandbox_root (p_opt w')))
  \/ (exists s w', main_parse (S fuel) argv w = Exits s w').
Proof.
  intros Hne Hlen Hind Hfiles Hroot.
  unfold main_parse.
  set (w0 := set_opt (init_options (length argv)) w).
  rewrite (bind_Returns _ _ w w0 tt) by reflexivity.
  assert (Hargc : (1 <= length argv)%nat) by (destruct argv; [contradiction|cbn; lia]).
  assert (Hparse :
    (exists w', ParseCommandLine (S fuel) argv w0 = Returns tt w'
                /\ is_Some (mounts_of (p_opt w')))
    \/ (exists s w', ParseCommandLine (S fuel) argv w0 = Exits s w')).
  { rewrite ParseCommandLine_S. cbv zeta.
    change (p_optind w0) with (p_optind w). rewrite Hind.
    change (getopt_start 1) with 1%nat.
    change (p_posixly_correct w0) with (p_posixly_correct w).
    set (sr := getopt_scan (p_posixly_correct w) (drop 1 argv)) in *.
    destruct (getopt_scan_tokens (p_posixly_correct w) (length (drop 1 argv))
                (drop 1 argv) (le_n _)) as (T1 & T2 & T3).
    fold sr in T1, T2, T3.
    assert (Hdrop : length (drop 1 argv) = (length argv - 1)%nat)
      by apply length_drop.
    destruct (handle_options_safe (Z.of_nat (length argv)) (Z.of_nat (length argv))
                (sr_tokens sr) w0 T1 Hroot (init_options_ok _ Hargc))
      as [(s & w1 & E1)|(w1 & E1 & Hok1)].
    - unfold size_t_max. lia.
    - cbn. lia.
    - cbn. lia.
    - cbn. rewrite length_replicate. lia.
    - right. exists s, w1. apply bind_Exits, E1.
    - rewrite (bind_Returns _ _ _ _ _ E1).
      rewrite (bind_Returns _ _ w1 _ tt) by reflexivity.
      set (w2 := set_optind _ w1).
      destruct Hok1 as (st & es & Hr).
      destruct (AddMountSource_NULL_repr (Z.of_nat (length argv)) w2 st es Hr)
        as (o3 & E3 & Hr3).
      rewrite (bind_Returns _ _ _ _ _ E3).
      set (argv' := take 1 argv ++ sr_consumed sr ++ sr_operands sr).
      rewrite (bind_Returns _ _ _ (set_opt o3 w2) tt).
      2:{ apply at_file_loop_stop. intros x Hx.
          assert (Hin : In x argv).
          { unfold array_get in Hx.
            destruct (p_optind (set_opt o3 w2) <? 0); [discriminate|].
            apply list_elem_of_lookup_2, list_elem_of_In in Hx.
            unfold argv' in Hx. apply in_app_or in Hx.
            rewrite <- (firstn_skipn 1 argv). apply in_or_app.
            destruct Hx as [Hx|Hx]; [left; exact Hx|].
            right. apply T3. apply in_app_or in Hx. exact Hx. }
          rewrite forallb_forall in Hfiles. apply Hfiles in Hin.
          apply negb_true_iff in Hin. exact Hin. }
      unfold take_command.
      destruct (Z.of_nat (length argv') >? p_optind (set_opt o3 w2)).
      + destruct (args (p_opt (set_opt o3 w2))).
        * right. eexists _, _. reflexivity.
        * left. eexists. split; [reflexivity|].
          unfold mounts_repr in Hr3. destruct Hr3 as (_ & _ & _ & _ & _ & _ & M & _).
          exists (es ++ sm_end st). exact M.
      + left. eexists. split; [reflexivity|].
        unfold mounts_repr in Hr3. destruct Hr3 as (_ & _ & _ & _ & _ & _ & M & _).
        exists (es ++ sm_end st). exact M. }
  destruct Hparse as [(w' & E & M)|(s & w' & E)].
  - rewrite (bind_Returns _ _ _ _ _ E).
    destruct (args (p_opt w')) eqn:Ea; [|right; eexists _, _; reflexivity].
    destruct (sandbox_root (p_opt w')) eqn:Es; [|right; eexists _, _; reflexivity].
    left. exists w'. split; [reflexivity|]. rewrite Ea, Es. repeat split; eauto.
  - right. exists s, w'. apply bind_Exits, E.
Qed.

Lemma main_parse_stays_in_bounds_witness :
  (exists w',
     main_parse 1
       ["sandbox"; "-S"; "/sbx"; "-M"; "/usr"; "-d"; "/tmp"; "--"; "/bin/true"]
       (start_pworld ∅) = Returns tt w'
     /\ is_Some (mounts_of (p_opt w'))
     /\ is_Some (args (p_opt w'))
     /\ is_Some (sandbox_root (p_opt w')))
  \/ (exists s w',
        main_parse 1
          ["sandbox"; "-S"; "/sbx"; "-M"; "/usr"; "-d"; "/tmp"; "--"; "/bin/true"]
          (start_pworld ∅) = Exits s w').
Proof.
  apply main_parse_stays_in_bounds;
    [discriminate|vm_compute; reflexivity|reflexivity|reflexivity|reflexivity].
Defined.

(** ** The array of directories to create *)

Lemma handle_d_token (d : string) (w : pworld) :
  starts_with_slash d = true ->
  handle_getopt (GOpt "d" (Some d)) w
  = match array_set (create_dirs (p_opt w)) (num_create_dirs (p_opt w)) (Some d) with
    | None => Undefined
    | Some dirs =>
        Returns tt
          (set_opt (set_create_dirs dirs (num_create_dirs (p_opt w) + 1) (p_opt w)) w)
    end.
Proof. intros H. cbn. rewrite H. reflexivity. Qed.

Lemma handle_dir_tokens (ds : list string) :
  forall (w : pworld) (k : nat),
    Forall (fun d => starts_with_slash d = true) ds ->
    num_create_dirs (p_opt w) = Z.of_nat k ->
    (k <= length (create_dirs (p_opt w)))%nat ->
    if (k + length ds <=? length (create_dirs (p_opt w)))%nat
    then exists w',
           handle_options (dir_tokens ds) w = Returns tt w'
           /\ num_create_dirs (p_opt w') = Z.of_nat (k + length ds)
           /\ create_dirs (p_opt w')
              = take k (create_dirs (p_opt w)) ++ map Some ds
                ++ drop (k + length ds) (create_dirs (p_opt w))
    else handle_options (dir_tokens ds) w = Undefined.
Proof.
  induction ds as [|d ds IH]; intros w k Habs Hk Hle.
  - cbn [length]. rewrite Nat.add_0_r.
    destruct (Nat.leb_spec k (length (create_dirs (p_opt w)))); [|lia].
    exists w. split; [reflexivity|]. split; [exact Hk|].
    cbn. rewrite take_drop. reflexivity.
  - apply Forall_cons in Habs. destruct Habs as [Hd Habs].
    cbn [dir_tokens map handle_options]. fold (dir_tokens ds).
    unfold bind. rewrite (handle_d_token d w Hd).
    unfold array_set. rewrite Hk.
    destruct (Nat.ltb_spec k (length (create_dirs (p_opt w)))) as [Hlt|Hge].
    + replace ((0 <=? Z.of_nat k)
               && (Z.of_nat k <? Z.of_nat (length (create_dirs (p_opt w)))))
        with true by (symmetry; apply andb_true_iff; split; lia).
      rewrite Nat2Z.id.
      set (w1 := set_opt _ w).
      specialize (IH w1 (S k) Habs).
      cbn [p_opt w1 set_opt create_dirs num_create_dirs set_create_dirs] in IH.
      unfold w1 in IH. cbn [p_opt set_opt create_dirs num_create_dirs set_create_dirs] in IH.
      rewrite length_insert in IH.
      specialize (IH ltac:(lia) ltac:(lia)).
      cbn [length]. replace (k + S (length ds))%nat with (S k + length ds)%nat by lia.
      destruct (S k + length ds <=? length (create_dirs (p_opt w)))%nat; [|exact IH].
      destruct IH as (w' & E & Hn & Hdirs). exists w'.
      split; [exact E|]. split; [exact Hn|].
      rewrite Hdirs.
      rewrite (take_S_r _ k (Some d)) by (apply list_lookup_insert_eq; exact Hlt).
      rewrite take_insert_ge by lia. rewrite drop_insert_lt by lia.
      rewrite <- app_assoc. reflexivity.
    + assert (k = length (create_dirs (p_opt w))) by lia. subst k.
      replace ((0 <=? Z.of_nat (length (create_dirs (p_opt w))))
               && (Z.of_nat (length (create_dirs (p_opt w)))
                   <? Z.of_nat (length (create_dirs (p_opt w)))))
        with false by (symmetry; apply andb_false_iff; right; lia).
      cbn [length].
      destruct (Nat.leb_spec (length (create_dirs (p_opt w)) + S (length ds))
                  (length (create_dirs (p_opt w)))); [lia|reflexivity].
Qed.

(** X5: The directories of -d are stored in the order given, and the array
    has room for exactly as many as it was allocated with: once more
    absolute -d options are handled than the array has elements, the store
    goes past its end. *)
Theorem create_dirs_capacity (ds : list string) (w : pworld) :
  Forall (fun d => starts_with_slash d = true) ds ->
  num_create_dirs (p_opt w) = 0 ->
  ((length ds <= length (create_dirs (p_opt w)))%nat ->
   exists w',
     handle_options (dir_tokens ds) w = Returns tt w'
     /\ num_create_dirs (p_opt w') = Z.of_nat (length ds)
     /\ take (length ds) (create_dirs (p_opt w')) = map Some ds
     /\ length (create_dirs (p_opt w')) = length (create_dirs (p_opt w)))
  /\ ((length (create_dirs (p_opt w)) < length ds)%nat ->
      handle_options (dir_tokens ds) w = Undefined).
Proof.
  intros Habs Hk.
  pose proof (handle_dir_tokens ds w 0 Habs Hk ltac:(lia)) as H.
  cbn [Nat.add] in H. split; intros Hlen.
  - destruct (Nat.leb_spec (length ds) (length (create_dirs (p_opt w)))); [|lia].
    destruct H as (w' & E & Hn & Hdirs). exists w'.
    split; [exact E|]. split; [exact Hn|].
    rewrite Hdirs. rewrite take_0. cbn [app]. split.
    + rewrite take_app_length'; [reflexivity|]. rewrite length_map. reflexivity.
    + rewrite length_app, length_map, length_drop. lia.
  - destruct (Nat.leb_spec (length ds) (length (create_dirs (p_opt w)))); [lia|].
    exact H.
Qed.

Lemma create_dirs_capacity_witness :
  (exists w',
     handle_options (dir_tokens ["/a"; "/b"]) (set_opt (init_options 2) (start_pworld ∅))
     = Returns tt w'
     /\ num_create_dirs (p_opt w') = 2
     /\ take 2 (create_dirs (p_opt w')) = [Some "/a"; Some "/b"]
     /\ length (create_dirs (p_opt w')) = 2%nat)
  /\ handle_options (dir_tokens ["/a"; "/b"; "/c"])
       (set_opt (init_options 2) (start_pworld ∅)) = Undefined.
Proof.
  split.
  - apply (proj1 (create_dirs_capacity ["/a"; "/b"]
                    (set_opt (init_options 2) (start_pworld ∅))
                    ltac:(repeat constructor) eq_refl)).
    cbn. lia.
  - apply (proj2 (create_dirs_capacity ["/a"; "/b"; "/c"]
                    (set_opt (init_options 2) (start_pworld ∅))
                    ltac:(repeat constructor) eq_refl)).
    cbn. lia.
Defined.

(** ** Argument files: what the arrays and the recursion do not guard *)

Lemma getopt_scan_argfile (posix : bool) (filename : string) :
  getopt_scan posix [String "@" filename]
  = {| sr_tokens := []; sr_consumed := [];
       sr_operands := [String "@" filename] |}.
Proof. destruct posix; reflexivity. Qed.

Lemma getopt_scan_dir_lines (posix : bool) (ds : list string) :
  Forall (fun d => starts_with_slash d = true) ds ->
  getopt_scan posix (dir_lines ds)
  = {| sr_tokens := dir_tokens ds; sr_consumed := dir_lines ds;
       sr_operands := [] |}.
Proof.
  induction ds as [|d ds IH]; intros H; [reflexivity|].
  apply Forall_cons in H. destruct H as [Hd H].
  destruct d as [|c d]; [discriminate|].
  cbn [dir_lines map]. fold (dir_lines ds).
  change ("-d" +:+ String c d) with (String "-" (String "d" (String c d))).
  cbn [getopt_scan]. cbn [String.eqb Ascii.eqb Bool.eqb andb].
  change (scan_cluster (String "d" (String c d)) (head (dir_lines ds)))
    with ([GOpt "d" (Some (String c d))], false).
  rewrite (IH H). reflexivity.
Qed.

Lemma bind_Undefined {W A B} (m : prog W A) (k : A -> prog W B) (w : W) :
  m w = Undefined -> bind m k w = Undefined.
Proof. unfold bind. intros ->. reflexivity. Qed.

Lemma bind_OutOfFuel {W A B} (m : prog W A) (k : A -> prog W B) (w : W) :
  m w = OutOfFuel -> bind m k w = OutOfFuel.
Proof. unfold bind. intros ->. reflexivity. Qed.

(** X6: An argument file can make the parser write past the end of
    create_dirs: main allocates the array with argc elements, and a file
    named on a command line of two elements that holds three or more
    lines [-dDIR] stores one directory per line. *)
Theorem argument_file_overflows_create_dirs (fuel : nat) (prog filename : string)
    (file : argfile) (ds : list string) (w : pworld) :
  p_optind w = 1 ->
  p_argfiles w !! filename = Some file ->
  af_data file = file_text (dir_lines ds) None ->
  af_read_error file = false ->
  af_close_error file = false ->
  Forall (fun d => starts_with_slash d = true) ds ->
  Forall clean_line (dir_lines ds) ->
  (2 < length ds)%nat ->
  main_parse (S (S fuel)) [prog; String "@" filename] w = Undefined.
Proof.
  intros Hind Hfile Hdata Hread Hclose Habs Hclean Hlen.
  unfold main_parse.
  rewrite (bind_Returns _ _ w (set_opt (init_options 2) w) tt) by reflexivity.
  apply bind_Undefined.
  rewrite ParseCommandLine_S. cbv zeta.
  change (p_optind (set_opt (init_options 2) w)) with (p_optind w). rewrite Hind.
  change (getopt_start 1) with 1%nat.
  change (drop 1 [prog; String "@" filename]) with [String "@" filename].
  rewrite getopt_scan_argfile. cbn [sr_tokens sr_consumed sr_operands].
  rewrite (bind_Returns _ _ _ (set_opt (init_options 2) w) tt) by reflexivity.
  rewrite (bind_Returns _ _ _ (set_optind 1 (set_opt (init_options 2) w)) tt)
    by reflexivity.
  rewrite (bind_Returns _ _ _ (set_optind 1 (set_opt (init_options 2) w)) tt)
    by reflexivity.
  apply bind_Undefined.
  change (at_file_loop ?pf (length [prog; String "@" filename]) ?argv ?v)
    with (at_file_loop pf 2 argv v).
  cbn [at_file_loop].
  change (p_optind (set_optind 1 (set_opt (init_options 2) w))) with 1.
  change (1 <? Z.of_nat (length (take 1 [prog; String "@" filename]
                                   ++ [] ++ [String "@" filename]))) with true.
  cbv iota.
  change (array_get (take 1 [prog; String "@" filename] ++ [] ++ [String "@" filename]) 1)
    with (Some (String "@" filename)).
  cbv iota beta.
  rewrite (bind_Returns _ _ _ (set_optind 0 (set_optind 1 (set_opt (init_options 2) w))) tt)
    by reflexivity.
  apply bind_Undefined.
  change (ParseOptionsFile_with (ParseCommandLine (S fuel)) filename)
    with (ParseOptionsFile (S fuel) filename).
  rewrite (ParseOptionsFile_lines (S fuel) filename file (dir_lines ds) None)
    by (auto; discriminate).
  unfold lines_of. rewrite app_nil_r.
  rewrite ParseCommandLine_S. cbv zeta.
  change (getopt_start (p_optind (set_optind 0 _))) with 1%nat.
  change (drop 1 ("" :: dir_lines ds)) with (dir_lines ds).
  rewrite getopt_scan_dir_lines by exact Habs. cbn [sr_tokens].
  apply bind_Undefined.
  pose proof (handle_dir_tokens ds
                (set_optind 0 (set_optind 1 (set_opt (init_options 2) w))) 0
                Habs eq_refl ltac:(lia)) as H.
  change (length (create_dirs (p_opt (set_optind 0 (set_optind 1
                    (set_opt (init_options 2) w)))))) with 2%nat in H.
  cbn [Nat.add] in H.
  destruct (Nat.leb_spec (length ds) 2); [lia|exact H].
Qed.

Lemma argument_file_overflows_create_dirs_witness :
  main_parse 2 ["sandbox"; "@dirs"] edge_pworld = Undefined.
Proof.
  apply (argument_file_overflows_create_dirs 0 "sandbox" "dirs" dirs_file
           ["/a"; "/b"; "/c"] edge_pworld).
  - reflexivity.
  - vm_compute. reflexivity.
  - reflexivity.
  - reflexivity.
  - reflexivity.
  - repeat constructor.
  - repeat (apply List.Forall_cons; [solve_clean_line|]). apply List.Forall_nil.
  - cbn. lia.
Defined.

Lemma ParseCommandLine_self_including (filename : string) (file : argfile) :
  af_data file = file_text [String "@" filename] None ->
  clean_line (String "@" filename) ->
  af_read_error file = false ->
  af_close_error file = false ->
  forall (fuel : nat) (x : string) (w : pworld),
    getopt_start (p_optind w) = 1%nat ->
    p_argfiles w !! filename = Some file ->
    finish_pending (p_opt w) = Some (p_opt w) ->
    ParseCommandLine fuel [x; String "@" filename] w = OutOfFuel.
Proof.
  intros Hdata Hclean Hread Hclose.
  induction fuel as [|fuel IH]; intros x w Hstart Hfile Hfin; [reflexivity|].
  rewrite ParseCommandLine_S. cbv zeta. rewrite Hstart.
  change (drop 1 [x; String "@" filename]) with [String "@" filename].
  rewrite getopt_scan_argfile. cbn [sr_tokens sr_consumed sr_operands].
  rewrite (bind_Returns _ _ _ w tt) by reflexivity.
  rewrite (bind_Returns _ _ _ (set_optind 1 w) tt) by reflexivity.
  rewrite (bind_Returns _ _ _ (set_opt (p_opt w) (set_optind 1 w)) tt).
  2:{ unfold AddMountSource. cbn [p_opt set_optind]. rewrite Hfin. reflexivity. }
  apply bind_OutOfFuel.
  change (at_file_loop ?pf (length [x; String "@" filename]) ?argv ?v)
    with (at_file_loop pf 2 argv v).
  cbn [at_file_loop].
  change (p_optind (set_opt (p_opt w) (set_optind 1 w))) with 1.
  change (1 <? Z.of_nat (length (take 1 [x; String "@" filename]
                                   ++ [] ++ [String "@" filename]))) with true.
  cbv iota.
  change (array_get (take 1 [x; String "@" filename] ++ [] ++ [String "@" filename]) 1)
    with (Some (String "@" filename)).
  cbv iota beta.
  rewrite (bind_Returns _ _ _ (set_optind 0 (set_opt (p_opt w) (set_optind 1 w))) tt)
    by reflexivity.
  apply bind_OutOfFuel.
  change (ParseOptionsFile_with (ParseCommandLine fuel) filename)
    with (ParseOptionsFile fuel filename).
  assert (Hls : Forall clean_line [String "@" filename])
    by (apply List.Forall_cons; [exact Hclean|apply List.Forall_nil]).
  rewrite (ParseOptionsFile_lines fuel filename file [String "@" filename] None
             (set_optind 0 (set_opt (p_opt w) (set_optind 1 w)))
             Hfile Hdata Hls ltac:(discriminate) Hread Hclose).
  apply IH; [reflexivity|exact Hfile|exact Hfin].
Qed.

(** X7: An argument file that names itself is read again and again:
    nothing bounds the recursion of ParseOptionsFile and ParseCommandLine,
    so the parse of [prog @FILE] does not come back, whatever the fuel. *)
Theorem self_including_file_never_returns (fuel : nat) (prog filename : string)
    (file : argfile) (w : pworld) :
  p_optind w = 1 ->
  p_argfiles w !! filename = Some file ->
  af_data file = file_text [String "@" filename] None ->
  clean_line (String "@" filename) ->
  af_read_error file = false ->
  af_close_error file = false ->
  main_parse fuel [prog; String "@" filename] w = OutOfFuel.
Proof.
  intros Hind Hfile Hdata Hclean Hread Hclose.
  unfold main_parse.
  rewrite (bind_Returns _ _ w (set_opt (init_options 2) w) tt) by reflexivity.
  apply bind_OutOfFuel.
  apply (ParseCommandLine_self_including filename file Hdata Hclean Hread Hclose).
  - cbn [p_optind set_opt]. rewrite Hind. reflexivity.
  - exact Hfile.
  - reflexivity.
Qed.

Lemma self_including_file_never_returns_witness :
  main_parse 50 ["sandbox"; "@loop"] edge_pworld = OutOfFuel.
Proof.
  apply (self_including_file_never_returns 50 "sandbox" "loop" loop_file edge_pworld).
  - reflexivity.
  - vm_compute. reflexivity.
  - reflexivity.
  - solve_clean_line.
  - reflexivity.
  - reflexivity.
Defined.

(** ** The reading loop of ParseOptionsFile *)

Lemma fgets_split (n : nat) :
  forall l a r,
    fgets n l = (a, r) ->
    a ++ r = l /\ (length a <= n)%nat /\ (l <> [] -> (0 < n)%nat -> a <> []).
Proof.
  induction n as [|n IH]; intros l a r H.
  - cbn in H. inversion H. subst. repeat split; [cbn; lia|lia].
  - destruct l as [|c l]; cbn in H.
    + inversion H. subst. repeat split; [cbn; lia|contradiction].
    + destruct (Ascii.eqb c newline).
      * inversion H. subst. repeat split; [cbn; lia|discriminate].
      * destruct (fgets n l) as [a' r'] eqn:E. inversion H. subst.
        destruct (IH l a' r E) as (H1 & H2 & _).
        repeat split; [cbn; congruence|cbn; lia|discriminate].
Qed.

Lemma cstring_length (l : list ascii) : (length (cstring l) <= length l)%nat.
Proof.
  induction l as [|c l IH]; [cbn; lia|].
  cbn. destruct (Ascii.eqb c nul); cbn; lia.
Qed.

Lemma fgets_full (a : list ascii) :
  forall (n : nat) (rest : list ascii),
    Forall (fun c => c <> newline) a ->
    length a = n ->
    fgets n (a ++ rest) = (a, rest).
Proof.
  induction a as [|c a IH]; intros n rest Ha Hn.
  - cbn in Hn. subst n. reflexivity.
  - destruct n as [|n]; [discriminate|].
    inversion Ha as [|? ? Hc Ha']; subst.
    cbn. destruct (Ascii.eqb_spec c newline) as [->|_]; [contradiction|].
    rewrite IH by (try assumption; cbn in Hn; lia). reflexivity.
Qed.

(** The loop ends within the fuel ParseOptionsFile gives it, never with
    the complaint about an argument that is too long, and what it returns
    starts with the vector it was given. *)
Lemma read_arguments_total (file : argfile) (fuel : nat) :
  forall (rest : list ascii) (sub_argv : list string),
    (length rest < fuel)%nat ->
    read_arguments fuel file rest sub_argv
    = Some (inl "reading from argument file failed")
    \/ exists more,
         read_arguments fuel file rest sub_argv = Some (inr (sub_argv ++ more)).
Proof.
  induction fuel as [|fuel IH]; intros rest sub_argv Hfuel; [lia|].
  destruct rest as [|c rest0].
  - rewrite read_arguments_eof. destruct (af_read_error file); [left; reflexivity|].
    right. exists []. rewrite app_nil_r. reflexivity.
  - destruct (af_read_error file
              && fgets_ran_out (ARGUMENT_SIZE - 1)
                   (fst (fgets (ARGUMENT_SIZE - 1) (c :: rest0)))) eqn:Hfail.
    { left. apply read_arguments_fails; [discriminate|exact Hfail]. }
    rewrite read_arguments_more by (try exact Hfail; discriminate).
    destruct (fgets (ARGUMENT_SIZE - 1) (c :: rest0)) as [buffer rest'] eqn:E.
    destruct (fgets_split _ _ _ _ E) as (H1 & H2 & H3).
    assert (Hbuf : buffer <> [])
      by (apply H3; [discriminate|unfold ARGUMENT_SIZE; lia]).
    assert (Hshort : (length rest' < fuel)%nat).
    { apply (f_equal (@length ascii)) in H1. rewrite length_app in H1.
      destruct buffer; [contradiction|]. cbn in H1, Hfuel. lia. }
    cbv zeta.
    pose proof (cstring_length buffer) as Hc.
    destruct (length (cstring buffer) =? 0)%nat; [apply IH, Hshort|].
    assert (Hsize : (length (cstring buffer) =? ARGUMENT_SIZE)%nat = false)
      by (apply Nat.eqb_neq; unfold ARGUMENT_SIZE in *; lia).
    rewrite Hsize.
    destruct (last (cstring buffer)) as [x|];
      [|right; eexists; reflexivity].
    destruct (Ascii.eqb x newline); [|right; eexists; reflexivity].
    destruct (IH rest' (sub_argv ++ [str (removelast (cstring buffer))]) Hshort)
      as [H|[more H]]; [left; exact H|].
    right. eexists. rewrite H, <- app_assoc. reflexivity.
Qed.

(** A stream that fails after a last line without a newline: [fgets] gives
    NULL although it had read the line, and the program ends. *)
Example read_error_after_last_line :
  read_arguments 3
    {| af_data := "-D"; af_read_error := true; af_close_error := false |}
    (chars "-D") [""]
  = Some (inl "reading from argument file failed").
Proof. vm_compute. reflexivity. Qed.

(** X8: ParseOptionsFile ends in one of four ways: the file cannot be
    opened, reading fails, closing fails, or ParseCommandLine is called on
    a vector that starts with the empty program name.  Reading always
    ends, and the complaint about an argument that is too long is never
    made: [fgets] fills at most 8191 bytes of the 8192. *)
Theorem ParseOptionsFile_outcomes (parse : list string -> prog pworld unit)
    (filename : string) (w : pworld) :
  match p_argfiles w !! filename with
  | None =>
      ParseOptionsFile_with parse filename w
      = die ("opening argument file " +:+ filename +:+ " failed") w
  | Some file =>
      ParseOptionsFile_with parse filename w
      = die "reading from argument file failed" w
      \/ ParseOptionsFile_with parse filename w
         = die ("closing options file " +:+ filename +:+ " failed") w
      \/ exists more,
           ParseOptionsFile_with parse filename w = parse ("" :: more) w
  end.
Proof.
  unfold ParseOptionsFile_with.
  destruct (p_argfiles w !! filename) as [file|]; [|reflexivity].
  destruct (read_arguments_total file (S (String.length (af_data file)))
              (chars (af_data file)) [""]) as [H|[more H]].
  - rewrite length_chars. lia.
  - rewrite H. left. reflexivity.
  - rewrite H. destruct (af_close_error file); [right; left; reflexivity|].
    right. right. exists more. reflexivity.
Qed.

(** X9: A line of 8191 bytes or more is cut without a word: the first
    8191 bytes become the last argument and the rest of the file is not
    read. *)
Theorem long_line_is_cut (fuel : nat) (file : argfile) (a rest : list ascii)
    (sub_argv : list string) :
  length a = (ARGUMENT_SIZE - 1)%nat ->
  Forall (fun c => c <> newline /\ c <> nul) a ->
  read_arguments (S fuel) file (a ++ rest) sub_argv
  = Some (inr (sub_argv ++ [str a])).
Proof.
  intros Hlen Ha.
  assert (Hnl : Forall (fun c => c <> newline) a)
    by (eapply Forall_impl; [exact Ha|]; intros c [H _]; exact H).
  assert (Hnul : Forall (fun c => c <> nul) a)
    by (eapply Forall_impl; [exact Ha|]; intros c [_ H]; exact H).
  assert (Hne : a <> [])
    by (intros ->; cbn in Hlen; unfold ARGUMENT_SIZE in Hlen; lia).
  rewrite read_arguments_more.
  2:{ destruct a; [contradiction|discriminate]. }
  2:{ rewrite (fgets_full a _ rest Hnl Hlen). cbn [fst]. unfold fgets_ran_out.
      rewrite Hlen, Nat.ltb_irrefl. apply andb_false_r. }
  rewrite (fgets_full a _ rest Hnl Hlen). cbv zeta.
  rewrite cstring_clean by exact Hnul.
  assert (Hpos : (length a =? 0)%nat = false)
    by (apply Nat.eqb_neq; unfold ARGUMENT_SIZE in Hlen; lia).
  assert (Hsize : (length a =? ARGUMENT_SIZE)%nat = false)
    by (apply Nat.eqb_neq; unfold ARGUMENT_SIZE in *; lia).
  rewrite Hpos, Hsize.
  destruct (last a) as [c|] eqn:Hlast; [|reflexivity].
  assert (Hc : c <> newline).
  { rewrite Forall_forall in Hnl. apply Hnl. apply last_Some_elem_of. exact Hlast. }
  destruct (Ascii.eqb_spec c newline); [contradiction|reflexivity].
Qed.

Lemma long_line_is_cut_witness :
  read_arguments 1 (plain_file "")
    (replicate (ARGUMENT_SIZE - 1) "x"%char ++ chars "yz") [""]
  = Some (inr ([""] ++ [str (replicate (ARGUMENT_SIZE - 1) "x"%char)])).
Proof.
  apply long_line_is_cut.
  - apply length_replicate.
  - apply Forall_replicate. split; discriminate.
Defined.

Lemma line_ok_chars (l : string) :
  line_ok l ->
  Forall (fun c => c <> newline) (chars l)
  /\ Forall (fun c => c <> nul) (chars l)
  /\ (length (chars l) < ARGUMENT_SIZE - 1)%nat.
Proof.
  intros (Hc & Hlen). repeat split.
  - eapply Forall_impl; [exact Hc|]. intros c [H _]. exact H.
  - eapply Forall_impl; [exact Hc|]. intros c [_ H]. exact H.
  - rewrite length_chars. exact Hlen.
Qed.

(** X10: Every line that ends in a newline becomes one argument, the
    empty lines too, in the order of the file; a last line without a
    newline is the last argument. *)
Theorem read_arguments_keeps_empty_lines (file : argfile) (tail : option string)
    (ls : list string) (fuel : nat) (sub_argv : list string) :
  Forall line_ok ls ->
  (forall t, tail = Some t -> clean_line t) ->
  af_read_error file = false ->
  (String.length (file_text ls tail) < fuel)%nat ->
  read_arguments fuel file (chars (file_text ls tail)) sub_argv
  = Some (inr (sub_argv ++ lines_of ls tail)).
Proof.
  revert fuel sub_argv.
  induction ls as [|l ls IH]; intros fuel sub_argv Hls Htail Herr Hfuel.
  - apply (read_arguments_lines file tail []); auto.
  - inversion Hls as [|? ? Hl Hls']; subst.
    destruct (line_ok_chars l Hl) as (Hnl & Hnul & Hlen).
    destruct fuel as [|fuel]; [lia|].
    simpl file_text. unfold nl. rewrite !chars_app.
    change (chars (String newline "")) with [newline].
    change ([newline] ++ chars (file_text ls tail))
      with (newline :: chars (file_text ls tail)).
    rewrite read_arguments_more
      by (try (rewrite Herr; reflexivity); destruct (chars l); discriminate).
    rewrite fgets_line by assumption.
    cbv zeta. rewrite cstring_clean
      by (apply Forall_app; split; [assumption|constructor; [discriminate|constructor]]).
    rewrite length_app. simpl length.
    assert (Hpos : (length (chars l) + 1 =? 0)%nat = false)
      by (apply Nat.eqb_neq; lia).
    assert (Hsize : (length (chars l) + 1 =? ARGUMENT_SIZE)%nat = false)
      by (apply Nat.eqb_neq; lia).
    rewrite Hpos, Hsize. rewrite last_snoc.
    rewrite Ascii.eqb_refl. rewrite removelast_last, str_chars.
    rewrite IH; try assumption.
    + unfold lines_of. rewrite <- !app_assoc. reflexivity.
    + simpl file_text in Hfuel. unfold nl in Hfuel.
      rewrite <- !length_chars in *. rewrite !chars_app, !length_app in Hfuel.
      simpl in Hfuel. lia.
Qed.

Lemma read_arguments_keeps_empty_lines_witness :
  read_arguments 20 (plain_file "") (chars (file_text ["-D"; ""; ""; "-n"] None)) [""]
  = Some (inr ([""] ++ lines_of ["-D"; ""; ""; "-n"] None)).
Proof.
  apply read_arguments_keeps_empty_lines.
  - repeat (apply List.Forall_cons;
            [split; [simpl; repeat (apply List.Forall_cons; [split; discriminate|]);
                     apply List.Forall_nil
                    |apply Nat.ltb_lt; vm_compute; reflexivity]|]).
    apply List.Forall_nil.
  - discriminate.
  - reflexivity.
  - apply Nat.ltb_lt. vm_compute. reflexivity.
Defined.

(** ** CreateTarget: what it leaves in place *)

Lemma grows_refl (w : world) : grows w w.
Proof. unfold grows. repeat split; reflexivity. Qed.

Ltac grows_same := unfold grows; cbn; repeat split; reflexivity.

Lemma grows_trans (w1 w2 w3 : world) : grows w1 w2 -> grows w2 w3 -> grows w1 w3.
Proof.
  unfold grows. intros (A1 & A2 & A3 & A4) (B1 & B2 & B3 & B4).
  repeat split; try congruence. etrans; eassumption.
Qed.

Lemma always_pure {A} (a : A) : always grows (pure a).
Proof. intros w w' H. inversion H. grows_same. Qed.

Lemma always_bind {A B} (m : prog world A) (k : A -> prog world B) :
  always grows m -> (forall a, always grows (k a)) -> always grows (bind m k).
Proof.
  intros Hm Hk w w' H. unfold bind in H.
  destruct (m w) as [a w1|s w1| |] eqn:E; try discriminate.
  - eapply grows_trans; [apply Hm; rewrite E; reflexivity|].
    eapply Hk, H.
  - apply Hm. rewrite E. exact H.
Qed.

Lemma always_stat (p : string) : always grows (stat p).
Proof.
  intros w w' H. unfold stat in H.
  destruct (lookup_path w p); inversion H; grows_same.
Qed.

Lemma always_DIE {A} (msg : string) : always grows (@DIE A msg).
Proof. intros w w' H. inversion H. grows_same. Qed.

Lemma always_PRINT_DEBUG (msg : string) : always grows (PRINT_DEBUG msg).
Proof.
  intros w w' H. unfold PRINT_DEBUG in H. cbn in H. inversion H.
  destruct (w_debug w); grows_same.
Qed.

Lemma always_CHECK_CALL (expr : string) (m : prog world Z) :
  always grows m -> always grows (CHECK_CALL expr m).
Proof.
  intros H. unfold CHECK_CALL. apply always_bind; [exact H|].
  intros r. destruct (r =? -1); [apply always_DIE|apply always_pure].
Qed.

Lemma always_CHECK_CALL_MSG (msg : string) (m : prog world Z) :
  always grows m -> always grows (CHECK_CALL_MSG m msg).
Proof.
  intros H. unfold CHECK_CALL_MSG. apply always_bind; [exact H|].
  intros r. destruct (r =? -1); [apply always_DIE|apply always_pure].
Qed.

Lemma new_entry_fresh (w : world) (p : string) (k : list string) :
  new_entry w p = inr k -> w_files w !! k = None.
Proof.
  intros H. apply new_entry_inv in H.
  destruct H as (_ & parent & name & kp & nd & _ & _ & _ & _ & _ & Hfree & ->).
  exact Hfree.
Qed.

Lemma always_mkdir (p : string) (mode : Z) : always grows (mkdir p mode).
Proof.
  intros w w' H. unfold mkdir in H.
  destruct (new_entry (log_call (SysMkdir p mode) w) p) as [e|k] eqn:E.
  - inversion H. grows_same.
  - inversion H. apply new_entry_fresh in E. cbn in E.
    unfold grows. cbn. repeat split. apply insert_subseteq. exact E.
Qed.

Lemma always_open_creat_excl (p : string) (mode : Z) :
  always grows (open_creat_excl p mode).
Proof.
  intros w w' H. unfold open_creat_excl in H.
  destruct (ends_with_slash p); [inversion H; grows_same|].
  destruct (new_entry (log_call (SysOpenCreatExcl p mode) w) p) as [e|k] eqn:E.
  - inversion H. grows_same.
  - inversion H. apply new_entry_fresh in E. cbn in E.
    unfold grows. cbn. repeat split. apply insert_subseteq. exact E.
Qed.

Lemma always_close (p : string) : always grows (close p).
Proof. intros w w' H. inversion H. grows_same. Qed.

Lemma always_CreateFile (path : string) : always grows (CreateFile path).
Proof.
  unfold CreateFile. apply always_bind.
  - apply always_CHECK_CALL_MSG, always_open_creat_excl.
  - intros _. apply always_bind; [apply always_CHECK_CALL, always_close|].
    intros _. apply always_pure.
Qed.

Lemma always_CreateTarget (fuel : nat) :
  forall (path : option string) (is_directory : bool),
    always grows (CreateTarget fuel path is_directory).
Proof.
  induction fuel as [|fuel IH]; intros path d; [intros w w' H; discriminate|].
  destruct path as [p0|]; [|intros w w' H; inversion H; grows_same].
  rewrite CreateTarget_S. cbv zeta.
  apply always_bind; [apply always_stat|].
  intros [n|].
  - destruct (d && S_ISDIR n); [apply always_pure|].
    destruct (negb d && S_ISREG n); [apply always_pure|].
    intros w w' H. inversion H. grows_same.
  - intros w w' H.
    destruct (negb (w_errno w =? ENOENT)); [inversion H; grows_same|].
    revert w w' H. apply always_bind; [apply always_CHECK_CALL, IH|].
    intros _. destruct d.
    + apply always_bind; [apply always_CHECK_CALL_MSG, always_mkdir|].
      intros _. apply always_pure.
    + apply always_bind; [apply always_CreateFile|]. intros _. apply always_pure.
Qed.

Lemma walk_weaken (f f' : gmap (list string) node) (cs : list string) :
  f ⊆ f' ->
  forall cur k, walk f cur cs = inr k -> walk f' cur cs = inr k.
Proof.
  intros Hsub. induction cs as [|c cs IH]; intros cur k H; [exact H|].
  cbn [walk] in *.
  destruct (f !! cur) as [n|] eqn:E; [|discriminate].
  rewrite (lookup_weaken _ _ _ _ E Hsub).
  destruct (n_kind n); try discriminate.
  destruct (stays c); [apply IH, H|].
  destruct (String.eqb c ".."); apply IH, H.
Qed.

Lemma lookup_path_grows (w w' : world) (q : string) (n : node) :
  grows w w' -> lookup_path w q = inr n -> lookup_path w' q = inr n.
Proof.
  intros (Hsub & Hcwd & _) H. unfold lookup_path, start_dir in *.
  destruct q as [|c q]; [discriminate|]. rewrite Hcwd.
  destruct (walk (w_files w) _ _) as [e|k] eqn:E; [discriminate|].
  rewrite (walk_weaken _ _ _ Hsub _ _ E).
  destruct (w_files w !! k) as [n'|] eqn:E'; [|discriminate].
  rewrite (lookup_weaken _ _ _ _ E' Hsub). exact H.
Qed.

(** X11: CreateTarget never removes or changes what is there: however it
    ends, every node of the file tree is still in place with its kind and
    mode, every path that resolved still resolves to the same node, and
    the current directory, the umask and the mount table are untouched. *)
Theorem CreateTarget_keeps_existing (fuel : nat) (path : option string)
    (is_directory : bool) (w w' : world) :
  final (CreateTarget fuel path is_directory w) = Some w' ->
  (forall k n, w_files w !! k = Some n -> w_files w' !! k = Some n)
  /\ (forall q n, lookup_path w q = inr n -> lookup_path w' q = inr n)
  /\ w_cwd w' = w_cwd w /\ w_umask w' = w_umask w /\ w_mtab w' = w_mtab w.
Proof.
  intros H. apply always_CreateTarget in H.
  split; [|split; [|destruct H as (_ & H2 & H3 & H4); auto]].
  - intros k n E. destruct H as (Hsub & _). eapply lookup_weaken; eassumption.
  - intros q n E. eapply lookup_path_grows; eassumption.
Qed.

Lemma CreateTarget_keeps_existing_witness :
  exists w',
    final (CreateTarget 10 (Some "var/cache/x") true sample_world) = Some w'
    /\ lookup_path w' "etc/passwd" = inr fnode.
Proof.
  assert (E : exists w', final (CreateTarget 10 (Some "var/cache/x") true sample_world)
                         = Some w') by (eexists; vm_compute; reflexivity).
  destruct E as [w' E]. exists w'. split; [exact E|].
  apply (proj1 (proj2 (CreateTarget_keeps_existing 10 (Some "var/cache/x") true
                         sample_world w' E))).
  vm_compute. reflexivity.
Defined.

Lemma kind_matches_false (d : bool) (n : node) :
  kind_matches d n = false -> n_kind n <> (if d then KDir else KReg).
Proof.
  unfold kind_matches, S_ISDIR, S_ISREG.
  destruct d, (n_kind n); cbn; intros H; try discriminate; intros E; discriminate.
Qed.

(** A call that does not return -1 has made the path what was asked
    for. *)
Lemma CreateTarget_made (fuel : nat) (p0 : string) (d : bool) (w w' : world)
    (r : Z) :
  CreateTarget fuel (Some p0) d w = Returns r w' ->
  r <> -1 ->
  exists n, lookup_path w' (target_path p0) = inr n
            /\ n_kind n = (if d then KDir else KReg).
Proof.
  intros H Hr. destruct fuel as [|fuel]; [discriminate|].
  destruct (lookup_path w (target_path p0)) as [e|n] eqn:E.
  - destruct (Z.eq_dec e ENOENT) as [->|He].
    + destruct (CreateTarget_missing_returns fuel p0 d w w' r E H)
        as (_ & r1 & w1 & _ & _ & _ & Hl & _).
      eexists. split; [exact Hl|reflexivity].
    + rewrite (CreateTarget_stat_error fuel p0 d w e E He) in H.
      inversion H. subst. contradiction.
  - destruct (kind_matches d n) eqn:K.
    + rewrite (CreateTarget_exists_match fuel p0 d w n E K) in H.
      inversion H. subst. exists n. split; [exact E|]. apply kind_matches_cases, K.
    + rewrite (CreateTarget_exists_mismatch fuel p0 d w n E K) in H.
      inversion H. subst. contradiction.
Qed.

(** X12: What CreateTarget returns is 0 or -1.  After 0 the path names a
    node of the kind asked for.  After -1 nothing was created and no
    system call was made: the path was there with another kind, or [stat]
    failed with an error that is not ENOENT. *)
Theorem CreateTarget_result (fuel : nat) (p0 : string) (d : bool) (w w' : world)
    (r : Z) :
  CreateTarget fuel (Some p0) d w = Returns r w' ->
  (r = 0
   /\ exists n, lookup_path w' (target_path p0) = inr n
                /\ n_kind n = (if d then KDir else KReg))
  \/ (r = -1
      /\ w_files w' = w_files w /\ w_calls w' = w_calls w
      /\ w_stderr w' = w_stderr w
      /\ lookup_path w (target_path p0) <> inl ENOENT
      /\ (forall n, lookup_path w (target_path p0) = inr n ->
                    n_kind n <> (if d then KDir else KReg))).
Proof.
  intros H. destruct fuel as [|fuel]; [discriminate|].
  destruct (lookup_path w (target_path p0)) as [e|n] eqn:E.
  - destruct (Z.eq_dec e ENOENT) as [->|He].
    + destruct (CreateTarget_missing_returns fuel p0 d w w' r E H)
        as (-> & r1 & w1 & _ & _ & _ & Hl & _).
      left. split; [reflexivity|]. eexists. split; [exact Hl|]. reflexivity.
    + rewrite (CreateTarget_stat_error fuel p0 d w e E He) in H.
      inversion H. subst. right. cbn.
      repeat split; try reflexivity; [congruence|discriminate].
  - destruct (kind_matches d n) eqn:K.
    + rewrite (CreateTarget_exists_match fuel p0 d w n E K) in H.
      inversion H. subst. left. split; [reflexivity|].
      exists n. split; [exact E|]. apply kind_matches_cases, K.
    + rewrite (CreateTarget_exists_mismatch fuel p0 d w n E K) in H.
      inversion H. subst. right. cbn.
      repeat split; try reflexivity; [discriminate|].
      intros n' En'. inversion En'. subst n'. apply kind_matches_false, K.
Qed.

Lemma CreateTarget_result_witness :
  exists w',
    CreateTarget 10 (Some "var/cache/x") true sample_world = Returns 0 w'
    /\ exists n, lookup_path w' (target_path "var/cache/x") = inr n
                 /\ n_kind n = KDir.
Proof.
  assert (E : exists w', CreateTarget 10 (Some "var/cache/x") true sample_world
                         = Returns 0 w') by (eexists; vm_compute; reflexivity).
  destruct E as [w' E]. exists w'. split; [exact E|].
  destruct (CreateTarget_result 10 "var/cache/x" true sample_world w' 0 E)
    as [[_ H]|[H _]]; [exact H|discriminate H].
Defined.

(** ** Only absolute paths are stored *)

Lemma array_set_Forall {A} (P : A -> Prop) (l l' : list A) (i : Z) (x : A) :
  array_set l i x = Some l' -> Forall P l -> P x -> Forall P l'.
Proof.
  unfold array_set. destruct ((0 <=? i) && (i <? Z.of_nat (length l))); [|discriminate].
  intros H Hl Hx. inversion H. apply Forall_insert; assumption.
Qed.

Lemma array_get_Forall {A} (P : A -> Prop) (l : list A) (i : Z) (x : A) :
  array_get l i = Some x -> Forall P l -> P x.
Proof.
  unfold array_get. destruct (i <? 0); [discriminate|].
  intros H Hl. eapply Forall_lookup_1; eassumption.
Qed.

Lemma finish_pending_absolute (o o1 : Options) :
  finish_pending o = Some o1 -> all_absolute o -> all_absolute o1.
Proof.
  unfold finish_pending. intros H (A1 & A2 & A3).
  destruct (array_get (mount_sources o) (num_mounts o)) as [[src|]|] eqn:E;
    try discriminate.
  - destruct (array_set (mount_targets o) (num_mounts o) (Some src)) as [tgts|] eqn:Et;
      try discriminate.
    destruct (array_set (mount_rw o) (num_mounts o) false); try discriminate.
    inversion H. unfold all_absolute. cbn.
    split; [exact A1|]. split; [|exact A3].
    eapply array_set_Forall; [exact Et|exact A2|].
    apply (array_get_Forall abs_or_null _ _ _ E A1).
  - inversion H. subst. repeat split; assumption.
Qed.

Lemma AddMountSource_absolute (source : option string) (w w' : pworld) :
  AddMountSource source w = Returns tt w' ->
  abs_or_null source ->
  all_absolute (p_opt w) -> all_absolute (p_opt w').
Proof.
  unfold AddMountSource. intros H Hs Ha.
  destruct (finish_pending (p_opt w)) as [o1|] eqn:F; try discriminate.
  apply (finish_pending_absolute _ _ F) in Ha.
  destruct source as [src|]; [|inversion H; exact Ha].
  assert (Hg : all_absolute
                 (if num_mounts o1 >=? (mount_map_sizes o1 - 1) mod size_t_max
                  then grow_mounts o1 else o1)).
  { destruct (num_mounts o1 >=? (mount_map_sizes o1 - 1) mod size_t_max);
      [|exact Ha].
    destruct Ha as (A1 & A2 & A3). unfold all_absolute, grow_mounts. cbn.
    repeat split; try assumption;
      apply Forall_app; split; try assumption; apply Forall_replicate; exact I. }
  match type of H with
  | context [array_set ?a ?i ?x] => destruct (array_set a i x) as [srcs|] eqn:E
  end; try discriminate.
  inversion H. destruct Hg as (G1 & G2 & G3). unfold all_absolute. cbn.
  split; [|split; assumption].
  eapply array_set_Forall; [exact E|exact G1|exact Hs].
Qed.

Lemma set_mount_target_absolute (flag : string) (rw : bool) (optarg : string)
    (w w' : pworld) :
  set_mount_target flag rw optarg w = Returns tt w' ->
  all_absolute (p_opt w) -> all_absolute (p_opt w').
Proof.
  unfold set_mount_target. intros H (A1 & A2 & A3).
  destruct (starts_with_slash optarg) eqn:Habs; [|discriminate]. cbn [negb] in H.
  destruct (array_get (mount_sources (p_opt w)) (num_mounts (p_opt w))) as [[s|]|];
    try discriminate.
  destruct (array_set (mount_rw (p_opt w)) (num_mounts (p_opt w)) rw); try discriminate.
  destruct (array_set (mount_targets (p_opt w)) (num_mounts (p_opt w)) (Some optarg))
    as [tgts|] eqn:Et; try discriminate.
  inversion H. unfold all_absolute. cbn.
  split; [exact A1|]. split; [|exact A3].
  eapply array_set_Forall; [exact Et|exact A2|exact Habs].
Qed.

Lemma handle_getopt_absolute (r : getopt_ret) (w w' : pworld) :
  handle_getopt r w = Returns tt w' ->
  all_absolute (p_opt w) -> all_absolute (p_opt w').
Proof.
  intros H Ha. destruct r as [c optarg| |]; try discriminate.
  cbn [handle_getopt] in H.
  destruct (handle_option_cases c optarg) as [Hin|[Hpure _]].
  - cbn in Hin. decompose [or] Hin; try contradiction; subst c.
    + cbn in H. unfold bind, CheckNamespacesSupported, die, exit_with in H.
      destruct (p_clone_ok w); discriminate.
    + destruct optarg as [a|]; cbn in H; try discriminate.
      destruct (sandbox_root (p_opt w)); try discriminate.
      destruct (strip_trailing_slash a); try discriminate.
      inversion H. exact Ha.
    + destruct optarg as [a|]; cbn in H; try discriminate.
      destruct (working_dir (p_opt w)); try discriminate.
      inversion H. exact Ha.
    + destruct optarg as [a|]; cbn in H; try discriminate.
      destruct (starts_with_slash a) eqn:Habs; [|discriminate]. cbn [negb] in H.
      destruct (array_set (create_dirs (p_opt w)) (num_create_dirs (p_opt w)) (Some a))
        as [dirs|] eqn:E; try discriminate.
      inversion H. destruct Ha as (A1 & A2 & A3). unfold all_absolute. cbn.
      split; [exact A1|]. split; [exact A2|].
      eapply array_set_Forall; [exact E|exact A3|exact Habs].
    + cbn in H. inversion H. exact Ha.
    + destruct optarg as [a|]; cbn in H; try discriminate.
      destruct (starts_with_slash a) eqn:Habs; [|discriminate]. cbn [negb] in H.
      eapply AddMountSource_absolute; [exact H|exact Habs|exact Ha].
    + destruct optarg as [a|]; cbn in H; try discriminate.
      eapply set_mount_target_absolute; eassumption.
    + destruct optarg as [a|]; cbn in H; try discriminate.
      eapply set_mount_target_absolute; eassumption.
    + cbn in H. inversion H. exact Ha.
    + cbn in H. inversion H. exact Ha.
    + destruct optarg as [a|]; cbn in H; try discriminate.
      inversion H. exact Ha.
    + cbn in H. inversion H. exact Ha.
    + destruct optarg as [a|]; cbn in H; try discriminate.
      destruct (stdout_path (p_opt w)); try discriminate.
      inversion H. exact Ha.
    + destruct optarg as [a|]; cbn in H; try discriminate.
      destruct (stderr_path (p_opt w)); try discriminate.
      inversion H. exact Ha.
  - rewrite Hpure in H. inversion H. subst. exact Ha.
Qed.

Lemma handle_options_absolute (ts : list getopt_ret) :
  forall w w',
    handle_options ts w = Returns tt w' ->
    all_absolute (p_opt w) -> all_absolute (p_opt w').
Proof.
  induction ts as [|r ts IH]; intros w w' H Ha.
  - inversion H. subst. exact Ha.
  - apply handle_options_cons in H. destruct H as (w1 & H1 & H2).
    eapply IH; [exact H2|]. eapply handle_getopt_absolute; eassumption.
Qed.

Lemma at_file_loop_absolute (parse_file : string -> prog pworld unit)
    (argv : list string) :
  (forall f w w', parse_file f w = Returns tt w' ->
                  all_absolute (p_opt w) -> all_absolute (p_opt w')) ->
  forall n w w',
    at_file_loop parse_file n argv w = Returns tt w' ->
    all_absolute (p_opt w) -> all_absolute (p_opt w').
Proof.
  intros Hpf. induction n as [|n IH]; intros w w' H Ha.
  - inversion H. subst. exact Ha.
  - cbn [at_file_loop] in H.
    destruct (p_optind w <? Z.of_nat (length argv));
      [|inversion H; subst; exact Ha].
    destruct (array_get argv (p_optind w)) as [[|c filename]|];
      try (inversion H; subst; exact Ha).
    destruct (Ascii.eqb_spec c "@"%char) as [->|Hc].
    + apply bind_returns in H. destruct H as ([] & w1 & H1 & H).
      apply bind_returns in H. destruct H as ([] & w2 & H2 & H).
      apply bind_returns in H. destruct H as ([] & w3 & H3 & H).
      inversion H1. subst w1. inversion H3. subst w3.
      eapply IH; [exact H|]. change (all_absolute (p_opt w2)).
      eapply Hpf; [exact H2|exact Ha].
    + destruct c as [[] [] [] [] [] [] [] []];
        try (inversion H; subst; exact Ha).
      contradiction Hc. reflexivity.
Qed.

Lemma ParseCommandLine_absolute (fuel : nat) :
  forall argv w w',
    ParseCommandLine fuel argv w = Returns tt w' ->
    all_absolute (p_opt w) -> all_absolute (p_opt w').
Proof.
  induction fuel as [|fuel IH]; intros argv w w' H Ha; [discriminate|].
  rewrite ParseCommandLine_S in H. cbv zeta in H.
  apply bind_returns in H. destruct H as ([] & w1 & H1 & H).
  apply bind_returns in H. destruct H as ([] & w2 & H2 & H).
  apply bind_returns in H. destruct H as ([] & w3 & H3 & H).
  apply bind_returns in H. destruct H as ([] & w4 & H4 & H).
  apply (handle_options_absolute _ _ _ H1) in Ha.
  inversion H2. subst w2.
  apply (AddMountSource_absolute None _ _ H3 I) in Ha.
  apply (at_file_loop_absolute _ _) with (3 := Ha) in H4.
  2:{ intros f v v' Hf Hv. apply ParseOptionsFile_with_returns in Hf.
      destruct Hf as (sub_argv & Hf). eapply IH; eassumption. }
  unfold take_command in H.
  destruct (Z.of_nat _ >? p_optind w4); [|inversion H; subst; exact H4].
  destruct (args (p_opt w4)); [discriminate|]. inversion H. exact H4.
Qed.

Lemma zip_mounts_absolute (n : nat) :
  forall srcs tgts rws l,
    zip_mounts srcs tgts rws n = Some l ->
    Forall abs_or_null srcs -> Forall abs_or_null tgts ->
    Forall (fun e => starts_with_slash (me_source e) = true
                     /\ starts_with_slash (me_target e) = true) l.
Proof.
  induction n as [|n IH]; intros srcs tgts rws l H Hs Ht.
  - inversion H. constructor.
  - cbn [zip_mounts] in H.
    destruct srcs as [|[s|] srcs]; try discriminate.
    destruct tgts as [|[t|] tgts]; try discriminate.
    destruct rws as [|rw rws]; try discriminate.
    destruct (zip_mounts srcs tgts rws n) as [l'|] eqn:E; [|discriminate].
    inversion H. subst l.
    apply Forall_cons in Hs. destruct Hs as [Hs1 Hs].
    apply Forall_cons in Ht. destruct Ht as [Ht1 Ht].
    constructor; [split; assumption|]. eapply IH; eassumption.
Qed.

(** X13: Whatever the command line and the argument files hold, when
    main's parse returns every path stored for -M, -m, -w and -d starts
    with a slash: the mount entries have absolute sources and targets,
    and so have the directories to create. *)
Theorem main_parse_stores_absolute_paths (fuel : nat) (argv : list string)
    (w w' : pworld) :
  main_parse fuel argv w = Returns tt w' ->
  all_absolute (p_opt w')
  /\ (forall entries,
        mounts_of (p_opt w') = Some entries ->
        Forall (fun e => starts_with_slash (me_source e) = true
                         /\ starts_with_slash (me_target e) = true) entries)
  /\ (forall i dir,
        array_get (create_dirs (p_opt w')) i = Some (Some dir) ->
        starts_with_slash dir = true).
Proof.
  intros H. unfold main_parse in H.
  apply bind_returns in H. destruct H as ([] & w0 & H0 & H).
  apply bind_returns in H. destruct H as ([] & w1 & H1 & H).
  inversion H0. subst w0.
  assert (Ha : all_absolute (p_opt w1)).
  { eapply ParseCommandLine_absolute; [exact H1|].
    unfold all_absolute. cbn. repeat split; apply Forall_replicate; exact I. }
  assert (w' = w1).
  { destruct (args (p_opt w1)); [|discriminate].
    destruct (sandbox_root (p_opt w1)); [|discriminate]. inversion H. reflexivity. }
  subst w'. split; [exact Ha|]. destruct Ha as (A1 & A2 & A3). split.
  - intros entries Hm. unfold mounts_of in Hm.
    destruct (num_mounts (p_opt w1) <? 0); [discriminate|].
    eapply zip_mounts_absolute; eassumption.
  - intros i dir Hi. apply (array_get_Forall abs_or_null _ _ _ Hi A3).
Qed.

Lemma main_parse_stores_absolute_paths_witness :
  exists w',
    main_parse 3 ["sandbox"; "-S"; "/sbx"; "-M"; "/usr"; "-d"; "/tmp"; "@cmd"]
      (start_pworld sample_argfiles) = Returns tt w'
    /\ all_absolute (p_opt w').
Proof.
  assert (E : exists w',
             main_parse 3 ["sandbox"; "-S"; "/sbx"; "-M"; "/usr"; "-d"; "/tmp"; "@cmd"]
               (start_pworld sample_argfiles) = Returns tt w')
    by (eexists; vm_compute; reflexivity).
  destruct E as [w' E]. exists w'. split; [exact E|].
  apply (main_parse_stores_absolute_paths _ _ _ _ E).
Defined.

(** ** SetupDirectories: the directories to create and the home directory *)

Lemma Returns_final {W A} (o : outcome W A) (a : A) (w : W) :
  o = Returns a w -> final o = Some w.
Proof. intros ->. reflexivity. Qed.

Lemma create_dirs_loop_made (fuel : nat) (opt : Options) (n : nat) :
  forall (i : Z) (w w' : world),
    create_dirs_loop fuel opt n i w = Returns tt w' ->
    num_create_dirs opt - i <= Z.of_nat n ->
    grows w w'
    /\ forall j dir,
         i <= j < num_create_dirs opt ->
         array_get (create_dirs opt) j = Some (Some dir) ->
         directory_made dir w'.
Proof.
  induction n as [|n IH]; intros i w w' H Hn.
  - inversion H. subst. split; [apply grows_refl|]. intros j dir Hj. lia.
  - cbn [create_dirs_loop] in H.
    destruct (Z.ltb_spec i (num_create_dirs opt)) as [Hi|Hi].
    2:{ inversion H. subst. split; [apply grows_refl|]. intros j dir Hj. lia. }
    destruct (array_get (create_dirs opt) i) as [[dir|]|] eqn:Ei; try discriminate.
    destruct (plus_one dir) as [path|] eqn:Ep; try discriminate.
    apply bind_returns in H. destruct H as ([] & w1 & H1 & H).
    apply bind_returns in H. destruct H as (r & w2 & H2 & H).
    apply CHECK_CALL_returns in H2. destruct H2 as [H2 Hr].
    pose proof (always_PRINT_DEBUG _ _ _ (Returns_final _ _ _ H1)) as G1.
    pose proof (always_CreateTarget _ _ _ _ _ (Returns_final _ _ _ H2)) as G2.
    destruct (IH (i + 1) w2 w' H ltac:(lia)) as [G3 Hlater].
    split; [eapply grows_trans; [exact G1|]; eapply grows_trans; eassumption|].
    intros j dir' Hj Ej.
    destruct (Z.eq_dec j i) as [->|Hne]; [|apply (Hlater j dir'); [lia|exact Ej]].
    rewrite Ei in Ej. inversion Ej. subst dir'.
    destruct (CreateTarget_made _ _ _ _ _ _ H2 Hr) as (nd & Hl & Hk).
    exists path, nd. split; [exact Ep|]. split; [|exact Hk].
    eapply lookup_path_grows; eassumption.
Qed.

(** X14: When the loop over the directories of -d comes back, every one
    of them, taken without its first character and resolved from the
    current directory, is a directory: a later one never undoes an earlier
    one. *)
Theorem created_directories_exist (fuel : nat) (opt : Options) (w w' : world) :
  SetupDirectories_create_dirs fuel opt w = Returns tt w' ->
  forall i dir,
    0 <= i < num_create_dirs opt ->
    array_get (create_dirs opt) i = Some (Some dir) ->
    directory_made dir w'.
Proof.
  intros H i dir Hi E.
  apply create_dirs_loop_made in H; [|lia].
  destruct H as [_ H]. apply (H i dir); [lia|exact E].
Qed.

Lemma created_directories_exist_witness :
  exists w',
    SetupDirectories_create_dirs 10 dirs_options sample_world = Returns tt w'
    /\ directory_made "/var/run" w'.
Proof.
  assert (E : exists w', SetupDirectories_create_dirs 10 dirs_options sample_world
                         = Returns tt w') by (eexists; vm_compute; reflexivity).
  destruct E as [w' E]. exists w'. split; [exact E|].
  apply (created_directories_exist 10 dirs_options sample_world w' E 1 "/var/run");
    [cbn; lia|reflexivity].
Defined.

Lemma fgetpwent_loop_first (uid : Z) (before after : list passwd) (e : passwd) :
  Forall (fun x => pw_uid x <> uid) before ->
  pw_uid e = uid ->
  fgetpwent_loop uid (before ++ e :: after) = Some e.
Proof.
  intros Hb He. induction Hb as [|x before Hx _ IH]; cbn.
  - rewrite He, Z.eqb_refl. reflexivity.
  - destruct (Z.eqb_spec (pw_uid x) uid); [contradiction|]. exact IH.
Qed.

Lemma fgetpwent_loop_none (uid : Z) (entries : list passwd) :
  Forall (fun x => pw_uid x <> uid) entries ->
  fgetpwent_loop uid entries = None.
Proof.
  induction 1 as [|x entries Hx _ IH]; [reflexivity|]. cbn.
  destruct (Z.eqb_spec (pw_uid x) uid); [contradiction|]. exact IH.
Qed.

Lemma lift_returns {A} (m : prog world A) (h h' : hworld) (a : A) :
  lift m h = Returns a h' ->
  exists w', m (h_world h) = Returns a w' /\ h' = with_world w' h.
Proof.
  unfold lift. intros H.
  destruct (m (h_world h)) as [a' w'| | |]; try discriminate.
  inversion H. eauto.
Qed.

Lemma find_home_returns (uid : Z) (h h1 : hworld) (x : option string) :
  find_home uid h = Returns x h1 ->
  h_env h1 = h_env h
  /\ grows (h_world h) (h_world h1)
  /\ w_files (h_world h1) = w_files (h_world h)
  /\ x = match h_passwd h with
         | Some entries =>
             match fgetpwent_loop uid entries with
             | Some e => Some (pw_dir e)
             | None => h_env h !! "HOME"
             end
         | None => h_env h !! "HOME"
         end.
Proof.
  unfold find_home. intros H.
  destruct (h_passwd h) as [entries|].
  - destruct (fgetpwent_loop uid entries); inversion H; subst;
      (split; [reflexivity|]); (split; [apply grows_refl|]); split; reflexivity.
  - unfold bind, lift, PRINT_DEBUG, getenv in H. cbn in H. inversion H. subst. cbn.
    split; [reflexivity|].
    split; [destruct (w_debug (h_world h)); grows_same|].
    split; [destruct (w_debug (h_world h)); reflexivity|reflexivity].
Qed.

(** X15: The home directory is that of the first entry of the sandbox's
    password file with the uid asked for, and [$HOME] when there is no
    such entry or no such file.  When this part of SetupDirectories comes
    back, that path is absolute and is the value of [$HOME], and the path
    without its first character, resolved from the current directory, is a
    directory; without a home directory nothing is created.  Files that
    were there are still there. *)
Theorem home_directory_is_made (fuel : nat) (uid : Z) (h h' : hworld) :
  SetupDirectories_home fuel uid h = Returns tt h' ->
  grows (h_world h) (h_world h')
  /\ (forall before e after,
        h_passwd h = Some (before ++ e :: after) ->
        Forall (fun x => pw_uid x <> uid) before ->
        pw_uid e = uid ->
        home_made (pw_dir e) h')
  /\ (match h_passwd h with
      | Some entries => Forall (fun x => pw_uid x <> uid) entries
      | None => True
      end ->
      match h_env h !! "HOME" with
      | Some home => home_made home h'
      | None =>
          h_env h' = h_env h /\ w_files (h_world h') = w_files (h_world h)
      end).
Proof.
  intros H. unfold SetupDirectories_home in H.
  apply bind_returns in H. destruct H as (homedir & h1 & Hf & H).
  apply find_home_returns in Hf. destruct Hf as (Henv & G1 & Hfiles & Hx).
  assert (Hmade :
    grows (h_world h) (h_world h')
    /\ match homedir with
       | Some home => home_made home h'
       | None => h_env h' = h_env h /\ w_files (h_world h') = w_files (h_world h)
       end).
  { destruct homedir as [home|].
    - destruct (starts_with_slash home) eqn:Habs; cbn [negb] in H.
      2:{ apply lift_returns in H. destruct H as (w' & H & _). discriminate. }
      apply bind_returns in H. destruct H as ([] & h2 & H2 & H).
      apply lift_returns in H2. destruct H2 as (w2 & H2 & ->).
      destruct (plus_one home) as [path|] eqn:Ep; [|discriminate].
      apply bind_returns in H. destruct H as (r & h3 & H3 & H).
      apply lift_returns in H3. destruct H3 as (w3 & H3 & ->).
      apply CHECK_CALL_returns in H3. destruct H3 as [H3 Hr].
      apply bind_returns in H. destruct H as (r' & h4 & H4 & H).
      inversion H4. subst r' h4. cbn in H. inversion H. subst h'.
      pose proof (always_PRINT_DEBUG _ _ _ (Returns_final _ _ _ H2)) as G2.
      pose proof (always_CreateTarget _ _ _ _ _ (Returns_final _ _ _ H3)) as G3.
      cbn [h_world with_world] in *.
      split; [eapply grows_trans; [exact G1|]; eapply grows_trans; eassumption|].
      split; [exact Habs|]. split; [cbn; apply lookup_insert_eq|].
      destruct (CreateTarget_made _ _ _ _ _ _ H3 Hr) as (nd & Hl & Hk).
      exists path, nd. cbn. auto.
    - inversion H. subst h'. split; [exact G1|]. split; assumption. }
  destruct Hmade as [G Hmade]. split; [exact G|]. split.
  - intros before e after Hp Hb He.
    rewrite Hp, (fgetpwent_loop_first uid before after e Hb He) in Hx.
    subst homedir. exact Hmade.
  - intros Hnone. destruct (h_passwd h) as [entries|].
    + rewrite (fgetpwent_loop_none uid entries Hnone) in Hx. subst homedir.
      destruct (h_env h !! "HOME"); exact Hmade.
    + subst homedir. destruct (h_env h !! "HOME"); exact Hmade.
Qed.

Lemma home_directory_is_made_witness :
  exists h',
    SetupDirectories_home 10 65534 sample_hworld = Returns tt h'
    /\ home_made "/home/nobody" h'.
Proof.
  assert (E : exists h', SetupDirectories_home 10 65534 sample_hworld = Returns tt h')
    by (eexists; vm_compute; reflexivity).
  destruct E as [h' E]. exists h'. split; [exact E|].
  apply (proj1 (proj2 (home_directory_is_made 10 65534 sample_hworld h' E))
           [ {| pw_uid := 0; pw_dir := "/root" |} ]
           {| pw_uid := 65534; pw_dir := "/home/nobody" |}
           [ {| pw_uid := 65534; pw_dir := "/nonexistent" |} ]).
  - reflexivity.
  - repeat constructor. discriminate.
  - reflexivity.
Defined.

(** ** The loop "Mount all mounts" as a whole *)

Lemma mount_calls_app (a b : list syscall) :
  mount_calls (a ++ b) = mount_calls a ++ mount_calls b.
Proof. apply List.filter_app. Qed.

Lemma mount_calls_none (cs : list syscall) :
  Forall (fun c => is_mount c = false) cs -> mount_calls cs = [].
Proof.
  induction 1 as [|c cs Hc _ IH]; [reflexivity|].
  unfold mount_calls in *. cbn. rewrite Hc. exact IH.
Qed.

(** CreateTarget makes no [mount] call. *)
Lemma CreateTarget_mount_calls (fuel : nat) (p : option string) (d : bool)
    (w w' : world) (r : Z) :
  CreateTarget fuel p d w = Returns r w' ->
  mount_calls (w_calls w') = mount_calls (w_calls w).
Proof.
  intros H. destruct fuel as [|fuel]; [discriminate|].
  destruct p as [p0|]; [|inversion H; reflexivity].
  destruct (lookup_path w (target_path p0)) as [e|n] eqn:E.
  - destruct (Z.eq_dec e ENOENT) as [->|He].
    + destruct (CreateTarget_missing_returns fuel p0 d w w' r E H)
        as (_ & r1 & w1 & H1 & _ & Hc & _).
      apply CreateTarget_directory_calls in H1. destruct H1 as (dirs & H1).
      rewrite Hc, H1. cbn [w_calls set_errno].
      rewrite !mount_calls_app.
      rewrite (mount_calls_none (map _ dirs))
        by (apply Forall_map, Forall_true; reflexivity).
      rewrite (mount_calls_none (if d then _ else _))
        by (destruct d; repeat constructor).
      rewrite !app_nil_r. reflexivity.
    + rewrite (CreateTarget_stat_error fuel p0 d w e E He) in H.
      inversion H. reflexivity.
  - destruct (kind_matches d n) eqn:K.
    + rewrite (CreateTarget_exists_match fuel p0 d w n E K) in H.
      inversion H. reflexivity.
    + rewrite (CreateTarget_exists_mismatch fuel p0 d w n E K) in H.
      inversion H. reflexivity.
Qed.

Lemma mount_returns (k : kernel) (source target : string) (fstype : option string)
    (flags : Z) (data : option string) (w w' : world) (r : Z) :
  mount k source target fstype flags data w = Returns r w' ->
  w_calls w' = w_calls w ++ [SysMount source target fstype flags data].
Proof.
  rewrite mount_run. cbv zeta. destruct (me_errno _); intros H; inversion H; reflexivity.
Qed.

Lemma bind_entry_mount_calls (k : kernel) (fuel : nat) (source target root : string)
    (rw : bool) (w w2 : world) :
  bind_entry k fuel source target root rw w = Returns tt w2 ->
  mount_calls (w_calls w2)
  = mount_calls (w_calls w)
    ++ [SysMount source (root +:+ target) None (Z.lor MS_REC MS_BIND) None].
Proof.
  unfold bind_entry. intros H.
  apply bind_returns in H as (sb & w0 & H0 & H).
  apply bind_returns in H as (isdir & w0' & H0' & H).
  apply bind_returns in H as (u & w0'' & H0'' & H).
  apply bind_returns in H as (r1 & w1 & H1 & H).
  apply bind_returns in H as (r2 & w2' & Hm & H).
  injection H as <-.
  apply CHECK_CALL_returns in H1 as (H1 & _).
  apply CHECK_CALL_MSG_returns in Hm as (Hm & _).
  apply mount_returns in Hm. apply CreateTarget_mount_calls in H1.
  rewrite Hm, mount_calls_app, H1. cbn.
  assert (w_calls w0 = w_calls w)
    by (unfold stat in H0; destruct (lookup_path w source); inversion H0; reflexivity).
  assert (w_calls w0' = w_calls w0) by (inversion H0'; reflexivity).
  assert (w_calls w0'' = w_calls w0').
  { destruct (String.eqb source target); unfold PRINT_DEBUG in H0'';
      inversion H0''; destruct (w_debug w0'); reflexivity. }
  congruence.
Qed.

Lemma remount_entry_mount_calls (k : kernel) (source full : string) (rw : bool)
    (w w' : world) :
  remount_entry k source full rw w = Returns tt w' ->
  exists inherited,
    Z.land inherited (Z.lor (Z.lor MS_NODEV MS_NOSUID) MS_NOEXEC) = inherited
    /\ mount_calls (w_calls w')
       = mount_calls (w_calls w)
         ++ (if rw then []
             else [SysMount source full None (remount_flags inherited) None]).
Proof.
  unfold remount_entry. intros H. destruct rw; cbn [negb] in H.
  - inversion H. exists 0. split; [reflexivity|]. rewrite app_nil_r. reflexivity.
  - apply bind_returns in H as (flags & w1 & H1 & H).
    apply bind_returns in H as (ret & w2 & H2 & H).
    apply mount_returns in H2.
    assert (Hc : w_calls w' = w_calls w2)
      by (destruct (ret =? -1); inversion H; reflexivity).
    unfold GetMountFlags in H1.
    destruct (w_mtab w) as [mtab|] eqn:Em; [|discriminate].
    pose proof (GetMountFlags_returns full w mtab Em) as (w1' & G & _ & Gc & _).
    unfold GetMountFlags in G. rewrite Em in G. rewrite G in H1.
    inversion H1. subst flags w1'.
    eexists. split.
    2:{ rewrite Hc, H2, mount_calls_app, Gc. reflexivity. }
    destruct (getmntent_loop full mtab); [|reflexivity].
    apply flags_of_entry_bits.
Qed.

Lemma zip_mounts_lookup (n : nat) :
  forall srcs tgts rws l,
    zip_mounts srcs tgts rws n = Some l ->
    length l = n
    /\ forall i e, l !! i = Some e ->
         srcs !! i = Some (Some (me_source e))
         /\ tgts !! i = Some (Some (me_target e))
         /\ rws !! i = Some (me_rw e).
Proof.
  induction n as [|n IH]; intros srcs tgts rws l H.
  - inversion H. split; [reflexivity|]. intros i e Hi. discriminate.
  - cbn [zip_mounts] in H.
    destruct srcs as [|[s|] srcs]; try discriminate.
    destruct tgts as [|[t|] tgts]; try discriminate.
    destruct rws as [|rw rws]; try discriminate.
    destruct (zip_mounts srcs tgts rws n) as [l'|] eqn:E; [|discriminate].
    inversion H. subst l. destruct (IH _ _ _ _ E) as [Hlen Hl].
    split; [cbn; congruence|].
    intros [|i] e Hi.
    + inversion Hi. subst e. cbn. auto.
    + cbn in Hi |- *. apply Hl, Hi.
Qed.

Lemma mount_loop_mount_calls (k : kernel) (fuel : nat) (opt : Options)
    (root : string) (entries : list mount_entry) :
  sandbox_root opt = Some root ->
  mounts_of opt = Some entries ->
  forall (n : nat) (i : Z) (w w' : world),
    mount_loop k fuel opt n i w = Returns tt w' ->
    0 <= i ->
    num_mounts opt - i <= Z.of_nat n ->
    exists css,
      Forall2 (entry_mounts root) (drop (Z.to_nat i) entries) css
      /\ mount_calls (w_calls w') = mount_calls (w_calls w) ++ concat css.
Proof.
  intros Hroot Hm. unfold mounts_of in Hm.
  destruct (Z.ltb_spec (num_mounts opt) 0) as [|Hnum]; [discriminate|].
  apply zip_mounts_lookup in Hm. destruct Hm as [Hlen Hl].
  induction n as [|n IH]; intros i w w' H Hi Hn.
  - inversion H. subst. exists []. rewrite drop_ge by lia.
    split; [constructor|]. rewrite app_nil_r. reflexivity.
  - cbn [mount_loop] in H.
    destruct (Z.ltb_spec i (num_mounts opt)) as [Hlt|Hge].
    2:{ inversion H. subst. exists []. rewrite drop_ge by lia.
        split; [constructor|]. rewrite app_nil_r. reflexivity. }
    destruct (lookup_lt_is_Some_2 entries (Z.to_nat i) ltac:(lia)) as [e He].
    destruct (Hl _ _ He) as (Hs & Ht & Hrw).
    apply bind_returns in H. destruct H as ([] & w1 & H1 & H).
    unfold mount_one in H1.
    rewrite !array_get_nat, Hs, Ht, Hrw, Hroot in H1 by lia.
    apply bind_returns in H1. destruct H1 as ([] & w2 & H2 & H3).
    apply bind_entry_mount_calls in H2.
    apply remount_entry_mount_calls in H3. destruct H3 as (inh & Hinh & H3).
    destruct (IH (i + 1) w1 w' H ltac:(lia) ltac:(lia)) as (css & Hcss & Hc).
    exists ((SysMount (me_source e) (root +:+ me_target e) None (Z.lor MS_REC MS_BIND) None
             :: (if me_rw e then []
                 else [SysMount (me_source e) (root +:+ me_target e) None
                         (remount_flags inh) None])) :: css).
    split.
    + rewrite (drop_S _ _ _ He).
      replace (S (Z.to_nat i)) with (Z.to_nat (i + 1)) by lia.
      constructor; [|exact Hcss]. exists inh. split; [exact Hinh|reflexivity].
    + rewrite Hc, H3, H2. cbn [concat]. rewrite <- !app_assoc. reflexivity.
Qed.

(** X16: When the loop over the mounts comes back, the [mount] calls it
    made are, entry by entry in the order of the command line, the
    recursive bind mount of the source on the target below the sandbox
    root and, for a read-only entry and only for it, one remount with
    MS_REMOUNT, MS_RDONLY, MS_BIND, MS_REC and flags inherited among
    MS_NODEV, MS_NOSUID and MS_NOEXEC. *)
Theorem mount_loop_mounts_in_order (k : kernel) (fuel : nat) (opt : Options)
    (root : string) (entries : list mount_entry) (w w' : world) :
  SetupDirectories_mounts k fuel opt w = Returns tt w' ->
  sandbox_root opt = Some root ->
  mounts_of opt = Some entries ->
  exists css,
    Forall2 (entry_mounts root) entries css
    /\ mount_calls (w_calls w') = mount_calls (w_calls w) ++ concat css.
Proof.
  intros H Hroot Hm.
  destruct (mount_loop_mount_calls k fuel opt root entries Hroot Hm
              (Z.to_nat (num_mounts opt)) 0 w w' H) as (css & H1 & H2);
    [lia|lia|].
  exists css. split; [exact H1|exact H2].
Qed.

Lemma mount_loop_mounts_in_order_witness :
  exists w' css,
    SetupDirectories_mounts strict_kernel 20 sample_options sample_world
    = Returns tt w'
    /\ Forall2 (entry_mounts "/sbx")
         [emit "/usr" "/usr" false; emit "/usr" "/opt" true] css
    /\ mount_calls (w_calls w') = mount_calls (w_calls sample_world) ++ concat css.
Proof.
  assert (E : exists w', SetupDirectories_mounts strict_kernel 20 sample_options
                           sample_world = Returns tt w')
    by (eexists; vm_compute; reflexivity).
  destruct E as [w' E].
  destruct (mount_loop_mounts_in_order strict_kernel 20 sample_options "/sbx"
              [emit "/usr" "/usr" false; emit "/usr" "/opt" true]
              sample_world w' E eq_refl eq_refl) as (css & H1 & H2).
  exists w', css. split; [exact E|]. split; [exact H1|exact H2].
Defined.

(** ** CreateNamespaces: which answer of the kernel ends the loop *)

Lemma einval_rounds_attempts (flags delay : Z) (k : nat) :
  attempts (einval_rounds flags delay k) = k.
Proof.
  revert delay. induction k as [|k IH]; intros delay; [reflexivity|].
  cbn [einval_rounds].
  change (attempts (EvUnshare flags :: EvUsleep delay
                      :: einval_rounds flags (next_delay delay) k))
    with (S (attempts (einval_rounds flags (next_delay delay) k))).
  rewrite IH. reflexivity.
Qed.

Lemma einval_rounds_sleeps (flags : Z) (k : nat) :
  forall delay,
    sleeps (einval_rounds flags delay k) = map (fun i => delay_after i delay) (seq 0 k).
Proof.
  induction k as [|k IH]; intros delay; [reflexivity|].
  cbn [einval_rounds seq map].
  change (sleeps (EvUnshare flags :: EvUsleep delay
                    :: einval_rounds flags (next_delay delay) k))
    with (delay :: sleeps (einval_rounds flags (next_delay delay) k)).
  rewrite IH, <- seq_shift, map_map. reflexivity.
Qed.

(** [k] answers EINVAL in a row: the loop is [k] rounds further, and the
    events are those of [k] failed rounds. *)
Lemma unshare_loop_einval_trace (create_netns : Z) (k : nat) :
  forall (fuel : nat) (delay tries : Z) (w : nworld),
    (forall i, (i < k)%nat -> n_unshare w (n_calls w + i)%nat = Some EINVAL) ->
    0 <= tries -> tries + Z.of_nat k <= 100 ->
    exists w',
      unshare_loop (k + fuel) create_netns delay tries w
      = unshare_loop fuel create_netns (delay_after k delay) (tries + Z.of_nat k) w'
      /\ n_unshare w' = n_unshare w
      /\ n_calls w' = (n_calls w + k)%nat
      /\ n_debug w' = n_debug w
      /\ n_events w'
         = n_events w ++ einval_rounds (unshare_flags create_netns) delay k.
Proof.
  induction k as [|k IH]; intros fuel delay tries w Hans Ht Hk.
  - exists w. rewrite Z.add_0_r, Nat.add_0_r, app_nil_r. repeat split.
  - change (S k + fuel)%nat with (S (k + fuel)).
    rewrite unshare_loop_einval;
      [|rewrite <- (Nat.add_0_r (n_calls w)); apply Hans; lia|lia].
    set (w1 := {| n_unshare := n_unshare w; n_calls := S (n_calls w) |}).
    destruct (IH fuel (next_delay delay) (tries + 1) w1)
      as (w' & Hrun & Hu & Hc & Hd & Hev).
    + intros i Hi. subst w1. cbn [n_unshare n_calls].
      replace (S (n_calls w) + i)%nat with (n_calls w + S i)%nat by lia.
      apply Hans. lia.
    + lia.
    + lia.
    + exists w'. rewrite Hrun.
      replace (tries + 1 + Z.of_nat k) with (tries + Z.of_nat (S k)) by lia.
      split; [reflexivity|]. split; [exact Hu|].
      split; [rewrite Hc; subst w1; cbn [n_calls]; lia|].
      split; [exact Hd|].
      rewrite Hev. subst w1. cbn [n_events einval_rounds].
      rewrite <- app_assoc. reflexivity.
Qed.

(** X17: The first answer of the kernel that is not EINVAL ends
    CreateNamespaces, if it is among the first 100: after [k] answers
    EINVAL, each followed by a sleep, success makes it return and any
    other error makes it exit, without a sleep after the last call. *)
Theorem CreateNamespaces_first_other_answer (create_netns : Z) (k : nat)
    (w : nworld) :
  (k < 100)%nat ->
  (forall i, (i < k)%nat -> n_unshare w (n_calls w + i)%nat = Some EINVAL) ->
  let flags := unshare_flags create_netns in
  match n_unshare w (n_calls w + k)%nat with
  | None =>
      exists w',
        CreateNamespaces create_netns w = Returns tt w'
        /\ n_events w'
           = n_events w ++ einval_rounds flags 1 k ++ [EvUnshare flags]
             ++ (if n_debug w then [EvStderr "unshare succeeded"] else [])
  | Some e =>
      e <> EINVAL ->
      exists w',
        CreateNamespaces create_netns w = Exits EXIT_FAILURE w'
        /\ n_events w'
           = n_events w ++ einval_rounds flags 1 k
             ++ [EvUnshare flags; EvStderr "unshare"]
  end.
Proof.
  intros Hk Hans flags. unfold CreateNamespaces.
  destruct (unshare_loop_einval_trace create_netns k (101 - k) 1 0 w Hans)
    as (w1 & Hrun & Hu & Hc & Hd & Hev); [lia|lia|].
  replace (k + (101 - k))%nat with 101%nat in Hrun by lia. rewrite Hrun.
  replace (101 - k)%nat with (S (100 - k)) by lia.
  rewrite unshare_loop_S. unfold max_tries.
  destruct (Z.ltb_spec (0 + Z.of_nat k) 100); [|lia]. cbv zeta.
  destruct (n_unshare w (n_calls w + k)%nat) as [e|] eqn:Ea.
  - intros He.
    assert (Ha : n_unshare w1 (n_calls w1) = Some e) by (rewrite Hu, Hc; exact Ea).
    unfold bind at 1, unshare. rewrite Ha. cbn -[unshare_loop].
    destruct (Z.eqb_spec e EINVAL); [contradiction|]. cbn -[unshare_loop].
    eexists. split; [reflexivity|]. cbn [n_events nlog].
    rewrite Hev, <- !app_assoc. reflexivity.
  - assert (Ha : n_unshare w1 (n_calls w1) = None) by (rewrite Hu, Hc; exact Ea).
    unfold bind at 1, unshare. rewrite Ha. cbn -[unshare_loop]. rewrite Hd.
    eexists. split; [reflexivity|].
    destruct (n_debug w); cbn [n_events nlog]; rewrite Hev, <- !app_assoc;
      reflexivity.
Qed.

Lemma CreateNamespaces_first_other_answer_witness :
  exists w',
    CreateNamespaces 1 (fresh_nworld (einval_times 3)) = Returns tt w'
    /\ n_events w'
       = einval_rounds (unshare_flags 1) 1 3 ++ [EvUnshare (unshare_flags 1)] ++ [].
Proof.
  apply (CreateNamespaces_first_other_answer 1 3 (fresh_nworld (einval_times 3))).
  - lia.
  - intros i Hi. cbn. unfold einval_times.
    destruct (Nat.ltb_spec i 3); [reflexivity|lia].
Defined.

(** X18: When the first 100 answers are EINVAL, CreateNamespaces gives
    up: it has called [unshare] 100 times, has slept after each of the
    calls, the last one too, 21757951 microseconds in all, and exits with
    the failure status. *)
Theorem CreateNamespaces_gives_up (create_netns : Z) (w : nworld) :
  (forall i, (i < 100)%nat -> n_unshare w (n_calls w + i)%nat = Some EINVAL) ->
  exists w' evs,
    CreateNamespaces create_netns w = Exits EXIT_FAILURE w'
    /\ n_events w' = n_events w ++ evs
    /\ evs = einval_rounds (unshare_flags create_netns) 1 100
             ++ [EvStderr "unshare failed with EINVAL even after tries, giving up."]
    /\ attempts evs = 100%nat
    /\ length (sleeps evs) = 100%nat
    /\ last (sleeps evs) = Some 262144
    /\ sum_of (sleeps evs) = 21757951.
Proof.
  intros Hans. unfold CreateNamespaces.
  destruct (unshare_loop_einval_trace create_netns 100 1 1 0 w Hans)
    as (w1 & Hrun & Hu & Hc & Hd & Hev); [lia|lia|].
  change (100 + 1)%nat with 101%nat in Hrun. rewrite Hrun.
  rewrite unshare_loop_S. unfold max_tries.
  destruct (Z.ltb_spec (0 + Z.of_nat 100) 100); [lia|].
  eexists _, _. split; [reflexivity|].
  split; [cbn [n_events nlog]; rewrite Hev, <- app_assoc; reflexivity|].
  split; [reflexivity|].
  rewrite attempts_app, sleeps_app, einval_rounds_attempts, einval_rounds_sleeps.
  repeat split; vm_compute; reflexivity.
Qed.

Lemma CreateNamespaces_gives_up_witness :
  exists w' evs,
    CreateNamespaces 0 (fresh_nworld always_einval) = Exits EXIT_FAILURE w'
    /\ n_events w' = n_events (fresh_nworld always_einval) ++ evs
    /\ evs = einval_rounds (unshare_flags 0) 1 100
             ++ [EvStderr "unshare failed with EINVAL even after tries, giving up."]
    /\ attempts evs = 100%nat
    /\ length (sleeps evs) = 100%nat
    /\ last (sleeps evs) = Some 262144
    /\ sum_of (sleeps evs) = 21757951.
Proof.
  apply CreateNamespaces_gives_up. intros i Hi. reflexivity.
Defined.

(** ** process-tools.c: the ids and the descriptors *)

Lemma to_id_to_int (x : Z) : 0 <= x < 2 ^ 32 -> to_id (to_int x) = x.
Proof.
  unfold to_id, to_int, wrap_int.
  change (2 ^ 32) with 4294967296. change (2 ^ 31) with 2147483648.
  intros H. Z.div_mod_to_equations. lia.
Qed.

Lemma to_int_inj (x y : Z) :
  0 <= x < 2 ^ 32 -> 0 <= y < 2 ^ 32 -> to_int x = to_int y -> x = y.
Proof.
  intros Hx Hy E. rewrite <- (to_id_to_int x Hx), <- (to_id_to_int y Hy), E.
  reflexivity.
Qed.

(** X19: When SwitchToEuid returns, the real and the effective uid of the
    process are both the effective uid it had, which is the value
    returned, and nothing else of the process has changed; [setreuid] is
    not called when they were equal already.  SwitchToEgid does the same
    with the gids. *)
Theorem SwitchToEuid_and_SwitchToEgid (p p' : process) (r : Z) :
  0 <= pr_ruid p < 2 ^ 32 -> 0 <= pr_euid p < 2 ^ 32 ->
  0 <= pr_rgid p < 2 ^ 32 -> 0 <= pr_egid p < 2 ^ 32 ->
  (SwitchToEuid p = Returns r p' ->
   r = to_int (pr_euid p)
   /\ pr_ruid p' = pr_euid p /\ pr_euid p' = pr_euid p
   /\ pr_rgid p' = pr_rgid p /\ pr_egid p' = pr_egid p
   /\ pr_fds p' = pr_fds p /\ pr_files p' = pr_files p
   /\ pr_calls p'
      = pr_calls p
        ++ (if pr_ruid p =? pr_euid p then []
            else [PSetreuid (pr_euid p) (pr_euid p)]))
  /\ (SwitchToEgid p = Returns r p' ->
      r = to_int (pr_egid p)
      /\ pr_rgid p' = pr_egid p /\ pr_egid p' = pr_egid p
      /\ pr_ruid p' = pr_ruid p /\ pr_euid p' = pr_euid p
      /\ pr_fds p' = pr_fds p /\ pr_files p' = pr_files p
      /\ pr_calls p'
         = pr_calls p
           ++ (if pr_rgid p =? pr_egid p then []
               else [PSetregid (pr_egid p) (pr_egid p)])).
Proof.
  intros Hru Heu Hrg Heg. split; intros H.
  - unfold SwitchToEuid, bind, getuid, geteuid, pure in H.
    destruct (Z.eqb_spec (to_int (pr_ruid p)) (to_int (pr_euid p))) as [E|E];
      cbn [negb] in H.
    + apply to_int_inj in E; try assumption.
      inversion H. subst. rewrite E, Z.eqb_refl, app_nil_r. repeat split; congruence.
    + assert (pr_ruid p <> pr_euid p) by congruence.
      destruct (Z.eqb_spec (pr_ruid p) (pr_euid p)); [contradiction|].
      unfold PCHECK_CALL, bind, setreuid, syscall_run in H.
      rewrite (to_id_to_int _ Heu) in H.
      destruct (pr_fails p (PSetreuid (pr_euid p) (pr_euid p))); cbn in H;
        [discriminate|].
      inversion H. subst. cbn. repeat split; reflexivity.
  - unfold SwitchToEgid, bind, getgid, getegid, pure in H.
    destruct (Z.eqb_spec (to_int (pr_rgid p)) (to_int (pr_egid p))) as [E|E];
      cbn [negb] in H.
    + apply to_int_inj in E; try assumption.
      inversion H. subst. rewrite E, Z.eqb_refl, app_nil_r. repeat split; congruence.
    + assert (pr_rgid p <> pr_egid p) by congruence.
      destruct (Z.eqb_spec (pr_rgid p) (pr_egid p)); [contradiction|].
      unfold PCHECK_CALL, bind, setregid, syscall_run in H.
      rewrite (to_id_to_int _ Heg) in H.
      destruct (pr_fails p (PSetregid (pr_egid p) (pr_egid p))); cbn in H;
        [discriminate|].
      inversion H. subst. cbn. repeat split; reflexivity.
Qed.

Lemma SwitchToEuid_and_SwitchToEgid_witness :
  exists p',
    SwitchToEuid sample_process = Returns 0 p'
    /\ pr_ruid p' = 0 /\ pr_euid p' = 0
    /\ pr_calls p' = [PSetreuid 0 0].
Proof.
  eexists. split; [reflexivity|].
  destruct (proj1 (SwitchToEuid_and_SwitchToEgid sample_process _ 0
                     ltac:(cbn; lia) ltac:(cbn; lia) ltac:(cbn; lia) ltac:(cbn; lia))
              eq_refl) as (_ & H1 & H2 & _ & _ & _ & _ & H3).
  split; [exact H1|]. split; [exact H2|exact H3].
Defined.

Lemma lowest_free_spec (fds : Z -> option ofile) (n : nat) :
  forall i j,
    lowest_free fds n i = Some j ->
    fds j = None /\ i <= j < i + Z.of_nat n
    /\ forall x, i <= x < j -> fds x <> None.
Proof.
  induction n as [|n IH]; intros i j H; [discriminate|].
  cbn [lowest_free] in H. destruct (fds i) eqn:E.
  - apply IH in H. destruct H as (H1 & H2 & H3).
    split; [exact H1|]. split; [lia|].
    intros x Hx. destruct (Z.eq_dec x i) as [->|]; [congruence|apply H3; lia].
  - inversion H. subst j. split; [exact E|]. split; [lia|]. intros x Hx. lia.
Qed.

Lemma lowest_free_first (fds : Z -> option ofile) (fd : Z) (n : nat) :
  forall i,
    fds fd = None ->
    (forall x, i <= x < fd -> fds x <> None) ->
    i <= fd < i + Z.of_nat n ->
    lowest_free fds n i = Some fd.
Proof.
  induction n as [|n IH]; intros i Hfd Hlow Hi; [lia|].
  cbn [lowest_free]. destruct (Z.eq_dec i fd) as [->|Hne].
  - rewrite Hfd. reflexivity.
  - destruct (fds i) eqn:E; [|exfalso; apply (Hlow i); [lia|exact E]].
    apply IH; [exact Hfd|intros x Hx; apply Hlow; lia|lia].
Qed.

Lemma lowest_free_exists (fds : Z -> option ofile) (n : nat) :
  forall i j,
    i <= j < i + Z.of_nat n -> fds j = None ->
    exists k, lowest_free fds n i = Some k.
Proof.
  induction n as [|n IH]; intros i j Hj Hfree; [lia|].
  cbn [lowest_free]. destruct (fds i) eqn:E; [|eauto].
  apply (IH (i + 1) j); [|exact Hfree].
  destruct (Z.eq_dec j i) as [->|]; [congruence|lia].
Qed.

Lemma Redirect_run (path name : string) (fd fd_out : Z) (p : process) :
  String.eqb path "-" = false ->
  redirect_allowed path fd p ->
  0 <= fd < pr_nofile p ->
  lowest_free (pr_fds p) (Z.to_nat (pr_nofile p)) 0 = Some fd_out ->
  exists p',
    Redirect (Some path) fd name p = Returns tt p'
    /\ pr_files p' = <[path := ""]> (pr_files p)
    /\ (pr_ruid p', pr_euid p', pr_rgid p', pr_egid p')
       = (pr_ruid p, pr_euid p, pr_rgid p, pr_egid p)
    /\ pr_calls p'
       = pr_calls p ++ [POpen path redirect_flags 438; PDup2 fd_out fd; PClose fd_out]
    /\ forall j,
         pr_fds p' j
         = if j =? fd_out then None
           else if j =? fd
                then Some {| of_path := path; of_flags := redirect_flags |}
                else pr_fds p j.
Proof.
  intros Hpath (Hopen & Hdup & Hclose) Hfd Hfree.
  pose proof (lowest_free_spec _ _ _ _ Hfree) as (Hnone & Hrange & _).
  unfold Redirect. rewrite Hpath. cbn [negb]. cbv zeta.
  unfold bind at 1. unfold PCHECK_CALL at 1. unfold bind at 1.
  unfold open, syscall_run. rewrite Hopen.
  cbn [pr_fds pr_nofile pr_called]. rewrite Hfree.
  destruct (Z.eqb_spec fd_out (-1)); [lia|].
  unfold pure at 1.
  unfold bind at 1. unfold PCHECK_CALL at 1. unfold bind at 1.
  unfold dup2, syscall_run.
  cbn [pr_fails pr_set_fds pr_set_files pr_called pr_fds pr_nofile].
  rewrite Hdup. unfold fd_update at 1. rewrite Z.eqb_refl.
  replace ((fd <? 0) || (pr_nofile p <=? fd)) with false
    by (symmetry; apply orb_false_iff; split; [apply Z.ltb_ge|apply Z.leb_gt]; lia).
  destruct (Z.eqb_spec fd_out fd) as [->|Hne].
  - destruct (Z.eqb_spec fd (-1)); [lia|].
    unfold pure at 1.
    unfold bind at 1. unfold PCHECK_CALL at 1. unfold bind at 1.
    unfold close_fd, syscall_run.
    cbn [pr_fails pr_set_fds pr_set_files pr_called pr_fds pr_nofile].
    rewrite Hclose. unfold fd_update at 1. rewrite Z.eqb_refl.
    cbn [Z.eqb]. unfold pure.
    eexists. split; [reflexivity|]. cbn.
    split; [reflexivity|]. split; [reflexivity|].
    split; [rewrite <- !app_assoc; reflexivity|].
    intros j. unfold fd_update. destruct (j =? fd); reflexivity.
  - destruct (Z.eqb_spec fd (-1)); [lia|].
    unfold pure at 1.
    unfold bind at 1. unfold PCHECK_CALL at 1. unfold bind at 1.
    unfold close_fd, syscall_run.
    cbn [pr_fails pr_set_fds pr_set_files pr_called pr_fds pr_nofile].
    rewrite Hclose. unfold fd_update at 1.
    destruct (Z.eqb_spec fd_out fd); [contradiction|].
    unfold fd_update at 1. rewrite Z.eqb_refl.
    cbn [Z.eqb]. unfold pure.
    eexists. split; [reflexivity|]. cbn.
    split; [reflexivity|]. split; [reflexivity|].
    split; [rewrite <- !app_assoc; reflexivity|].
    intros j. unfold fd_update. destruct (j =? fd_out); reflexivity.
Qed.

(** X20: Redirect on a descriptor that is open, with a path that is not
    ["-"], a free descriptor below the limit and a kernel that refuses
    nothing: the descriptor then writes to the file, opened with O_WRONLY,
    O_CREAT, O_TRUNC and O_APPEND and now empty, and every other
    descriptor is as it was, the one [open] returned being closed again.
    With NULL or ["-"] nothing is done. *)
Theorem Redirect_attaches (path name : string) (fd : Z) (p : process) :
  path <> "-" ->
  redirect_allowed path fd p ->
  0 <= fd < pr_nofile p ->
  is_Some (pr_fds p fd) ->
  (exists j, 0 <= j < pr_nofile p /\ pr_fds p j = None) ->
  (exists p',
     Redirect (Some path) fd name p = Returns tt p'
     /\ pr_fds p' fd = Some {| of_path := path; of_flags := redirect_flags |}
     /\ (forall j, j <> fd -> pr_fds p' j = pr_fds p j)
     /\ pr_files p' = <[path := ""]> (pr_files p))
  /\ Redirect None fd name p = Returns tt p
  /\ Redirect (Some "-") fd name p = Returns tt p.
Proof.
  intros Hpath Hallowed Hfd Hopen (j0 & Hj0 & Hfree0).
  split; [|split; reflexivity].
  destruct (lowest_free_exists (pr_fds p) (Z.to_nat (pr_nofile p)) 0 j0)
    as (k & Hk); [lia|exact Hfree0|].
  pose proof (lowest_free_spec _ _ _ _ Hk) as (Hnone & _ & _).
  assert (Hne : k <> fd) by (intros ->; rewrite Hnone in Hopen; destruct Hopen; discriminate).
  destruct (Redirect_run path name fd k p) as (p' & E & Hfiles & _ & _ & Hfds);
    [apply String.eqb_neq, Hpath|exact Hallowed|exact Hfd|exact Hk|].
  exists p'. split; [exact E|]. split.
  - rewrite Hfds. destruct (Z.eqb_spec fd k); [congruence|].
    rewrite Z.eqb_refl. reflexivity.
  - split; [|exact Hfiles]. intros j Hj. rewrite Hfds.
    destruct (Z.eqb_spec j k) as [->|]; [symmetry; exact Hnone|].
    destruct (Z.eqb_spec j fd); [contradiction|reflexivity].
Qed.

Lemma Redirect_attaches_witness :
  (exists p',
     Redirect (Some "out.log") 1 "stdout" sample_process = Returns tt p'
     /\ pr_fds p' 1 = Some {| of_path := "out.log"; of_flags := redirect_flags |}
     /\ (forall j, j <> 1 -> pr_fds p' j = pr_fds sample_process j)
     /\ pr_files p' = <["out.log" := ""]> (pr_files sample_process))
  /\ Redirect None 1 "stdout" sample_process = Returns tt sample_process
  /\ Redirect (Some "-") 1 "stdout" sample_process = Returns tt sample_process.
Proof.
  apply Redirect_attaches.
  - discriminate.
  - repeat split.
  - cbn. lia.
  - cbn. eauto.
  - exists 3. cbn. split; [lia|reflexivity].
Defined.

(** X21: Redirect on a descriptor that is closed, when every lower
    descriptor is open: [open] returns that very descriptor, [dup2] has
    nothing to do and [close] closes it again.  Redirect returns, the file
    is created or emptied, and the descriptor is as closed as before. *)
Theorem Redirect_on_closed_descriptor (path name : string) (fd : Z) (p : process) :
  path <> "-" ->
  redirect_allowed path fd p ->
  0 <= fd < pr_nofile p ->
  pr_fds p fd = None ->
  (forall j, 0 <= j < fd -> pr_fds p j <> None) ->
  exists p',
    Redirect (Some path) fd name p = Returns tt p'
    /\ pr_fds p' fd = None
    /\ (forall j, pr_fds p' j = pr_fds p j)
    /\ pr_files p' = <[path := ""]> (pr_files p)
    /\ pr_calls p'
       = pr_calls p ++ [POpen path redirect_flags 438; PDup2 fd fd; PClose fd].
Proof.
  intros Hpath Hallowed Hfd Hclosed Hlow.
  destruct (Redirect_run path name fd fd p) as (p' & E & Hfiles & _ & Hcalls & Hfds);
    [apply String.eqb_neq, Hpath|exact Hallowed|exact Hfd| |].
  { apply lowest_free_first; [exact Hclosed|exact Hlow|lia]. }
  exists p'. split; [exact E|].
  split; [rewrite Hfds, Z.eqb_refl; reflexivity|].
  split; [|split; [exact Hfiles|exact Hcalls]].
  intros j. rewrite Hfds. destruct (Z.eqb_spec j fd) as [->|]; [|reflexivity].
  symmetry. exact Hclosed.
Qed.

Lemma Redirect_on_closed_descriptor_witness :
  exists p',
    Redirect (Some "out.log") 1 "stdout" closed_stdout_process = Returns tt p'
    /\ pr_fds p' 1 = None
    /\ (forall j, pr_fds p' j = pr_fds closed_stdout_process j)
    /\ pr_files p' = <["out.log" := ""]> (pr_files closed_stdout_process)
    /\ pr_calls p'
       = pr_calls closed_stdout_process
         ++ [POpen "out.log" redirect_flags 438; PDup2 1 1; PClose 1].
Proof.
  apply Redirect_on_closed_descriptor.
  - discriminate.
  - repeat split.
  - cbn. lia.
  - reflexivity.
  - intros j Hj. assert (j = 0) by lia. subst j. discriminate.
Defined.

(** ** SetupDirectories as a whole: the order of the mounts *)

Section AddsMounts.

Context {W : Type} (calls : W -> list syscall).

Lemma adds_mounts_pure {A} (a : A) : adds_mounts calls [] (pure a).
Proof. intros w a' w' H. inversion H. rewrite app_nil_r. reflexivity. Qed.

Lemma adds_mounts_bind {A B} (m : prog W A) (k : A -> prog W B)
    (ms1 ms2 : list syscall) :
  adds_mounts calls ms1 m ->
  (forall a, adds_mounts calls ms2 (k a)) ->
  adds_mounts calls (ms1 ++ ms2) (bind m k).
Proof.
  intros Hm Hk w b w' H. apply bind_returns in H.
  destruct H as (a & w1 & H1 & H2).
  rewrite (Hk _ _ _ _ H2), (Hm _ _ _ H1), app_assoc. reflexivity.
Qed.

Lemma adds_mounts_never {A} (m : prog W A) (ms : list syscall) :
  (forall w a w', m w <> Returns a w') -> adds_mounts calls ms m.
Proof. intros H w a w' E. destruct (H _ _ _ E). Qed.

End AddsMounts.

Lemma adds_mounts_lift {A} (m : prog world A) (ms : list syscall) :
  adds_mounts w_calls ms m -> adds_mounts h_calls ms (lift m).
Proof.
  intros H h a h' E. apply lift_returns in E. destruct E as (w' & E & ->).
  unfold h_calls. cbn. apply (H _ _ _ E).
Qed.

Lemma adds_mounts_CHECK_CALL (expr : string) (m : prog world Z) (ms : list syscall) :
  adds_mounts w_calls ms m -> adds_mounts w_calls ms (CHECK_CALL expr m).
Proof.
  intros H w r w' E. apply CHECK_CALL_returns in E. destruct E as [E _].
  apply (H _ _ _ E).
Qed.

Lemma adds_mounts_CHECK_CALL_MSG (msg : string) (m : prog world Z)
    (ms : list syscall) :
  adds_mounts w_calls ms m -> adds_mounts w_calls ms (CHECK_CALL_MSG m msg).
Proof.
  intros H w r w' E. apply CHECK_CALL_MSG_returns in E. destruct E as [E _].
  apply (H _ _ _ E).
Qed.

Lemma adds_mounts_mount (k : kernel) (source target : string)
    (fstype : option string) (flags : Z) (data : option string) :
  adds_mounts w_calls [SysMount source target fstype flags data]
    (mount k source target fstype flags data).
Proof.
  intros w r w' E. apply mount_returns in E.
  rewrite E, mount_calls_app. reflexivity.
Qed.

Lemma adds_mounts_mkdir (p : string) (mode : Z) :
  adds_mounts w_calls [] (mkdir p mode).
Proof.
  intros w r w' E. unfold mkdir in E.
  destruct (new_entry _ p); inversion E; cbn;
    rewrite mount_calls_app; reflexivity.
Qed.

Lemma adds_mounts_chdir (p : string) : adds_mounts w_calls [] (chdir p).
Proof.
  intros w r w' E. rewrite app_nil_r. unfold chdir, fail_with in E.
  destruct p; [inversion E; reflexivity|].
  destruct (walk _ _ _); [inversion E; reflexivity|].
  destruct (w_files w !! l) as [n|]; [|inversion E; reflexivity].
  destruct (n_kind n); inversion E; reflexivity.
Qed.

Lemma adds_mounts_CreateTarget (fuel : nat) (p : option string) (d : bool) :
  adds_mounts w_calls [] (CreateTarget fuel p d).
Proof.
  intros w r w' E. rewrite app_nil_r. eapply CreateTarget_mount_calls, E.
Qed.

Lemma adds_mounts_PRINT_DEBUG (msg : string) :
  adds_mounts w_calls [] (PRINT_DEBUG msg).
Proof.
  intros w r w' E. rewrite app_nil_r. unfold PRINT_DEBUG in E. inversion E.
  destruct (w_debug w); reflexivity.
Qed.

Lemma adds_mounts_CreateFile (path : string) :
  adds_mounts w_calls [] (CreateFile path).
Proof.
  intros w r w' E. unfold CreateFile in E.
  apply bind_returns in E. destruct E as (r1 & w1 & E1 & E).
  apply bind_returns in E. destruct E as (r2 & w2 & E2 & E).
  inversion E. subst.
  apply CHECK_CALL_MSG_returns in E1. destruct E1 as [E1 Hr1].
  apply open_creat_excl_returns in E1; [|exact Hr1]. destruct E1 as (C1 & _).
  apply CHECK_CALL_returns in E2. destruct E2 as [E2 _]. inversion E2. cbn.
  rewrite C1, !mount_calls_app, app_nil_r. cbn. rewrite app_nil_r. reflexivity.
Qed.

Lemma adds_mounts_devices_loop (k : kernel) (l : list string) :
  Forall (fun dev => is_Some (plus_one dev)) l ->
  adds_mounts w_calls
    (map (fun dev => SysMount dev (default "" (plus_one dev)) None MS_BIND None) l)
    (devices_loop k l).
Proof.
  induction 1 as [|dev l [path Hp] _ IH]; [apply adds_mounts_pure|].
  cbn [devices_loop map]. rewrite Hp. cbn [default].
  change (?x :: ?r) with ([] ++ [x] ++ r).
  apply adds_mounts_bind; [apply adds_mounts_CreateFile|]. intros _.
  apply adds_mounts_bind; [apply adds_mounts_CHECK_CALL, adds_mounts_mount|].
  intros _. exact IH.
Qed.

Lemma adds_mounts_symlink (target linkpath : string) :
  adds_mounts h_calls [] (symlink target linkpath).
Proof.
  intros h r h' E. rewrite app_nil_r. unfold symlink in E.
  destruct (new_entry (h_world h) linkpath); inversion E; reflexivity.
Qed.

Lemma adds_mounts_checked_symlink (r : Z) (expr : string) :
  adds_mounts h_calls []
    (if r =? -1 then lift (@DIE unit expr) else pure tt).
Proof.
  destruct (r =? -1); [|apply adds_mounts_pure].
  apply adds_mounts_never. intros h a h' E.
  apply lift_returns in E. destruct E as (w' & E & _). discriminate.
Qed.

Lemma adds_mounts_SetupDevices (k : kernel) (fuel : nat) :
  adds_mounts h_calls
    [ SysMount "/dev/null" "dev/null" None MS_BIND None;
      SysMount "/dev/random" "dev/random" None MS_BIND None;
      SysMount "/dev/urandom" "dev/urandom" None MS_BIND None;
      SysMount "/dev/zero" "dev/zero" None MS_BIND None;
      SysMount "devpts" "dev/pts" (Some "devpts") (Z.lor MS_NOSUID MS_NOEXEC)
        (Some "ptmxmode=0666");
      SysMount "tmpfs" "dev/shm" (Some "tmpfs") (Z.lor MS_NOSUID MS_NODEV) None ]
    (SetupDevices k fuel).
Proof.
  unfold SetupDevices.
  change [?a; ?b; ?c; ?d; ?e; ?f]
    with ([] ++ [a; b; c; d] ++ [] ++ [e] ++ [] ++ [] ++ [] ++ [f] ++ [] ++ [] ++ []).
  apply adds_mounts_bind;
    [apply adds_mounts_lift, adds_mounts_CHECK_CALL, adds_mounts_mkdir|]. intros _.
  apply adds_mounts_bind.
  { apply adds_mounts_lift.
    apply (adds_mounts_devices_loop k devs). repeat constructor; cbn; eauto. }
  intros _.
  apply adds_mounts_bind; [apply adds_mounts_lift, adds_mounts_CreateTarget|].
  intros _.
  apply adds_mounts_bind;
    [apply adds_mounts_lift, adds_mounts_CHECK_CALL, adds_mounts_mount|]. intros _.
  apply adds_mounts_bind; [apply adds_mounts_symlink|]. intros r1.
  apply adds_mounts_bind; [apply adds_mounts_checked_symlink|]. intros _.
  apply adds_mounts_bind; [apply adds_mounts_lift, adds_mounts_CreateTarget|].
  intros _.
  apply adds_mounts_bind;
    [apply adds_mounts_lift, adds_mounts_CHECK_CALL, adds_mounts_mount|]. intros _.
  apply adds_mounts_bind; [apply adds_mounts_symlink|]. intros r2.
  apply adds_mounts_bind; [apply adds_mounts_checked_symlink|]. intros _.
  apply adds_mounts_pure.
Qed.

Lemma adds_mounts_create_dirs_loop (fuel : nat) (opt : Options) (n : nat) :
  forall i, adds_mounts w_calls [] (create_dirs_loop fuel opt n i).
Proof.
  induction n as [|n IH]; intros i; [apply adds_mounts_pure|].
  cbn [create_dirs_loop].
  destruct (i <? num_create_dirs opt); [|apply adds_mounts_pure].
  destruct (array_get (create_dirs opt) i) as [[dir|]|];
    try (apply adds_mounts_never; discriminate).
  destruct (plus_one dir); [|apply adds_mounts_never; discriminate].
  change (@nil syscall) with (@nil syscall ++ [] ++ []).
  apply adds_mounts_bind; [apply adds_mounts_PRINT_DEBUG|]. intros _.
  apply adds_mounts_bind; [apply adds_mounts_CHECK_CALL, adds_mounts_CreateTarget|].
  intros _. apply IH.
Qed.

Lemma adds_mounts_home (fuel : nat) (uid : Z) :
  adds_mounts h_calls [] (SetupDirectories_home fuel uid).
Proof.
  intros h a h' E. rewrite app_nil_r. unfold SetupDirectories_home in E.
  apply bind_returns in E. destruct E as (homedir & h1 & Hf & E).
  assert (C1 : h_calls h1 = h_calls h).
  { unfold find_home in Hf. destruct (h_passwd h) as [entries|].
    - destruct (fgetpwent_loop uid entries); inversion Hf; reflexivity.
    - unfold bind, lift, PRINT_DEBUG, getenv in Hf. cbn in Hf. inversion Hf.
      unfold h_calls. cbn. destruct (w_debug (h_world h)); reflexivity. }
  rewrite <- C1. clear C1 Hf.
  destruct homedir as [home|]; [|inversion E; reflexivity].
  destruct (negb (starts_with_slash home)).
  { apply lift_returns in E. destruct E as (w' & E & _). discriminate. }
  apply bind_returns in E. destruct E as ([] & h2 & H2 & E).
  destruct (plus_one home) as [path|]; [|discriminate].
  apply bind_returns in E. destruct E as (r & h3 & H3 & E).
  apply bind_returns in E. destruct E as (r' & h4 & H4 & E).
  inversion H4. subst r' h4. cbn in E. inversion E. subst h'.
  pose proof (adds_mounts_lift _ _ (adds_mounts_PRINT_DEBUG _) _ _ _ H2) as C2.
  pose proof (adds_mounts_lift _ _
                (adds_mounts_CHECK_CALL _ _ _ (adds_mounts_CreateTarget _ _ _))
                _ _ _ H3) as C3.
  rewrite app_nil_r in C2, C3. unfold h_calls in *. cbn. congruence.
Qed.

(** X22: When SetupDirectories comes back, the mounts it made are, in
    this order: the sandbox root on itself, the four device files, devpts
    on dev/pts, a tmpfs on dev/shm, /proc on proc, and then the mounts of
    the command line, each with its remount if it is read-only.  The
    directories of -d and the home directory add no mount. *)
Theorem SetupDirectories_mount_order (k : kernel) (fuel : nat) (opt : Options)
    (uid : Z) (root : string) (entries : list mount_entry) (h h' : hworld) :
  SetupDirectories k fuel opt uid h = Returns tt h' ->
  sandbox_root opt = Some root ->
  mounts_of opt = Some entries ->
  exists css,
    Forall2 (entry_mounts root) entries css
    /\ mount_calls (h_calls h')
       = mount_calls (h_calls h) ++ system_mounts root ++ concat css.
Proof.
  intros H Hroot Hm. unfold SetupDirectories in H. rewrite Hroot in H.
  apply bind_returns in H. destruct H as (r1 & h1 & H1 & H).
  apply bind_returns in H. destruct H as (r2 & h2 & H2 & H).
  apply bind_returns in H. destruct H as ([] & h3 & H3 & H).
  apply bind_returns in H. destruct H as (r4 & h4 & H4 & H).
  apply bind_returns in H. destruct H as (r5 & h5 & H5 & H).
  apply bind_returns in H. destruct H as ([] & h6 & H6 & H).
  apply bind_returns in H. destruct H as ([] & h7 & H7 & H).
  apply (adds_mounts_lift _ _
           (adds_mounts_CHECK_CALL _ _ _ (adds_mounts_mount _ _ _ _ _ _))) in H1.
  apply (adds_mounts_lift _ _
           (adds_mounts_CHECK_CALL _ _ _ (adds_mounts_chdir _))) in H2.
  apply adds_mounts_SetupDevices in H3.
  apply (adds_mounts_lift _ _
           (adds_mounts_CHECK_CALL _ _ _ (adds_mounts_mkdir _ _))) in H4.
  apply (adds_mounts_lift _ _
           (adds_mounts_CHECK_CALL _ _ _ (adds_mounts_mount _ _ _ _ _ _))) in H5.
  apply (adds_mounts_lift _ _ (adds_mounts_create_dirs_loop _ _ _ _)) in H6.
  apply adds_mounts_home in H.
  apply lift_returns in H7. destruct H7 as (w7 & H7 & ->).
  destruct (mount_loop_mount_calls k fuel opt root entries Hroot Hm
              (Z.to_nat (num_mounts opt)) 0 (h_world h6) w7 H7) as (css & F & C7);
    [lia|lia|].
  exists css. split; [exact F|].
  rewrite H. unfold h_calls at 1. cbn [h_world with_world].
  rewrite C7. fold (h_calls h6).
  rewrite H6, H5, H4, H3, H2, H1. unfold system_mounts.
  rewrite !app_nil_r, <- !app_assoc. reflexivity.
Qed.

Lemma SetupDirectories_mount_order_witness :
  exists h' css,
    SetupDirectories strict_kernel 20 dirs_options 65534 bare_hworld = Returns tt h'
    /\ Forall2 (entry_mounts "/sbx")
         [emit "/usr" "/usr" false; emit "/usr" "/opt" true] css
    /\ mount_calls (h_calls h')
       = mount_calls (h_calls bare_hworld) ++ system_mounts "/sbx" ++ concat css.
Proof.
  assert (E : exists h', SetupDirectories strict_kernel 20 dirs_options 65534
                           bare_hworld = Returns tt h')
    by (eexists; vm_compute; reflexivity).
  destruct E as [h' E].
  destruct (SetupDirectories_mount_order strict_kernel 20 dirs_options 65534 "/sbx"
              [emit "/usr" "/usr" false; emit "/usr" "/opt" true]
              bare_hworld h' E eq_refl eq_refl) as (css & H1 & H2).
  exists h', css. split; [exact E|]. split; [exact H1|exact H2].
Defined.

(** X23: SetupDevices needs a sandbox root without [dev]: when the name
    is taken, by a directory or by anything else, [mkdir] fails with
    EEXIST and the process exits, with nothing mounted and nothing
    created. *)
Theorem SetupDevices_needs_no_dev (k : kernel) (fuel : nat) (h : hworld)
    (n : node) :
  lookup_path (h_world h) "dev" = inr n ->
  exists h',
    SetupDevices k fuel h = Exits EXIT_FAILURE h'
    /\ w_errno (h_world h') = EEXIST
    /\ w_calls (h_world h') = w_calls (h_world h) ++ [SysMkdir "dev" 493]
    /\ w_files (h_world h') = w_files (h_world h)
    /\ w_stderr (h_world h') = w_stderr (h_world h) ++ ["mkdir(dev, 0755)"]
    /\ h_links h' = h_links h.
Proof.
  intros H. unfold lookup_path, start_dir in H. cbn in H.
  destruct (w_files (h_world h) !! w_cwd (h_world h)) as [nd|] eqn:Ecwd;
    [|discriminate].
  destruct (n_kind nd) eqn:Ek; try discriminate.
  cbn in H.
  destruct (w_files (h_world h) !! (w_cwd (h_world h) ++ ["dev"])) as [n'|] eqn:Edev;
    [|discriminate].
  assert (Hmk : mkdir "dev" 493 (h_world h)
                = Returns (-1) (set_errno EEXIST (log_call (SysMkdir "dev" 493)
                                                    (h_world h)))).
  { unfold mkdir, new_entry, start_dir. cbn. rewrite Ecwd, Ek. cbn.
    rewrite Edev. reflexivity. }
  unfold SetupDevices, bind, lift, CHECK_CALL, bind. rewrite Hmk. cbn.
  eexists. split; [reflexivity|]. cbn. repeat split; reflexivity.
Qed.

Lemma SetupDevices_needs_no_dev_witness :
  exists h',
    SetupDevices strict_kernel 20 dev_taken_hworld = Exits EXIT_FAILURE h'
    /\ w_errno (h_world h') = EEXIST.
Proof.
  assert (L : lookup_path (h_world dev_taken_hworld) "dev" = inr fnode)
    by (vm_compute; reflexivity).
  destruct (SetupDevices_needs_no_dev strict_kernel 20 dev_taken_hworld fnode L)
    as (h' & E & He & _).
  exists h'. split; [exact E|exact He].
Defined.

(** ** From the parser to SetupDirectories *)

Lemma mounts_of_set_mounts (srcs tgts : list (option string)) (rws : list bool)
    (sizes n : Z) (o : Options) :
  mounts_of (set_mounts srcs tgts rws sizes n o)
  = if n <? 0 then None else zip_mounts srcs tgts rws (Z.to_nat n).
Proof. reflexivity. Qed.

Lemma array_set_inv {A} (l l' : list A) (i : Z) (x : A) :
  array_set l i x = Some l' ->
  0 <= i < Z.of_nat (length l) /\ l' = <[Z.to_nat i := x]> l.
Proof.
  unfold array_set. intros H.
  destruct ((0 <=? i) && (i <? Z.of_nat (length l))) eqn:E; [|discriminate].
  apply andb_prop in E. destruct E as [E1 E2].
  apply Z.leb_le in E1. apply Z.ltb_lt in E2.
  inversion H. split; [lia|reflexivity].
Qed.

(** Completing the entry at [num_mounts] keeps the entries before it. *)
Lemma complete_entry_mounts_of (o : Options) (s t : string) (rw : bool)
    (tgts : list (option string)) (rws : list bool) :
  is_Some (mounts_of o) ->
  array_get (mount_sources o) (num_mounts o) = Some (Some s) ->
  array_set (mount_targets o) (num_mounts o) (Some t) = Some tgts ->
  array_set (mount_rw o) (num_mounts o) rw = Some rws ->
  is_Some (mounts_of (set_mounts (mount_sources o) tgts rws (mount_map_sizes o)
                        (num_mounts o + 1) o)).
Proof.
  intros [l Hl] Hs Ht Hrw. unfold mounts_of in Hl.
  destruct (Z.ltb_spec (num_mounts o) 0) as [|Hn]; [discriminate|].
  apply array_set_inv in Ht. destruct Ht as [Ht ->].
  apply array_set_inv in Hrw. destruct Hrw as [Hrw ->].
  rewrite array_get_nat in Hs by lia.
  rewrite mounts_of_set_mounts.
  destruct (Z.ltb_spec (num_mounts o + 1) 0); [lia|].
  replace (Z.to_nat (num_mounts o + 1)) with (S (Z.to_nat (num_mounts o))) by lia.
  rewrite (zip_mounts_snoc _ _ _ _ l s t rw Hl Hs) by lia. eauto.
Qed.

Lemma finish_pending_usable (o o1 : Options) :
  finish_pending o = Some o1 -> arrays_usable o -> arrays_usable o1.
Proof.
  unfold finish_pending. intros H [Hm Hd].
  destruct (array_get (mount_sources o) (num_mounts o)) as [[src|]|] eqn:E;
    try discriminate.
  - destruct (array_set (mount_targets o) (num_mounts o) (Some src)) as [tgts|] eqn:Et;
      try discriminate.
    destruct (array_set (mount_rw o) (num_mounts o) false) as [rws|] eqn:Er;
      try discriminate.
    inversion H. split; [|exact Hd].
    eapply complete_entry_mounts_of; eassumption.
  - inversion H. subst. split; assumption.
Qed.

Lemma AddMountSource_usable (source : option string) (w w' : pworld) :
  AddMountSource source w = Returns tt w' ->
  arrays_usable (p_opt w) -> arrays_usable (p_opt w').
Proof.
  unfold AddMountSource. intros H Ha.
  destruct (finish_pending (p_opt w)) as [o1|] eqn:F; try discriminate.
  apply (finish_pending_usable _ _ F) in Ha.
  destruct source as [src|]; [|inversion H; exact Ha].
  assert (Hg : arrays_usable
                 (if num_mounts o1 >=? (mount_map_sizes o1 - 1) mod size_t_max
                  then grow_mounts o1 else o1)).
  { destruct (num_mounts o1 >=? (mount_map_sizes o1 - 1) mod size_t_max);
      [|exact Ha].
    destruct Ha as [[l Hl] Hd]. split; [|exact Hd].
    unfold grow_mounts. rewrite mounts_of_set_mounts. unfold mounts_of in Hl.
    destruct (num_mounts o1 <? 0); [discriminate|].
    rewrite (zip_mounts_app _ _ _ _ l _ _ _ Hl). eauto. }
  match type of H with
  | context [array_set ?a ?i ?x] => destruct (array_set a i x) as [srcs|] eqn:E
  end; try discriminate.
  inversion H. destruct Hg as [[l Hl] Hd]. split; [|exact Hd].
  cbn [p_opt set_opt]. rewrite mounts_of_set_mounts. unfold mounts_of in Hl.
  apply array_set_inv in E. destruct E as [_ ->].
  destruct (_ <? 0); [discriminate|].
  rewrite zip_mounts_insert_source. eauto.
Qed.

Lemma set_mount_target_usable (flag : string) (rw : bool) (optarg : string)
    (w w' : pworld) :
  set_mount_target flag rw optarg w = Returns tt w' ->
  arrays_usable (p_opt w) -> arrays_usable (p_opt w').
Proof.
  unfold set_mount_target. intros H [Hm Hd].
  destruct (negb (starts_with_slash optarg)); [discriminate|].
  destruct (array_get (mount_sources (p_opt w)) (num_mounts (p_opt w))) as [[s|]|] eqn:E;
    try discriminate.
  destruct (array_set (mount_rw (p_opt w)) (num_mounts (p_opt w)) rw) as [rws|] eqn:Er;
    try discriminate.
  destruct (array_set (mount_targets (p_opt w)) (num_mounts (p_opt w)) (Some optarg))
    as [tgts|] eqn:Et; try discriminate.
  inversion H. split; [|exact Hd].
  cbn [p_opt set_opt]. eapply complete_entry_mounts_of; eassumption.
Qed.

Lemma filled_store (dirs dirs' : list (option string)) (n : Z) (a : string) :
  array_set dirs n (Some a) = Some dirs' ->
  filled dirs n -> filled dirs' (n + 1).
Proof.
  intros H [H0 Hf]. apply array_set_inv in H. destruct H as [Hn ->].
  split; [lia|]. intros i Hi. rewrite array_get_nat by lia.
  destruct (Z.eq_dec i n) as [->|Hne].
  - exists a. apply list_lookup_insert_eq. lia.
  - rewrite list_lookup_insert_ne by lia.
    destruct (Hf i) as [d Hd]; [lia|]. exists d.
    rewrite array_get_nat in Hd by lia. exact Hd.
Qed.

Lemma handle_getopt_usable (r : getopt_ret) (w w' : pworld) :
  handle_getopt r w = Returns tt w' ->
  arrays_usable (p_opt w) -> arrays_usable (p_opt w').
Proof.
  intros H Ha. destruct r as [c optarg| |]; try discriminate.
  cbn [handle_getopt] in H.
  destruct (handle_option_cases c optarg) as [Hin|[Hpure _]].
  - cbn in Hin. decompose [or] Hin; try contradiction; subst c.
    + cbn in H. unfold bind, CheckNamespacesSupported, die, exit_with in H.
      destruct (p_clone_ok w); discriminate.
    + destruct optarg as [a|]; cbn in H; try discriminate.
      destruct (sandbox_root (p_opt w)); try discriminate.
      destruct (strip_trailing_slash a); try discriminate.
      inversion H. exact Ha.
    + destruct optarg as [a|]; cbn in H; try discriminate.
      destruct (working_dir (p_opt w)); try discriminate.
      inversion H. exact Ha.
    + destruct optarg as [a|]; cbn in H; try discriminate.
      destruct (negb (starts_with_slash a)); [discriminate|].
      destruct (array_set (create_dirs (p_opt w)) (num_create_dirs (p_opt w)) (Some a))
        as [dirs|] eqn:E; try discriminate.
      inversion H. destruct Ha as [Hm Hd]. split; [exact Hm|].
      cbn. eapply filled_store; eassumption.
    + cbn in H. inversion H. exact Ha.
    + destruct optarg as [a|]; cbn in H; try discriminate.
      destruct (negb (starts_with_slash a)); [discriminate|].
      eapply AddMountSource_usable; eassumption.
    + destruct optarg as [a|]; cbn in H; try discriminate.
      eapply set_mount_target_usable; eassumption.
    + destruct optarg as [a|]; cbn in H; try discriminate.
      eapply set_mount_target_usable; eassumption.
    + cbn in H. inversion H. exact Ha.
    + cbn in H. inversion H. exact Ha.
    + destruct optarg as [a|]; cbn in H; try discriminate.
      inversion H. exact Ha.
    + cbn in H. inversion H. exact Ha.
    + destruct optarg as [a|]; cbn in H; try discriminate.
      destruct (stdout_path (p_opt w)); try discriminate.
      inversion H. exact Ha.
    + destruct optarg as [a|]; cbn in H; try discriminate.
      destruct (stderr_path (p_opt w)); try discriminate.
      inversion H. exact Ha.
  - rewrite Hpure in H. inversion H. subst. exact Ha.
Qed.

Lemma handle_options_usable (ts : list getopt_ret) :
  forall w w',
    handle_options ts w = Returns tt w' ->
    arrays_usable (p_opt w) -> arrays_usable (p_opt w').
Proof.
  induction ts as [|r ts IH]; intros w w' H Ha.
  - inversion H. subst. exact Ha.
  - apply handle_options_cons in H. destruct H as (w1 & H1 & H2).
    eapply IH; [exact H2|]. eapply handle_getopt_usable; eassumption.
Qed.

Lemma at_file_loop_usable (parse_file : string -> prog pworld unit)
    (argv : list string) :
  (forall f w w', parse_file f w = Returns tt w' ->
                  arrays_usable (p_opt w) -> arrays_usable (p_opt w')) ->
  forall n w w',
    at_file_loop parse_file n argv w = Returns tt w' ->
    arrays_usable (p_opt w) -> arrays_usable (p_opt w').
Proof.
  intros Hpf. induction n as [|n IH]; intros w w' H Ha.
  - inversion H. subst. exact Ha.
  - cbn [at_file_loop] in H.
    destruct (p_optind w <? Z.of_nat (length argv));
      [|inversion H; subst; exact Ha].
    destruct (array_get argv (p_optind w)) as [[|c filename]|];
      try (inversion H; subst; exact Ha).
    destruct (Ascii.eqb_spec c "@"%char) as [->|Hc].
    + apply bind_returns in H. destruct H as ([] & w1 & H1 & H).
      apply bind_returns in H. destruct H as ([] & w2 & H2 & H).
      apply bind_returns in H. destruct H as ([] & w3 & H3 & H).
      inversion H1. subst w1. inversion H3. subst w3.
      eapply IH; [exact H|]. change (arrays_usable (p_opt w2)).
      eapply Hpf; [exact H2|exact Ha].
    + destruct c as [[] [] [] [] [] [] [] []];
        try (inversion H; subst; exact Ha).
      contradiction Hc. reflexivity.
Qed.

Lemma ParseCommandLine_usable (fuel : nat) :
  forall argv w w',
    ParseCommandLine fuel argv w = Returns tt w' ->
    arrays_usable (p_opt w) -> arrays_usable (p_opt w').
Proof.
  induction fuel as [|fuel IH]; intros argv w w' H Ha; [discriminate|].
  rewrite ParseCommandLine_S in H. cbv zeta in H.
  apply bind_returns in H. destruct H as ([] & w1 & H1 & H).
  apply bind_returns in H. destruct H as ([] & w2 & H2 & H).
  apply bind_returns in H. destruct H as ([] & w3 & H3 & H).
  apply bind_returns in H. destruct H as ([] & w4 & H4 & H).
  apply (handle_options_usable _ _ _ H1) in Ha.
  inversion H2. subst w2.
  apply (AddMountSource_usable None _ _ H3) in Ha.
  apply (at_file_loop_usable _ _) with (3 := Ha) in H4.
  2:{ intros f v v' Hf Hv. apply ParseOptionsFile_with_returns in Hf.
      destruct Hf as (sub_argv & Hf). eapply IH; eassumption. }
  unfold take_command in H.
  destruct (Z.of_nat _ >? p_optind w4); [|inversion H; subst; exact H4].
  destruct (args (p_opt w4)); [discriminate|]. inversion H. exact H4.
Qed.

Lemma zip_mounts_nil (n : nat) (srcs tgts : list (option string)) (rws : list bool) :
  n = 0%nat -> zip_mounts srcs tgts rws n = Some [].
Proof. intros ->. reflexivity. Qed.

Lemma main_parse_usable (fuel : nat) (argv : list string) (w w' : pworld) :
  main_parse fuel argv w = Returns tt w' -> usable (p_opt w').
Proof.
  intros H. unfold main_parse in H.
  apply bind_returns in H. destruct H as ([] & w0 & H0 & H).
  apply bind_returns in H. destruct H as ([] & w1 & H1 & H).
  inversion H0. subst w0.
  assert (Hu : arrays_usable (p_opt w1)).
  { eapply ParseCommandLine_usable; [exact H1|].
    split; [exists []; reflexivity|]. split; [cbn; lia|]. cbn. intros i Hi. lia. }
  assert (Ha : all_absolute (p_opt w1)).
  { eapply ParseCommandLine_absolute; [exact H1|].
    unfold all_absolute. cbn. repeat split; apply Forall_replicate; exact I. }
  destruct (args (p_opt w1)); [|discriminate].
  destruct (sandbox_root (p_opt w1)) eqn:Es; [|discriminate]. inversion H. subst w'.
  split; [exact Hu|]. split; [exact Ha|]. rewrite Es. eauto.
Qed.

(** *** Nothing of SetupDirectories goes outside an array *)

Lemma defined_pure {W A} (a : A) : defined (@pure W A a).
Proof. intros w. discriminate. Qed.

Lemma defined_bind {W A B} (m : prog W A) (k : A -> prog W B) :
  defined m -> (forall a, defined (k a)) -> defined (bind m k).
Proof.
  intros Hm Hk w. unfold bind. specialize (Hm w).
  destruct (m w); try discriminate; [apply Hk|contradiction].
Qed.

Lemma defined_lift {A} (m : prog world A) : defined m -> defined (lift m).
Proof.
  intros Hm h. unfold lift. specialize (Hm (h_world h)).
  destruct (m (h_world h)); try discriminate. contradiction.
Qed.

Lemma defined_DIE {A} (msg : string) : defined (@DIE A msg).
Proof. intros w. discriminate. Qed.

Lemma defined_CHECK_CALL (expr : string) (m : prog world Z) :
  defined m -> defined (CHECK_CALL expr m).
Proof.
  intros H. apply defined_bind; [exact H|].
  intros r. destruct (r =? -1); [apply defined_DIE|apply defined_pure].
Qed.

Lemma defined_CHECK_CALL_MSG (msg : string) (m : prog world Z) :
  defined m -> defined (CHECK_CALL_MSG m msg).
Proof.
  intros H. apply defined_bind; [exact H|].
  intros r. destruct (r =? -1); [apply defined_DIE|apply defined_pure].
Qed.

Lemma defined_mount (k : kernel) (source target : string) (fstype : option string)
    (flags : Z) (data : option string) :
  defined (mount k source target fstype flags data).
Proof. intros w. rewrite mount_run. cbv zeta. destruct (me_errno _); discriminate. Qed.

Lemma defined_mkdir (p : string) (mode : Z) : defined (mkdir p mode).
Proof. intros w. unfold mkdir. destruct (new_entry _ p); discriminate. Qed.

Lemma defined_stat (p : string) : defined (stat p).
Proof. intros w. unfold stat. destruct (lookup_path w p); discriminate. Qed.

Lemma defined_PRINT_DEBUG (msg : string) : defined (PRINT_DEBUG msg).
Proof. intros w. discriminate. Qed.

Lemma defined_chdir (p : string) : defined (chdir p).
Proof.
  intros w. unfold chdir, fail_with. destruct p; [discriminate|].
  destruct (walk _ _ _); [discriminate|].
  destruct (w_files w !! l) as [n|]; [|discriminate].
  destruct (n_kind n); discriminate.
Qed.

Lemma defined_CreateFile (path : string) : defined (CreateFile path).
Proof.
  unfold CreateFile. apply defined_bind.
  - apply defined_CHECK_CALL_MSG. intros w. unfold open_creat_excl.
    destruct (ends_with_slash path); [discriminate|].
    destruct (new_entry _ path); discriminate.
  - intros _. apply defined_bind; [|intros _; apply defined_pure].
    apply defined_CHECK_CALL. intros w. discriminate.
Qed.

Lemma defined_CreateTarget (fuel : nat) :
  forall (path : option string) (d : bool), defined (CreateTarget fuel path d).
Proof.
  induction fuel as [|fuel IH]; intros path d; [intros w; discriminate|].
  destruct path as [p0|]; [|intros w; discriminate].
  rewrite CreateTarget_S. cbv zeta.
  apply defined_bind; [apply defined_stat|].
  intros [n|].
  - destruct (d && S_ISDIR n); [apply defined_pure|].
    destruct (negb d && S_ISREG n); [apply defined_pure|]. intros w. discriminate.
  - intros w. destruct (negb (w_errno w =? ENOENT)); [discriminate|].
    revert w. apply defined_bind; [apply defined_CHECK_CALL, IH|].
    intros _. destruct d.
    + apply defined_bind; [apply defined_CHECK_CALL_MSG, defined_mkdir|].
      intros _. apply defined_pure.
    + apply defined_bind; [apply defined_CreateFile|]. intros _. apply defined_pure.
Qed.

Lemma defined_symlink (target linkpath : string) : defined (symlink target linkpath).
Proof. intros h. unfold symlink. destruct (new_entry _ linkpath); discriminate. Qed.

Lemma defined_SetupDevices (k : kernel) (fuel : nat) : defined (SetupDevices k fuel).
Proof.
  unfold SetupDevices.
  repeat (apply defined_bind;
          [first [ apply defined_lift, defined_CHECK_CALL, defined_mkdir
                 | apply defined_lift, defined_CHECK_CALL, defined_mount
                 | apply defined_lift, defined_CreateTarget
                 | apply defined_symlink
                 | idtac ]
          | intros ? ]);
    try apply defined_pure.
  - apply defined_lift. cbn [devices_loop devs plus_one].
    repeat (apply defined_bind;
            [first [ apply defined_CreateFile
                   | apply defined_CHECK_CALL, defined_mount ]
            | intros ? ]).
    apply defined_pure.
  - destruct (_ =? -1); [apply defined_lift, defined_DIE|apply defined_pure].
  - destruct (_ =? -1); [apply defined_lift, defined_DIE|apply defined_pure].
Qed.

Lemma plus_one_absolute (dir : string) :
  starts_with_slash dir = true -> is_Some (plus_one dir).
Proof. destruct dir; [discriminate|]. cbn. eauto. Qed.

Lemma defined_create_dirs_loop (fuel : nat) (opt : Options) (n : nat) :
  filled (create_dirs opt) (num_create_dirs opt) ->
  Forall abs_or_null (create_dirs opt) ->
  forall i, 0 <= i -> defined (create_dirs_loop fuel opt n i).
Proof.
  intros [_ Hf] Habs. induction n as [|n IH]; intros i Hi; [apply defined_pure|].
  cbn [create_dirs_loop].
  destruct (Z.ltb_spec i (num_create_dirs opt)); [|apply defined_pure].
  destruct (Hf i ltac:(lia)) as [dir Hd]. rewrite Hd.
  destruct (plus_one_absolute dir (array_get_Forall abs_or_null _ _ _ Hd Habs))
    as [path ->].
  apply defined_bind; [apply defined_PRINT_DEBUG|]. intros _.
  apply defined_bind; [apply defined_CHECK_CALL, defined_CreateTarget|]. intros _.
  apply IH. lia.
Qed.

Lemma defined_GetMountFlags (path : string) : defined (GetMountFlags path).
Proof.
  intros w. unfold GetMountFlags. destruct (w_mtab w) as [mtab|]; [|discriminate].
  destruct (getmntent_loop path mtab); unfold bind, PRINT_DEBUG, pure; discriminate.
Qed.

Lemma defined_mount_one (k : kernel) (fuel : nat) (opt : Options) (i : Z)
    (entries : list mount_entry) :
  mounts_of opt = Some entries -> is_Some (sandbox_root opt) ->
  0 <= i < num_mounts opt ->
  defined (mount_one k fuel opt i).
Proof.
  intros Hm [root Hroot] Hi. unfold mounts_of in Hm.
  destruct (Z.ltb_spec (num_mounts opt) 0); [discriminate|].
  apply zip_mounts_lookup in Hm. destruct Hm as [Hlen Hl].
  destruct (lookup_lt_is_Some_2 entries (Z.to_nat i) ltac:(lia)) as [e He].
  destruct (Hl _ _ He) as (Hs & Ht & Hrw).
  unfold mount_one. rewrite !array_get_nat, Hs, Ht, Hrw, Hroot by lia.
  apply defined_bind.
  - unfold bind_entry.
    apply defined_bind; [apply defined_stat|]. intros sb.
    apply defined_bind; [intros w; discriminate|]. intros d.
    apply defined_bind;
      [destruct (String.eqb _ _); apply defined_PRINT_DEBUG|]. intros _.
    apply defined_bind; [apply defined_CHECK_CALL, defined_CreateTarget|]. intros _.
    apply defined_bind; [apply defined_CHECK_CALL_MSG, defined_mount|]. intros _.
    apply defined_pure.
  - intros _. unfold remount_entry. destruct (negb (me_rw e)); [|apply defined_pure].
    apply defined_bind; [apply defined_GetMountFlags|]. intros flags.
    apply defined_bind; [apply defined_mount|]. intros ret.
    destruct (ret =? -1); [intros w; discriminate|apply defined_pure].
Qed.

Lemma defined_mount_loop (k : kernel) (fuel : nat) (opt : Options)
    (entries : list mount_entry) :
  mounts_of opt = Some entries -> is_Some (sandbox_root opt) ->
  forall n i, 0 <= i -> defined (mount_loop k fuel opt n i).
Proof.
  intros Hm Hroot. induction n as [|n IH]; intros i Hi; [apply defined_pure|].
  cbn [mount_loop].
  destruct (Z.ltb_spec i (num_mounts opt)); [|apply defined_pure].
  apply defined_bind; [eapply defined_mount_one; try eassumption; lia|].
  intros _. apply IH. lia.
Qed.

Lemma defined_SetupDirectories_home (fuel : nat) (uid : Z) :
  defined (SetupDirectories_home fuel uid).
Proof.
  unfold SetupDirectories_home. apply defined_bind.
  - intros h. unfold find_home. destruct (h_passwd h) as [entries|].
    + destruct (fgetpwent_loop uid entries); discriminate.
    + unfold bind, lift, PRINT_DEBUG, getenv. discriminate.
  - intros [home|]; [|apply defined_pure].
    destruct (starts_with_slash home) eqn:Habs; cbn [negb];
      [|apply defined_lift, defined_DIE].
    apply defined_bind; [apply defined_lift, defined_PRINT_DEBUG|]. intros _.
    destruct (plus_one_absolute home Habs) as [path ->].
    apply defined_bind;
      [apply defined_lift, defined_CHECK_CALL, defined_CreateTarget|]. intros _.
    apply defined_bind; [intros h; discriminate|]. intros r.
    destruct (r =? -1); [apply defined_lift, defined_DIE|apply defined_pure].
Qed.

(** X25: The options main's parse returns, argument files included, are
    what SetupDirectories needs.  They hold a sandbox root, [num_mounts]
    complete mount entries and [num_create_dirs] directories, all with
    absolute paths; on them SetupDirectories never reads a NULL element,
    never reads outside an array and never points behind the end of a
    string, whatever the kernel and the file tree are. *)
Theorem parsed_options_are_safe_to_set_up (fuel : nat) (argv : list string)
    (w w' : pworld) :
  main_parse fuel argv w = Returns tt w' ->
  usable (p_opt w')
  /\ forall (k : kernel) (fuel' : nat) (uid : Z) (h : hworld),
       SetupDirectories k fuel' (p_opt w') uid h <> Undefined.
Proof.
  intros H. apply main_parse_usable in H. split; [exact H|].
  destruct H as ([[entries Hm] Hd] & (A1 & A2 & A3) & [root Hroot]).
  intros k fuel' uid. unfold SetupDirectories. rewrite Hroot.
  assert (Hnum : 0 <= num_mounts (p_opt w')).
  { unfold mounts_of in Hm. destruct (Z.ltb_spec (num_mounts (p_opt w')) 0);
      [discriminate|lia]. }
  apply defined_bind;
    [apply defined_lift, defined_CHECK_CALL, defined_mount|]. intros _.
  apply defined_bind;
    [apply defined_lift, defined_CHECK_CALL, defined_chdir|]. intros _.
  apply defined_bind; [apply defined_SetupDevices|]. intros _.
  apply defined_bind;
    [apply defined_lift, defined_CHECK_CALL, defined_mkdir|]. intros _.
  apply defined_bind;
    [apply defined_lift, defined_CHECK_CALL, defined_mount|]. intros _.
  apply defined_bind.
  { apply defined_lift. apply defined_create_dirs_loop; [exact Hd|exact A3|lia]. }
  intros _.
  apply defined_bind.
  { apply defined_lift. eapply defined_mount_loop; eauto. lia. }
  intros _. apply defined_SetupDirectories_home.
Qed.

Lemma parsed_options_are_safe_to_set_up_witness :
  exists w',
    main_parse 3 ["sandbox"; "-S"; "/sbx"; "-M"; "/usr"; "-d"; "/tmp"; "@cmd"]
      (start_pworld sample_argfiles) = Returns tt w'
    /\ usable (p_opt w')
    /\ SetupDirectories strict_kernel 20 (p_opt w') 65534 bare_hworld <> Undefined.
Proof.
  assert (E : exists w',
             main_parse 3 ["sandbox"; "-S"; "/sbx"; "-M"; "/usr"; "-d"; "/tmp"; "@cmd"]
               (start_pworld sample_argfiles) = Returns tt w')
    by (eexists; vm_compute; reflexivity).
  destruct E as [w' E]. exists w'. split; [exact E|].
  destruct (parsed_options_are_safe_to_set_up _ _ _ _ E) as [H1 H2].
  split; [exact H1|apply H2].
Defined.

(** ** SetupUserNamespace: ids that do not fit an [int] *)

(** X26: An outer uid or gid of 2^31 or more is written to uid_map and
    gid_map as a negative number: [%d] prints the [uid_t] as an [int], so
    the line reads [inner -N 1] and not [inner outer 1]. *)
Theorem large_ids_are_written_negative (inner outer : Z) :
  0 <= inner < 2 ^ 31 ->
  2 ^ 31 <= outer < 2 ^ 32 ->
  format_id_map inner outer
  = pretty inner +:+ " " +:+ pretty (outer - 2 ^ 32) +:+ " 1" +:+ String newline ""
  /\ outer - 2 ^ 32 < 0
  /\ exists digits, pretty (outer - 2 ^ 32) = "-" +:+ digits.
Proof.
  change (2 ^ 31) with 2147483648. change (2 ^ 32) with 4294967296.
  intros Hi Ho. unfold format_id_map, percent_d, to_int.
  rewrite (wrap_int_small inner) by lia. rewrite (wrap_int_large outer) by lia.
  split; [reflexivity|]. split; [lia|].
  destruct (outer - 4294967296) as [|p|p] eqn:E; try lia.
  eexists. reflexivity.
Qed.

Lemma large_ids_are_written_negative_witness :
  format_id_map 65534 4294967294
  = pretty 65534 +:+ " " +:+ pretty (4294967294 - 2 ^ 32) +:+ " 1" +:+ String newline ""
  /\ 4294967294 - 2 ^ 32 < 0
  /\ exists digits, pretty (4294967294 - 2 ^ 32) = "-" +:+ digits.
Proof.
  apply large_ids_are_written_negative; split; vm_compute; congruence.
Defined.

(** ** Mount-entry assembly over whole command lines *)

Lemma flag_of_token (r : getopt_ret) (f : mount_flag) :
  flag_of r = Some f -> r = flag_token f.
Proof.
  destruct r as [c [x|]| |]; try discriminate. cbn.
  destruct (Ascii.eqb_spec c "M") as [->|_]; [intros [= <-]; reflexivity|].
  destruct (Ascii.eqb_spec c "m") as [->|_]; [intros [= <-]; reflexivity|].
  destruct (Ascii.eqb_spec c "w") as [->|_]; [intros [= <-]; reflexivity|].
  discriminate.
Qed.

Lemma with_mounts_of_self (w : pworld) : with_mounts_of (p_opt w) w = w.
Proof. destruct w as [[] ? ? ? ? ? ? ? ?]. reflexivity. Qed.

Lemma with_mounts_of_rest (o' om : Options) (ws : pworld) :
  rest_of o' = rest_of (p_opt ws) ->
  set_opt o' (with_mounts_of om ws) = with_mounts_of o' ws.
Proof.
  destruct ws as [[] ? ? ? ? ? ? ? ?], o'. unfold rest_of. cbn.
  intros [= -> -> -> -> -> -> -> -> -> -> ->]. reflexivity.
Qed.

Lemma mount_token_rest (f : mount_flag) (w w' : pworld) :
  handle_getopt (flag_token f) w = Returns tt w' ->
  exists o', w' = set_opt o' w /\ rest_of o' = rest_of (p_opt w).
Proof.
  destruct f as [s|t|t]; cbn [flag_token handle_getopt handle_option with_optarg].
  - destruct (negb (starts_with_slash s)); [discriminate|]. apply AddMountSource_rest.
  - apply set_mount_target_rest.
  - apply set_mount_target_rest.
Qed.

(** An option that is not a mount flag neither reads nor writes the mount
    arrays: it does the same whatever they hold. *)
Lemma other_token_step (r : getopt_ret) (om : Options) (ws ws' : pworld) :
  flag_of r = None ->
  handle_getopt r ws = Returns tt ws' ->
  handle_getopt r (with_mounts_of om ws) = Returns tt (with_mounts_of om ws').
Proof.
  intros Hf H. destruct r as [c optarg| |]; try discriminate.
  unfold with_mounts_of, set_opt at 1, set_mounts at 1. cbn [handle_getopt] in *.
  destruct (handle_option_cases c optarg) as [Hin|[Hpure Hnot]].
  - cbn in Hin. decompose [or] Hin; try contradiction; subst c.
    + (* C *)
      cbn in H. unfold bind, CheckNamespacesSupported, die, exit_with in H.
      destruct (p_clone_ok ws); discriminate.
    + (* S *)
      destruct optarg as [x|]; cbn in H; try discriminate.
      cbn. destruct (sandbox_root (p_opt ws)); try discriminate.
      destruct (strip_trailing_slash x); try discriminate.
      inversion H. reflexivity.
    + (* W *)
      destruct optarg as [x|]; cbn in H; try discriminate.
      cbn. destruct (working_dir (p_opt ws)); try discriminate.
      inversion H. reflexivity.
    + (* d *)
      destruct optarg as [x|]; cbn in H; try discriminate.
      cbn. destruct (negb (starts_with_slash x)); try discriminate. cbn.
      destruct (array_set (create_dirs (p_opt ws)) (num_create_dirs (p_opt ws))
                  (Some x)); try discriminate.
      inversion H. reflexivity.
    + (* i *)
      cbn in H. inversion H. reflexivity.
    + (* M *)
      destruct optarg as [x|]; cbn in H, Hf; discriminate.
    + (* m *)
      destruct optarg as [x|]; cbn in H, Hf; discriminate.
    + (* w *)
      destruct optarg as [x|]; cbn in H, Hf; discriminate.
    + (* n *)
      cbn in H. inversion H. reflexivity.
    + (* r *)
      cbn in H. inversion H. reflexivity.
    + (* H *)
      destruct optarg as [x|]; cbn in H; try discriminate.
      inversion H. reflexivity.
    + (* D *)
      cbn in H. inversion H. reflexivity.
    + (* l *)
      destruct optarg as [x|]; cbn in H; try discriminate.
      cbn. destruct (stdout_path (p_opt ws)); try discriminate.
      inversion H. reflexivity.
    + (* L *)
      destruct optarg as [x|]; cbn in H; try discriminate.
      cbn. destruct (stderr_path (p_opt ws)); try discriminate.
      inversion H. reflexivity.
  - rewrite Hpure in *. inversion H. reflexivity.
Qed.

Lemma flags_of_cons (r : getopt_ret) (ts : list getopt_ret) :
  flags_of (r :: ts)
  = match flag_of r with
    | Some f => f :: flags_of ts
    | None => flags_of ts
    end.
Proof. reflexivity. Qed.

Lemma other_tokens_cons (r : getopt_ret) (ts : list getopt_ret) :
  other_tokens (r :: ts)
  = match flag_of r with
    | Some _ => other_tokens ts
    | None => r :: other_tokens ts
    end.
Proof. unfold other_tokens, is_mount_token. cbn. destruct (flag_of r); reflexivity. Qed.

(** The getopt loop, seen from the machine: the options that are not mount
    flags do what they do without them, the mount flags take the mount
    arrays through the transitions of the machine. *)
Lemma handle_options_machine (a : Z) (ts : list getopt_ret) :
  forall (ws wo : pworld) (om : Options) (st : sm_state) (es : list mount_entry),
    mounts_repr a om st es ->
    a + 2 * (num_mounts om + Z.of_nat (length (flags_of ts))) + 4 < size_t_max ->
    Forall absolute_flag (flags_of ts) ->
    handle_options (other_tokens ts) ws = Returns tt wo ->
    match sm_steps st (flags_of ts) with
    | Some (st', out) =>
        exists om',
          handle_options ts (with_mounts_of om ws) = Returns tt (with_mounts_of om' wo)
          /\ mounts_repr a om' st' (es ++ out)
    | None =>
        exists w' flag,
          handle_options ts (with_mounts_of om ws) = Exits EXIT_FAILURE w'
          /\ (flag = "m" \/ flag = "w")
          /\ p_stderr w'
             = p_stderr ws
               ++ ["The -" +:+ flag +:+ " option must be preceded by an -M option."]
    end.
Proof.
  induction ts as [|r ts IH]; intros ws wo om st es Hr Hbound Habs Hothers.
  - cbn in Hothers. injection Hothers as <-. cbn.
    exists om. split; [reflexivity|]. rewrite app_nil_r. exact Hr.
  - rewrite flags_of_cons in *. rewrite other_tokens_cons in Hothers.
    cbn [handle_options].
    destruct (flag_of r) as [f|] eqn:Hf.
    + apply flag_of_token in Hf. subst r.
      inversion Habs as [|? ? Habs1 Habs2]; subst.
      cbn [length] in Hbound.
      assert (Hrw : mounts_repr a (p_opt (with_mounts_of om ws)) st es)
        by (apply (mounts_repr_ext a om); [reflexivity|exact Hr]).
      pose proof (handle_flag_step a (with_mounts_of om ws) st es f Hrw Habs1) as Hstep.
      change (num_mounts (p_opt (with_mounts_of om ws))) with (num_mounts om) in Hstep.
      specialize (Hstep ltac:(lia)).
      cbn [sm_steps].
      destruct (sm_step st f) as [[st1 out1]|] eqn:Hsm.
      * destruct Hstep as (o1 & Hrun & Hr1 & Hn1).
        destruct (mount_token_rest f _ _ Hrun) as (o1' & Ho1 & Hrest).
        assert (o1' = o1) by (apply (f_equal p_opt) in Ho1; cbn in Ho1; congruence).
        subst o1'.
        rewrite (with_mounts_of_rest o1 om ws Hrest) in Hrun.
        rewrite (bind_Returns _ _ _ _ _ Hrun).
        specialize (IH ws wo o1 st1 (es ++ out1) Hr1 ltac:(lia) Habs2 Hothers).
        destruct (sm_steps st1 (flags_of ts)) as [[st2 out2]|].
        -- destruct IH as (om' & Hrun' & Hr'). exists om'.
           split; [exact Hrun'|]. rewrite app_assoc. exact Hr'.
        -- exact IH.
      * clear Hstep. unfold absolute_flag in Habs1.
        destruct st as [|s0]; destruct f as [s|t|t]; try discriminate Hsm;
          cbn [flag_arg] in Habs1.
        -- pose proof (set_mount_target_empty a _ "m" t false es Hrw Habs1) as Hrun.
           rewrite (bind_Exits _ _ _ _ _ Hrun).
           eexists _, "m". split; [reflexivity|]. split; [left|]; reflexivity.
        -- pose proof (set_mount_target_empty a _ "w" t true es Hrw Habs1) as Hrun.
           rewrite (bind_Exits _ _ _ _ _ Hrun).
           eexists _, "w". split; [reflexivity|]. split; [right|]; reflexivity.
    + apply handle_options_cons in Hothers. destruct Hothers as (ws1 & H1 & H2).
      rewrite (bind_Returns _ _ _ _ _ (other_token_step r om ws ws1 Hf H1)).
      specialize (IH ws1 wo om st es Hr Hbound Habs H2).
      apply handle_getopt_returns in H1. destruct H1 as (_ & _ & Herr & _).
      rewrite Herr in IH. exact IH.
Qed.

Lemma getopt_scan_nil (posix : bool) :
  getopt_scan posix [] = {| sr_tokens := []; sr_consumed := []; sr_operands := [] |}.
Proof. reflexivity. Qed.

(** What is left of ParseCommandLine after AddMountSource(NULL) when the
    first operand is no argument file: the operands become the command. *)
Lemma parse_tail (parse_file : string -> prog pworld unit) (n start : nat)
    (pre consumed operands : list string) (w : pworld) :
  (length pre <= start)%nat ->
  (operands <> [] -> length pre = start) ->
  p_optind w = Z.of_nat (start + length consumed) ->
  (forall x, head operands = Some x -> is_argfile x = false) ->
  (operands <> [] -> args (p_opt w) = None) ->
  (let* _ := at_file_loop parse_file n (pre ++ consumed ++ operands) in
   take_command (pre ++ consumed ++ operands)) w
  = Returns tt
      (match operands with
       | [] => w
       | _ :: _ => set_opt (set_args (Some operands) (p_opt w)) w
       end).
Proof.
  intros Hpre Hstart Hind Hfile Hargs.
  set (argv' := pre ++ consumed ++ operands).
  destruct operands as [|x ops].
  - assert (Hlen : Z.of_nat (length argv') <= p_optind w).
    { subst argv'. rewrite app_nil_r, length_app, Hind. lia. }
    rewrite (bind_Returns _ _ _ _ _ (at_file_loop_done parse_file n argv' w Hlen)).
    apply take_command_none, Hlen.
  - specialize (Hstart ltac:(discriminate)).
    assert (Hat : array_get argv' (p_optind w) = Some x).
    { rewrite array_get_nat by lia. rewrite Hind, Nat2Z.id. subst argv'.
      rewrite lookup_app_r by lia. rewrite Hstart.
      rewrite lookup_app_r by lia.
      replace (start + length consumed - start - length consumed)%nat
        with 0%nat by lia.
      reflexivity. }
    rewrite (bind_Returns _ _ _ w tt).
    2:{ apply at_file_loop_stop. intros y Hy. rewrite Hat in Hy. injection Hy as <-.
        apply Hfile. reflexivity. }
    unfold take_command.
    assert (Hlen : length argv' = (start + length consumed + S (length ops))%nat).
    { subst argv'. rewrite !length_app, Hstart. cbn. lia. }
    destruct (Z.gtb_spec (Z.of_nat (length argv')) (p_optind w)); [|lia].
    rewrite (Hargs ltac:(discriminate)).
    do 3 f_equal. rewrite Hind, Nat2Z.id. subst argv'.
    rewrite drop_app_ge by lia. rewrite Hstart.
    rewrite drop_app_ge by lia.
    replace (start + length consumed - start - length consumed)%nat
      with 0%nat by lia.
    reflexivity.
Qed.

(** What the machine has emitted is what the arrays count. *)
Lemma zip_mounts_length (n : nat) :
  forall srcs tgts rws l, zip_mounts srcs tgts rws n = Some l -> length l = n.
Proof.
  induction n as [|n IH]; intros srcs tgts rws l H.
  - injection H as <-. reflexivity.
  - destruct srcs as [|[s0|] srcs]; try discriminate.
    destruct tgts as [|[t0|] tgts]; try discriminate.
    destruct rws as [|r0 rws]; try discriminate.
    cbn in H. destruct (zip_mounts srcs tgts rws n) as [l0|] eqn:E; [|discriminate].
    injection H as <-. cbn. f_equal. exact (IH _ _ _ _ E).
Qed.

Lemma mounts_repr_length (a : Z) (o : Options) (st : sm_state)
    (es : list mount_entry) :
  mounts_repr a o st es -> num_mounts o = Z.of_nat (length es).
Proof.
  intros (_ & _ & _ & _ & Hn & _ & Hm & _). unfold mounts_of in Hm.
  destruct (Z.ltb_spec (num_mounts o) 0); [discriminate|].
  apply zip_mounts_length in Hm. lia.
Qed.

Lemma sm_steps_length (flags : list mount_flag) :
  forall st st' out,
    sm_steps st flags = Some (st', out) -> (length out <= length flags)%nat.
Proof.
  induction flags as [|f flags IH]; intros st st' out H.
  - injection H as _ <-. cbn. lia.
  - cbn in H. destruct (sm_step st f) as [[st1 out1]|] eqn:E1; [|discriminate].
    destruct (sm_steps st1 flags) as [[st2 out2]|] eqn:E2; [|discriminate].
    injection H as _ <-. apply IH in E2. rewrite length_app. cbn.
    destruct st, f; cbn in E1; try discriminate; injection E1 as _ <-; cbn; lia.
Qed.

Lemma sm_end_length (st : sm_state) : (length (sm_end st) <= 1)%nat.
Proof. destruct st; cbn; lia. Qed.

(** A mount flag that comes back from the switch had an absolute path. *)
Lemma mount_token_absolute (f : mount_flag) (w w' : pworld) :
  handle_getopt (flag_token f) w = Returns tt w' -> absolute_flag f.
Proof.
  unfold absolute_flag.
  destruct f as [s|t|t]; cbn [flag_token handle_getopt handle_option with_optarg flag_arg];
    unfold set_mount_target.
  - destruct (starts_with_slash s); [reflexivity|discriminate].
  - destruct (starts_with_slash t); [reflexivity|discriminate].
  - destruct (starts_with_slash t); [reflexivity|discriminate].
Qed.

Lemma other_token_mounts (r : getopt_ret) (w w' : pworld) :
  flag_of r = None ->
  handle_getopt r w = Returns tt w' ->
  mounts_part (p_opt w') = mounts_part (p_opt w).
Proof.
  intros Hf H.
  pose proof (other_token_step r (p_opt w) w w' Hf H) as E.
  rewrite with_mounts_of_self in E. rewrite H in E. injection E as ->.
  reflexivity.
Qed.

(** A getopt loop that comes back took the arrays through the transitions
    of the machine. *)
Lemma handle_options_follow (a : Z) (ts : list getopt_ret) :
  forall (w w1 : pworld) (st : sm_state) (es : list mount_entry),
    handle_options ts w = Returns tt w1 ->
    mounts_repr a (p_opt w) st es ->
    a + 2 * (num_mounts (p_opt w) + Z.of_nat (length (flags_of ts))) + 4 < size_t_max ->
    exists st' out,
      sm_steps st (flags_of ts) = Some (st', out)
      /\ mounts_repr a (p_opt w1) st' (es ++ out).
Proof.
  induction ts as [|r ts IH]; intros w w1 st es H Hr Hbound.
  - injection H as <-. exists st, []. split; [reflexivity|].
    rewrite app_nil_r. exact Hr.
  - apply handle_options_cons in H. destruct H as (w' & H1 & H2).
    rewrite flags_of_cons in *.
    destruct (flag_of r) as [f|] eqn:Hf.
    + apply flag_of_token in Hf. subst r. cbn [length] in Hbound.
      pose proof (mount_token_absolute f w w' H1) as Habs.
      pose proof (handle_flag_step a w st es f Hr Habs ltac:(lia)) as Hstep.
      cbn [sm_steps].
      destruct (sm_step st f) as [[st1 out1]|].
      * destruct Hstep as (o1 & Hrun & Hr1 & Hn1).
        rewrite H1 in Hrun. injection Hrun as ->.
        destruct (IH _ _ st1 (es ++ out1) H2 Hr1) as (st2 & out2 & Hs & Hr2).
        { cbn. lia. }
        rewrite Hs. exists st2, (out1 ++ out2). split; [reflexivity|].
        rewrite app_assoc. exact Hr2.
      * destruct Hstep as (flag & Hrun). rewrite H1 in Hrun. discriminate.
    + pose proof (other_token_mounts r w w' Hf H1) as Hm.
      assert (Hr' : mounts_repr a (p_opt w') st es)
        by (apply (mounts_repr_ext a (p_opt w)); assumption).
      apply (IH w' w1 st es H2 Hr').
      unfold mounts_part in Hm. injection Hm as _ _ _ _ ->. exact Hbound.
Qed.

(** getopt only moves the elements of the vector around. *)
Lemma getopt_scan_length (posix : bool) (n : nat) :
  forall l, (length l <= n)%nat ->
    (length (sr_consumed (getopt_scan posix l))
     + length (sr_operands (getopt_scan posix l)) = length l)%nat.
Proof.
  induction n as [|n IH]; intros l Hl.
  - destruct l; [reflexivity|cbn in Hl; lia].
  - destruct l as [|x l']; [reflexivity|].
    cbn [length] in Hl.
    assert (IH1 := IH l' ltac:(lia)).
    cbn [getopt_scan].
    destruct (String.eqb x "--"); [cbn; lia|].
    assert (Hoperand :
      (length (sr_consumed
                 (if posix
                  then {| sr_tokens := []; sr_consumed := []; sr_operands := x :: l' |}
                  else {| sr_tokens := sr_tokens (getopt_scan posix l');
                          sr_consumed := sr_consumed (getopt_scan posix l');
                          sr_operands := x :: sr_operands (getopt_scan posix l') |}))
       + length (sr_operands
                   (if posix
                    then {| sr_tokens := []; sr_consumed := []; sr_operands := x :: l' |}
                    else {| sr_tokens := sr_tokens (getopt_scan posix l');
                            sr_consumed := sr_consumed (getopt_scan posix l');
                            sr_operands := x :: sr_operands (getopt_scan posix l') |}))
       = length (x :: l'))%nat).
    { destruct posix; cbn [sr_consumed sr_operands length]; lia. }
    destruct x as [|c0 x0]; [exact Hoperand|].
    destruct (Ascii.eqb_spec c0 "-"%char) as [->|Hc0].
    2:{ destruct c0 as [[] [] [] [] [] [] [] []]; try exact Hoperand.
        contradiction Hc0. reflexivity. }
    destruct x0 as [|c cl]; [exact Hoperand|].
    destruct (scan_cluster (String c cl) (head l')) as [ts used].
    destruct used.
    + destruct l' as [|b l''].
      * unfold scan_add. cbn. lia.
      * cbn [length] in Hl. pose proof (IH l'' ltac:(lia)) as IH2.
        unfold scan_add. cbn [sr_consumed sr_operands length app]. lia.
    + unfold scan_add. cbn [sr_consumed sr_operands length app]. lia.
Qed.

Lemma declared_size_cons (r : list mount_flag) (runs : list (list mount_flag)) :
  declared_size (r :: runs) = (length r + 1 + declared_size runs)%nat.
Proof. unfold declared_size. cbn. rewrite length_app. lia. Qed.

Lemma declared_size_app (r1 r2 : list (list mount_flag)) :
  declared_size (r1 ++ r2) = (declared_size r1 + declared_size r2)%nat.
Proof. unfold declared_size. rewrite concat_app, !length_app. lia. Qed.

Lemma sm_parses_length (runs : list (list mount_flag)) :
  forall st out,
    sm_parses st runs = Some out -> (length out <= declared_size runs)%nat.
Proof.
  induction runs as [|r runs IH]; intros st out H.
  - injection H as <-. cbn. lia.
  - cbn in H. destruct (sm_steps st r) as [[st' o1]|] eqn:E1; [|discriminate].
    destruct (sm_parses Empty runs) as [l|] eqn:E2; [|discriminate].
    injection H as <-. apply sm_steps_length in E1. apply IH in E2.
    pose proof (sm_end_length st'). rewrite declared_size_cons, !length_app. lia.
Qed.

Lemma sm_parses_app (r1 : list (list mount_flag)) :
  forall st r2 o1 o2,
    (r1 = [] -> st = Empty) ->
    sm_parses st r1 = Some o1 ->
    sm_parses Empty r2 = Some o2 ->
    sm_parses st (r1 ++ r2) = Some (o1 ++ o2).
Proof.
  induction r1 as [|r r1 IH]; intros st r2 o1 o2 Hst H1 H2.
  - rewrite (Hst eq_refl). injection H1 as <-. exact H2.
  - cbn in H1 |- *. destruct (sm_steps st r) as [[st' out]|]; [|discriminate].
    destruct (sm_parses Empty r1) as [l|] eqn:E; [|discriminate].
    injection H1 as <-.
    rewrite (IH Empty r2 l o2 (fun _ => eq_refl) E H2).
    rewrite <- !app_assoc. reflexivity.
Qed.

Lemma ParseOptionsFile_with_file (parse : list string -> prog pworld unit)
    (filename : string) (w w' : pworld) :
  ParseOptionsFile_with parse filename w = Returns tt w' ->
  exists sub_argv,
    file_argv (p_argfiles w) filename = Some sub_argv
    /\ parse sub_argv w = Returns tt w'.
Proof.
  unfold ParseOptionsFile_with, file_argv. intros H.
  destruct (p_argfiles w !! filename) as [file|]; [|discriminate].
  destruct (read_arguments _ file _ _) as [[msg|sub_argv]|]; try discriminate.
  destruct (af_close_error file); [discriminate|]. eauto.
Qed.

Lemma declared_flags_S (fuel : nat) (files : gmap string argfile) (posix : bool)
    (optind : Z) (argv : list string) :
  declared_flags (S fuel) files posix optind argv
  = flags_of (sr_tokens (getopt_scan posix (drop (getopt_start optind) argv)))
    :: files_declared fuel files posix
         (sr_operands (getopt_scan posix (drop (getopt_start optind) argv))).
Proof. reflexivity. Qed.

Section Follow.

Variable a : Z.
Variable fuel : nat.
Hypothesis IHfuel : follows a fuel.

Lemma at_file_loop_follow (argv : list string) :
  forall (n : nat) (w w' : pworld) (es : list mount_entry),
    at_file_loop (ParseOptionsFile_with (ParseCommandLine fuel)) n argv w
    = Returns tt w' ->
    mounts_repr a (p_opt w) Empty es ->
    0 <= p_optind w ->
    (length argv <= Z.to_nat (p_optind w) + n)%nat ->
    let runs := files_declared fuel (p_argfiles w) (p_posixly_correct w)
                  (drop (Z.to_nat (p_optind w)) argv) in
    a + 2 * (num_mounts (p_opt w) + Z.of_nat (declared_size runs)) + 4 < size_t_max ->
    exists out,
      sm_parses Empty runs = Some out
      /\ mounts_repr a (p_opt w') Empty (es ++ out)
      /\ surroundings w' = surroundings w.
Proof.
  induction n as [|n IH]; intros w w' es H Hr Hind Hn runs Hbound.
  - injection H as <-. subst runs. rewrite drop_ge by lia.
    exists []. rewrite app_nil_r. split; [reflexivity|]. split; [exact Hr|reflexivity].
  - cbn [at_file_loop] in H.
    destruct (Z.ltb_spec (p_optind w) (Z.of_nat (length argv))) as [Hlt|Hge].
    2:{ injection H as <-. subst runs. rewrite drop_ge by lia.
        exists []. rewrite app_nil_r. split; [reflexivity|]. split; [exact Hr|reflexivity]. }
    rewrite array_get_nat in H by lia.
    destruct (argv !! Z.to_nat (p_optind w)) as [x|] eqn:Hx.
    2:{ apply lookup_ge_None in Hx. lia. }
    assert (Hdrop : drop (Z.to_nat (p_optind w)) argv
                    = x :: drop (S (Z.to_nat (p_optind w))) argv)
      by (apply drop_S; exact Hx).
    subst runs. rewrite Hdrop in Hbound |- *.
    assert (Hother : forall y,
               leading_argfiles (y :: drop (S (Z.to_nat (p_optind w))) argv) = [] ->
               Returns tt w = Returns tt w' ->
               exists out,
                 sm_parses Empty
                   (files_declared fuel (p_argfiles w) (p_posixly_correct w)
                      (y :: drop (S (Z.to_nat (p_optind w))) argv)) = Some out
                 /\ mounts_repr a (p_opt w') Empty (es ++ out)
                 /\ surroundings w' = surroundings w).
    { intros y Hy E. injection E as <-. unfold files_declared. rewrite Hy.
      exists []. rewrite app_nil_r. split; [reflexivity|]. split; [exact Hr|reflexivity]. }
    destruct x as [|c filename]; [apply (Hother ""); [reflexivity|exact H]|].
    destruct (Ascii.eqb_spec c "@"%char) as [->|Hc].
    2:{ destruct c as [[] [] [] [] [] [] [] []];
          try (apply (Hother (String _ filename)); [reflexivity|exact H]).
        contradiction Hc. reflexivity. }
    clear Hother.
    apply bind_returns in H. destruct H as ([] & w1 & H1 & H).
    apply bind_returns in H. destruct H as ([] & w2 & H2 & H).
    apply bind_returns in H. destruct H as ([] & w3 & H3 & H).
    injection H1 as <-. injection H3 as <-.
    apply ParseOptionsFile_with_file in H2. destruct H2 as (sub_argv & Hfile & H2).
    cbn [p_argfiles set_optind] in Hfile.
    unfold files_declared in Hbound |- *. cbn [leading_argfiles flat_map] in Hbound |- *.
    rewrite Hfile in Hbound |- *.
    fold (files_declared fuel (p_argfiles w) (p_posixly_correct w)
            (drop (S (Z.to_nat (p_optind w))) argv)) in Hbound |- *.
    rewrite declared_size_app in Hbound.
    destruct (IHfuel sub_argv (set_optind 0 w) w2 Empty es H2 Hr) as (o1 & Hs1 & Hr1 & Hsur1).
    { cbn [p_opt p_argfiles p_posixly_correct p_optind set_optind]. lia. }
    cbn [p_argfiles p_posixly_correct p_optind set_optind] in Hs1.
    assert (Hsur2 : surroundings w2 = surroundings w) by exact Hsur1.
    pose proof (sm_parses_length _ _ _ Hs1) as Hlen1.
    pose proof (mounts_repr_length _ _ _ _ Hr) as Hnum.
    pose proof (mounts_repr_length _ _ _ _ Hr1) as Hnum1.
    rewrite length_app in Hnum1.
    unfold surroundings in Hsur2. injection Hsur2 as Sf _ _ Sp _.
    destruct (IH (set_optind (p_optind w + 1) w2) w' (es ++ o1) H Hr1) as (o2 & Hs2 & Hr2 & Hsur3).
    { cbn. lia. }
    { cbn [p_optind set_optind]. lia. }
    { cbn [p_opt p_argfiles p_posixly_correct p_optind set_optind].
      rewrite Sf, Sp. replace (Z.to_nat (p_optind w + 1)) with (S (Z.to_nat (p_optind w))) by lia.
      lia. }
    cbn [p_opt p_argfiles p_posixly_correct p_optind set_optind] in Hs2.
    rewrite Sf, Sp in Hs2.
    replace (Z.to_nat (p_optind w + 1)) with (S (Z.to_nat (p_optind w))) in Hs2 by lia.
    exists (o1 ++ o2). split; [|split].
    + apply sm_parses_app; [intros _; reflexivity|exact Hs1|exact Hs2].
    + rewrite app_assoc. exact Hr2.
    + rewrite Hsur3. exact Hsur1.
Qed.

End Follow.

Lemma take_command_mounts (argv : list string) (w w' : pworld) :
  take_command argv w = Returns tt w' ->
  mounts_part (p_opt w') = mounts_part (p_opt w)
  /\ surroundings w' = surroundings w.
Proof.
  unfold take_command. intros H.
  destruct (Z.of_nat (length argv) >? p_optind w).
  - destruct (args (p_opt w)); [discriminate|]. injection H as <-. split; reflexivity.
  - injection H as <-. split; reflexivity.
Qed.

(** Where the operands start in the vector as getopt leaves it. *)
Lemma operands_at_optind (posix : bool) (start : nat) (argv : list string) :
  let sr := getopt_scan posix (drop start argv) in
  drop (start + length (sr_consumed sr))
    (take start argv ++ sr_consumed sr ++ sr_operands sr)
  = sr_operands sr.
Proof.
  intros sr.
  destruct (Nat.lt_ge_cases start (length argv)) as [H|H].
  - rewrite drop_app_ge by (rewrite length_take; lia).
    rewrite length_take. replace (start `min` length argv)%nat with start by lia.
    rewrite drop_app_ge by lia.
    replace (start + length (sr_consumed sr) - start - length (sr_consumed sr))%nat
      with 0%nat by lia.
    reflexivity.
  - subst sr. rewrite (drop_ge argv start) by exact H. cbn.
    rewrite app_nil_r. apply drop_ge. rewrite length_take. lia.
Qed.

Lemma ParseCommandLine_follows (a : Z) (fuel : nat) : follows a fuel.
Proof.
  induction fuel as [|fuel IH]; intros argv w w' st es H Hr Hbound; [discriminate|].
  rewrite declared_flags_S in Hbound |- *.
  rewrite ParseCommandLine_S in H. cbv zeta in H.
  set (start := getopt_start (p_optind w)) in *.
  set (sr := getopt_scan (p_posixly_correct w) (drop start argv)) in *.
  set (argv' := take start argv ++ sr_consumed sr ++ sr_operands sr) in *.
  rewrite declared_size_cons in Hbound.
  apply bind_returns in H. destruct H as ([] & w1 & H1 & H).
  apply bind_returns in H. destruct H as ([] & w2 & H2 & H).
  apply bind_returns in H. destruct H as ([] & w3 & H3 & H).
  apply bind_returns in H. destruct H as ([] & w4 & H4 & H).
  destruct (handle_options_follow a _ _ _ st es H1 Hr ltac:(lia))
    as (st' & out & Hsteps & Hr1).
  apply handle_options_returns in H1. destruct H1 as (Hsur1 & _).
  injection H2 as <-.
  destruct (AddMountSource_NULL_repr a (set_optind (Z.of_nat (start + length (sr_consumed sr))) w1)
              st' (es ++ out) Hr1) as (o3 & Hadd & Hr3).
  rewrite H3 in Hadd. injection Hadd as ->.
  pose proof (sm_steps_length _ _ _ _ Hsteps) as Hlen.
  pose proof (sm_end_length st') as Hend.
  pose proof (mounts_repr_length _ _ _ _ Hr) as Hnum.
  pose proof (mounts_repr_length _ _ _ _ Hr3) as Hnum3.
  rewrite !length_app in Hnum3.
  unfold surroundings in Hsur1. injection Hsur1 as Sf Su Sg Sp Sc.
  pose proof (getopt_scan_length (p_posixly_correct w) _ (drop start argv) (le_n _))
    as Hscan. fold sr in Hscan. rewrite length_drop in Hscan.
  destruct (at_file_loop_follow a fuel IH argv' (length argv) _ w4 _ H4 Hr3)
    as (o4 & Hs4 & Hr4 & Hsur4).
  { cbn. lia. }
  { cbn [p_optind set_opt set_optind]. rewrite Nat2Z.id. subst argv'.
    rewrite !length_app, length_take. lia. }
  { cbn [p_opt p_optind p_argfiles p_posixly_correct set_opt set_optind].
    rewrite Nat2Z.id. unfold argv', sr. rewrite operands_at_optind. fold sr.
    rewrite Sf, Sp. lia. }
  cbn [p_opt p_optind p_argfiles p_posixly_correct set_opt set_optind] in Hs4.
  rewrite Nat2Z.id in Hs4. unfold argv', sr in Hs4. rewrite operands_at_optind in Hs4.
  fold sr in Hs4. rewrite Sf, Sp in Hs4.
  apply take_command_mounts in H. destruct H as (Hm & Hsur5).
  exists (out ++ sm_end st' ++ o4). split; [|split].
  - cbn [sm_parses]. rewrite Hsteps, Hs4. reflexivity.
  - apply (mounts_repr_ext a (p_opt w4)); [exact Hm|].
    rewrite !app_assoc. rewrite <- (app_assoc es). rewrite <- !app_assoc in Hr4.
    rewrite <- !app_assoc. exact Hr4.
  - rewrite Hsur5, Hsur4. unfold surroundings. cbn. congruence.
Qed.

(** C3: mount-entry assembly in ParseCommandLine realizes the two-state
    machine of the specification, from any state the mount arrays hold
    (Empty with no entries when main calls it; Empty with the entries so
    far when an argument file is parsed).

    Whenever the call returns, argument files included, the entries are
    those present before followed by what the machine emits for the flags
    in declaration order: -M s in Empty makes s pending, -M s' with s
    pending emits {s, s, ro} and makes s' pending, -m t and -w t emit
    {s, t, ro} and {s, t, rw} and leave nothing pending, and the end of
    every parse (the vector itself, then each argument file in turn) emits
    {s, s, ro} for a pending s; nothing is left pending.

    And the call does return that way: when the arguments of the mount
    flags are absolute paths, the other options of the vector are accepted
    as they stand, no argument file follows and no command was set before,
    the call returns with these entries and prints nothing if the machine
    has a transition for every flag, and otherwise, at the first -m or -w
    met in Empty, it is the usage error "The -m (or -w) option must be
    preceded by an -M option." with exit status EXIT_FAILURE. *)
Theorem mount_entries_follow_state_machine (fuel : nat) (argv : list string)
    (w : pworld) (a : Z) (st : sm_state) (entries : list mount_entry) :
  let sr := getopt_scan (p_posixly_correct w) (drop (getopt_start (p_optind w)) argv) in
  let flags := flags_of (sr_tokens sr) in
  let declared := declared_flags (S fuel) (p_argfiles w) (p_posixly_correct w)
                    (p_optind w) argv in
  mounts_repr a (p_opt w) st entries ->
  a + 2 * (num_mounts (p_opt w) + Z.of_nat (declared_size declared)) + 4 < size_t_max ->
  (forall w',
     ParseCommandLine (S fuel) argv w = Returns tt w' ->
     exists out,
       sm_parses st declared = Some out
       /\ mounts_of (p_opt w') = Some (entries ++ out)
       /\ mounts_repr a (p_opt w') Empty (entries ++ out))
  /\ (forall wo,
        Forall absolute_flag flags ->
        handle_options (other_tokens (sr_tokens sr)) w = Returns tt wo ->
        (forall x, head (sr_operands sr) = Some x -> is_argfile x = false) ->
        (sr_operands sr <> [] -> args (p_opt w) = None) ->
        match sm_steps st flags with
        | Some (st', out) =>
            exists w',
              ParseCommandLine (S fuel) argv w = Returns tt w'
              /\ mounts_of (p_opt w') = Some (entries ++ out ++ sm_end st')
              /\ p_stderr w' = p_stderr w
        | None =>
            exists w' flag,
              ParseCommandLine (S fuel) argv w = Exits EXIT_FAILURE w'
              /\ (flag = "m" \/ flag = "w")
              /\ p_stderr w'
                 = p_stderr w
                   ++ ["The -" +:+ flag +:+ " option must be preceded by an -M option."]
        end).
Proof.
  intros sr flags declared Hr Hbound. split.
  - intros w' H.
    destruct (ParseCommandLine_follows a (S fuel) argv w w' st entries H Hr Hbound)
      as (out & Hs & Hr' & _).
    exists out. split; [exact Hs|]. split; [apply Hr'|exact Hr'].
  - intros wo Habs Hothers Hfile Hargs.
    assert (Hlevel : a + 2 * (num_mounts (p_opt w) + Z.of_nat (length flags)) + 4
                     < size_t_max).
    { subst declared. rewrite declared_flags_S, declared_size_cons in Hbound.
      fold sr in Hbound. fold flags in Hbound. lia. }
    pose proof (handle_options_machine a (sr_tokens sr) w wo (p_opt w) st entries
                  Hr Hlevel Habs Hothers) as Hloop.
    rewrite with_mounts_of_self in Hloop.
    apply handle_options_returns in Hothers.
    destruct Hothers as (Hsur & Hoind & Herr & Hoargs & _).
    rewrite ParseCommandLine_S. cbv zeta. fold sr. fold flags in Hloop |- *.
    destruct (sm_steps st flags) as [[st' out]|].
    + destruct Hloop as (om' & Hrun & Hr').
      rewrite (bind_Returns _ _ _ _ _ Hrun).
      rewrite (bind_Returns _ _ (with_mounts_of om' wo) _ tt) by reflexivity.
      set (w2 := set_optind _ (with_mounts_of om' wo)).
      assert (Hr2 : mounts_repr a (p_opt w2) st' (entries ++ out))
        by (apply (mounts_repr_ext a om'); [reflexivity|exact Hr']).
      destruct (AddMountSource_NULL_repr a w2 st' (entries ++ out) Hr2)
        as (o3 & Hadd & Hr3).
      rewrite (bind_Returns _ _ _ _ _ Hadd).
      pose proof (AddMountSource_rest None w2 _ Hadd) as (o3' & Ho3 & Hrest).
      assert (o3' = o3) by (apply (f_equal p_opt) in Ho3; cbn in Ho3; congruence).
      subst o3'. clear Ho3.
      rewrite (parse_tail _ (length argv) (getopt_start (p_optind w))
                 (take (getopt_start (p_optind w)) argv) (sr_consumed sr)
                 (sr_operands sr) (set_opt o3 w2)).
      * rewrite <- app_assoc in Hr3.
        destruct (sr_operands sr) as [|x ops].
        -- exists (set_opt o3 w2). split; [reflexivity|].
           split; [apply Hr3|exact Herr].
        -- eexists. split; [reflexivity|].
           assert (Hr4 : mounts_repr a
                           (set_args (Some (x :: ops)) (p_opt (set_opt o3 w2))) Empty
                           (entries ++ out ++ sm_end st'))
             by (apply (mounts_repr_ext a o3); [reflexivity|exact Hr3]).
           split; [apply Hr4|exact Herr].
      * rewrite length_take. lia.
      * intros Hne. rewrite length_take.
        destruct (Nat.lt_ge_cases (getopt_start (p_optind w)) (length argv)) as [H|H];
          [lia|].
        exfalso. apply Hne. subst sr. rewrite drop_ge by exact H. reflexivity.
      * reflexivity.
      * exact Hfile.
      * intros Hne. specialize (Hargs Hne).
        unfold rest_of in Hrest. injection Hrest as _ _ Ha _ _ _ _ _ _ _ _.
        cbn [p_opt set_opt]. rewrite Ha. cbn. rewrite Hoargs. exact Hargs.
    + destruct Hloop as (w' & flag & Hrun & Hflag & Herr').
      rewrite (bind_Exits _ _ _ _ _ Hrun).
      exists w', flag. split; [reflexivity|]. split; assumption.
Qed.

Lemma mount_entries_follow_state_machine_witness :
  (exists w',
     ParseCommandLine 1 mounts_command_line mounts_pworld = Returns tt w'
     /\ mounts_of (p_opt w')
        = Some [emit "/usr" "/usr" false; emit "/lib" "/opt/lib" true;
                emit "/etc" "/etc" false]
     /\ p_stderr w' = [])
  /\ (exists w',
        ParseCommandLine 2 mounts_file_line mounts_file_pworld = Returns tt w'
        /\ mounts_of (p_opt w')
           = Some [emit "/usr" "/usr" false; emit "/a" "/a" false;
                   emit "/b" "/c" true; emit "/d" "/d" false]).
Proof.
  split.
  - assert (E : exists wo,
               handle_options [GOpt "S" (Some "/sbx"); GOpt "H" (Some "box")]
                 mounts_pworld = Returns tt wo)
      by (eexists; vm_compute; reflexivity).
    destruct E as [wo E].
    apply (proj2 (mount_entries_follow_state_machine 0 mounts_command_line
                    mounts_pworld 14 Empty []
                    (init_options_repr 14 ltac:(lia))
                    ltac:(vm_compute; reflexivity)) wo).
    + repeat constructor.
    + exact E.
    + intros x Hx. vm_compute in Hx. injection Hx as <-. reflexivity.
    + intros _. reflexivity.
  - assert (E : exists w',
               ParseCommandLine 2 mounts_file_line mounts_file_pworld = Returns tt w')
      by (eexists; vm_compute; reflexivity).
    destruct E as [w' E]. exists w'. split; [exact E|].
    destruct (proj1 (mount_entries_follow_state_machine 1 mounts_file_line
                       mounts_file_pworld 3 Empty []
                       (init_options_repr 3 ltac:(lia))
                       ltac:(vm_compute; reflexivity)) w' E)
      as (out & Hs & Hm & _).
    vm_compute in Hs. injection Hs as <-. exact Hm.
Defined.

(** The same through main: the command line names one argument file, whose
    mounts outgrow the two elements main allocated. *)
Example mounts_from_argument_file :
  exists w',
    main_parse 2 ["sandbox"; "@mounts"]
      (start_pworld (<["mounts" := mounts_file]> ∅)) = Returns tt w'
    /\ mounts_of (p_opt w')
       = Some [emit "/a" "/a" false; emit "/b" "/c" true; emit "/d" "/d" false]
    /\ args (p_opt w') = Some ["/bin/true"]
    /\ mount_map_sizes (p_opt w') = 4.
Proof. eexists. split; [vm_compute; reflexivity|]. repeat split; reflexivity. Qed.
